(** * Reconciliation engine of the air-customer job system

    A shallow embedding of the calendar synchronisation code
    ([api/services/googleCalendar.js]), the job store adapter
    ([api/services/googleSheets.js]), the drift detector
    ([api/services/autoDetection.js]) and the scheduler
    ([api/services/scheduler.js]), together with the properties the
    specification states about them.

    Conventions of the embedding:
    - a JavaScript string is a [string] of bytes (UTF-8); the tests the code
      performs on strings ([includes], [startsWith], [===]) agree on bytes and
      on UTF-16 code units for well-formed text;
    - a job is the object the code passes around: a finite map from field
      names to strings, an absent key being [undefined];
    - every call of an external service threads an explicit [World] and
      either returns a value or throws, as the [async] code does. *)

From stdpp Require Import gmap strings list fin_maps pretty sorting.
From Stdlib Require Import ZArith Lia Ascii Bool.
From Equations Require Import Equations.

Local Open Scope string_scope.
Local Open Scope list_scope.

(** ** JavaScript string primitives *)

Module Js.

(** [hay.includes(needle)] *)
Fixpoint includes (needle hay : string) : bool :=
  String.prefix needle hay ||
  match hay with
  | EmptyString => false
  | String _ hay' => includes needle hay'
  end.

(** [s.startsWith(p)] *)
Definition startsWith (s p : string) : bool := String.prefix p s.

Fixpoint repeat_char (c : ascii) (n : nat) : string :=
  match n with
  | O => EmptyString
  | S n' => String c (repeat_char c n')
  end.

(** [s.padStart(n, c)] for a one-character filler *)
Definition padStart (n : nat) (c : ascii) (s : string) : string :=
  repeat_char c (n - String.length s) +:+ s.

(** [s.slice(i)] and [s.slice(0, i)] for non-negative [i] *)
Fixpoint slice_from (i : nat) (s : string) : string :=
  match i, s with
  | O, _ => s
  | S i', String _ s' => slice_from i' s'
  | S _, EmptyString => EmptyString
  end.

Fixpoint slice_to (i : nat) (s : string) : string :=
  match i, s with
  | O, _ => EmptyString
  | S i', String c s' => String c (slice_to i' s')
  | S _, EmptyString => EmptyString
  end.

(** [s.split(sep)] for a one-character separator *)
Fixpoint split (sep : ascii) (s : string) : list string :=
  match s with
  | EmptyString => [EmptyString]
  | String c s' =>
      if Ascii.eqb c sep then EmptyString :: split sep s'
      else match split sep s' with
           | [] => [String c EmptyString]
           | p :: ps => String c p :: ps
           end
  end.

(** [s.replace(pat, rep)] for a string pattern: the first occurrence only *)
Fixpoint replace_first (pat rep s : string) : string :=
  if String.prefix pat s then rep +:+ slice_from (String.length pat) s
  else match s with
       | EmptyString => EmptyString
       | String c s' => String c (replace_first pat rep s')
       end.

(** [s.toLowerCase()] on the letters A-Z; the patterns it is used with hold no
    other cased letter. *)
Definition lower_char (c : ascii) : ascii :=
  let n := nat_of_ascii c in
  if (65 <=? n)%nat && (n <=? 90)%nat then ascii_of_nat (n + 32) else c.

Fixpoint toLowerCase (s : string) : string :=
  match s with
  | EmptyString => EmptyString
  | String c s' => String (lower_char c) (toLowerCase s')
  end.

(** [a >= b] on strings: lexicographic on code units *)
Definition str_ge (a b : string) : bool := negb (String.ltb a b).

(** The white space and line terminators [trim] removes, as UTF-8 byte
    sequences: TAB LF VT FF CR SP, U+00A0, U+1680, U+2000..U+200A, U+2028,
    U+2029, U+202F, U+205F, U+3000, U+FEFF. *)
Definition bytes (l : list nat) : list ascii := map ascii_of_nat l.

Definition white_space : list (list ascii) :=
  map bytes
    [ [9]; [10]; [11]; [12]; [13]; [32]; [194; 160]; [225; 154; 128];
      [226; 128; 128]; [226; 128; 129]; [226; 128; 130]; [226; 128; 131];
      [226; 128; 132]; [226; 128; 133]; [226; 128; 134]; [226; 128; 135];
      [226; 128; 136]; [226; 128; 137]; [226; 128; 138]; [226; 128; 168];
      [226; 128; 169]; [226; 128; 175]; [226; 129; 159]; [227; 128; 128];
      [239; 187; 191] ].

Fixpoint strip_prefix (p s : list ascii) : option (list ascii) :=
  match p, s with
  | [], _ => Some s
  | a :: p', b :: s' => if Ascii.eqb a b then strip_prefix p' s' else None
  | _ :: _, [] => None
  end.

Fixpoint strip_any (ps : list (list ascii)) (s : list ascii) : option (list ascii) :=
  match ps with
  | [] => None
  | p :: ps' =>
      match strip_prefix p s with
      | Some r => Some r
      | None => strip_any ps' s
      end
  end.

Fixpoint drop_leading (fuel : nat) (ws : list (list ascii)) (s : list ascii) : list ascii :=
  match fuel with
  | O => s
  | S fuel' =>
      match strip_any ws s with
      | Some r => drop_leading fuel' ws r
      | None => s
      end
  end.

Definition trimStart_bytes (s : list ascii) : list ascii :=
  drop_leading (length s) white_space s.

Definition trimEnd_bytes (s : list ascii) : list ascii :=
  rev (drop_leading (length s) (map (@rev ascii) white_space) (rev s)).

(** [s.trim()] *)
Definition trim (s : string) : string :=
  String.string_of_list_ascii (trimEnd_bytes (trimStart_bytes (String.list_ascii_of_string s))).

Definition is_digit (c : ascii) : bool :=
  let n := nat_of_ascii c in (48 <=? n)%nat && (n <=? 57)%nat.

(** A [`${x}`] template hole filled from a possibly absent property *)
Definition template (o : option string) : string := default "undefined" o.

(** Truthiness of a property that holds a string when present *)
Definition truthy (o : option string) : bool :=
  match o with
  | Some s => negb (String.eqb s "")
  | None => false
  end.

(** [o || d] *)
Definition or_else (o : option string) (d : string) : string :=
  match o with
  | Some s => if String.eqb s "" then d else s
  | None => d
  end.

(** [a || b] where both sides are properties *)
Definition or_prop (a b : option string) : option string :=
  if truthy a then a else b.

(** *** Numbers

    A Number is a double. The numbers this code computes with are integers
    and the infinities: [Int z] is the double whose value is the integer [z].
    [NaN] is [None] where it can occur. *)
Inductive Number :=
| Int (z : Z)
| Infinity
| NegInfinity.

(** The double nearest to an integer [z >= 0]: [z] itself below 2^53, then
    [z] rounded to 53 significant bits, a tie going to the even significand;
    [None] when the result is no finite double. *)
Definition round_double (z : Z) : option Z :=
  (if z <? 2 ^ 53 then Some z
   else
     let e := Z.log2 z - 52 in
     let q := z / 2 ^ e in
     let r := z mod 2 ^ e in
     let half := 2 ^ (e - 1) in
     let q' := if r <? half then q
               else if half <? r then q + 1
               else if Z.even q then q else q + 1 in
     if q' * 2 ^ e <? 2 ^ 1024 then Some (q' * 2 ^ e) else None)%Z.

(** The Number value of a mathematical integer. *)
Definition Number_of_Z (z : Z) : Number :=
  if (0 <=? z)%Z then
    match round_double z with Some v => Int v | None => Infinity end
  else
    match round_double (- z) with Some v => Int (- v)%Z | None => NegInfinity end.

(** [a > b] *)
Definition gt (a b : Number) : bool :=
  match a, b with
  | Int x, Int y => (y <? x)%Z
  | Int _, Infinity => false
  | Int _, NegInfinity => true
  | Infinity, Infinity => false
  | Infinity, _ => true
  | NegInfinity, _ => false
  end.

(** [a + 1] *)
Definition add1 (a : Number) : Number :=
  match a with
  | Int z => Number_of_Z (z + 1)
  | _ => a
  end.

(** [String(a)]: the digits are those of the shortest decimal that reads back
    as the double, the nearest to it among these; a value of 10^21 or more is
    written with an exponent. Up to 2^53 an integer is its own shortest
    decimal. *)
Definition reads_back (x v : Z) : bool :=
  match round_double v with
  | Some y => (y =? x)%Z
  | None => false
  end.

Definition pick (x p : Z) : option Z :=
  (let lo := x / p * p in
   let hi := lo + p in
   match reads_back x lo, reads_back x hi with
   | true, true =>
       Some (if x - lo <? hi - x then lo
             else if hi - x <? x - lo then hi
             else if Z.even (lo / p) then lo else hi)
   | true, false => Some lo
   | false, true => Some hi
   | false, false => None
   end)%Z.

Fixpoint shortest_from (x : Z) (ps : list Z) : Z :=
  match ps with
  | [] => x
  | p :: ps' =>
      match pick x p with
      | Some v => v
      | None => shortest_from x ps'
      end
  end.

Definition shortest (x : Z) : Z :=
  let n := Z.of_nat (String.length (pretty x)) in
  shortest_from x (map (fun k => 10 ^ (n - Z.of_nat k))%Z (seq 1 17)).

Fixpoint strip_zeros (s : list ascii) : list ascii :=
  match s with
  | c :: s' => if Ascii.eqb c "0" then strip_zeros s' else s
  | [] => []
  end.

Definition significand (digits : string) : string :=
  String.string_of_list_ascii (rev (strip_zeros (rev (String.list_ascii_of_string digits)))).

Definition render (z : Z) : string :=
  let v := if (z <=? 2 ^ 53)%Z then z else shortest z in
  if (v <? 10 ^ 21)%Z then pretty v
  else
    let digits := pretty v in
    let exponent := pretty (Z.of_nat (String.length digits) - 1)%Z in
    match significand digits with
    | String d EmptyString => String d ("e+" +:+ exponent)
    | String d rest => String d ("." +:+ rest +:+ "e+" +:+ exponent)
    | EmptyString => digits
    end.

Definition Number_toString (a : Number) : string :=
  match a with
  | Int z => if (z <? 0)%Z then "-" +:+ render (- z) else render z
  | Infinity => "Infinity"
  | NegInfinity => "-Infinity"
  end.

(** [parseInt(s)]: leading white space is skipped, then an optional sign, an
    optional [0x] prefix, and the longest run of digits of the radix is read.
    [read_int] is the integer the digits write, [None] when there is no
    digit; [parseInt] is its Number value, [None] standing for [NaN]. *)
Definition digit_value (c : ascii) : option Z :=
  let n := nat_of_ascii c in
  if (48 <=? n)%nat && (n <=? 57)%nat then Some (Z.of_nat n - 48)%Z
  else if (97 <=? n)%nat && (n <=? 102)%nat then Some (Z.of_nat n - 87)%Z
  else if (65 <=? n)%nat && (n <=? 70)%nat then Some (Z.of_nat n - 55)%Z
  else None.

Fixpoint read_digits (radix : Z) (acc : option Z) (s : list ascii) : option Z :=
  match s with
  | [] => acc
  | c :: s' =>
      match digit_value c with
      | Some d =>
          if (d <? radix)%Z then read_digits radix (Some (radix * default 0 acc + d)%Z) s'
          else acc
      | None => acc
      end
  end.

Definition read_int (str : string) : option Z :=
  let s := trimStart_bytes (String.list_ascii_of_string str) in
  let '(negative, s) :=
    match s with
    | c :: s' =>
        if Ascii.eqb c "-" then (true, s')
        else if Ascii.eqb c "+" then (false, s') else (false, s)
    | [] => (false, s)
    end in
  let '(radix, s) :=
    match s with
    | z :: x :: s' =>
        if Ascii.eqb z "0" && (Ascii.eqb x "x" || Ascii.eqb x "X") then (16, s')
        else (10, s)
    | _ => (10, s)
    end%Z in
  (fun n => if negative then (- n)%Z else n) <$> read_digits radix None s.

Definition parseInt (str : string) : option Number := Number_of_Z <$> read_int str.

End Js.

(** ** The anchored digit patterns of the time normaliser

    The regular expressions of [normalizeTime] are all of the form
    [^ item ... item $] where an item is [\d{lo,hi}] or a literal
    character. *)

Inductive ReItem :=
| Digits (lo hi : nat)
| Lit (c : ascii).

Fixpoint all_digits (s : list ascii) : bool :=
  match s with
  | [] => true
  | c :: s' => Js.is_digit c && all_digits s'
  end.

Fixpoint re_match (p : list ReItem) (s : list ascii) : bool :=
  match p with
  | [] => match s with [] => true | _ => false end
  | Lit c :: p' =>
      match s with
      | c' :: s' => Ascii.eqb c c' && re_match p' s'
      | [] => false
      end
  | Digits lo hi :: p' =>
      existsb
        (fun k => (k <=? length s)%nat && all_digits (take k s) && re_match p' (drop k s))
        (seq lo (S hi - lo))
  end.

(** [/^...$/.test(s)] *)
Definition re_test (p : list ReItem) (s : string) : bool :=
  re_match p (String.list_ascii_of_string s).

(** ** TimeNormalizer: [normalizeTime] of [createSingleDateEvent] *)

Definition re_HH_MM : list ReItem := [Digits 1 2; Lit ":"; Digits 2 2].
Definition re_H_MM : list ReItem := [Digits 1 1; Lit ":"; Digits 2 2].
Definition re_hours : list ReItem := [Digits 1 2].
Definition re_H_M : list ReItem := [Digits 1 2; Lit ":"; Digits 1 1].
Definition re_compact : list ReItem := [Digits 3 4].

Definition pad2 (s : string) : string := Js.padStart 2 "0" s.

Definition normalizeTime (time : option string) : option string :=
  if negb (Js.truthy time) then None
  else
    let timeStr := Js.trim (default "" time) in
    if re_test re_HH_MM timeStr then
      match Js.split ":" timeStr with
      | hours :: minutes :: _ => Some (pad2 hours +:+ ":" +:+ minutes)
      | _ => None
      end
    else if re_test re_H_MM timeStr then
      match Js.split ":" timeStr with
      | hours :: minutes :: _ => Some (pad2 hours +:+ ":" +:+ minutes)
      | _ => None
      end
    else if re_test re_hours timeStr then
      Some (pad2 timeStr +:+ ":00")
    else if re_test re_H_M timeStr then
      match Js.split ":" timeStr with
      | hours :: minutes :: _ => Some (pad2 hours +:+ ":" +:+ pad2 minutes)
      | _ => None
      end
    else if re_test re_compact timeStr then
      if (String.length timeStr =? 3)%nat then
        Some ("0" +:+ Js.slice_to 1 timeStr +:+ ":" +:+ Js.slice_from 1 timeStr)
      else if (String.length timeStr =? 4)%nat then
        Some (Js.slice_to 2 timeStr +:+ ":" +:+ Js.slice_from 2 timeStr)
      else None
    else None.


(** ** Dates: the time value of a [Date], its ISO rendering, and a parser
    for the date-time string format of ECMA-262 *)

Module JsDate.

Local Open Scope Z_scope.

Definition msPerDay : Z := 86400000.

(** Within an era of 400 years that starts on a 1 March: the year of the
    era, the month and the day of the month of a day of the era, and back. *)
Definition civil_of_doe (doe : Z) : Z * Z * Z :=
  let yoe := (doe - doe / 1460 + doe / 36524 - doe / 146096) / 365 in
  let doy := doe - (365 * yoe + yoe / 4 - yoe / 100) in
  let mp := (5 * doy + 2) / 153 in
  let d := doy - (153 * mp + 2) / 5 + 1 in
  let m := if mp <? 10 then mp + 3 else mp - 9 in
  (yoe, m, d).

Definition doe_of_civil (yoe m d : Z) : Z :=
  let mp := if 2 <? m then m - 3 else m + 9 in
  let doy := (153 * mp + 2) / 5 + d - 1 in
  yoe * 365 + yoe / 4 - yoe / 100 + doy.

(** Year, month and day of a day number (days since 1970-01-01) in the
    proleptic Gregorian calendar. *)
Definition civil_from_days (z : Z) : Z * Z * Z :=
  let z := z + 719468 in
  let era := z / 146097 in
  let doe := z - era * 146097 in
  let '(yoe, m, d) := civil_of_doe doe in
  let y := yoe + era * 400 in
  (if m <=? 2 then y + 1 else y, m, d).

Definition days_from_civil (y m d : Z) : Z :=
  let y := if m <=? 2 then y - 1 else y in
  let era := y / 400 in
  let yoe := y - era * 400 in
  era * 146097 + doe_of_civil yoe m d - 719468.

Definition digit_char (n : Z) : ascii := ascii_of_nat (48 + Z.to_nat (n mod 10)).

(** The last [w] decimal digits of [n], zero padded. *)
Fixpoint fixed (w : nat) (n : Z) : string :=
  match w with
  | O => EmptyString
  | S w' => fixed w' (n / 10) +:+ String (digit_char n) EmptyString
  end.

Definition year_string (y : Z) : string :=
  if (0 <=? y) && (y <=? 9999) then fixed 4 y
  else (if y <? 0 then "-" else "+") +:+ fixed 6 (Z.abs y).

(** The date part [YYYY-MM-DD] of a day number. *)
Definition date_string (day : Z) : string :=
  let '(y, m, d) := civil_from_days day in
  year_string y +:+ "-" +:+ fixed 2 m +:+ "-" +:+ fixed 2 d.

Definition time_string (ms : Z) : string :=
  fixed 2 (ms / 3600000) +:+ ":" +:+ fixed 2 (ms / 60000 mod 60) +:+ ":" +:+
  fixed 2 (ms / 1000 mod 60) +:+ "." +:+ fixed 3 (ms mod 1000) +:+ "Z".

(** [new Date(t).toISOString()] for a valid time value [t] *)
Definition toISOString (t : Z) : string :=
  date_string (t / msPerDay) +:+ "T" +:+ time_string (t mod msPerDay).

(** *** Reference parser

    The strings of the date-time format: [YYYY-MM-DD] (UTC midnight) and
    [YYYY-MM-DDTHH:MM:SS], with or without a fraction [.sss], followed by [Z]
    or an explicit [+HH:MM] / [-HH:MM] offset. As in V8, a day of the month
    up to 31 is read in every month and carried into the next one where the
    month is shorter ([2025-02-30] is 2 March). *)

Definition digit_val (c : ascii) : option Z :=
  if Js.is_digit c then Some (Z.of_nat (nat_of_ascii c) - 48) else None.

Fixpoint number_of (acc : Z) (s : list ascii) : option Z :=
  match s with
  | [] => Some acc
  | c :: s' =>
      match digit_val c with
      | Some d => number_of (10 * acc + d) s'
      | None => None
      end
  end.

Definition parse_date (s : list ascii) : option Z :=
  match s with
  | [y1; y2; y3; y4; d1; m1; m2; d2; a1; a2] =>
      if Ascii.eqb d1 "-" && Ascii.eqb d2 "-" then
        match number_of 0 [y1; y2; y3; y4], number_of 0 [m1; m2], number_of 0 [a1; a2] with
        | Some y, Some m, Some d =>
            if (1 <=? m) && (m <=? 12) && (1 <=? d) && (d <=? 31)
            then Some (days_from_civil y m 1 + (d - 1)) else None
        | _, _, _ => None
        end
      else None
  | _ => None
  end.

(** Milliseconds into the day of [HH:MM:SS]; [24:00:00] is the end of the day. *)
Definition parse_clock (s : list ascii) : option Z :=
  match s with
  | [h1; h2; c1; m1; m2; c2; s1; s2] =>
      if Ascii.eqb c1 ":" && Ascii.eqb c2 ":" then
        match number_of 0 [h1; h2], number_of 0 [m1; m2], number_of 0 [s1; s2] with
        | Some h, Some m, Some sec =>
            if ((h <=? 23) && (m <=? 59) && (sec <=? 59))
               || ((h =? 24) && (m =? 0) && (sec =? 0))
            then Some (h * 3600000 + m * 60000 + sec * 1000) else None
        | _, _, _ => None
        end
      else None
  | _ => None
  end.

(** Offset in milliseconds east of UTC. *)
Definition parse_offset (s : list ascii) : option Z :=
  match s with
  | [z] => if Ascii.eqb z "Z" then Some 0 else None
  | [sg; h1; h2; c; m1; m2] =>
      if Ascii.eqb c ":" && (Ascii.eqb sg "+" || Ascii.eqb sg "-") then
        match number_of 0 [h1; h2], number_of 0 [m1; m2] with
        | Some h, Some m =>
            if (h <=? 23) && (m <=? 59) then
              let off := h * 3600000 + m * 60000 in
              Some (if Ascii.eqb sg "-" then - off else off)
            else None
        | _, _ => None
        end
      else None
  | _ => None
  end.

(** The optional fraction [.sss] in front of the offset: its milliseconds and
    what follows it. *)
Definition parse_fraction (s : list ascii) : option (Z * list ascii) :=
  match s with
  | dot :: f1 :: f2 :: f3 :: rest =>
      if Ascii.eqb dot "." then
        match number_of 0 [f1; f2; f3] with
        | Some ms => Some (ms, rest)
        | None => None
        end
      else Some (0, s)
  | _ => Some (0, s)
  end.

Definition parse (str : string) : option Z :=
  let s := String.list_ascii_of_string str in
  match parse_date (take 10 s) with
  | None => None
  | Some day =>
      match drop 10 s with
      | [] => Some (day * msPerDay)
      | t :: rest =>
          if Ascii.eqb t "T" then
            match parse_clock (take 8 rest), parse_fraction (drop 8 rest) with
            | Some ms, Some (frac, zone) =>
                match parse_offset zone with
                | Some off => Some (day * msPerDay + ms + frac - off)
                | None => None
                end
            | _, _ => None
            end
          else None
      end
  end.

End JsDate.

(** ** Data model *)

(** A job object: [job.field] is [job !! "field"]. *)
Abbreviation Job := (gmap string string).

(** [job.field === 'literal'] *)
Definition prop_is (o : option string) (s : string) : bool := bool_decide (o = Some s).

Inductive EventTime :=
| AllDayDate (date : string)
| DateTime (iso : string).

(** The event resource sent to the calendar service. [attendees] is always
    empty and [timeZone] always ['Asia/Bangkok']; [reminders] lists the
    minutes of the popup overrides. *)
Record Event := {
  summary : string;
  description : string;
  location : string;
  reminders : list Z;
  ev_start : EventTime;
  ev_end : EventTime
}.

Record Calendar := {
  cal_id : string;
  cal_summary : string;
  cal_events : gmap string Event
}.

(** A thrown value: [error.code] and [error.message]. *)
Record JsError := {
  err_code : option Z;
  err_message : string
}.

Definition Error (msg : string) : JsError := {| err_code := None; err_message := msg |}.
Definition NotFound : JsError := {| err_code := Some 404%Z; err_message := "Not Found" |}.

(** The metadata [processJobAutoDetection] hands to the status update. *)
Record Metadata := {
  auto_detection : bool;
  moved_from_queue : bool;
  disappeared_from_queue : bool;
  moved_to_calendar : option string;
  detection_time : string
}.

(** What the run leaves behind outside the two services: requests sent,
    diagnostics written with [console.warn] / [console.error], the
    [console.log] line of the drift detector that carries the metadata, and
    timer waits. The other [console.log] lines are plain progress messages and
    are not recorded. *)
Inductive Effect :=
| Call (api : string)
| ConsoleWarn (msg : string)
| ConsoleError (msg : string)
| ConsoleLogDetection (jobId : option string) (status : string) (meta : Metadata)
| Sleep (ms : Z).

(** ** Sorting

    [array.sort(comparefn)] calls [comparefn(a, b)] and takes a negative
    result for "a before b", a positive one for "a after b" and zero (or
    [NaN]) for "keep the order". The language fixes the outcome when the
    comparator is consistent: the sort is stable, so the result is the one of
    the insertion sort below. With an inconsistent comparator the order is
    the engine's own; the result is still a permutation. *)

Fixpoint sort_insert (cmp : Job -> Job -> Z) (x : Job) (sorted : list Job) : list Job :=
  match sorted with
  | [] => [x]
  | y :: ys => if (0 <? cmp y x)%Z then x :: y :: ys else y :: sort_insert cmp x ys
  end.

Definition js_sort (cmp : Job -> Job -> Z) (l : list Job) : list Job :=
  foldl (fun sorted x => sort_insert cmp x sorted) [] l.

(** A comparator is consistent on the elements of [l] when it orders them:
    swapping its arguments swaps the sign of its result, and "not after" is
    transitive. *)
Definition consistent (cmp : Job -> Job -> Z) (l : list Job) : Prop :=
  (forall a b, a ∈ l -> b ∈ l -> Z.sgn (cmp a b) = (- Z.sgn (cmp b a))%Z) /\
  (forall a b c, a ∈ l -> b ∈ l -> c ∈ l ->
     (cmp a b <= 0)%Z -> (cmp b c <= 0)%Z -> (cmp a c <= 0)%Z).

Lemma sort_insert_perm (cmp : Job -> Job -> Z) (x : Job) (sorted : list Job) :
  sort_insert cmp x sorted ≡ₚ x :: sorted.
Proof.
  induction sorted as [|y ys IH]; cbn; [reflexivity|].
  destruct (0 <? cmp y x)%Z; [reflexivity|].
  rewrite IH. apply Permutation_swap.
Qed.

Lemma js_sort_perm (cmp : Job -> Job -> Z) (l : list Job) : js_sort cmp l ≡ₚ l.
Proof.
  unfold js_sort.
  assert (H : forall acc, foldl (fun sorted x => sort_insert cmp x sorted) acc l ≡ₚ acc ++ l).
  { induction l as [|x l IH]; intros acc; cbn.
    - rewrite app_nil_r. reflexivity.
    - rewrite IH, sort_insert_perm. cbn. apply Permutation_middle. }
  apply (H []).
Qed.

(** The environment of the process: the engine, its time zone and the
    variables of the deployment. *)
Record Host := {
  (** [new Date(s).getTime()], [None] standing for [NaN] *)
  Date_parse : string -> option Z;
  (** [Intl.DateTimeFormat('th-TH', {timeZone: 'Asia/Bangkok', ...}).format] *)
  Intl_bangkok : Z -> string;
  CALENDAR_ID_TEAM_A : option string;
  CALENDAR_ID_TEAM_B : option string;
  (** [array.sort(comparefn)], the comparator given with [NaN] read as zero *)
  Array_sort : (Job -> Job -> Z) -> list Job -> list Job;
  Array_sort_permutes : forall cmp l, Array_sort cmp l ≡ₚ l;
  Array_sort_stable : forall cmp l, consistent cmp l -> Array_sort cmp l = js_sort cmp l;
  (** [d.setDate(d.getDate() + 1)] on the time value of [d]: the same
      wall-clock time on the next day of the zone the process runs in. That
      is 24 hours later, or some hours less or more when the clocks of the
      zone change in between; it is never less than an hour later. *)
  Date_next_day : Z -> Z;
  Date_next_day_later : forall t, (t + 3600000 <= Date_next_day t)%Z
}.

(** The two external services and the trace of the run.

    [w_sheet] holds the data rows of the Jobs sheet in sheet order, each as
    the object [getAllJobs] builds for it through the header row; the columns
    are laid out as [updateJobData] documents them (A [job_id] ... W
    [branch]). [w_calendars] lists the calendars the service identity can
    reach, in the order the service enumerates them.

    Each request to a service first consumes the head of the service's fault
    list: [Some e] makes the request fail with [e] (transport, authorisation
    or rate-limit failure), [None] or an exhausted list lets it through. *)
Record World := {
  w_sheet : list Job;
  w_calendars : list Calendar;
  w_sheets_faults : list (option JsError);
  w_calendar_faults : list (option JsError);
  w_auth_faults : list (option JsError);
  w_clock : Z;
  w_trace : list Effect
}.

Definition set_sheet (f : list Job -> list Job) (w : World) : World :=
  {| w_sheet := f (w_sheet w); w_calendars := w_calendars w;
     w_sheets_faults := w_sheets_faults w; w_calendar_faults := w_calendar_faults w;
     w_auth_faults := w_auth_faults w; w_clock := w_clock w; w_trace := w_trace w |}.

Definition set_calendars (f : list Calendar -> list Calendar) (w : World) : World :=
  {| w_sheet := w_sheet w; w_calendars := f (w_calendars w);
     w_sheets_faults := w_sheets_faults w; w_calendar_faults := w_calendar_faults w;
     w_auth_faults := w_auth_faults w; w_clock := w_clock w; w_trace := w_trace w |}.

Definition set_sheets_faults (f : list (option JsError) -> list (option JsError)) (w : World) : World :=
  {| w_sheet := w_sheet w; w_calendars := w_calendars w;
     w_sheets_faults := f (w_sheets_faults w); w_calendar_faults := w_calendar_faults w;
     w_auth_faults := w_auth_faults w; w_clock := w_clock w; w_trace := w_trace w |}.

Definition set_calendar_faults (f : list (option JsError) -> list (option JsError)) (w : World) : World :=
  {| w_sheet := w_sheet w; w_calendars := w_calendars w;
     w_sheets_faults := w_sheets_faults w; w_calendar_faults := f (w_calendar_faults w);
     w_auth_faults := w_auth_faults w; w_clock := w_clock w; w_trace := w_trace w |}.

Definition set_auth_faults (f : list (option JsError) -> list (option JsError)) (w : World) : World :=
  {| w_sheet := w_sheet w; w_calendars := w_calendars w;
     w_sheets_faults := w_sheets_faults w; w_calendar_faults := w_calendar_faults w;
     w_auth_faults := f (w_auth_faults w); w_clock := w_clock w; w_trace := w_trace w |}.

Definition set_clock (f : Z -> Z) (w : World) : World :=
  {| w_sheet := w_sheet w; w_calendars := w_calendars w;
     w_sheets_faults := w_sheets_faults w; w_calendar_faults := w_calendar_faults w;
     w_auth_faults := w_auth_faults w; w_clock := f (w_clock w); w_trace := w_trace w |}.

Definition set_trace (f : list Effect -> list Effect) (w : World) : World :=
  {| w_sheet := w_sheet w; w_calendars := w_calendars w;
     w_sheets_faults := w_sheets_faults w; w_calendar_faults := w_calendar_faults w;
     w_auth_faults := w_auth_faults w; w_clock := w_clock w; w_trace := f (w_trace w) |}.

(** ** Asynchronous computations: state passing with exceptions *)

Inductive Res (A : Type) :=
| Ok (a : A)
| Throw (e : JsError).
Arguments Ok {A} a.
Arguments Throw {A} e.

Definition M (A : Type) : Type := World -> Res A * World.

Definition ret {A} (a : A) : M A := fun w => (Ok a, w).

Definition bind {A B} (m : M A) (k : A -> M B) : M B :=
  fun w =>
    match m w with
    | (Ok a, w') => k a w'
    | (Throw e, w') => (Throw e, w')
    end.

Definition throw {A} (e : JsError) : M A := fun w => (Throw e, w).

(** [try { m } catch (e) { h e }] *)
Definition try_catch {A} (m : M A) (h : JsError -> M A) : M A :=
  fun w =>
    match m w with
    | (Ok a, w') => (Ok a, w')
    | (Throw e, w') => h e w'
    end.

Notation "'let*' x ':=' m 'in' k" := (bind m (fun x => k))
  (at level 10, x pattern, m at level 100, k at level 200).
Notation "m ';;' k" := (bind m (fun _ => k))
  (at level 100, k at level 200, right associativity).

(** The world after one more entry of the trace. *)
Definition record (e : Effect) (w : World) : World := set_trace (fun t => t ++ [e]) w.

Definition emit (e : Effect) : M unit := fun w => (Ok tt, record e w).

Definition get_world : M World := fun w => (Ok w, w).

(** [await new Promise(resolve => setTimeout(resolve, ms))] *)
Definition sleep (ms : Z) : M unit :=
  fun w => (Ok tt, set_clock (fun c => (c + ms)%Z) (record (Sleep ms) w)).

(** The next fault of a service decides whether a request goes through. *)
Definition next_fault (faults : World -> list (option JsError))
    (set : (list (option JsError) -> list (option JsError)) -> World -> World) : M unit :=
  fun w =>
    match faults w with
    | Some e :: fs => (Throw e, set (fun _ => fs) w)
    | None :: fs => (Ok tt, set (fun _ => fs) w)
    | [] => (Ok tt, w)
    end.

(** Sending a request: it is recorded, then the service's next fault decides. *)
Definition request_calendar (api : string) : M unit :=
  emit (Call api) ;; next_fault w_calendar_faults set_calendar_faults.

Definition request_sheets (api : string) : M unit :=
  emit (Call api) ;; next_fault w_sheets_faults set_sheets_faults.

Definition request_auth (api : string) : M unit :=
  emit (Call api) ;; next_fault w_auth_faults set_auth_faults.

Definition update_calendars (f : list Calendar -> list Calendar) : M unit :=
  fun w => (Ok tt, set_calendars f w).

Definition update_sheet (f : list Job -> list Job) : M unit :=
  fun w => (Ok tt, set_sheet f w).

(** ** The calendar service

    Events of a calendar are keyed by their id. A request that names a
    calendar or an event the service does not hold fails with 404. *)

Abbreviation CalEvent := (string * Event)%type.

(** What a request names as its calendar: an id, or a value that is no
    string. The latter is what [table[team]] yields for a team named like a
    member of [Object.prototype] ([constructor], [toString], ...): a function
    or the prototype itself, under which the service holds no calendar. *)
Inductive CalendarRef :=
| CalId (id : string)
| ProtoValue.

Coercion CalId : string >-> CalendarRef.

(** Truthiness of such a value: only the empty id is falsy. *)
Definition ref_truthy (ref : CalendarRef) : bool :=
  match ref with
  | CalId id => negb (String.eqb id "")
  | ProtoValue => true
  end.

Fixpoint find_calendar (cid : string) (cs : list Calendar) : option Calendar :=
  match cs with
  | [] => None
  | c :: cs' => if String.eqb (cal_id c) cid then Some c else find_calendar cid cs'
  end.

Fixpoint alter_calendar (cid : string) (f : gmap string Event -> gmap string Event)
    (cs : list Calendar) : list Calendar :=
  match cs with
  | [] => []
  | c :: cs' =>
      if String.eqb (cal_id c) cid
      then {| cal_id := cal_id c; cal_summary := cal_summary c;
              cal_events := f (cal_events c) |} :: cs'
      else c :: alter_calendar cid f cs'
  end.

(** The instant an event starts, as the service orders events by it; an
    all-day event starts at midnight of the calendar's zone. *)
Definition start_key (e : Event) : Z :=
  match ev_start e with
  | DateTime iso => default 0%Z (JsDate.parse iso)
  | AllDayDate d => default 0%Z (JsDate.parse (d +:+ "T00:00:00+07:00"))
  end.

Definition starts_before (a b : CalEvent) : Prop := (start_key a.2 <= start_key b.2)%Z.

#[local] Instance starts_before_dec : RelDecision starts_before.
Proof. intros a b. unfold starts_before. apply _. Defined.

(** The free-text query [q]: as the code's comment on the request says, it
    searches the event summary. A request without [q] selects every event. *)
Definition query_matches (q : option string) (e : CalEvent) : bool :=
  match q with
  | Some s => Js.includes s (summary e.2)
  | None => true
  end.

(** [calendar.events.list({calendarId, q, maxResults, singleEvents: true,
    orderBy: 'startTime'})], returning [response.data.items] *)
Definition events_list (calendarId : CalendarRef) (q : option string) (maxResults : nat)
    : M (list CalEvent) :=
  request_calendar "calendar.events.list" ;;
  match calendarId with
  | ProtoValue => throw NotFound
  | CalId cid =>
      let* w := get_world in
      match find_calendar cid (w_calendars w) with
      | None => throw NotFound
      | Some c =>
          ret (take maxResults
                 (merge_sort starts_before
                    (filter (fun e => query_matches q e = true) (map_to_list (cal_events c)))))
      end
  end.

(** [calendar.events.get({calendarId, eventId})] *)
Definition events_get (calendarId : CalendarRef) (eid : string) : M CalEvent :=
  request_calendar "calendar.events.get" ;;
  match calendarId with
  | ProtoValue => throw NotFound
  | CalId cid =>
      let* w := get_world in
      match find_calendar cid (w_calendars w) with
      | None => throw NotFound
      | Some c =>
          match cal_events c !! eid with
          | Some e => ret (eid, e)
          | None => throw NotFound
          end
      end
  end.

(** [calendar.events.insert({calendarId, resource})]: the service assigns an
    id no event of the calendar has. *)
Definition events_insert (cid : string) (resource : Event) : M CalEvent :=
  request_calendar "calendar.events.insert" ;;
  let* w := get_world in
  match find_calendar cid (w_calendars w) with
  | None => throw NotFound
  | Some c =>
      let id : string := fresh (dom (cal_events c) ∪ {[""]}) in
      update_calendars (alter_calendar cid (<[id := resource]>)) ;;
      ret (id, resource)
  end.

(** [calendar.events.update({calendarId, eventId, resource})]: the stored
    resource is replaced, the id stays. *)
Definition events_update (cid eid : string) (resource : Event) : M CalEvent :=
  request_calendar "calendar.events.update" ;;
  let* w := get_world in
  match find_calendar cid (w_calendars w) with
  | None => throw NotFound
  | Some c =>
      match cal_events c !! eid with
      | Some _ =>
          update_calendars (alter_calendar cid (<[eid := resource]>)) ;;
          ret (eid, resource)
      | None => throw NotFound
      end
  end.

(** [calendar.events.delete({calendarId, eventId})]: the calendar no longer
    holds the event. *)
Definition events_delete (calendarId : CalendarRef) (eid : string) : M unit :=
  request_calendar "calendar.events.delete" ;;
  match calendarId with
  | ProtoValue => throw NotFound
  | CalId cid =>
      let* w := get_world in
      match find_calendar cid (w_calendars w) with
      | None => throw NotFound
      | Some c =>
          match cal_events c !! eid with
          | Some _ => update_calendars (alter_calendar cid (delete eid))
          | None => throw NotFound
          end
      end
  end.

(** [calendar.calendarList.list()], returning [response.data.items] as pairs
    of [id] and [summary] *)
Definition calendarList_list : M (list (string * string)) :=
  request_calendar "calendar.calendarList.list" ;;
  let* w := get_world in
  ret (map (fun c => (cal_id c, cal_summary c)) (w_calendars w)).

(** ** The Jobs sheet *)

(** [fieldColumnMap] of [updateJobData]: the column of each field. *)
Definition fieldColumnMap : list (string * string) :=
  [ ("job_id", "A"); ("date", "B"); ("time_window", "C"); ("team", "D");
    ("zone", "E"); ("status", "F"); ("customer", "G"); ("address", "H");
    ("phone", "I"); ("notes", "J"); ("eventId", "K"); ("type", "L");
    ("is_calendar", "M"); ("start_time", "N"); ("end_time", "O");
    ("details", "P"); ("map_url", "Q"); ("created_at", "R");
    ("updated_at", "S"); ("status_changed_at", "T"); ("customer_id", "U");
    ("customer_name", "V"); ("branch", "W") ].

Definition field_of_column (col : string) : option string :=
  fst <$> find (fun fc => String.eqb fc.2 col) fieldColumnMap.

(** Writing one cell [Jobs!<col><rowNumber>]: row 1 is the header, row
    [i + 2] the data row of index [i]. *)
Definition write_cell (cell : string * nat * string) (rows : list Job) : list Job :=
  let '(col, rowNumber, v) := cell in
  match field_of_column col with
  | Some f => if (2 <=? rowNumber)%nat then alter (<[f := v]>) (rowNumber - 2)%nat rows else rows
  | None => rows
  end.

(** [sheets.spreadsheets.values.get({range: 'Jobs!A:Z'})], as row objects *)
Definition values_get_jobs : M (list Job) :=
  request_sheets "sheets.values.get" ;;
  let* w := get_world in
  ret (w_sheet w).

(** [sheets.spreadsheets.values.update] and [.batchUpdate] *)
Definition values_write (api : string) (cells : list (string * nat * string)) : M unit :=
  request_sheets api ;;
  update_sheet (fun rows => foldl (fun rs c => write_cell c rs) rows cells).

(** What [fieldColumnMap[field]] finds: the column of a field of the map, a
    function for a name every object inherits from [Object.prototype], and
    [undefined] otherwise. *)
Inductive MapEntry :=
| Column (col : string)
| Inherited.

Definition Object_prototype_keys : list string :=
  [ "constructor"; "__defineGetter__"; "__defineSetter__"; "hasOwnProperty";
    "__lookupGetter__"; "__lookupSetter__"; "isPrototypeOf"; "propertyIsEnumerable";
    "toString"; "valueOf"; "__proto__"; "toLocaleString" ].

Definition fieldColumnMap_get (field : string) : option MapEntry :=
  match find (fun fc => String.eqb fc.1 field) fieldColumnMap with
  | Some (_, col) => Some (Column col)
  | None => if bool_decide (field ∈ Object_prototype_keys) then Some Inherited else None
  end.

(** The answer of the sheet service to a range it cannot read. *)
Definition BadRange : JsError :=
  {| err_code := Some 400%Z; err_message := "Unable to parse range" |}.

Definition is_column (entry : MapEntry) : bool :=
  match entry with
  | Column _ => true
  | Inherited => false
  end.

(** One entry of the [data] of a batch update: the cell [Jobs!<col><row>]
    and its value, [None] for [undefined], which is sent as [null]. *)
Definition write_entry (rows : list Job) (d : MapEntry * nat * option string) : list Job :=
  match d with
  | (Column col, rowNumber, Some v) => write_cell (col, rowNumber, v) rows
  | _ => rows
  end.

(** [sheets.spreadsheets.values.batchUpdate({resource: {data}})] with the
    ranges [updateJobData] builds: the text an inherited property is printed
    as is no range, and the service rejects the whole batch; a [null] value
    leaves its cell as it is. *)
Definition values_batchUpdate (data : list (MapEntry * nat * option string)) : M unit :=
  request_sheets "sheets.values.batchUpdate" ;;
  if forallb (fun d : MapEntry * nat * option string => is_column d.1.1) data
  then update_sheet (fun rows => foldl write_entry rows data)
  else throw BadRange.

(** ** The services of the repository *)

Section Engine.

Context (host : Host).

(** *** Job store adapter ([googleSheets.js]) *)

(** The comparator of [jobs.sort]: [new Date(b.created_date) - new
    Date(a.created_date)]; a [NaN] difference compares as equal. *)
Definition created (job : Job) : option Z :=
  match job !! "created_date" with
  | Some s => Date_parse host s
  | None => None
  end.

Definition newest_first (a b : Job) : Z :=
  match created b, created a with
  | Some tb, Some ta => (tb - ta)%Z
  | _, _ => 0%Z
  end.

(** [jobs.sort((a, b) => new Date(b.created_date) - new Date(a.created_date))] *)
Definition listing (jobs : list Job) : list Job := Array_sort host newest_first jobs.

Definition getAllJobs : M (list Job) :=
  try_catch
    (let* rows := values_get_jobs in
     ret (listing rows))
    (fun e => emit (ConsoleError ("Error getting jobs: " +:+ err_message e)) ;; throw e).

(** The body of the [forEach] of [getNextJobId]: [maxId] after one job. *)
Definition next_max (maxId : Js.Number) (job : Job) : Js.Number :=
  let id := default "" (job !! "job_id") in
  if Js.truthy (job !! "job_id")
     && negb (String.eqb (Js.trim id) "")
     && negb (String.eqb id "/")
     && Js.startsWith id "JOB-"
  then
    match Js.parseInt (Js.replace_first "JOB-" "" id) with
    | Some idNum => if Js.gt idNum maxId then idNum else maxId
    | None => maxId
    end
  else maxId.

Definition getNextJobId : M string :=
  try_catch
    (let* jobs := getAllJobs in
     let maxId := foldl next_max (Js.Int 0) jobs in
     ret ("JOB-" +:+ Js.padStart 6 "0" (Js.Number_toString (Js.add1 maxId))))
    (fun e => emit (ConsoleError ("Error getting next job ID: " +:+ err_message e)) ;; throw e).

(** [jobs.findIndex(job => job.job_id === jobId)] *)
Definition findIndex_job_id (jobId : option string) (jobs : list Job) : option (nat * Job) :=
  list_find (fun job : Job => job !! "job_id" = jobId) jobs.

Definition updateJobStatus (jobId : option string) (status notes : string) : M Job :=
  try_catch
    (let* jobs := getAllJobs in
     match findIndex_job_id jobId jobs with
     | None => throw (Error ("Job " +:+ Js.template jobId +:+ " not found"))
     | Some (jobIndex, job) =>
         let rowNumber := (jobIndex + 2)%nat in
         let* w := get_world in
         let bangkokTime := Intl_bangkok host (w_clock w) in
         let updates :=
           [ ("F", rowNumber, status); ("S", rowNumber, bangkokTime) ]
           ++ (if String.eqb notes "" then [] else [ ("J", rowNumber, notes) ]) in
         values_write "sheets.values.batchUpdate" updates ;;
         let updatedJob := <["updated_date" := bangkokTime]> (<["status" := status]> job) in
         ret (if String.eqb notes "" then updatedJob else <["notes" := notes]> updatedJob)
     end)
    (fun e => emit (ConsoleError ("Error updating job status: " +:+ err_message e)) ;; throw e).

Definition updateJobEventId (jobId : option string) (eventId : string) : M bool :=
  try_catch
    (let* jobs := getAllJobs in
     match findIndex_job_id jobId jobs with
     | None => throw (Error ("Job " +:+ Js.template jobId +:+ " not found"))
     | Some (jobIndex, _) =>
         let rowNumber := (jobIndex + 2)%nat in
         values_write "sheets.values.update" [ ("K", rowNumber, eventId) ] ;;
         ret true
     end)
    (fun e => emit (ConsoleError ("Error updating job eventId: " +:+ err_message e)) ;; throw e).

(** [updateData] is given by its entries, in the order of
    [Object.entries]; a value [None] is [undefined]. *)
Definition updateJobData (jobId : option string) (updateData : list (string * option string))
    : M bool :=
  try_catch
    (let* jobs := getAllJobs in
     match findIndex_job_id jobId jobs with
     | None => throw (Error ("Job " +:+ Js.template jobId +:+ " not found"))
     | Some (jobIndex, _) =>
         let rowNumber := (jobIndex + 2)%nat in
         let updates :=
           omap (fun fv : string * option string =>
                   (fun entry => (entry, rowNumber, fv.2)) <$> fieldColumnMap_get fv.1)
                updateData in
         if bool_decide (updates = []) then throw (Error "No valid fields to update")
         else
           values_batchUpdate updates ;;
           ret true
     end)
    (fun e => emit (ConsoleError ("Error updating job data: " +:+ err_message e)) ;; throw e).

(** The literals [fixColumnMismapping] looks for: status values in the zone
    field, zone values in the status field. *)
Definition status_literals : list string :=
  [ "New"; "Scheduled"; "Rescheduled"; "Cancelled"; "Need Info"; "In progress"; "Done";
    "Closed"; "นัดหมายเรียบร้อยแล้ว" ].

Definition zone_literals : list string :=
  [ "กรุงเทพ"; "บางนา"; "ลาดกระบัง"; "สมุทรปราการ"; "นนทบุรี" ].

Definition needsFix (job : Job) : bool :=
  existsb (prop_is (job !! "zone")) status_literals
  || existsb (prop_is (job !! "status")) zone_literals.

(** The [for (const job of jobs)] loop of [fixColumnMismapping]. *)
Fixpoint fix_loop (jobs : list Job) (fixedCount : nat) : M nat :=
  match jobs with
  | [] => ret fixedCount
  | job :: jobs' =>
      if needsFix job then
        let correctZone := job !! "status" in
        let correctStatus := job !! "zone" in
        updateJobData (job !! "job_id") [ ("zone", correctZone); ("status", correctStatus) ] ;;
        fix_loop jobs' (S fixedCount)
      else fix_loop jobs' fixedCount
  end.

(** [fixColumnMismapping], returning the [fixed] count. *)
Definition fixColumnMismapping : M nat :=
  try_catch
    (let* jobs := getAllJobs in
     fix_loop jobs 0)
    (fun e => emit (ConsoleError ("Error fixing column mismapping: " +:+ err_message e)) ;;
              throw e).

(** *** Calendar synchronisation ([googleCalendar.js]) *)

(** [this.calendarIds]: team names to the queue calendar of the environment. *)
Definition calendarIds : list (string * option string) :=
  [ ("ทีม A", CALENDAR_ID_TEAM_A host); ("ทีม B", CALENDAR_ID_TEAM_B host);
    ("นัดคิวใหม่", CALENDAR_ID_TEAM_A host); ("เสนอราคา", CALENDAR_ID_TEAM_B host) ].

(** The id such a table holds for a team: none for a name that is no key of
    the table, and none for a key whose environment variable is not set. *)
Definition team_calendar (ids : list (string * option string)) (teamName : option string)
    : option string :=
  match find (fun kv => String.eqb kv.1 (Js.template teamName)) ids with
  | Some (_, id) => id
  | None => None
  end.

(** [ids[teamName]]: the id the table holds; for a name that is no key of
    the table but a member of [Object.prototype], what every object inherits
    under it; [undefined] otherwise. *)
Definition table_get (ids : list (string * option string)) (teamName : option string)
    : option CalendarRef :=
  match team_calendar ids teamName with
  | Some id => Some (CalId id)
  | None =>
      if bool_decide (Js.template teamName ∈ Object_prototype_keys) then Some ProtoValue
      else None
  end.

(** The repair of corrupted team names at the head of [syncJobToCalendar]. *)
Definition repairTeam (team : option string) : option string :=
  match team with
  | Some t =>
      if negb (String.eqb t "") && Js.includes "???" t then
        if Js.includes "A" t then Some "ทีม A"
        else if Js.includes "B" t then Some "ทีม B"
        else team
      else team
  | None => None
  end.

(** Start and end time of a job before normalisation: the defaults and the
    repair of a midnight end time. *)
Definition repairTimes (job : Job) : string * string :=
  let startTime := Js.or_else (job !! "start_time") "09:00" in
  let endTime := Js.or_else (job !! "end_time") "17:00" in
  if String.eqb endTime "0:00" || String.eqb endTime "00:00" then
    let timeWindow := job !! "time_window" in
    if prop_is timeWindow "AM" then ("09:00", "12:00")
    else if prop_is timeWindow "PM" then ("13:00", "17:00")
    else if prop_is timeWindow "All Day" then ("08:00", "18:00")
    else if String.eqb startTime "09:00" || String.eqb startTime "9:00" then (startTime, "12:00")
    else if Js.str_ge startTime "13:00" then (startTime, "17:00")
    else (startTime, "17:00")
  else (startTime, endTime).

Definition startDateTimeStr (job : Job) : string :=
  let scheduledDate := default "" (job !! "date") in
  match normalizeTime (Some (repairTimes job).1) with
  | Some t => scheduledDate +:+ "T" +:+ t +:+ ":00+07:00"
  | None => scheduledDate +:+ "T09:00:00+07:00"
  end.

Definition endDateTimeStr (job : Job) : string :=
  let scheduledDate := default "" (job !! "date") in
  match normalizeTime (Some (repairTimes job).2) with
  | Some t => scheduledDate +:+ "T" +:+ t +:+ ":00+07:00"
  | None => scheduledDate +:+ "T17:00:00+07:00"
  end.

Definition newline : string := String (ascii_of_nat 10) EmptyString.

(** EventComposer: the resource built for a job whose start and end parsed
    to the time values [startDateTime] and [endDateTime]. *)
Definition composeEvent (job : Job) (startDateTime endDateTime : Z) : Event :=
  let customer := Js.or_prop (job !! "customer") (job !! "customer_name") in
  let phone := Js.or_prop (job !! "phone") (job !! "customer_phone") in
  let address := Js.or_prop (job !! "address") (job !! "customer_address") in
  let details := Js.or_prop (job !! "details") (job !! "job_description") in
  let scheduledDate := default "" (job !! "date") in
  let isAllDay := prop_is (job !! "time_window") "All Day" in
  {| summary := Js.template (job !! "job_id") +:+ ": " +:+ Js.or_else customer "ลูกค้า";
     description :=
       "ประเภทงาน: " +:+ Js.or_else (job !! "type") "ไม่ระบุ" +:+ newline +:+
       "ลูกค้า: " +:+ Js.or_else customer "ไม่ระบุ" +:+ newline +:+
       "โทร: " +:+ Js.or_else phone "ไม่ระบุ" +:+ newline +:+
       "ที่อยู่: " +:+ Js.or_else address "ไม่ระบุ" +:+ newline +:+
       "สถานะ: " +:+ Js.or_else (job !! "status") "ไม่ระบุ" +:+ newline +:+
       "ช่วงเวลา: " +:+ Js.or_else (job !! "time_window") "ไม่ระบุ" +:+ newline +:+
       "รายละเอียด: " +:+ Js.or_else details "ไม่มี" +:+ newline +:+
       "หมายเหตุ: " +:+ Js.or_else (job !! "notes") "ไม่มี";
     location := Js.or_else address "";
     reminders := [60; 15]%Z;
     ev_start := if isAllDay then AllDayDate scheduledDate
                 else DateTime (JsDate.toISOString startDateTime);
     ev_end := if isAllDay then AllDayDate scheduledDate
               else DateTime (JsDate.toISOString endDateTime) |}.

(** [events.find(event => event.summary && event.summary.includes(jobId))] *)
Definition has_job_id (jobId : option string) (e : CalEvent) : bool :=
  negb (String.eqb (summary e.2) "") && Js.includes (Js.template jobId) (summary e.2).

Definition findExistingEvent (calendarId : CalendarRef) (jobId : option string)
    : M (option CalEvent) :=
  try_catch
    (let* items := events_list calendarId jobId 10 in
     ret (find (has_job_id jobId) items))
    (fun e => emit (ConsoleError ("Error finding existing event: " +:+ err_message e)) ;;
              ret None).

(** The upsert of [createSingleDateEvent]: update the event found for the
    job id, insert otherwise; the value is [result.data]. *)
Definition upsert (calendarId : string) (jobId : option string) (event : Event)
    : M CalEvent :=
  let* existingEvent := findExistingEvent calendarId jobId in
  match existingEvent with
  | Some (id, _) => events_update calendarId id event
  | None => events_insert calendarId event
  end.

(** The write-back of the event id that follows the upsert. *)
Definition write_back (jobId : option string) (result : CalEvent) : M unit :=
  if negb (String.eqb result.1 "") then
    try_catch
      (updateJobEventId jobId result.1 ;; ret tt)
      (fun updateError =>
         emit (ConsoleError ("Failed to update eventId for job "
                             +:+ Js.template jobId +:+ ": "
                             +:+ err_message updateError)))
  else ret tt.

Definition quote : string := String (ascii_of_nat 34) EmptyString.

(** The warning [normalizeTime] writes when it gives up on a time. *)
Definition warn_unparsed (time : string) : M unit :=
  match normalizeTime (Some time) with
  | Some _ => ret tt
  | None =>
      emit (ConsoleWarn ("Unable to normalize time format: "
                         +:+ quote +:+ Js.trim time +:+ quote))
  end.

Definition createSingleDateEvent (job : Job) (calendarId : string) : M (option CalEvent) :=
  if negb (Js.truthy (job !! "date")) then
    emit (ConsoleWarn "No scheduled date provided for calendar sync") ;;
    ret None
  else
    warn_unparsed (repairTimes job).1 ;;
    warn_unparsed (repairTimes job).2 ;;
    match Date_parse host (startDateTimeStr job), Date_parse host (endDateTimeStr job) with
    | Some startDateTime, Some endDateTime =>
        let event := composeEvent job startDateTime endDateTime in
        let* result := upsert calendarId (job !! "job_id") event in
        write_back (job !! "job_id") result ;;
        ret (Some result)
    | _, _ =>
        emit (ConsoleError "Invalid date/time values") ;;
        throw (Error "Invalid date or time format provided")
    end.

(** [currentDate.toISOString().split('T')[0]] *)
Definition dateStr_of (currentDate : Z) : string :=
  default "" (head (Js.split "T" (JsDate.toISOString currentDate))).

(** The copy of the job made for one day of the range. *)
Definition dailyJob (job : Job) (dateStr : string) : Job :=
  <["job_id" := Js.template (job !! "job_id") +:+ "-" +:+ dateStr]> (<["date" := dateStr]> job).

Fixpoint range_loop (job : Job) (calendarId : string) (days : list Z)
    (events : list CalEvent) : M (list CalEvent) :=
  match days with
  | [] => ret events
  | currentDate :: days' =>
      let* event := createSingleDateEvent (dailyJob job (dateStr_of currentDate)) calendarId in
      range_loop job calendarId days'
        (match event with Some e => events ++ [e] | None => events end)
  end.

(** The time values the [for] loop of [createDateRangeEvents] visits: from
    [currentDate], one local day further each time, while
    [currentDate <= endDate]. *)
Equations range_days (currentDate endDate : Z) : list Z
  by wf (Z.to_nat ((endDate - currentDate) / 3600000 + 1)) lt :=
range_days currentDate endDate with Z_le_dec currentDate endDate := {
  | left _ => currentDate :: range_days (Date_next_day host currentDate) endDate
  | right _ => [] }.
Next Obligation.
  pose proof (Date_next_day_later host currentDate) as Hlater.
  assert (0 <= (endDate - currentDate) / 3600000)%Z by (apply Z.div_pos; lia).
  assert (Hle : ((endDate - Date_next_day host currentDate) / 3600000
                 <= (endDate - currentDate + (-1) * 3600000) / 3600000)%Z)
    by (apply Z.div_le_mono; lia).
  rewrite Z.div_add in Hle by lia. lia.
Qed.

Definition createDateRangeEvents (job : Job) (calendarId : string) : M (list CalEvent) :=
  if negb (Js.truthy (job !! "start_date")) || negb (Js.truthy (job !! "end_date")) then
    emit (ConsoleError "Missing start_date or end_date for range events") ;;
    throw (Error "Date range jobs require start_date and end_date")
  else
    match Date_parse host (default "" (job !! "start_date")),
          Date_parse host (default "" (job !! "end_date")) with
    | Some startDate, Some endDate =>
        range_loop job calendarId (range_days startDate endDate) []
    | _, _ =>
        emit (ConsoleError "Invalid start_date or end_date") ;;
        throw (Error "Invalid date format in start_date or end_date")
    end.

(** What [syncJobToCalendar] resolves to: [null], the event of a single
    date, or the array of events of a range. *)
Inductive SyncResult :=
| SyncNull
| SyncEvent (e : CalEvent)
| SyncEvents (es : list CalEvent).

Definition syncJobToCalendar (job : Job) : M SyncResult :=
  try_catch
    (let teamName := repairTeam (job !! "team") in
     match table_get calendarIds teamName with
     | None =>
         emit (ConsoleWarn ("No calendar configured for team: " +:+ Js.template teamName)) ;;
         ret SyncNull
     | Some ProtoValue =>
         (* [calendarId.substring(0, 20)] on a value that is no string *)
         throw (Error "calendarId.substring is not a function")
     | Some (CalId calendarId) =>
         if String.eqb calendarId "" then
           emit (ConsoleWarn ("No calendar configured for team: " +:+ Js.template teamName)) ;;
           ret SyncNull
         else if prop_is (job !! "date_type") "range"
                 && Js.truthy (job !! "start_date") && Js.truthy (job !! "end_date") then
           let* result := createDateRangeEvents job calendarId in
           ret (SyncEvents result)
         else
           let* result := createSingleDateEvent job calendarId in
           ret (match result with Some e => SyncEvent e | None => SyncNull end)
     end)
    (fun e => emit (ConsoleError ("Error syncing to calendar: " +:+ err_message e)) ;; throw e).

(** [deleteJobFromCalendar]: [null] ([None]) without a calendar for the
    team as the job names it, [true] after deleting the event found for the
    job id, [false] when none is found. *)
Definition deleteJobFromCalendar (job : Job) : M (option bool) :=
  try_catch
    (match table_get calendarIds (job !! "team") with
     | None => ret None
     | Some calendarId =>
         if negb (ref_truthy calendarId) then ret None
         else
           let* existingEvent := findExistingEvent calendarId (job !! "job_id") in
           match existingEvent with
           | Some (id, _) =>
               events_delete calendarId id ;;
               ret (Some true)
           | None => ret (Some false)
           end
     end)
    (fun e => emit (ConsoleError ("Error deleting from calendar: " +:+ err_message e)) ;;
              throw e).

(** *** Drift detector ([autoDetection.js]) *)

Definition completion_sentinel : string := "นัดหมายเรียบร้อยแล้ว".

(** [this.queueCalendars] *)
Definition queueCalendars : list (string * option string) :=
  [ ("ทีม A", CALENDAR_ID_TEAM_A host); ("ทีม B", CALENDAR_ID_TEAM_B host);
    ("นัดคิวใหม่", CALENDAR_ID_TEAM_A host); ("เสนอราคา", CALENDAR_ID_TEAM_B host) ].

Definition personalCalendarPatterns : list string :=
  [ "งานส่วนตัว"; "personal"; "ส่วนตัว"; "นัดหมายส่วนตัว"; "ปฏิทินส่วนตัว"; "งานส่วนบุคคล" ].

(** [Object.values(this.queueCalendars).includes(id)] *)
Definition is_queue_calendar (id : string) : bool :=
  existsb (fun kv => bool_decide (kv.2 = Some id)) queueCalendars.

Definition initializeAuth : M bool :=
  try_catch
    (request_auth "auth.getClient" ;; ret true)
    (fun e => emit (ConsoleError ("Auto-Detection Auth Error: " +:+ err_message e)) ;;
              ret false).

Definition getUserCalendars : M (list (string * string)) :=
  try_catch calendarList_list
    (fun e => emit (ConsoleError ("Error fetching user calendars: " +:+ err_message e)) ;;
              ret []).

Definition isPersonalCalendar (calendarId calendarSummary : string) : bool :=
  if is_queue_calendar calendarId then false
  else
    let summary := Js.toLowerCase calendarSummary in
    existsb (fun pattern => Js.includes (Js.toLowerCase pattern) summary)
      personalCalendarPatterns.

Record SearchResult := {
  found : bool;
  calendarId : option string;
  calendarName : option string;
  isPersonal : option bool;
  event : option CalEvent;
  search_error : option string
}.

Definition not_found_result (err : option string) : SearchResult :=
  {| found := false; calendarId := None; calendarName := None; isPersonal := None;
     event := None; search_error := err |}.

(** The [for (const calendar of calendars)] loop of
    [searchEventInPersonalCalendars]. *)
Fixpoint search_loop (eventId : string) (calendars : list (string * string))
    : M SearchResult :=
  match calendars with
  | [] => ret (not_found_result None)
  | (id, name) :: calendars' =>
      if is_queue_calendar id then search_loop eventId calendars'
      else
        let* hit :=
          try_catch
            (let* ev := events_get id eventId in
             ret (Some {| found := true; calendarId := Some id; calendarName := Some name;
                          isPersonal := Some (isPersonalCalendar id name);
                          event := Some ev; search_error := None |}))
            (fun _ => ret None) in
        match hit with
        | Some r => ret r
        | None => search_loop eventId calendars'
        end
  end.

Definition searchEventInPersonalCalendars (eventId : string) (jobId : option string)
    : M SearchResult :=
  try_catch
    (let* calendars := getUserCalendars in
     search_loop eventId calendars)
    (fun e => emit (ConsoleError ("Error searching for event " +:+ eventId +:+ ": "
                                  +:+ err_message e)) ;;
              ret (not_found_result (Some (err_message e)))).

Record MoveResult := {
  moved : bool;
  deletedFromQueue : bool;
  newCalendarId : option string;
  newCalendarName : option string;
  move_error : option string
}.

Definition checkEventMoved (jobId : option string) (originalEventId : string)
    (queueCalendarId : CalendarRef) : M MoveResult :=
  try_catch
    (try_catch
       (events_get queueCalendarId originalEventId ;;
        ret {| moved := false; deletedFromQueue := false; newCalendarId := None;
               newCalendarName := None; move_error := None |})
       (fun error =>
          if bool_decide (err_code error = Some 404%Z) then
            let* moveResult := searchEventInPersonalCalendars originalEventId jobId in
            ret {| moved := found moveResult; deletedFromQueue := true;
                   newCalendarId := calendarId moveResult;
                   newCalendarName := calendarName moveResult; move_error := None |}
          else throw error))
    (fun error =>
       emit (ConsoleError ("Error checking event movement for job " +:+ Js.template jobId
                           +:+ ": " +:+ err_message error)) ;;
       ret {| moved := false; deletedFromQueue := false; newCalendarId := None;
              newCalendarName := None; move_error := Some (err_message error) |}).

(** [AutoDetectionService.updateJobStatus] *)
Definition detector_updateJobStatus (jobId : option string) (newStatus : string)
    (metadata : Metadata) : M bool :=
  try_catch
    (let* jobs := getAllJobs in
     match findIndex_job_id jobId jobs with
     | None => throw (Error ("Job " +:+ Js.template jobId +:+ " not found"))
     | Some _ =>
         updateJobStatus jobId newStatus "" ;;
         emit (ConsoleLogDetection jobId newStatus metadata) ;;
         ret true
     end)
    (fun e => emit (ConsoleError ("Error updating job status for " +:+ Js.template jobId
                                  +:+ ": " +:+ err_message e)) ;;
              throw e).

Record DetectionResult := {
  processed : bool;
  action : option string;
  newStatus : option string;
  reason : option string;
  error : option string
}.

Definition not_processed (why : string) : DetectionResult :=
  {| processed := false; action := None; newStatus := None; reason := Some why;
     error := None |}.

Definition status_updated (why : string) : DetectionResult :=
  {| processed := true; action := Some "status_updated";
     newStatus := Some completion_sentinel; reason := Some why; error := None |}.

(** [new Date().toISOString()] *)
Definition now_iso : M string :=
  let* w := get_world in ret (JsDate.toISOString (w_clock w)).

Definition processJobAutoDetection (job : Job) : M DetectionResult :=
  try_catch
    (let job_id := job !! "job_id" in
     let team := job !! "team" in
     let calendarEventId := Js.or_prop (job !! "eventId") (job !! "calendar_event_id") in
     if negb (Js.truthy calendarEventId) || negb (Js.truthy team) then
       ret (not_processed "No calendar event or team specified")
     else
       match table_get queueCalendars team with
       | None => ret (not_processed ("No queue calendar configured for team: "
                                     +:+ Js.template team))
       | Some queueCalendarId =>
           if negb (ref_truthy queueCalendarId) then
             ret (not_processed ("No queue calendar configured for team: "
                                 +:+ Js.template team))
           else
             let* moveResult :=
               checkEventMoved job_id (default "" calendarEventId) queueCalendarId in
             if moved moveResult && Js.truthy (newCalendarId moveResult) then
               let* detection_time := now_iso in
               detector_updateJobStatus job_id completion_sentinel
                 {| auto_detection := true; moved_from_queue := true;
                    disappeared_from_queue := false;
                    moved_to_calendar := newCalendarName moveResult;
                    detection_time := detection_time |} ;;
               ret (status_updated ("Event moved to calendar: "
                                    +:+ Js.template (newCalendarName moveResult)))
             else if deletedFromQueue moveResult && negb (moved moveResult) then
               let* detection_time := now_iso in
               detector_updateJobStatus job_id completion_sentinel
                 {| auto_detection := true; moved_from_queue := false;
                    disappeared_from_queue := true;
                    moved_to_calendar := None;
                    detection_time := detection_time |} ;;
               ret (status_updated
                      "Event disappeared from queue calendar - assumed completed by technician")
             else ret (not_processed "No changes detected")
       end)
    (fun e =>
       emit (ConsoleError ("Error processing auto-detection for job "
                           +:+ Js.template (job !! "job_id") +:+ ": " +:+ err_message e)) ;;
       ret {| processed := false; action := None; newStatus := None; reason := None;
              error := Some (err_message e) |}).

(** The summary [runDailyAutoDetection] returns. *)
Inductive Detail :=
| DetailResult (jobId : option string) (result : DetectionResult)
| DetailError (jobId : option string) (error : string).

Record RunSummary := {
  totalChecked : nat;
  statusUpdated : nat;
  moved_count : nat;
  deleted : nat;
  errors : nat;
  details : list Detail
}.

(** The filter that selects the jobs to check. *)
Definition has_calendar_event (job : Job) : bool :=
  Js.truthy (Js.or_prop (job !! "eventId") (job !! "calendar_event_id"))
  && Js.truthy (job !! "team")
  && negb (existsb (prop_is (job !! "status"))
             [ "Completed"; "Cancelled"; "นัดหมายเรียบร้อยแล้ว" ]).

(** The counters after a job whose check returned [result]. *)
Definition count_result (job : Job) (result : DetectionResult) (results : RunSummary)
    : RunSummary :=
  let updated := processed result && bool_decide (action result = Some "status_updated") in
  let is_moved := updated && bool_decide (newStatus result = Some "นัดหมายเรียบร้อยแล้ว") in
  let is_deleted := updated && negb is_moved && bool_decide (newStatus result = Some "Cancelled") in
  {| totalChecked := totalChecked results;
     statusUpdated := statusUpdated results + (if updated then 1 else 0);
     moved_count := moved_count results + (if is_moved then 1 else 0);
     deleted := deleted results + (if is_deleted then 1 else 0);
     errors := errors results;
     details := details results ++ [DetailResult (job !! "job_id") result] |}.

Definition count_error (job : Job) (e : JsError) (results : RunSummary) : RunSummary :=
  {| totalChecked := totalChecked results;
     statusUpdated := statusUpdated results;
     moved_count := moved_count results;
     deleted := deleted results;
     errors := errors results + 1;
     details := details results ++ [DetailError (job !! "job_id") (err_message e)] |}.

(** The [for (const job of jobsWithCalendar)] loop. *)
Fixpoint scan_loop (jobs : list Job) (results : RunSummary) : M RunSummary :=
  match jobs with
  | [] => ret results
  | job :: jobs' =>
      let* results' :=
        try_catch
          (let* result := processJobAutoDetection job in
           ret (count_result job result results))
          (fun e => ret (count_error job e results)) in
      sleep 100 ;;
      scan_loop jobs' results'
  end.

Definition runDailyAutoDetection : M RunSummary :=
  try_catch
    (let* authSuccess := initializeAuth in
     if negb authSuccess then throw (Error "Failed to initialize authentication")
     else
       let* jobs := getAllJobs in
       let jobsWithCalendar := filter (fun job => has_calendar_event job = true) jobs in
       scan_loop jobsWithCalendar
         {| totalChecked := length jobsWithCalendar; statusUpdated := 0; moved_count := 0;
            deleted := 0; errors := 0; details := [] |})
    (fun e => emit (ConsoleError ("Error running daily auto-detection: " +:+ err_message e)) ;;
              throw e).

Definition checkSpecificJob (jobId : option string) : M DetectionResult :=
  try_catch
    (let* authSuccess := initializeAuth in
     if negb authSuccess then throw (Error "Failed to initialize authentication")
     else
       let* jobs := getAllJobs in
       match find (fun j : Job => bool_decide (j !! "job_id" = jobId)) jobs with
       | None => throw (Error ("Job " +:+ Js.template jobId +:+ " not found"))
       | Some job => processJobAutoDetection job
       end)
    (fun e => emit (ConsoleError ("Error checking specific job " +:+ Js.template jobId
                                  +:+ ": " +:+ err_message e)) ;;
              throw e).

(** *** The runs the scheduler starts ([scheduler.js]) *)

(** The callback [startDailyAutoDetection] hands to [cron.schedule]. *)
Definition daily_callback : M unit :=
  try_catch
    (runDailyAutoDetection ;; ret tt)
    (fun e => emit (ConsoleError ("Daily auto-detection failed: " +:+ err_message e))).

Definition runImmediateCheck : M RunSummary :=
  try_catch runDailyAutoDetection
    (fun e => emit (ConsoleError ("Immediate check failed: " +:+ err_message e)) ;; throw e).

End Engine.

(** ** ReconciliationScheduler ([scheduler.js]) over node-cron *)

Module Scheduler.

(** A task of node-cron: created stopped by [cron.schedule(..., {scheduled:
    false})], it fires on its expression while it is running. *)
Record CronTask := {
  expression : string;
  task_timezone : string;
  running : bool
}.

(** [tasks] holds every task created so far, a task's handle being its
    position; [jobs] is the [Map] of the service, from names to handles. *)
Record State := {
  timezone : string;
  tasks : list CronTask;
  jobs : gmap string nat
}.

(** [new SchedulerService()] with [process.env.TIMEZONE] *)
Definition init (TIMEZONE : option string) : State :=
  {| timezone := Js.or_else TIMEZONE "Asia/Bangkok"; tasks := []; jobs := ∅ |}.

Definition set_running (b : bool) (t : CronTask) : CronTask :=
  {| expression := expression t; task_timezone := task_timezone t; running := b |}.

(** [task.start()] and [task.stop()] *)
Definition task_start (h : nat) (st : State) : State :=
  {| timezone := timezone st; tasks := alter (set_running true) h (tasks st); jobs := jobs st |}.

Definition task_stop (h : nat) (st : State) : State :=
  {| timezone := timezone st; tasks := alter (set_running false) h (tasks st); jobs := jobs st |}.

(** [cron.schedule(expr, callback, {scheduled: false, timezone})] *)
Definition cron_schedule (expr : string) (st : State) : nat * State :=
  (length (tasks st),
   {| timezone := timezone st;
      tasks := tasks st ++ [ {| expression := expr; task_timezone := timezone st;
                                running := false |} ];
      jobs := jobs st |}).

Definition startDailyAutoDetection (st : State) : nat * State :=
  let cronExpression := "0 10 * * *" in
  let '(task, st) := cron_schedule cronExpression st in
  let st := {| timezone := timezone st; tasks := tasks st;
               jobs := <["dailyAutoDetection" := task]> (jobs st) |} in
  (task, task_start task st).

Definition stopDailyAutoDetection (st : State) : bool * State :=
  match jobs st !! "dailyAutoDetection" with
  | Some task =>
      let st := task_stop task st in
      (true, {| timezone := timezone st; tasks := tasks st;
                jobs := delete "dailyAutoDetection" (jobs st) |})
  | None => (false, st)
  end.

(** [getSchedulerStatus().dailyAutoDetectionActive] *)
Definition dailyAutoDetectionActive (st : State) : bool :=
  bool_decide (is_Some (jobs st !! "dailyAutoDetection")).

(** The recurring registrations that fire: the running tasks. *)
Definition active_registrations (st : State) : nat :=
  length (filter (fun t => running t = true) (tasks st)).

Inductive Op := Start | Stop.

Definition step (st : State) (op : Op) : State :=
  match op with
  | Start => (startDailyAutoDetection st).2
  | Stop => (stopDailyAutoDetection st).2
  end.

Definition run (ops : list Op) (st : State) : State := foldl step st ops.

(** [getSchedulerStatus()] *)
Record SchedulerStatus := {
  status_timezone : string;
  activeJobs : list string;
  status_dailyAutoDetectionActive : bool;
  nextRun : string
}.

Definition getSchedulerStatus (st : State) : SchedulerStatus :=
  {| status_timezone := timezone st;
     activeJobs := (map_to_list (jobs st)).*1;
     status_dailyAutoDetectionActive := dailyAutoDetectionActive st;
     nextRun := if dailyAutoDetectionActive st then "Daily at 10:00 AM Bangkok time"
                else "Not scheduled" |}.

Definition startAllSchedulers (st : State) : State := (startDailyAutoDetection st).2.

(** [this.jobs.forEach((task, name) => task.stop()); this.jobs.clear()] *)
Definition stopAllSchedulers (st : State) : State :=
  let st := foldl (fun acc nt => task_stop nt.2 acc) st (map_to_list (jobs st)) in
  {| timezone := timezone st; tasks := tasks st; jobs := ∅ |}.

(** The calls the routes and the start-up make on the scheduler. *)
Inductive Request := StartDaily | StopDaily | StartAll | StopAll.

Definition serve (st : State) (r : Request) : State :=
  match r with
  | StartDaily => (startDailyAutoDetection st).2
  | StopDaily => (stopDailyAutoDetection st).2
  | StartAll => startAllSchedulers st
  | StopAll => stopAllSchedulers st
  end.

Definition serve_all (rs : list Request) (st : State) : State := foldl serve st rs.

(** Whether the task of handle [h] fires. *)
Definition task_running (h : nat) (st : State) : bool :=
  match tasks st !! h with
  | Some t => running t
  | None => false
  end.

End Scheduler.

(** ** A concrete host and world for examples *)

(** The engine sorts as the reference sort does, and the process runs in a
    zone without clock changes (UTC, or Asia/Bangkok), where the next local
    day is 24 hours away. *)
Lemma next_utc_day_later (t : Z) : (t + 3600000 <= t + JsDate.msPerDay)%Z.
Proof. unfold JsDate.msPerDay. lia. Qed.

Definition example_host : Host :=
  {| Date_parse := JsDate.parse;
     Intl_bangkok := fun t => JsDate.toISOString (t + 7 * 3600000)%Z;
     CALENDAR_ID_TEAM_A := Some "queue-a@group.calendar";
     CALENDAR_ID_TEAM_B := Some "queue-b@group.calendar";
     Array_sort := js_sort;
     Array_sort_permutes := js_sort_perm;
     Array_sort_stable := fun cmp l _ => eq_refl;
     Date_next_day := fun t => (t + JsDate.msPerDay)%Z;
     Date_next_day_later := next_utc_day_later |}.

Definition empty_calendar (id name : string) : Calendar :=
  {| cal_id := id; cal_summary := name; cal_events := ∅ |}.

Definition example_world (sheet : list Job) (cals : list Calendar) : World :=
  {| w_sheet := sheet; w_calendars := cals; w_sheets_faults := [];
     w_calendar_faults := []; w_auth_faults := []; w_clock := 1754000000000%Z;
     w_trace := [] |}.

Definition job_of (fields : list (string * string)) : Job := list_to_map fields.

Definition example_job : Job :=
  job_of [ ("job_id", "JOB-000001"); ("date", "2025-08-16"); ("time_window", "AM");
           ("team", "นัดคิวใหม่"); ("status", "Scheduled"); ("customer", "ABC");
           ("eventId", ""); ("start_time", "9:0"); ("end_time", "12:00") ].

(** ** The specification's notions, in its own words *)

(** The accepted shapes in the specification's words: a shape is a row of
    digits and colons. [H:MM], [HH:MM], [H:M] (the hour of which the code
    reads with one or two digits), bare hour digits, and the compact form of
    three or four digits. *)
Inductive CharClass := digit | colon.

Definition fits_class (k : CharClass) (c : ascii) : bool :=
  match k with
  | digit => Js.is_digit c
  | colon => Ascii.eqb ":" c
  end.

Fixpoint fits (shape : list CharClass) (s : list ascii) : bool :=
  match shape, s with
  | [], [] => true
  | k :: shape', c :: s' => fits_class k c && fits shape' s'
  | _, _ => false
  end.

Definition accepted_shapes : list (list CharClass) :=
  [ [digit; colon; digit; digit];
    [digit; digit; colon; digit; digit];
    [digit; colon; digit];
    [digit; digit; colon; digit];
    [digit];
    [digit; digit];
    [digit; digit; digit];
    [digit; digit; digit; digit] ].

Definition accepted_shape (s : string) : bool :=
  existsb (fun shape => fits shape (String.list_ascii_of_string s)) accepted_shapes.

Definition midnight_end (job : Job) : Prop :=
  job !! "end_time" = Some "0:00" \/ job !! "end_time" = Some "00:00".

Definition no_recognized_window (job : Job) : Prop :=
  job !! "time_window" <> Some "AM" /\ job !! "time_window" <> Some "PM"
  /\ job !! "time_window" <> Some "All Day".

(** The fallback as the specification words it: with a known start time and
    no recognised window, a start at or after 13:00 ends at 17:00 and any
    other start ends at 12:00. *)
Definition claimed_fallback_end (startTime : string) : string :=
  if Js.str_ge startTime "13:00" then "17:00" else "12:00".


(** ** Notions used to reason about computations *)

(** [preserves R m]: running [m] takes every world to an [R]-related one,
    whether it returns or throws. *)
Definition preserves (R : relation World) {A} (m : M A) : Prop :=
  forall w, R w (m w).2.

Definition is_sleep (e : Effect) : bool :=
  match e with
  | Sleep _ => true
  | _ => false
  end.

(** What a relation between worlds is insensitive to. *)
Class TraceFrame (R : relation World) :=
  trace_frame : forall e w, is_sleep e = false -> R w (record e w).

Class CalendarFrame (R : relation World) := {
  calendar_faults_frame : forall f w, R w (set_calendar_faults f w);
  calendars_frame : forall f w, R w (set_calendars f w)
}.

Class SheetFrame (R : relation World) :=
  sheets_faults_frame : forall f w, R w (set_sheets_faults f w).

Class SheetWriteFrame (R : relation World) :=
  sheet_frame : forall f w, R w (set_sheet f w).

Class AuthFrame (R : relation World) :=
  auth_faults_frame : forall f w, R w (set_auth_faults f w).

(** Nothing but the trace differs. *)
Definition only_trace (w w' : World) : Prop :=
  w_sheet w' = w_sheet w /\ w_calendars w' = w_calendars w /\
  w_sheets_faults w' = w_sheets_faults w /\ w_calendar_faults w' = w_calendar_faults w /\
  w_auth_faults w' = w_auth_faults w /\ w_clock w' = w_clock w.

(** The rows of the sheet are as before. *)
Definition sheet_kept (w w' : World) : Prop := w_sheet w' = w_sheet w.

(** The trace has only grown. *)
Definition trace_grows (w w' : World) : Prop := exists t, w_trace w' = w_trace w ++ t.

(** The sheet, the faults of its service and the clock are as before. *)
Definition sheet_side_kept (w w' : World) : Prop :=
  w_sheet w' = w_sheet w /\ w_sheets_faults w' = w_sheets_faults w /\ w_clock w' = w_clock w.

(** The calendars and the faults of their service are as before. *)
Definition calendar_side_kept (w w' : World) : Prop :=
  w_calendars w' = w_calendars w /\ w_calendar_faults w' = w_calendar_faults w.

(** The trace has grown by effects that are not timer waits, and the clock
    has not moved. *)
Definition no_wait (w w' : World) : Prop :=
  w_clock w' = w_clock w /\
  exists t, w_trace w' = w_trace w ++ t /\ forallb (fun e => negb (is_sleep e)) t = true.

(** The event [findExistingEvent] picks among the events of a calendar. *)
Definition existing_event (jobId : option string) (events : gmap string Event)
    : option CalEvent :=
  find (has_job_id jobId)
    (take 10
       (merge_sort starts_before
          (filter (fun e => query_matches jobId e = true) (map_to_list events)))).

(** At most one event of the calendar carries the job id in its title. *)
Definition at_most_one_event (jobId : option string) (events : gmap string Event) : Prop :=
  forall k1 e1 k2 e2,
    events !! k1 = Some e1 -> events !! k2 = Some e2 ->
    has_job_id jobId (k1, e1) = true -> has_job_id jobId (k2, e2) = true -> k1 = k2.

(** The id under which the upsert stores the event. *)
Definition upsert_id (jobId : option string) (events : gmap string Event) : string :=
  match existing_event jobId events with
  | Some (k, _) => k
  | None => fresh (dom events ∪ {[""]})
  end.

(** The events of a calendar of the world, none if the calendar is unknown. *)
Definition events_of (cid : string) (w : World) : gmap string Event :=
  match find_calendar cid (w_calendars w) with
  | Some c => cal_events c
  | None => ∅
  end.

(** A job that [syncJobToCalendar] treats as a date range. *)
Definition is_range (job : Job) : bool :=
  prop_is (job !! "date_type") "range"
  && Js.truthy (job !! "start_date") && Js.truthy (job !! "end_date").

(** Two syncs in a row return the same event and the second leaves the
    calendars as the first left them. *)
Definition sync_twice_same_event (host : Host) (job : Job) (w : World) : Prop :=
  exists ev w1 w2,
    syncJobToCalendar host job w = (Ok (SyncEvent ev), w1) /\
    syncJobToCalendar host job w1 = (Ok (SyncEvent ev), w2) /\
    w_calendars w2 = w_calendars w1.

(** A world whose calendar service fails the third request it receives. *)
Definition search_fails_world : World :=
  {| w_sheet := [example_job];
     w_calendars := [empty_calendar "queue-a@group.calendar" "Queue A"];
     w_sheets_faults := [];
     w_calendar_faults := [None; None; Some {| err_code := Some 403%Z;
                                               err_message := "Rate Limit Exceeded" |}];
     w_auth_faults := []; w_clock := 1754000000000%Z; w_trace := [] |}.

Definition titled (title iso : string) : Event :=
  {| summary := title; description := ""; location := ""; reminders := [];
     ev_start := DateTime iso; ev_end := DateTime iso |}.

(** A world whose queue calendar already holds two events titled with the
    id of [example_job]. *)
Definition two_events_world : World :=
  example_world [example_job]
    [ {| cal_id := "queue-a@group.calendar"; cal_summary := "Queue A";
         cal_events := <["first" := titled "JOB-000001: ABC" "2025-08-10T02:00:00.000Z"]>
                         (<["second" := titled "JOB-000001: ABC" "2025-08-12T02:00:00.000Z"]> ∅)
      |} ].

(** The team of the job, once repaired, has no calendar: looking its name up
    in the table gives [undefined] (no entry and no inherited member, or an
    entry whose environment variable is unset) or the empty string. *)
Definition no_calendar_configured (host : Host) (job : Job) : Prop :=
  table_get (calendarIds host) (repairTeam (job !! "team")) = None \/
  table_get (calendarIds host) (repairTeam (job !! "team")) = Some (CalId "").

(** The team of the job, once repaired, is named like a member of
    [Object.prototype] and is no key of the table. *)
Definition inherited_team (host : Host) (job : Job) : Prop :=
  table_get (calendarIds host) (repairTeam (job !! "team")) = Some ProtoValue.

(** The job has no usable schedule: it is not a range and has no date. *)
Definition schedule_missing (job : Job) : Prop :=
  is_range job = false /\ Js.truthy (job !! "date") = false.

(** The date-time built from the date and the normalised (or default) start
    or end time is not one the host can parse. *)
Definition times_invalid (host : Host) (job : Job) : Prop :=
  Date_parse host (startDateTimeStr job) = None \/
  Date_parse host (endDateTimeStr job) = None.

(** A well-formed job id: [JOB-] and six digits. *)
Definition well_formed_id (id : string) : bool :=
  String.prefix "JOB-" id
  && (String.length id =? 10)%nat
  && all_digits (String.list_ascii_of_string (Js.slice_from 4 id)).

(** The number its six digits write. *)
Definition numeric_suffix (id : string) : Z :=
  default 0%Z (JsDate.number_of 0 (String.list_ascii_of_string (Js.slice_from 4 id))).

(** The ids the guard of [getNextJobId] skips: absent or empty, blank, "/",
    or without the [JOB-] prefix. *)
Definition skipped_id (id : option string) : bool :=
  negb (Js.truthy id)
  || String.eqb (Js.trim (default "" id)) ""
  || String.eqb (default "" id) "/"
  || negb (Js.startsWith (default "" id) "JOB-").

(** The maximum numeric suffix among the well-formed ids of the store, 0 if
    there is none. *)
Definition max_suffix (jobs : list Job) : Z :=
  foldr (fun (job : Job) m =>
           if well_formed_id (default "" (job !! "job_id"))
           then Z.max (numeric_suffix (default "" (job !! "job_id"))) m
           else m)
        0%Z jobs.

Definition format_job_id (n : Z) : string := "JOB-" +:+ Js.padStart 6 "0" (pretty n).

(** The next id as the specification words it. *)
Definition claimed_next_id (jobs : list Job) : string := format_job_id (max_suffix jobs + 1).

(** Every id of the store is well formed or one the guard skips. *)
Definition ids_well_formed_or_skipped (jobs : list Job) : bool :=
  forallb (fun job : Job =>
             well_formed_id (default "" (job !! "job_id")) || skipped_id (job !! "job_id"))
          jobs.

(** No row of the sheet carries the id. *)
Definition id_absent (jobId : option string) (rows : list Job) : Prop :=
  Forall (fun row : Job => row !! "job_id" <> jobId) rows.

(** The identifier derived for one day of a range job. *)
Definition derived_id (job : Job) (dateStr : string) : string :=
  Js.template (job !! "job_id") +:+ "-" +:+ dateStr.

(** No row of the sheet carries an id that extends the id of the job with a
    dash, as the derived identifiers do; ids of the form JOB-###### never do. *)
Definition no_derived_ids (job : Job) (rows : list Job) : bool :=
  forallb (fun row : Job =>
             negb (Js.startsWith (default "" (row !! "job_id"))
                     (Js.template (job !! "job_id") +:+ "-")))
          rows.

(** A range job of three days and a world with the queue calendar empty. *)
Definition example_range_job : Job :=
  <["date_type" := "range"]>
    (<["start_date" := "2025-08-01"]> (<["end_date" := "2025-08-03"]> example_job)).

Definition example_range_world : World :=
  example_world [example_job] [empty_calendar "queue-a@group.calendar" "Queue A"].

(** The day numbers from [d0] to [d1] inclusive. *)
Definition days_from_to (d0 d1 : Z) : list Z :=
  map (fun k => (d0 + Z.of_nat k)%Z) (seq 0 (Z.to_nat (d1 - d0 + 1))).

(** UTC midnight of a day number, as a time value. *)
Definition midnight (day : Z) : Z := (day * JsDate.msPerDay)%Z.

(** The times of the per-day view of a job validate on the host. *)
Definition day_validates (host : Host) (job : Job) (day : Z) : Prop :=
  is_Some (Date_parse host (startDateTimeStr (dailyJob job (JsDate.date_string day)))) /\
  is_Some (Date_parse host (endDateTimeStr (dailyJob job (JsDate.date_string day)))).

(** The event returned for a day is the one composed from the per-day view
    of the job: its date is the day, its job id the derived identifier. *)
Definition event_of_day (host : Host) (job : Job) (day : Z) (e : CalEvent) : Prop :=
  exists st en,
    Date_parse host (startDateTimeStr (dailyJob job (JsDate.date_string day))) = Some st /\
    Date_parse host (endDateTimeStr (dailyJob job (JsDate.date_string day))) = Some en /\
    e.2 = composeEvent (dailyJob job (JsDate.date_string day)) st en.

(** The title of the event of a day. *)
Definition day_title (job : Job) (day : Z) : string :=
  derived_id job (JsDate.date_string day) +:+ ": "
  +:+ Js.or_else (Js.or_prop (job !! "customer") (job !! "customer_name")) "ลูกค้า".

(** The day numbers of the years 0000 to 9999, whose dates are written with
    four year digits. *)
Definition four_digit_year (day : Z) : Prop := (-719528 <= day <= 2932896)%Z.

(** The string holds no letter T. *)
Definition no_T (s : string) : bool :=
  forallb (fun c => negb (Ascii.eqb c "T")) (String.list_ascii_of_string s).


(** The check of one day of an era: the date computed for it leads back to
    the day, its month and day are in range, and its year (counted from the
    first January of the era) tells whether the day is among the last 60. *)
Definition era_day_ok (doe : Z) : bool :=
  let '(yoe, m, d) := JsDate.civil_of_doe doe in
  let y0 := if (m <=? 2)%Z then (yoe + 1)%Z else yoe in
  (JsDate.doe_of_civil yoe m d =? doe)%Z
  && (0 <=? yoe)%Z && (yoe <? 400)%Z
  && (1 <=? m)%Z && (m <=? 12)%Z && (1 <=? d)%Z && (d <=? 31)%Z
  && (if (doe <=? 146036)%Z then (y0 <=? 399)%Z else (y0 =? 400)%Z).

Fixpoint all_from (n : nat) (z : Z) (f : Z -> bool) : bool :=
  match n with
  | O => true
  | S n' => f z && all_from n' (z + 1)%Z f
  end.


(** ** Further notions used to state properties *)

(** [m] returns in every world: no exception escapes it. *)
Definition never_throws {A} (m : M A) : Prop :=
  forall w, exists a w', m w = (Ok a, w').

(** Whenever [m] throws, the rows of the sheet are as they were. *)
Definition throw_keeps_sheet {A} (m : M A) : Prop :=
  forall w e w', m w = (Throw e, w') -> w_sheet w' = w_sheet w.

(** The next request to a service is answered: its next fault is no error. *)
Definition answered (faults : list (option JsError)) : bool :=
  match faults with
  | Some _ :: _ => false
  | _ => true
  end.

(** A calendar the search may report: no queue calendar, and the service
    finds the event under its id. *)
Definition holds (host : Host) (eid : string) (w : World) (c : Calendar) : bool :=
  negb (is_queue_calendar host (cal_id c))
  && bool_decide (is_Some (events_of (cal_id c) w !! eid)).

(** The first such calendar, in the order the service lists them. *)
Definition first_holder (host : Host) (eid : string) (w : World) : option Calendar :=
  find (holds host eid w) (w_calendars w).

(** What the search reports for it. *)
Definition search_outcome (host : Host) (eid : string) (w : World) (holder : option Calendar)
    : SearchResult :=
  match holder with
  | Some c =>
      {| found := true; calendarId := Some (cal_id c); calendarName := Some (cal_summary c);
         isPersonal := Some (isPersonalCalendar host (cal_id c) (cal_summary c));
         event := (fun ev => (eid, ev)) <$> events_of (cal_id c) w !! eid;
         search_error := None |}
  | None => not_found_result None
  end.

(** The reason and the metadata of a status rewrite, by the calendar the
    event was found in, if any. *)
Definition drift_reason (holder : option Calendar) : string :=
  match holder with
  | Some c => "Event moved to calendar: " +:+ cal_summary c
  | None => "Event disappeared from queue calendar - assumed completed by technician"
  end.

Definition drift_metadata (holder : option Calendar) (now : string) : Metadata :=
  {| auto_detection := true;
     moved_from_queue := bool_decide (is_Some holder);
     disappeared_from_queue := negb (bool_decide (is_Some holder));
     moved_to_calendar := cal_summary <$> holder;
     detection_time := now |}.

(** No row has a [created_date] field: the header of the sheet, as
    [updateJobData] documents it, has no such column. *)
Definition no_created_date (rows : list Job) : Prop :=
  Forall (fun row : Job => row !! "created_date" = None) rows.

(** A relation between worlds that is insensitive to the faults the calendar
    service consumes: what reading the calendars may change. *)
Class CalendarReadFrame (R : relation World) :=
  calendar_read_frame : forall f w, R w (set_calendar_faults f w).

(** The calendars hold the events they held. *)
Definition calendars_kept (w w' : World) : Prop := w_calendars w' = w_calendars w.

(** A job the detector looks at: it has an event id [eid] and a team, and
    the team has the queue calendar [cid]. *)
Definition monitored (host : Host) (job : Job) (cid eid : string) : Prop :=
  Js.or_prop (job !! "eventId") (job !! "calendar_event_id") = Some eid /\ eid <> "" /\
  Js.truthy (job !! "team") = true /\
  team_calendar (queueCalendars host) (job !! "team") = Some cid /\ cid <> "".

(** The row of a job after a status update at the time [now]. *)
Definition with_status (host : Host) (status : string) (now : Z) (row : Job) : Job :=
  <["updated_at" := Intl_bangkok host now]> (<["status" := status]> row).

(** A job of the new-queue team that names the event "ev1", the queue
    calendar holding an event under a given id, and a world of both. *)
Definition linked_job : Job := <["eventId" := "ev1"]> example_job.

Definition queue_with_event (eid : string) : Calendar :=
  {| cal_id := "queue-a@group.calendar"; cal_summary := "Queue A";
     cal_events := {[ eid := titled "JOB-000001: ABC" "2025-08-16T02:00:00.000Z" ]} |}.

Definition linked_world : World := example_world [linked_job] [queue_with_event "ev1"].

Definition rate_limit : JsError :=
  {| err_code := Some 403%Z; err_message := "Rate Limit Exceeded" |}.

(** A world in which the event "ev1" has left the queue calendar for the
    calendar of a technician. *)
Definition moved_world : World :=
  example_world [linked_job]
    [ empty_calendar "queue-a@group.calendar" "Queue A";
      {| cal_id := "somchai@example.com"; cal_summary := "Somchai (personal)";
         cal_events := {[ "ev1" := titled "JOB-000001: ABC" "2025-08-16T02:00:00.000Z" ]} |} ].

(** The waits of a trace, in order. *)
Definition sleeps (t : list Effect) : list Z :=
  omap (fun e => match e with Sleep ms => Some ms | _ => None end) t.

(** The job id a detail of the summary is about, and whether the detail
    carries a result rather than an error. *)
Definition detail_jobId (d : Detail) : option string :=
  match d with
  | DetailResult jobId _ => jobId
  | DetailError jobId _ => jobId
  end.

Definition is_result (d : Detail) : bool :=
  match d with
  | DetailResult _ _ => true
  | DetailError _ _ => false
  end.

(** Two rows under a header that has a [created_date] column: the first row
    is the older job. *)
Definition dated_rows : list Job :=
  [ job_of [("job_id", "JOB-000001"); ("status", "New"); ("created_date", "2025-01-01")];
    job_of [("job_id", "JOB-000002"); ("status", "New"); ("created_date", "2025-02-01")] ].

(** Every row has a [created_date] the host can read. *)
Definition all_dated (host : Host) (rows : list Job) : Prop :=
  Forall (fun row : Job => is_Some (created host row)) rows.

(** [a] is listed before [b]: it was not created earlier. *)
Definition not_older (host : Host) (a b : Job) : Prop :=
  (default 0 (created host b) <= default 0 (created host a))%Z.

(** Writing a value into a field of a row; [undefined] leaves the row as it
    is. *)
Definition set_field (field : string) (v : option string) (row : Job) : Job :=
  match v with
  | Some s => <[field := s]> row
  | None => row
  end.

(** A row after the entries of [updateData] have been written into it: an
    entry whose field is no column of the sheet is ignored. *)
Definition patch (updateData : list (string * option string)) (row : Job) : Job :=
  foldl (fun r (fv : string * option string) =>
           if bool_decide (fv.1 ∈ fieldColumnMap.*1) then set_field fv.1 fv.2 r else r)
        row updateData.

(** The zone and the status of a row, exchanged. *)
Definition swap_zone_status (row : Job) : Job :=
  patch [ ("zone", row !! "status"); ("status", row !! "zone") ] row.

(** The rows of the sheet have pairwise different job ids. *)
Definition distinct_ids (rows : list Job) : Prop :=
  NoDup (map (fun row : Job => row !! "job_id") rows).

(** A row whose zone and status have changed places: a status literal in
    the zone field and a zone literal in the status field. *)
Definition crossed (row : Job) : Prop :=
  (exists s, row !! "zone" = Some s /\ s ∈ status_literals) /\
  (exists z, row !! "status" = Some z /\ z ∈ zone_literals).

(** The record of the specification's example, with its fields crossed. *)
Definition crossed_row : Job :=
  job_of [("job_id", "JOB-000007"); ("zone", "Scheduled"); ("status", "กรุงเทพ")].

(** What the repair pass makes of a row. *)
Definition fix_row (row : Job) : Job :=
  if needsFix row then swap_zone_status row else row.

(** The canonical shape of a time: two digits, a colon, two digits. *)
Definition canonical_time (s : string) : bool :=
  fits [digit; digit; colon; digit; digit] (String.list_ascii_of_string s).

(** The integer [getNextJobId] reads from the id of a job: none for an id
    its guard skips, and none when no digit follows [JOB-]. *)
Definition id_number (job : Job) : option Z :=
  let id := default "" (job !! "job_id") in
  if Js.truthy (job !! "job_id")
     && negb (String.eqb (Js.trim id) "")
     && negb (String.eqb id "/")
     && Js.startsWith id "JOB-"
  then Js.read_int (Js.replace_first "JOB-" "" id)
  else None.

(** The maximum after one more job, in exact integers. *)
Definition next_max_exact (maxId : Z) (job : Job) : Z :=
  match id_number job with
  | Some n => Z.max maxId n
  | None => maxId
  end.

(** Every number read from an id is below 2^53, where every integer is a
    double. *)
Definition safe_ids (rows : list Job) : Prop :=
  Forall (fun row : Job => forall n, id_number row = Some n -> (n < 2 ^ 53)%Z) rows.

(** From the day [d0] up to the day [d1], the next local day of a UTC
    midnight is the next UTC midnight: the clocks of the zone the process
    runs in do not change in between. *)
Definition steady_days (host : Host) (d0 d1 : Z) : Prop :=
  forall day, (d0 <= day < d1)%Z -> Date_next_day host (midnight day) = midnight (day + 1).

(** A process in the zone of New York around the start of daylight saving
    time on 9 March 2025: the offset from UTC is five hours up to
    2025-03-09T07:00Z (02:00 local) and four hours from then on. *)
Definition new_york_next_day (t : Z) : Z :=
  (let local := if t <? 1741503600000 then t - 5 * 3600000 else t - 4 * 3600000 in
   let next_local := local + JsDate.msPerDay in
   if next_local <? 1741485600000 then next_local + 5 * 3600000
   else next_local + 4 * 3600000)%Z.

Lemma new_york_next_day_later (t : Z) : (t + 3600000 <= new_york_next_day t)%Z.
Proof.
  unfold new_york_next_day, JsDate.msPerDay.
  destruct (t <? 1741503600000)%Z;
    match goal with |- context [(?a <? ?b)%Z] => destruct (a <? b)%Z end; lia.
Qed.

Definition new_york_host : Host :=
  {| Date_parse := JsDate.parse;
     Intl_bangkok := fun t => JsDate.toISOString (t + 7 * 3600000)%Z;
     CALENDAR_ID_TEAM_A := Some "queue-a@group.calendar";
     CALENDAR_ID_TEAM_B := Some "queue-b@group.calendar";
     Array_sort := js_sort;
     Array_sort_permutes := js_sort_perm;
     Array_sort_stable := fun cmp l _ => eq_refl;
     Date_next_day := new_york_next_day;
     Date_next_day_later := new_york_next_day_later |}.

(** The jobs are checked one after the other: each by
    [processJobAutoDetection], in the world the check of its predecessor
    and the wait of 100 ms after it have left; [ds] are the details of the
    checks, in order, and [w'] is the world after the last wait. *)
Inductive checked_in_turn (host : Host) : list Job -> World -> list Detail -> World -> Prop :=
| checked_none (w : World) : checked_in_turn host [] w [] w
| checked_next (job : Job) (jobs : list Job) (w w1 w' : World) (r : DetectionResult)
    (ds : list Detail) :
    processJobAutoDetection host job w = (Ok r, w1) ->
    checked_in_turn host jobs (sleep 100 w1).2 ds w' ->
    checked_in_turn host (job :: jobs) w (DetailResult (job !! "job_id") r :: ds) w'.

(** Whether a detail reports a status update. *)
Definition is_update (d : Detail) : bool :=
  match d with
  | DetailResult _ r => processed r
  | DetailError _ _ => false
  end.

(** *** Two syncs of a range *)

(** Two syncs in a row return the same events and the second leaves the
    calendars as the first left them. *)
Definition sync_twice_same_events (host : Host) (job : Job) (w : World) : Prop :=
  exists evs w1 w2,
    syncJobToCalendar host job w = (Ok (SyncEvents evs), w1) /\
    syncJobToCalendar host job w1 = (Ok (SyncEvents evs), w2) /\
    w_calendars w2 = w_calendars w1.

(** The copy of the job that the loop of [createDateRangeEvents] makes at
    the time value [currentDate]. *)
Definition day_job (job : Job) (currentDate : Z) : Job := dailyJob job (dateStr_of currentDate).

(** The times of the copy made at every time value of the list validate. *)
Definition times_validate (host : Host) (job : Job) (days : list Z) : Prop :=
  Forall (fun t => is_Some (Date_parse host (startDateTimeStr (day_job job t))) /\
                   is_Some (Date_parse host (endDateTimeStr (day_job job t)))) days.

(** The title of the event of one day contains the derived id of no other
    day of the list. *)
Definition titles_apart (job : Job) (days : list Z) : Prop :=
  forall t t', t ∈ days -> t' ∈ days ->
    has_job_id (day_job job t' !! "job_id") ("", composeEvent (day_job job t) 0 0) = true ->
    dateStr_of t' = dateStr_of t.

(** At most one event of the calendar carries the derived id of each day. *)
Definition at_most_one_event_a_day (job : Job) (days : list Z) (events : gmap string Event)
    : Prop :=
  forall t, t ∈ days -> at_most_one_event (day_job job t !! "job_id") events.

(** What a run of upserts makes of the events of a calendar: each step
    stores its event under the id of the event found for its job id, or under
    a new id; the result lists the events as returned. *)
Fixpoint upserts (steps : list (string * Event)) (events : gmap string Event)
    : list CalEvent * gmap string Event :=
  match steps with
  | [] => ([], events)
  | (jobId, event) :: steps' =>
      let id := upsert_id (Some jobId) events in
      let rest := upserts steps' (<[id := event]> events) in
      ((id, event) :: rest.1, rest.2)
  end.

(** The upsert of one day of a range: the derived id and the event composed
    for the day, none for a day the code skips for want of a date. *)
Definition day_step (host : Host) (job : Job) (currentDate : Z) : option (string * Event) :=
  if Js.truthy (dailyJob job (dateStr_of currentDate) !! "date") then
    match Date_parse host (startDateTimeStr (dailyJob job (dateStr_of currentDate))),
          Date_parse host (endDateTimeStr (dailyJob job (dateStr_of currentDate))) with
    | Some st, Some en =>
        Some (derived_id job (dateStr_of currentDate),
              composeEvent (dailyJob job (dateStr_of currentDate)) st en)
    | _, _ => None
    end
  else None.

(** Every step has a job id that is not empty and an event that carries it
    in its title. *)
Definition steps_titled (steps : list (string * Event)) : Prop :=
  forall s, s ∈ steps -> s.1 <> "" /\ has_job_id (Some s.1) ("", s.2) = true.

(** The event of a step carries the job id of no other step. *)
Definition steps_apart (steps : list (string * Event)) : Prop :=
  forall s s', s ∈ steps -> s' ∈ steps -> has_job_id (Some s'.1) ("", s.2) = true -> s' = s.

(** The steps made so far have left their events under the ids recorded. *)
Definition steps_stored (all : list (string * Event)) (events : gmap string Event)
    (done : list ((string * Event) * string)) : Prop :=
  forall s k, (s, k) ∈ done -> s ∈ all /\ events !! k = Some s.2.

(** A calendar service that holds no calendar. *)
Definition no_calendar_world : World := example_world [example_job] [].

(** A world whose queue calendar holds ten events without a title, all
    earlier than the day of [example_job]. *)
Definition ten_untitled_world : World :=
  example_world [example_job]
    [ {| cal_id := "queue-a@group.calendar"; cal_summary := "Queue A";
         cal_events :=
           list_to_map
             (map (fun k => ("u" +:+ pretty k,
                             titled "" ("2025-08-01T0" +:+ pretty k +:+ ":00:00.000Z")))
                [0; 1; 2; 3; 4; 5; 6; 7; 8; 9]%Z) |} ].

(** A range job of two days whose customer text is the derived id of its
    second day. *)
Definition echo_range_job : Job :=
  <["customer" := "JOB-000001-2025-08-02"]> (<["end_date" := "2025-08-02"]> example_range_job).

(** The ids of the events a sync returned: none for [null], one for a single
    date, one a day for a range; nothing if the sync threw. *)
Definition returned_ids (r : Res SyncResult) : option (list string) :=
  match r with
  | Ok SyncNull => Some []
  | Ok (SyncEvent e) => Some [e.1]
  | Ok (SyncEvents es) => Some (map fst es)
  | Throw _ => None
  end.

(** A world whose queue calendar already holds two events titled with the
    derived id of the first day of [example_range_job]. *)
Definition two_day_events_world : World :=
  example_world [example_job]
    [ {| cal_id := "queue-a@group.calendar"; cal_summary := "Queue A";
         cal_events :=
           <["first" := titled "JOB-000001-2025-08-01: ABC" "2025-07-10T02:00:00.000Z"]>
             (<["second" := titled "JOB-000001-2025-08-01: ABC" "2025-07-12T02:00:00.000Z"]> ∅)
      |} ].
(** * Properties *)

(** ** The embedding at work *)

Example normalizeTime_9_0 : normalizeTime (Some "9:0") = Some "09:00".
Proof. reflexivity. Qed.
Example normalizeTime_trim : normalizeTime (Some " 17:30 ") = Some "17:30".
Proof. reflexivity. Qed.
Example normalizeTime_junk : normalizeTime (Some "9am") = None.
Proof. reflexivity. Qed.

Example toISOString_epoch : JsDate.toISOString 0 = "1970-01-01T00:00:00.000Z".
Proof. reflexivity. Qed.
Example parse_bangkok_morning :
  JsDate.toISOString <$> JsDate.parse "2025-08-01T09:00:00+07:00"
  = Some "2025-08-01T02:00:00.000Z".
Proof. reflexivity. Qed.
Example parse_hour_25 : JsDate.parse "2025-08-01T25:00:00+07:00" = None.
Proof. reflexivity. Qed.

(** ** Time normalisation *)

Ltac split_bools :=
  repeat match goal with
         | |- context [Js.is_digit ?a] => destruct (Js.is_digit a)
         | |- context [Ascii.eqb ":" ?a] => destruct (Ascii.eqb ":" a)
         end.

Lemma patterns_accept_shapes (s : string) :
  re_test re_HH_MM s || re_test re_H_MM s || re_test re_hours s
  || re_test re_H_M s || re_test re_compact s = accepted_shape s.
Proof.
  unfold accepted_shape, re_test.
  destruct (String.list_ascii_of_string s) as [|a [|b [|c [|d [|e [|f l]]]]]];
    cbn -[Js.is_digit Ascii.eqb]; split_bools; reflexivity.
Qed.

Lemma normalizeTime_rejects (t : string) :
  accepted_shape (Js.trim t) = false -> normalizeTime (Some t) = None.
Proof.
  intros Hshape. rewrite <- patterns_accept_shapes in Hshape.
  do 4 (apply orb_false_elim in Hshape; destruct Hshape as [Hshape ?]).
  unfold normalizeTime. destruct (negb (Js.truthy (Some t))); [reflexivity|].
  change (default "" (Some t)) with t.
  repeat match goal with H : re_test _ _ = false |- _ => rewrite H; clear H end.
  reflexivity.
Qed.

(** C4. The normaliser maps "9:0" to "09:00", "900" to "09:00", "1700" to
    "17:00" and "7" to "07:00", and an input that (once trimmed) has none of
    the accepted shapes yields the failure value, never a time. *)
Theorem C4_time_normalization :
  normalizeTime (Some "9:0") = Some "09:00" /\
  normalizeTime (Some "900") = Some "09:00" /\
  normalizeTime (Some "1700") = Some "17:00" /\
  normalizeTime (Some "7") = Some "07:00" /\
  normalizeTime None = None /\
  forall t : string, accepted_shape (Js.trim t) = false -> normalizeTime (Some t) = None.
Proof.
  repeat split; try reflexivity. exact normalizeTime_rejects.
Qed.

Lemma C4_time_normalization_witness :
  accepted_shape (Js.trim "9am") = false /\ normalizeTime (Some "9am") = None.
Proof.
  split; [reflexivity|].
  apply (proj2 (proj2 (proj2 (proj2 (proj2 C4_time_normalization))))). reflexivity.
Defined.

(** ** End-time repair *)

(** At a start of 10:00 the code ends the job at 17:00, not at 12:00. *)
Lemma C5_fallback_counterexample :
  ~ (forall job : Job,
       midnight_end job -> no_recognized_window job ->
       forall startTime, job !! "start_time" = Some startTime -> startTime <> "" ->
       repairTimes job = (startTime, claimed_fallback_end startTime)).
Proof.
  intros H.
  specialize (H (job_of [("start_time", "10:00"); ("end_time", "00:00")])).
  assert (Hr : repairTimes (job_of [("start_time", "10:00"); ("end_time", "00:00")])
               = ("10:00", "12:00")).
  { apply H with (startTime := "10:00"); try reflexivity; try discriminate.
    - right. reflexivity.
    - repeat split; discriminate. }
  vm_compute in Hr. discriminate Hr.
Qed.

Lemma prop_is_false (o : option string) (s : string) : o <> Some s -> prop_is o s = false.
Proof. intros H. unfold prop_is. apply bool_decide_eq_false. exact H. Qed.

Lemma prop_is_true (o : option string) (s : string) : o = Some s -> prop_is o s = true.
Proof. intros H. unfold prop_is. apply bool_decide_eq_true. exact H. Qed.

(** C5 (amended). When the end time of a job is midnight ("0:00" or "00:00"),
    the start/end pair is replaced by the fixed window of its time_window: AM
    gives 09:00-12:00, PM gives 13:00-17:00, All Day gives 08:00-18:00. With
    no recognised window the start time is kept (09:00 when the job has none)
    and the end becomes 12:00 when the start is 09:00 (or "9:00"), and 17:00
    for every other start, at or after 13:00 or not. *)
Theorem C5_end_time_repair (job : Job) :
  midnight_end job ->
  (job !! "time_window" = Some "AM" -> repairTimes job = ("09:00", "12:00")) /\
  (job !! "time_window" = Some "PM" -> repairTimes job = ("13:00", "17:00")) /\
  (job !! "time_window" = Some "All Day" -> repairTimes job = ("08:00", "18:00")) /\
  (no_recognized_window job ->
   let startTime := Js.or_else (job !! "start_time") "09:00" in
   repairTimes job =
     (startTime,
      if bool_decide (startTime = "09:00" \/ startTime = "9:00") then "12:00" else "17:00")).
Proof.
  intros Hmid. unfold repairTimes.
  assert (Hend : String.eqb (Js.or_else (job !! "end_time") "17:00") "0:00"
                 || String.eqb (Js.or_else (job !! "end_time") "17:00") "00:00" = true).
  { destruct Hmid as [-> | ->]; reflexivity. }
  rewrite Hend. repeat split.
  - intros ->. reflexivity.
  - intros ->. reflexivity.
  - intros ->. reflexivity.
  - intros (HAM & HPM & HAll). cbn zeta.
    rewrite !prop_is_false by assumption.
    set (startTime := Js.or_else (job !! "start_time") "09:00").
    destruct (String.eqb_spec startTime "09:00") as [E1 | E1].
    + rewrite bool_decide_eq_true_2 by (left; exact E1). reflexivity.
    + destruct (String.eqb_spec startTime "9:00") as [E2 | E2].
      * rewrite bool_decide_eq_true_2 by (right; exact E2). reflexivity.
      * rewrite bool_decide_eq_false_2 by (intros [? | ?]; contradiction).
        cbn [orb]. destruct (Js.str_ge startTime "13:00"); reflexivity.
Qed.

Lemma C5_end_time_repair_witness :
  repairTimes (job_of [("start_time", "10:00"); ("end_time", "0:00"); ("time_window", "PM")])
  = ("13:00", "17:00") /\
  repairTimes (job_of [("start_time", "10:00"); ("end_time", "0:00")]) = ("10:00", "17:00").
Proof.
  split.
  - apply (C5_end_time_repair
             (job_of [("start_time", "10:00"); ("end_time", "0:00"); ("time_window", "PM")])).
    + left. reflexivity.
    + reflexivity.
  - apply (proj2 (proj2 (proj2 (C5_end_time_repair
             (job_of [("start_time", "10:00"); ("end_time", "0:00")])
             (or_introl eq_refl))))).
    repeat split; discriminate.
Defined.

(** ** Scheduler registrations *)

Lemma start_adds_registration (st : Scheduler.State) :
  Scheduler.active_registrations (Scheduler.step st Scheduler.Start)
  = S (Scheduler.active_registrations st).
Proof.
  unfold Scheduler.step, Scheduler.startDailyAutoDetection, Scheduler.cron_schedule,
    Scheduler.task_start, Scheduler.active_registrations.
  cbn [snd Scheduler.tasks].
  assert (Halter : forall (l : list Scheduler.CronTask) (t : Scheduler.CronTask),
             alter (Scheduler.set_running true) (length l) (l ++ [t])
             = l ++ [Scheduler.set_running true t]).
  { intros l t. induction l as [|x l IH]; [reflexivity|]. cbn. f_equal. exact IH. }
  rewrite Halter, filter_app, length_app.
  rewrite filter_cons_True by reflexivity. rewrite filter_nil. cbn [length]. lia.
Qed.

(** C9. Starting the daily task while it is already started leaves two
    running cron tasks; the map of the service keeps the handle of the second
    only, so a later stop leaves the first one running while the status
    reports that nothing is scheduled. *)
Theorem C9_second_start_adds_registration :
  (forall st : Scheduler.State,
     Scheduler.active_registrations (Scheduler.run [Scheduler.Start; Scheduler.Start] st)
     = S (S (Scheduler.active_registrations st))) /\
  Scheduler.active_registrations
    (Scheduler.run [Scheduler.Start; Scheduler.Start] (Scheduler.init None)) = 2 /\
  Scheduler.active_registrations
    (Scheduler.run [Scheduler.Start; Scheduler.Start; Scheduler.Stop] (Scheduler.init None)) = 1 /\
  Scheduler.dailyAutoDetectionActive
    (Scheduler.run [Scheduler.Start; Scheduler.Start; Scheduler.Stop] (Scheduler.init None))
  = false.
Proof.
  split; [|repeat split; reflexivity].
  intros st. unfold Scheduler.run. cbn [foldl].
  rewrite !start_adds_registration. reflexivity.
Qed.

(** Stopping clears the entry of the map and stops the task it named. *)
Lemma stop_clears_registry (st : Scheduler.State) :
  Scheduler.dailyAutoDetectionActive (Scheduler.step st Scheduler.Stop) = false.
Proof.
  unfold Scheduler.step, Scheduler.stopDailyAutoDetection, Scheduler.dailyAutoDetectionActive.
  destruct (Scheduler.jobs st !! "dailyAutoDetection") as [task|] eqn:E; cbn.
  - apply bool_decide_eq_false. rewrite lookup_delete_eq. intros [? ?]; discriminate.
  - apply bool_decide_eq_false. rewrite E. intros [? ?]; discriminate.
Qed.

(** An option that evaluates to a value holds one. *)
Lemma is_Some_by_eval {A : Type} (o : option A) :
  match o with Some _ => true | None => false end = true -> is_Some o.
Proof. destruct o as [a|]; [intros _; exists a; reflexivity | discriminate]. Qed.

(** ** Running computations *)

Lemma bind_Ok {A B} (m : M A) (k : A -> M B) (w w1 : World) (a : A) :
  m w = (Ok a, w1) -> bind m k w = k a w1.
Proof. intros H. unfold bind. rewrite H. reflexivity. Qed.

Lemma bind_Throw {A B} (m : M A) (k : A -> M B) (w w1 : World) (e : JsError) :
  m w = (Throw e, w1) -> bind m k w = (Throw e, w1).
Proof. intros H. unfold bind. rewrite H. reflexivity. Qed.

Lemma try_catch_Ok {A} (m : M A) (h : JsError -> M A) (w w1 : World) (a : A) :
  m w = (Ok a, w1) -> try_catch m h w = (Ok a, w1).
Proof. intros H. unfold try_catch. rewrite H. reflexivity. Qed.

Lemma try_catch_Throw {A} (m : M A) (h : JsError -> M A) (w w1 : World) (e : JsError) :
  m w = (Throw e, w1) -> try_catch m h w = h e w1.
Proof. intros H. unfold try_catch. rewrite H. reflexivity. Qed.

(** *** Frames *)

Section Frames.

Context (R : relation World) `{!PreOrder R}.

Lemma preserves_ret {A} (a : A) : preserves R (ret a).
Proof. intros w. reflexivity. Qed.

Lemma preserves_throw {A} (e : JsError) : preserves R (@throw A e).
Proof. intros w. reflexivity. Qed.

Lemma preserves_get_world : preserves R get_world.
Proof. intros w. reflexivity. Qed.

Lemma preserves_bind {A B} (m : M A) (k : A -> M B) :
  preserves R m -> (forall a, preserves R (k a)) -> preserves R (bind m k).
Proof.
  intros Hm Hk w. unfold bind. specialize (Hm w).
  destruct (m w) as [[a | e] w1]; cbn in *; [|exact Hm].
  transitivity w1; [exact Hm | apply Hk].
Qed.

Lemma preserves_try_catch {A} (m : M A) (h : JsError -> M A) :
  preserves R m -> (forall e, preserves R (h e)) -> preserves R (try_catch m h).
Proof.
  intros Hm Hh w. unfold try_catch. specialize (Hm w).
  destruct (m w) as [[a | e] w1]; cbn in *; [exact Hm|].
  transitivity w1; [exact Hm | apply Hh].
Qed.

Lemma preserves_emit `{!TraceFrame R} (e : Effect) :
  is_sleep e = false -> preserves R (emit e).
Proof. intros He w. apply trace_frame. exact He. Qed.

Lemma preserves_request_calendar `{!TraceFrame R} `{!CalendarFrame R} (api : string) :
  preserves R (request_calendar api).
Proof.
  apply preserves_bind; [apply preserves_emit; reflexivity|].
  intros _ w. unfold next_fault.
  destruct (w_calendar_faults w) as [|[e|] fs]; cbn;
    first [reflexivity | apply calendar_faults_frame].
Qed.

Lemma preserves_request_sheets `{!TraceFrame R} `{!SheetFrame R} (api : string) :
  preserves R (request_sheets api).
Proof.
  apply preserves_bind; [apply preserves_emit; reflexivity|].
  intros _ w. unfold next_fault.
  destruct (w_sheets_faults w) as [|[e|] fs]; cbn;
    first [reflexivity | apply sheets_faults_frame].
Qed.

Lemma preserves_request_auth `{!TraceFrame R} `{!AuthFrame R} (api : string) :
  preserves R (request_auth api).
Proof.
  apply preserves_bind; [apply preserves_emit; reflexivity|].
  intros _ w. unfold next_fault.
  destruct (w_auth_faults w) as [|[e|] fs]; cbn;
    first [reflexivity | apply auth_faults_frame].
Qed.

Lemma preserves_update_calendars `{!CalendarFrame R} (f : list Calendar -> list Calendar) :
  preserves R (update_calendars f).
Proof. intros w. apply calendars_frame. Qed.

Lemma preserves_update_sheet `{!SheetWriteFrame R} (f : list Job -> list Job) :
  preserves R (update_sheet f).
Proof. intros w. apply sheet_frame. Qed.

End Frames.

Create HintDb frame discriminated.

#[export] Hint Resolve preserves_ret preserves_throw preserves_get_world
  preserves_request_calendar preserves_request_sheets preserves_request_auth
  preserves_update_calendars preserves_update_sheet : frame.

Ltac frame_step :=
  lazymatch goal with
  | |- preserves _ (bind _ _) => refine (preserves_bind _ _ _ _ _); [|intros ?]
  | |- preserves _ (try_catch _ _) => refine (preserves_try_catch _ _ _ _ _); [|intros ?]
  | |- preserves _ (emit _) => refine (preserves_emit _ _ _); reflexivity
  | |- preserves _ (match ?x with _ => _ end) => destruct x
  | |- preserves _ _ => solve [eauto with frame typeclass_instances]
  end.

Ltac frame := repeat frame_step.

Section ServiceFrames.

Context (host : Host) (R : relation World) `{!PreOrder R} `{!TraceFrame R}.

(** The requests to the calendar service touch nothing but the calendar side
    and the trace. *)
Section CalendarRequests.

Context `{!CalendarFrame R}.

Lemma preserves_events_list cid q n : preserves R (events_list cid q n).
Proof. unfold events_list. frame. Qed.

Lemma preserves_events_get cid eid : preserves R (events_get cid eid).
Proof. unfold events_get. frame. Qed.

Lemma preserves_events_insert cid ev : preserves R (events_insert cid ev).
Proof. unfold events_insert. frame. Qed.

Lemma preserves_events_update cid eid ev : preserves R (events_update cid eid ev).
Proof. unfold events_update. frame. Qed.

Lemma preserves_calendarList_list : preserves R calendarList_list.
Proof. unfold calendarList_list. frame. Qed.

Hint Resolve preserves_events_list preserves_events_get preserves_events_insert
  preserves_events_update preserves_calendarList_list : frame.

Lemma preserves_findExistingEvent cid jid : preserves R (findExistingEvent cid jid).
Proof. unfold findExistingEvent. frame. Qed.

Hint Resolve preserves_findExistingEvent : frame.

Lemma preserves_upsert cid jid ev : preserves R (upsert cid jid ev).
Proof. unfold upsert. frame. Qed.

Lemma preserves_getUserCalendars : preserves R getUserCalendars.
Proof. unfold getUserCalendars. frame. Qed.

Hint Resolve preserves_getUserCalendars : frame.

Lemma preserves_search_loop eid cals : preserves R (search_loop host eid cals).
Proof.
  induction cals as [|[id name] cals IH]; cbn [search_loop]; frame.
Qed.

Hint Resolve preserves_search_loop : frame.

Lemma preserves_searchEventInPersonalCalendars eid jid :
  preserves R (searchEventInPersonalCalendars host eid jid).
Proof. unfold searchEventInPersonalCalendars. frame. Qed.

Hint Resolve preserves_searchEventInPersonalCalendars : frame.

Lemma preserves_checkEventMoved jid eid cid :
  preserves R (checkEventMoved host jid eid cid).
Proof. unfold checkEventMoved. frame. Qed.

End CalendarRequests.

(** The requests to the sheet touch nothing but the sheet side and the trace. *)
Section SheetRequests.

Context `{!SheetFrame R}.

Lemma preserves_values_get_jobs : preserves R values_get_jobs.
Proof. unfold values_get_jobs. frame. Qed.

Hint Resolve preserves_values_get_jobs : frame.

Lemma preserves_getAllJobs : preserves R (getAllJobs host).
Proof. unfold getAllJobs. frame. Qed.

Hint Resolve preserves_getAllJobs : frame.

Context `{!SheetWriteFrame R}.

Lemma preserves_values_write api cells : preserves R (values_write api cells).
Proof. unfold values_write. frame. Qed.

Hint Resolve preserves_values_write : frame.

Lemma preserves_updateJobEventId jid eid : preserves R (updateJobEventId host jid eid).
Proof. unfold updateJobEventId. frame. Qed.

Hint Resolve preserves_updateJobEventId : frame.

Lemma preserves_write_back jid r : preserves R (write_back host jid r).
Proof. unfold write_back. frame. Qed.

Lemma preserves_updateJobStatus jid st notes : preserves R (updateJobStatus host jid st notes).
Proof. unfold updateJobStatus. frame. Qed.

Hint Resolve preserves_updateJobStatus : frame.

Lemma preserves_detector_updateJobStatus jid st meta :
  preserves R (detector_updateJobStatus host jid st meta).
Proof. unfold detector_updateJobStatus. frame. Qed.

End SheetRequests.

End ServiceFrames.

(** *** The three frames *)

#[local] Instance sheet_side_kept_preorder : PreOrder sheet_side_kept.
Proof.
  split.
  - intros w. repeat split.
  - intros w1 w2 w3 (H1 & H2 & H3) (H4 & H5 & H6). repeat split; congruence.
Qed.

#[local] Instance sheet_side_kept_trace : TraceFrame sheet_side_kept.
Proof. intros e w _. repeat split. Qed.

#[local] Instance sheet_side_kept_calendar : CalendarFrame sheet_side_kept.
Proof. split; intros f w; repeat split. Qed.

#[local] Instance sheet_side_kept_auth : AuthFrame sheet_side_kept.
Proof. intros f w. repeat split. Qed.

#[local] Instance calendar_side_kept_preorder : PreOrder calendar_side_kept.
Proof.
  split.
  - intros w. repeat split.
  - intros w1 w2 w3 (H1 & H2) (H4 & H5). repeat split; congruence.
Qed.

#[local] Instance calendar_side_kept_trace : TraceFrame calendar_side_kept.
Proof. intros e w _. repeat split. Qed.

#[local] Instance calendar_side_kept_sheet : SheetFrame calendar_side_kept.
Proof. intros f w. repeat split. Qed.

#[local] Instance calendar_side_kept_write : SheetWriteFrame calendar_side_kept.
Proof. intros f w. repeat split. Qed.

#[local] Instance sheet_kept_preorder : PreOrder sheet_kept.
Proof.
  split.
  - intros w. reflexivity.
  - intros w1 w2 w3 H1 H2. unfold sheet_kept in *. congruence.
Qed.

#[local] Instance sheet_kept_trace : TraceFrame sheet_kept.
Proof. intros e w _. reflexivity. Qed.

#[local] Instance sheet_kept_calendar : CalendarFrame sheet_kept.
Proof. split; intros f w; reflexivity. Qed.

#[local] Instance sheet_kept_auth : AuthFrame sheet_kept.
Proof. intros f w. reflexivity. Qed.

#[local] Instance sheet_kept_sheet : SheetFrame sheet_kept.
Proof. intros f w. reflexivity. Qed.

#[local] Instance calendar_side_kept_auth : AuthFrame calendar_side_kept.
Proof. intros f w. repeat split. Qed.

#[local] Instance no_wait_preorder : PreOrder no_wait.
Proof.
  split.
  - intros w. split; [reflexivity|]. exists []. rewrite app_nil_r. split; reflexivity.
  - intros w1 w2 w3 (H1 & t1 & H2 & H3) (H4 & t2 & H5 & H6). split; [congruence|].
    exists (t1 ++ t2). split.
    + rewrite H5, H2, app_assoc. reflexivity.
    + rewrite forallb_app, H3, H6. reflexivity.
Qed.

#[local] Instance no_wait_trace : TraceFrame no_wait.
Proof.
  intros e w He. split; [reflexivity|]. exists [e]. split; [reflexivity|].
  cbn. rewrite He. reflexivity.
Qed.

Lemma no_wait_same_trace (w w' : World) :
  w_clock w' = w_clock w -> w_trace w' = w_trace w -> no_wait w w'.
Proof.
  intros Hc Ht. split; [exact Hc|]. exists []. rewrite app_nil_r. split; [exact Ht|reflexivity].
Qed.

#[local] Instance no_wait_calendar : CalendarFrame no_wait.
Proof. split; intros f w; apply no_wait_same_trace; reflexivity. Qed.

#[local] Instance no_wait_sheet : SheetFrame no_wait.
Proof. intros f w. apply no_wait_same_trace; reflexivity. Qed.

#[local] Instance no_wait_write : SheetWriteFrame no_wait.
Proof. intros f w. apply no_wait_same_trace; reflexivity. Qed.

#[local] Instance no_wait_auth : AuthFrame no_wait.
Proof. intros f w. apply no_wait_same_trace; reflexivity. Qed.

(** ** The calendar service without faults *)

Lemma find_calendar_alter (cid : string) (f : gmap string Event -> gmap string Event)
    (cs : list Calendar) (c : Calendar) :
  find_calendar cid cs = Some c ->
  find_calendar cid (alter_calendar cid f cs)
  = Some {| cal_id := cal_id c; cal_summary := cal_summary c; cal_events := f (cal_events c) |}.
Proof.
  induction cs as [|x cs IH]; cbn; [discriminate|].
  destruct (String.eqb (cal_id x) cid) eqn:E; cbn; rewrite E.
  - intros [= <-]. reflexivity.
  - exact IH.
Qed.

Lemma alter_calendar_twice (cid : string) (f g : gmap string Event -> gmap string Event)
    (cs : list Calendar) :
  alter_calendar cid f (alter_calendar cid g cs) = alter_calendar cid (fun m => f (g m)) cs.
Proof.
  induction cs as [|x cs IH]; cbn; [reflexivity|].
  destruct (String.eqb (cal_id x) cid) eqn:E; cbn; rewrite E.
  - reflexivity.
  - f_equal. exact IH.
Qed.

Lemma alter_calendar_ext (cid : string) (f g : gmap string Event -> gmap string Event)
    (cs : list Calendar) :
  (forall m, f m = g m) -> alter_calendar cid f cs = alter_calendar cid g cs.
Proof.
  intros Hfg. induction cs as [|x cs IH]; cbn; [reflexivity|].
  destruct (String.eqb (cal_id x) cid); [rewrite Hfg; reflexivity|].
  f_equal. exact IH.
Qed.

Lemma events_of_alter (cid : string) (f : gmap string Event -> gmap string Event)
    (w : World) (c : Calendar) :
  find_calendar cid (w_calendars w) = Some c ->
  events_of cid (set_calendars (alter_calendar cid f) w) = f (cal_events c).
Proof.
  intros Hc. unfold events_of. cbn. rewrite (find_calendar_alter _ _ _ _ Hc). reflexivity.
Qed.

Lemma request_calendar_ok (api : string) (w : World) :
  w_calendar_faults w = [] -> request_calendar api w = (Ok tt, record (Call api) w).
Proof.
  intros H. unfold request_calendar, bind, emit, next_fault. cbn. rewrite H. reflexivity.
Qed.

Lemma request_sheets_ok (api : string) (w : World) :
  w_sheets_faults w = [] -> request_sheets api w = (Ok tt, record (Call api) w).
Proof.
  intros H. unfold request_sheets, bind, emit, next_fault. cbn. rewrite H. reflexivity.
Qed.

Lemma findExistingEvent_ok (cid : string) (jid : option string) (w : World) (c : Calendar) :
  w_calendar_faults w = [] ->
  find_calendar cid (w_calendars w) = Some c ->
  findExistingEvent cid jid w
  = (Ok (existing_event jid (cal_events c)), record (Call "calendar.events.list") w).
Proof.
  intros Hf Hc. unfold findExistingEvent, events_list.
  erewrite try_catch_Ok; [reflexivity|].
  erewrite bind_Ok; [|erewrite bind_Ok; [|apply request_calendar_ok; exact Hf]].
  - reflexivity.
  - unfold bind, get_world. cbn. rewrite Hc. reflexivity.
Qed.

Lemma upsert_ok (cid : string) (jid : option string) (ev : Event) (w : World) (c : Calendar) :
  w_calendar_faults w = [] ->
  find_calendar cid (w_calendars w) = Some c ->
  exists w',
    upsert cid jid ev w = (Ok (upsert_id jid (cal_events c), ev), w') /\
    w_calendars w' = alter_calendar cid (<[upsert_id jid (cal_events c) := ev]>) (w_calendars w) /\
    w_calendar_faults w' = [] /\
    sheet_side_kept w w'.
Proof.
  intros Hf Hc. unfold upsert, upsert_id.
  erewrite bind_Ok by (apply findExistingEvent_ok; eassumption).
  pose proof (find_some (has_job_id jid)
                (take 10 (merge_sort starts_before
                   (filter (fun e => query_matches jid e = true)
                      (map_to_list (cal_events c)))))) as Hfind.
  fold (existing_event jid (cal_events c)) in Hfind.
  destruct (existing_event jid (cal_events c)) as [[k old]|].
  - destruct (Hfind (k, old) eq_refl) as [Hin _].
    assert (Hk : cal_events c !! k = Some old).
    { apply list_elem_of_In in Hin. apply elem_of_take in Hin as (i & Hin & _).
      apply list_elem_of_lookup_2 in Hin.
      rewrite merge_sort_Permutation in Hin.
      apply list_elem_of_filter in Hin as [_ Hin].
      apply elem_of_map_to_list in Hin. exact Hin. }
    unfold events_update.
    erewrite bind_Ok by (apply request_calendar_ok; exact Hf).
    unfold bind, get_world, update_calendars, ret. cbn. rewrite Hc, Hk.
    eexists. split; [reflexivity|]. cbn. repeat split. exact Hf.
  - unfold events_insert.
    erewrite bind_Ok by (apply request_calendar_ok; exact Hf).
    unfold bind, get_world, update_calendars, ret. cbn. rewrite Hc.
    eexists. split; [reflexivity|]. cbn. repeat split. exact Hf.
Qed.

(** ** Finding the event of a job *)

Lemma prefix_app (a b : string) : String.prefix a (a +:+ b) = true.
Proof.
  induction a as [|c a IH]; [destruct b; reflexivity|].
  change (String c a +:+ b) with (String c (a +:+ b)). cbn [String.prefix].
  destruct (ascii_dec c c); [exact IH | contradiction].
Qed.

Lemma string_app_assoc (a b c : string) : (a +:+ b) +:+ c = a +:+ (b +:+ c).
Proof.
  induction a as [|x a IH]; [reflexivity|].
  change (String x ((a +:+ b) +:+ c) = String x (a +:+ (b +:+ c))).
  rewrite IH. reflexivity.
Qed.

Lemma includes_unfold (needle hay : string) :
  Js.includes needle hay
  = String.prefix needle hay
    || match hay with
       | EmptyString => false
       | String _ hay' => Js.includes needle hay'
       end.
Proof. destruct hay; reflexivity. Qed.

Lemma includes_prefix (a b : string) : Js.includes a (a +:+ b) = true.
Proof. rewrite includes_unfold, prefix_app. reflexivity. Qed.

Lemma includes_empty_hay (a : string) : Js.includes a "" = true -> a = "".
Proof. destruct a; cbn; [reflexivity | discriminate]. Qed.

(** For a non-empty job id the query of the search and the test of [find]
    select the same events. *)
Lemma has_job_id_query (j : string) (e : CalEvent) :
  j <> "" -> has_job_id (Some j) e = query_matches (Some j) e.
Proof.
  intros Hj. unfold has_job_id, query_matches. cbn.
  destruct (String.eqb_spec (summary e.2) "") as [E | E]; cbn; [|reflexivity].
  rewrite E. destruct (Js.includes j "") eqn:Hi; [|reflexivity].
  apply includes_empty_hay in Hi. contradiction.
Qed.

Lemma find_take_all {A} (P : A -> bool) (n : nat) (l : list A) :
  Forall (fun x => P x = true) l -> find P (take (S n) l) = head l.
Proof.
  intros H. destruct l as [|x l]; [reflexivity|]. cbn.
  apply Forall_cons in H as [-> _]. reflexivity.
Qed.

Lemma existing_event_Some (jid : option string) (events : gmap string Event) (k : string)
    (e : Event) :
  existing_event jid events = Some (k, e) ->
  events !! k = Some e /\ has_job_id jid (k, e) = true.
Proof.
  unfold existing_event. intros H. apply find_some in H as [Hin HP]. split; [|exact HP].
  apply list_elem_of_In in Hin. apply elem_of_take in Hin as (i & Hin & _).
  apply list_elem_of_lookup_2 in Hin. rewrite merge_sort_Permutation in Hin.
  apply list_elem_of_filter in Hin as [_ Hin]. apply elem_of_map_to_list in Hin. exact Hin.
Qed.

Lemma existing_event_None (j : string) (events : gmap string Event) (k : string) (e : Event) :
  j <> "" ->
  existing_event (Some j) events = None ->
  events !! k = Some e -> has_job_id (Some j) (k, e) = false.
Proof.
  unfold existing_event. intros Hj Hnone Hk.
  set (sorted := merge_sort starts_before
                   (filter (fun e => query_matches (Some j) e = true) (map_to_list events)))
    in *.
  assert (Hall : Forall (fun x => has_job_id (Some j) x = true) sorted).
  { apply Forall_forall. intros x Hx. subst sorted. rewrite merge_sort_Permutation in Hx.
    apply list_elem_of_filter in Hx as [Hq _]. rewrite has_job_id_query by exact Hj. exact Hq. }
  rewrite find_take_all in Hnone by exact Hall.
  destruct sorted as [|x sorted'] eqn:Es; [|discriminate].
  destruct (has_job_id (Some j) (k, e)) eqn:Hhas; [|reflexivity].
  assert (Hin : (k, e) ∈ sorted).
  { subst sorted. rewrite merge_sort_Permutation. apply list_elem_of_filter. split.
    - rewrite <- has_job_id_query by exact Hj. exact Hhas.
    - apply elem_of_map_to_list. exact Hk. }
  rewrite Es in Hin. apply elem_of_nil in Hin. contradiction.
Qed.

Lemma existing_event_unique (j : string) (events : gmap string Event) (k : string) (e : Event) :
  j <> "" ->
  at_most_one_event (Some j) events ->
  events !! k = Some e -> has_job_id (Some j) (k, e) = true ->
  existing_event (Some j) events = Some (k, e).
Proof.
  intros Hj Huniq Hk Hhas.
  destruct (existing_event (Some j) events) as [[k' e']|] eqn:E.
  - apply existing_event_Some in E as [Hk' Hhas'].
    assert (k' = k) as -> by (eapply Huniq; eassumption).
    rewrite Hk in Hk'. injection Hk' as <-. reflexivity.
  - pose proof (existing_event_None j events k e Hj E Hk) as Hno. congruence.
Qed.

(** After the upsert the calendar holds the event under the id returned, and
    no other event carries the job id if at most one did before. *)
Lemma upsert_id_unique (j : string) (events : gmap string Event) (ev : Event) :
  j <> "" ->
  at_most_one_event (Some j) events ->
  has_job_id (Some j) (upsert_id (Some j) events, ev) = true ->
  forall k e,
    <[upsert_id (Some j) events := ev]> events !! k = Some e ->
    has_job_id (Some j) (k, e) = true -> k = upsert_id (Some j) events.
Proof.
  intros Hj Huniq Hev k e Hk Hhas.
  destruct (decide (k = upsert_id (Some j) events)) as [-> | Hne]; [reflexivity|].
  rewrite lookup_insert_ne in Hk by congruence.
  unfold upsert_id in *.
  destruct (existing_event (Some j) events) as [[k' e']|] eqn:E.
  - apply existing_event_Some in E as [Hk' Hhas']. eapply Huniq; eassumption.
  - pose proof (existing_event_None j events k e Hj E Hk). congruence.
Qed.

(** ** The upsert of one date *)

Lemma write_back_returns (host : Host) (jid : option string) (r : CalEvent) (w : World) :
  (write_back host jid r w).1 = Ok tt.
Proof.
  unfold write_back. destruct (negb (String.eqb r.1 "")); [|reflexivity].
  unfold try_catch.
  destruct ((updateJobEventId host jid r.1 ;; ret tt) w) as [[[] | e] w1]; reflexivity.
Qed.

Lemma warn_unparsed_run (time : string) (w : World) :
  exists w', warn_unparsed time w = (Ok tt, w') /\ only_trace w w'.
Proof.
  unfold warn_unparsed. destruct (normalizeTime (Some time)).
  - exists w. split; [reflexivity|]. repeat split.
  - eexists. split; [reflexivity|]. repeat split.
Qed.

(** The two warnings in front of the validation change the trace only. *)
Lemma warn_times_run {A} (job : Job) (k : M A) (w : World) :
  exists w',
    (warn_unparsed (repairTimes job).1 ;; warn_unparsed (repairTimes job).2 ;; k) w = k w' /\
    only_trace w w'.
Proof.
  destruct (warn_unparsed_run (repairTimes job).1 w) as (w1 & H1 & T1).
  destruct (warn_unparsed_run (repairTimes job).2 w1) as (w2 & H2 & T2).
  exists w2. split.
  - erewrite bind_Ok by exact H1. erewrite bind_Ok by exact H2. reflexivity.
  - destruct T1 as (?&?&?&?&?&?), T2 as (?&?&?&?&?&?). repeat split; congruence.
Qed.

Lemma createSingleDateEvent_ok (host : Host) (job : Job) (cid : string) (w : World)
    (c : Calendar) (st en : Z) :
  Js.truthy (job !! "date") = true ->
  Date_parse host (startDateTimeStr job) = Some st ->
  Date_parse host (endDateTimeStr job) = Some en ->
  w_calendar_faults w = [] ->
  find_calendar cid (w_calendars w) = Some c ->
  exists w',
    createSingleDateEvent host job cid w
    = (Ok (Some (upsert_id (job !! "job_id") (cal_events c), composeEvent job st en)), w') /\
    w_calendars w'
    = alter_calendar cid
        (<[upsert_id (job !! "job_id") (cal_events c) := composeEvent job st en]>)
        (w_calendars w) /\
    w_calendar_faults w' = [].
Proof.
  intros Hdate Hst Hen Hf Hc. unfold createSingleDateEvent. rewrite Hdate, Hst, Hen. cbn [negb].
  match goal with
  | |- context [bind (warn_unparsed _) (fun _ => bind (warn_unparsed _) (fun _ => ?k))] =>
      destruct (warn_times_run job k w) as (w0 & -> & (_ & Hc0 & _ & Hf0 & _))
  end.
  rewrite <- Hc0. rewrite <- Hc0 in Hc. rewrite <- Hf0 in Hf. clear Hc0 Hf0.
  destruct (upsert_ok cid (job !! "job_id") (composeEvent job st en) w0 c Hf Hc)
    as (w1 & Hup & Hcal & Hf1 & _).
  erewrite bind_Ok by exact Hup.
  pose proof (write_back_returns host (job !! "job_id")
                (upsert_id (job !! "job_id") (cal_events c), composeEvent job st en) w1) as Hret.
  pose proof (preserves_write_back host calendar_side_kept (job !! "job_id")
                (upsert_id (job !! "job_id") (cal_events c), composeEvent job st en) w1)
    as [Hk1 Hk2].
  destruct (write_back host (job !! "job_id")
              (upsert_id (job !! "job_id") (cal_events c), composeEvent job st en) w1)
    as [r w2] eqn:Ewb.
  cbn in Hret, Hk1, Hk2. subst r.
  erewrite bind_Ok by exact Ewb.
  exists w2. split; [reflexivity|]. split; congruence.
Qed.

Lemma composeEvent_has_job_id (job : Job) (st en : Z) (k : string) :
  has_job_id (job !! "job_id") (k, composeEvent job st en) = true.
Proof.
  unfold has_job_id. cbn [snd composeEvent summary].
  rewrite includes_prefix, andb_true_r.
  destruct (String.eqb_spec
              (Js.template (job !! "job_id") +:+ ": "
               +:+ Js.or_else (Js.or_prop (job !! "customer") (job !! "customer_name")) "ลูกค้า")
              "") as [E | E]; [|reflexivity].
  exfalso. destruct (Js.template (job !! "job_id")); discriminate E.
Qed.

(** A job that is not a range is handed to [createSingleDateEvent]. *)
Lemma syncJobToCalendar_single (host : Host) (job : Job) (cid : string) (w : World) :
  team_calendar (calendarIds host) (repairTeam (job !! "team")) = Some cid ->
  cid <> "" ->
  is_range job = false ->
  syncJobToCalendar host job w
  = match createSingleDateEvent host job cid w with
    | (Ok (Some e), w') => (Ok (SyncEvent e), w')
    | (Ok None, w') => (Ok SyncNull, w')
    | (Throw e, w') =>
        (Throw e, record (ConsoleError ("Error syncing to calendar: " +:+ err_message e)) w')
    end.
Proof.
  intros Hteam Hcid Hrange. unfold syncJobToCalendar, try_catch, table_get. rewrite Hteam.
  destruct (String.eqb_spec cid "") as [E | _]; [contradiction|].
  unfold is_range in Hrange. rewrite Hrange. unfold bind.
  destruct (createSingleDateEvent host job cid w) as [[[e|] | e] w']; reflexivity.
Qed.

(** Two syncs of one date, on a calendar service that answers and a calendar
    that holds at most one event of the job. *)
Lemma upsert_twice (host : Host) (job : Job) (cid j : string) (w : World) (c : Calendar)
    (st en : Z) :
  Js.truthy (job !! "date") = true ->
  job !! "job_id" = Some j -> j <> "" ->
  Date_parse host (startDateTimeStr job) = Some st ->
  Date_parse host (endDateTimeStr job) = Some en ->
  w_calendar_faults w = [] ->
  find_calendar cid (w_calendars w) = Some c ->
  at_most_one_event (Some j) (cal_events c) ->
  exists id w1 w2,
    createSingleDateEvent host job cid w = (Ok (Some (id, composeEvent job st en)), w1) /\
    createSingleDateEvent host job cid w1 = (Ok (Some (id, composeEvent job st en)), w2) /\
    w_calendars w2 = w_calendars w1 /\
    events_of cid w1 !! id = Some (composeEvent job st en) /\
    (forall k e, events_of cid w1 !! k = Some e -> has_job_id (Some j) (k, e) = true -> k = id).
Proof.
  intros Hdate Hj Hne Hst Hen Hf Hc Huniq.
  destruct (createSingleDateEvent_ok host job cid w c st en Hdate Hst Hen Hf Hc)
    as (w1 & Hrun1 & Hcal1 & Hf1).
  rewrite Hj in *.
  set (id := upsert_id (Some j) (cal_events c)) in *.
  set (ev := composeEvent job st en) in *.
  assert (Hhas : has_job_id (Some j) (id, ev) = true).
  { subst ev. rewrite <- Hj. apply composeEvent_has_job_id. }
  assert (Hc1 : find_calendar cid (w_calendars w1)
                = Some {| cal_id := cal_id c; cal_summary := cal_summary c;
                          cal_events := <[id := ev]> (cal_events c) |}).
  { rewrite Hcal1. apply find_calendar_alter. exact Hc. }
  assert (Hev1 : events_of cid w1 = <[id := ev]> (cal_events c)).
  { unfold events_of. rewrite Hc1. reflexivity. }
  assert (Huniq1 : forall k e, <[id := ev]> (cal_events c) !! k = Some e ->
                               has_job_id (Some j) (k, e) = true -> k = id).
  { apply upsert_id_unique; assumption. }
  destruct (createSingleDateEvent_ok host job cid w1 _ st en Hdate Hst Hen Hf1 Hc1)
    as (w2 & Hrun2 & Hcal2 & Hf2).
  rewrite Hj in *. cbn [cal_events] in *. fold ev in Hrun2, Hcal2.
  assert (Hid2 : upsert_id (Some j) (<[id := ev]> (cal_events c)) = id).
  { unfold upsert_id at 1.
    rewrite (existing_event_unique j _ id ev Hne).
    - reflexivity.
    - intros k1 e1 k2 e2 H1 H2 P1 P2.
      rewrite (Huniq1 k1 e1 H1 P1), (Huniq1 k2 e2 H2 P2). reflexivity.
    - apply lookup_insert_eq.
    - exact Hhas. }
  rewrite Hid2 in Hrun2, Hcal2.
  exists id, w1, w2. repeat split.
  - exact Hrun1.
  - exact Hrun2.
  - rewrite Hcal2, Hcal1, alter_calendar_twice. apply alter_calendar_ext.
    intros m. apply insert_insert_eq.
  - rewrite Hev1. apply lookup_insert_eq.
  - rewrite Hev1. exact Huniq1.
Qed.

Lemma app_nonempty (a b : string) : b <> "" -> a +:+ b <> "".
Proof.
  intros Hb. destruct a as [|c a]; [exact Hb|].
  change (String c a +:+ b) with (String c (a +:+ b)). discriminate.
Qed.

(** ** Two syncs of a range *)

Lemma alter_calendar_same (cid : string) (cs : list Calendar) (c : Calendar) :
  find_calendar cid cs = Some c ->
  alter_calendar cid (fun _ => cal_events c) cs = cs.
Proof.
  induction cs as [|x cs IH]; cbn; [discriminate|].
  destruct (String.eqb (cal_id x) cid) eqn:E.
  - intros [= <-]. destruct x; reflexivity.
  - intros H. rewrite (IH H). reflexivity.
Qed.

Lemma alter_calendar_found (cid : string) (f : gmap string Event -> gmap string Event)
    (cs : list Calendar) (c : Calendar) :
  find_calendar cid cs = Some c ->
  alter_calendar cid f cs = alter_calendar cid (fun _ => f (cal_events c)) cs.
Proof.
  induction cs as [|x cs IH]; cbn; [discriminate|].
  destruct (String.eqb (cal_id x) cid) eqn:E.
  - intros [= <-]. reflexivity.
  - intros H. rewrite (IH H). reflexivity.
Qed.

Lemma upsert_id_in_use (j : string) (events : gmap string Event) (e : Event) :
  events !! upsert_id (Some j) events = Some e -> has_job_id (Some j) ("", e) = true.
Proof.
  unfold upsert_id. destruct (existing_event (Some j) events) as [[k e']|] eqn:E.
  - apply existing_event_Some in E as [Hk Hhas]. intros H. rewrite Hk in H.
    injection H as <-. exact Hhas.
  - intros H. exfalso.
    apply (is_fresh (dom events ∪ {[""]})).
    apply elem_of_union_l, elem_of_dom. eexists. exact H.
Qed.

(** One upsert keeps what the run relies on: at most one event for the job
    id of each step, and the events of the steps made so far. *)
Lemma upsert_step_inv (all : list (string * Event)) (events : gmap string Event)
    (done : list ((string * Event) * string)) (s : string * Event) :
  steps_titled all -> steps_apart all -> s ∈ all ->
  (forall s', s' ∈ all -> at_most_one_event (Some s'.1) events) ->
  steps_stored all events done ->
  (forall s', s' ∈ all ->
     at_most_one_event (Some s'.1) (<[upsert_id (Some s.1) events := s.2]> events)) /\
  steps_stored all (<[upsert_id (Some s.1) events := s.2]> events)
    ((s, upsert_id (Some s.1) events) :: done).
Proof.
  intros Htitled Hapart Hs Hone Hdone.
  set (k := upsert_id (Some s.1) events).
  destruct (Htitled s Hs) as [Hne Hown]. split.
  - intros s' Hs' k1 e1 k2 e2 H1 H2 P1 P2.
    destruct (has_job_id (Some s'.1) ("", s.2)) eqn:Hno.
    + rewrite (Hapart s s' Hs Hs' Hno) in *.
      rewrite (upsert_id_unique s.1 events s.2 Hne (Hone s Hs) Hown k1 e1 H1 P1).
      rewrite (upsert_id_unique s.1 events s.2 Hne (Hone s Hs) Hown k2 e2 H2 P2).
      reflexivity.
    + assert (Hold : forall k0 e0, <[k := s.2]> events !! k0 = Some e0 ->
                                   has_job_id (Some s'.1) (k0, e0) = true ->
                                   events !! k0 = Some e0).
      { intros k0 e0 H0 P0. destruct (decide (k0 = k)) as [-> | Hk].
        - rewrite lookup_insert_eq in H0. injection H0 as <-.
          change (has_job_id (Some s'.1) ("", s.2) = true) in P0. congruence.
        - rewrite lookup_insert_ne in H0 by congruence. exact H0. }
      apply (Hone s' Hs' k1 e1 k2 e2); auto.
  - intros s' k' Hin. apply elem_of_cons in Hin as [[= -> ->] | Hin].
    + split; [exact Hs | apply lookup_insert_eq].
    + destruct (Hdone s' k' Hin) as [Hs' Hk']. split; [exact Hs'|].
      destruct (decide (k' = k)) as [-> | Hk].
      * rewrite lookup_insert_eq. f_equal.
        pose proof (upsert_id_in_use s.1 events s'.2 Hk') as Hhas.
        rewrite (Hapart s' s Hs' Hs Hhas). reflexivity.
      * rewrite lookup_insert_ne by congruence. exact Hk'.
Qed.

(** The first run: every step leaves its event under the id it returns. *)
Lemma upserts_first (all : list (string * Event)) :
  steps_titled all -> steps_apart all ->
  forall (steps : list (string * Event)) (events : gmap string Event)
         (done : list ((string * Event) * string)),
    (forall s, s ∈ steps -> s ∈ all) ->
    (forall s, s ∈ all -> at_most_one_event (Some s.1) events) ->
    steps_stored all events done ->
    exists done',
      (forall s, s ∈ all -> at_most_one_event (Some s.1) (upserts steps events).2) /\
      steps_stored all (upserts steps events).2 done' /\
      (forall x, x ∈ done -> x ∈ done') /\
      Forall2 (fun s (e : CalEvent) => e.2 = s.2 /\ (s, e.1) ∈ done')
        steps (upserts steps events).1.
Proof.
  intros Htitled Hapart steps.
  induction steps as [|s steps IH]; intros events done Hsub Hone Hdone.
  - exists done. cbn. split; [exact Hone|]. split; [exact Hdone|].
    split; [intros x Hx; exact Hx | constructor].
  - destruct (upsert_step_inv all events done s Htitled Hapart
                (Hsub s ltac:(apply elem_of_cons; left; reflexivity)) Hone Hdone)
      as [Hone1 Hdone1].
    destruct (IH _ _ (fun x Hx => Hsub x ltac:(apply elem_of_cons; right; exact Hx))
                Hone1 Hdone1) as (done' & Hone' & Hdone' & Hincl & Hall).
    exists done'. destruct s as [j ev]. cbn [upserts fst snd] in *.
    split; [exact Hone'|]. split; [exact Hdone'|]. split.
    + intros x Hx. apply Hincl. apply elem_of_cons. right. exact Hx.
    + constructor; [|exact Hall]. split; [reflexivity|].
      apply Hincl. apply elem_of_cons. left. reflexivity.
Qed.

(** The second run finds the event of every step and writes it again. *)
Lemma upserts_second (all : list (string * Event)) (events : gmap string Event)
    (done : list ((string * Event) * string)) :
  steps_titled all ->
  (forall s, s ∈ all -> at_most_one_event (Some s.1) events) ->
  steps_stored all events done ->
  forall (steps : list (string * Event)) (r : list CalEvent),
    Forall2 (fun s (e : CalEvent) => e.2 = s.2 /\ (s, e.1) ∈ done) steps r ->
    upserts steps events = (r, events).
Proof.
  intros Htitled Hone Hdone steps r Hall.
  induction Hall as [|[j ev] [k ev'] steps r [Hev Hin] _ IH]; [reflexivity|].
  cbn [fst snd] in Hev, Hin. subst ev'.
  destruct (Hdone _ _ Hin) as [Hs Hk]. cbn [snd] in Hk.
  destruct (Htitled _ Hs) as [Hne Hown]. cbn [fst snd] in Hne, Hown.
  assert (Hid : upsert_id (Some j) events = k).
  { unfold upsert_id.
    rewrite (existing_event_unique j events k ev Hne (Hone _ Hs) Hk Hown). reflexivity. }
  cbn [upserts]. rewrite Hid, (insert_id events k ev Hk), IH. reflexivity.
Qed.

(** A run of upserts made a second time returns the same events and leaves
    the calendar as it is; every returned event is in the calendar, and it is
    the only event that carries the job id of its step. *)
Lemma upserts_idempotent (steps : list (string * Event)) (events : gmap string Event) :
  steps_titled steps -> steps_apart steps ->
  (forall s, s ∈ steps -> at_most_one_event (Some s.1) events) ->
  upserts steps (upserts steps events).2 = upserts steps events /\
  Forall (fun e : CalEvent => (upserts steps events).2 !! e.1 = Some e.2)
    (upserts steps events).1 /\
  (forall s, s ∈ steps ->
     exists k, (k, s.2) ∈ (upserts steps events).1 /\
               forall k' e, (upserts steps events).2 !! k' = Some e ->
                            has_job_id (Some s.1) (k', e) = true -> k' = k).
Proof.
  intros Htitled Hapart Hone.
  destruct (upserts_first steps Htitled Hapart steps events [] (fun s H => H) Hone)
    as (done & Hone' & Hdone & _ & Hall).
  { intros s k H. apply elem_of_nil in H as []. }
  split; [|split].
  - rewrite (upserts_second steps _ done Htitled Hone' Hdone steps _ Hall).
    destruct (upserts steps events); reflexivity.
  - assert (Hgen : forall (l : list (string * Event)) (r : list CalEvent),
               Forall2 (fun s (e : CalEvent) => e.2 = s.2 /\ (s, e.1) ∈ done) l r ->
               Forall (fun e : CalEvent => (upserts steps events).2 !! e.1 = Some e.2) r).
    { intros l r H. induction H as [|s e l r [He Hin] _ IH]; constructor; [|exact IH].
      rewrite He. exact (proj2 (Hdone _ _ Hin)). }
    exact (Hgen _ _ Hall).
  - intros s Hs. apply list_elem_of_lookup_1 in Hs as [i Hi].
    destruct (Forall2_lookup_l _ _ _ _ _ Hall Hi) as ([k ev] & Hr & Hev & Hin).
    cbn [fst snd] in Hev, Hin. subst ev. exists k. split.
    + eapply list_elem_of_lookup_2. exact Hr.
    + intros k' e Hk' Hhas. destruct (Hdone _ _ Hin) as [Hs Hk].
      destruct (Htitled _ Hs) as [_ Hown].
      exact (Hone' s Hs k' e k s.2 Hk' Hk Hhas Hown).
Qed.

Lemma omap_cons_Some {A B} (f : A -> option B) (x : A) (y : B) (l : list A) :
  f x = Some y -> omap f (x :: l) = y :: omap f l.
Proof. intros H. cbn. rewrite H. reflexivity. Qed.

Lemma omap_cons_None {A B} (f : A -> option B) (x : A) (l : list A) :
  f x = None -> omap f (x :: l) = omap f l.
Proof. intros H. cbn. rewrite H. reflexivity. Qed.

Lemma day_job_id (job : Job) (t : Z) :
  day_job job t !! "job_id" = Some (derived_id job (dateStr_of t)).
Proof. unfold day_job, dailyJob, derived_id. apply lookup_insert_eq. Qed.

Lemma has_job_id_composed (jid : option string) (k : string) (job : Job) (st en : Z) :
  has_job_id jid (k, composeEvent job st en) = has_job_id jid ("", composeEvent job 0 0).
Proof. reflexivity. Qed.

Lemma derived_id_nonempty (job : Job) (dateStr : string) : derived_id job dateStr <> "".
Proof. unfold derived_id. apply app_nonempty. discriminate. Qed.

Lemma day_step_Some (host : Host) (job : Job) (t : Z) (s : string * Event) :
  day_step host job t = Some s ->
  exists st en,
    s = (derived_id job (dateStr_of t), composeEvent (day_job job t) st en).
Proof.
  unfold day_step, day_job. destruct (Js.truthy _); [|discriminate].
  destruct (Date_parse host (startDateTimeStr _)) as [st|]; [|discriminate].
  destruct (Date_parse host (endDateTimeStr _)) as [en|]; [|discriminate].
  intros [= <-]. exists st, en. reflexivity.
Qed.

Lemma day_steps_titled (host : Host) (job : Job) (days : list Z) :
  steps_titled (omap (day_step host job) days).
Proof.
  intros s Hs. apply list_elem_of_omap in Hs as (t & _ & Hstep).
  apply day_step_Some in Hstep as (st & en & ->). cbn [fst snd]. split.
  - apply derived_id_nonempty.
  - rewrite <- day_job_id. apply composeEvent_has_job_id.
Qed.

Lemma day_steps_apart (host : Host) (job : Job) (days : list Z) :
  titles_apart job days -> steps_apart (omap (day_step host job) days).
Proof.
  intros Hapart s s' Hs Hs' Hhas.
  apply list_elem_of_omap in Hs as (t & Ht & Hstep).
  apply list_elem_of_omap in Hs' as (t' & Ht' & Hstep').
  destruct (day_step_Some host job t s Hstep) as (st & en & Es).
  destruct (day_step_Some host job t' s' Hstep') as (st' & en' & Es').
  assert (Hdate : dateStr_of t' = dateStr_of t).
  { apply Hapart; [exact Ht | exact Ht' |].
    rewrite day_job_id. subst s s'. cbn [fst snd] in Hhas.
    rewrite has_job_id_composed in Hhas. exact Hhas. }
  unfold day_step in Hstep, Hstep'. rewrite Hdate in Hstep'. congruence.
Qed.

Lemma day_steps_at_most_one (host : Host) (job : Job) (days : list Z)
    (events : gmap string Event) :
  at_most_one_event_a_day job days events ->
  forall s, s ∈ omap (day_step host job) days -> at_most_one_event (Some s.1) events.
Proof.
  intros Hone s Hs. apply list_elem_of_omap in Hs as (t & Ht & Hstep).
  apply day_step_Some in Hstep as (st & en & ->). cbn [fst].
  rewrite <- day_job_id. apply Hone. exact Ht.
Qed.

(** On a calendar service that answers, the loop of a range makes the
    upserts of its days, one after the other. *)
Lemma range_loop_upserts (host : Host) (job : Job) (cid : string) (days : list Z) :
  forall (events : list CalEvent) (w : World) (c : Calendar),
    w_calendar_faults w = [] ->
    find_calendar cid (w_calendars w) = Some c ->
    times_validate host job days ->
    exists w',
      range_loop host job cid days events w
      = (Ok (events ++ (upserts (omap (day_step host job) days) (cal_events c)).1), w') /\
      w_calendars w'
      = alter_calendar cid
          (fun _ => (upserts (omap (day_step host job) days) (cal_events c)).2)
          (w_calendars w) /\
      w_calendar_faults w' = [].
Proof.
  induction days as [|t days IH]; intros events w c Hf Hc Hval.
  - exists w. cbn. rewrite app_nil_r, (alter_calendar_same cid _ c Hc). auto.
  - apply Forall_cons in Hval as [[[st Hst] [en Hen]] Hval].
    cbn [range_loop]. unfold day_job in Hst, Hen.
    destruct (Js.truthy (dailyJob job (dateStr_of t) !! "date")) eqn:Hdate.
    + assert (Hstep : day_step host job t
                      = Some (derived_id job (dateStr_of t),
                              composeEvent (day_job job t) st en)).
      { unfold day_step, day_job. rewrite Hdate, Hst, Hen. reflexivity. }
      rewrite (omap_cons_Some _ _ _ _ Hstep).
      destruct (createSingleDateEvent_ok host (dailyJob job (dateStr_of t)) cid w c
                  st en Hdate Hst Hen Hf Hc) as (w1 & Hrun & Hcal & Hf1).
      fold (day_job job t) in Hrun, Hcal. rewrite day_job_id in Hrun, Hcal.
      fold (day_job job t).
      set (k := upsert_id (Some (derived_id job (dateStr_of t))) (cal_events c)) in *.
      set (ev := composeEvent (day_job job t) st en) in *.
      erewrite bind_Ok by exact Hrun.
      pose proof (find_calendar_alter cid (<[k := ev]>) _ c Hc) as Hc1.
      rewrite <- Hcal in Hc1.
      destruct (IH (events ++ [(k, ev)]) w1 _ Hf1 Hc1 Hval) as (w' & Hloop & Hcal' & Hf').
      cbn [cal_events] in Hloop, Hcal'.
      exists w'. cbn [upserts fst snd]. split; [|split].
      * rewrite Hloop, <- app_assoc. reflexivity.
      * rewrite Hcal', Hcal, alter_calendar_twice. reflexivity.
      * exact Hf'.
    + assert (Hskip : createSingleDateEvent host (dailyJob job (dateStr_of t)) cid w
                      = (Ok None,
                         record (ConsoleWarn "No scheduled date provided for calendar sync")
                           w)).
      { unfold createSingleDateEvent. rewrite Hdate. reflexivity. }
      assert (Hstep : day_step host job t = None).
      { unfold day_step. rewrite Hdate. reflexivity. }
      rewrite (omap_cons_None _ _ _ Hstep).
      erewrite bind_Ok by exact Hskip.
      destruct (IH events
                  (record (ConsoleWarn "No scheduled date provided for calendar sync") w)
                  c Hf Hc Hval) as (w' & Hloop & Hcal' & Hf').
      exists w'. split; [exact Hloop|]. split; [exact Hcal' | exact Hf'].
Qed.

(** A range job is handed to [createDateRangeEvents], which runs the loop
    over the days from the start date to the end date. *)
Lemma syncJobToCalendar_range (host : Host) (job : Job) (cid : string) (sd ed : Z)
    (w : World) :
  team_calendar (calendarIds host) (repairTeam (job !! "team")) = Some cid ->
  cid <> "" ->
  is_range job = true ->
  Date_parse host (default "" (job !! "start_date")) = Some sd ->
  Date_parse host (default "" (job !! "end_date")) = Some ed ->
  syncJobToCalendar host job w
  = match range_loop host job cid (range_days host sd ed) [] w with
    | (Ok es, w') => (Ok (SyncEvents es), w')
    | (Throw e, w') =>
        (Throw e, record (ConsoleError ("Error syncing to calendar: " +:+ err_message e)) w')
    end.
Proof.
  intros Hteam Hcid Hrange Hsd Hed.
  unfold syncJobToCalendar, try_catch, table_get. rewrite Hteam.
  destruct (String.eqb_spec cid "") as [E | _]; [contradiction|].
  pose proof Hrange as Hr. unfold is_range in Hr. rewrite Hr.
  apply andb_prop in Hr as [Hr Hend]. apply andb_prop in Hr as [_ Hstart].
  unfold bind, createDateRangeEvents. rewrite Hstart, Hend, Hsd, Hed. cbn [negb orb].
  destruct (range_loop host job cid (range_days host sd ed) [] w) as [[es | e] w'];
    reflexivity.
Qed.

(** Two syncs of a range, on a calendar service that answers. *)
Lemma range_upsert_twice (host : Host) (job : Job) (cid : string) (days : list Z)
    (w : World) (c : Calendar) :
  w_calendar_faults w = [] ->
  find_calendar cid (w_calendars w) = Some c ->
  times_validate host job days ->
  titles_apart job days ->
  at_most_one_event_a_day job days (cal_events c) ->
  exists evs w1 w2,
    range_loop host job cid days [] w = (Ok evs, w1) /\
    range_loop host job cid days [] w1 = (Ok evs, w2) /\
    w_calendars w2 = w_calendars w1 /\
    Forall (fun ev : CalEvent => events_of cid w1 !! ev.1 = Some ev.2) evs /\
    (forall t, t ∈ days -> Js.truthy (day_job job t !! "date") = true ->
       exists ev, ev ∈ evs /\
                  has_job_id (day_job job t !! "job_id") ev = true /\
                  forall k e, events_of cid w1 !! k = Some e ->
                              has_job_id (day_job job t !! "job_id") (k, e) = true ->
                              k = ev.1).
Proof.
  intros Hf Hc Hval Hapart Hone.
  set (steps := omap (day_step host job) days).
  destruct (upserts_idempotent steps (cal_events c)
              (day_steps_titled host job days) (day_steps_apart host job days Hapart)
              (day_steps_at_most_one host job days _ Hone)) as (Hagain & Hstored & Honly).
  destruct (range_loop_upserts host job cid days [] w c Hf Hc Hval)
    as (w1 & Hrun1 & Hcal1 & Hf1).
  fold steps in Hrun1, Hcal1.
  pose proof (find_calendar_alter cid (fun _ => (upserts steps (cal_events c)).2) _ c Hc)
    as Hc1.
  rewrite <- Hcal1 in Hc1.
  destruct (range_loop_upserts host job cid days [] w1 _ Hf1 Hc1 Hval)
    as (w2 & Hrun2 & Hcal2 & Hf2).
  fold steps in Hrun2, Hcal2. cbn [cal_events] in Hrun2, Hcal2.
  rewrite Hagain in Hrun2, Hcal2.
  assert (Hev1 : events_of cid w1 = (upserts steps (cal_events c)).2).
  { unfold events_of. rewrite Hc1. reflexivity. }
  exists (upserts steps (cal_events c)).1, w1, w2. split; [exact Hrun1|].
  split; [exact Hrun2|]. split; [|split].
  - rewrite Hcal2. exact (alter_calendar_same cid _ _ Hc1).
  - rewrite Hev1. exact Hstored.
  - intros t Ht Hdate. rewrite Hev1.
    apply Forall_forall with (x := t) in Hval as [[st Hst] [en Hen]]; [|exact Ht].
    assert (Hstep : day_step host job t
                    = Some (derived_id job (dateStr_of t), composeEvent (day_job job t) st en)).
    { unfold day_step. unfold day_job in Hdate, Hst, Hen. rewrite Hdate, Hst, Hen.
      reflexivity. }
    assert (Hs : (derived_id job (dateStr_of t), composeEvent (day_job job t) st en) ∈ steps).
    { apply list_elem_of_omap. exists t. split; assumption. }
    destruct (Honly _ Hs) as (k & Hin & Huniq). cbn [fst snd] in Hin, Huniq.
    exists (k, composeEvent (day_job job t) st en). split; [exact Hin|].
    rewrite day_job_id. split; [|exact Huniq].
    rewrite <- day_job_id. apply composeEvent_has_job_id.
Qed.

(** ** Idempotent upsert *)

Lemma sync_twice_event_ids (host : Host) (job : Job) (w : World) :
  sync_twice_same_event host job w ->
  returned_ids (syncJobToCalendar host job w).1
  = returned_ids (syncJobToCalendar host job (syncJobToCalendar host job w).2).1.
Proof. intros (ev & w1 & w2 & H1 & H2 & _). rewrite H1. cbn [fst snd]. rewrite H2. reflexivity. Qed.

Lemma sync_twice_events_ids (host : Host) (job : Job) (w : World) :
  sync_twice_same_events host job w ->
  returned_ids (syncJobToCalendar host job w).1
  = returned_ids (syncJobToCalendar host job (syncJobToCalendar host job w).2).1.
Proof. intros (ev & w1 & w2 & H1 & H2 & _). rewrite H1. cbn [fst snd]. rewrite H2. reflexivity. Qed.

Lemma ten_untitled_no_title (jid : option string) (k : string) (e : Event) :
  events_of "queue-a@group.calendar" ten_untitled_world !! k = Some e ->
  has_job_id jid (k, e) = false.
Proof.
  intros H. apply elem_of_list_to_map_2 in H. vm_compute in H.
  repeat (apply elem_of_cons in H as [H | H]; [injection H as -> ->; reflexivity|]).
  apply elem_of_nil in H. contradiction.
Qed.

(** The restrictions of the amended claim are needed. With [example_job],
    whose team resolves to the queue calendar and whose date is usable:
    - a search that fails is taken for "no event", and the job is inserted a
      second time;
    - with two events of the job in the calendar the first sync moves the
      earlier one behind the other, which the second sync then picks;
    - on a service that does not hold the calendar, sync throws;
    - with a start time that does not validate, sync throws;
    - with an empty job id, or none, the search selects every event and
      returns the ten earliest, and behind ten earlier events without a title
      the event of the job is not found again: each sync inserts an event,
      in a calendar that holds no event with the job id in its title.
    For a range job:
    - if the text of the customer is the derived id of the second day, then
      on an empty calendar the second day finds the event of the first day
      and overwrites it, and the second sync returns other events than the
      first;
    - with two events of the first day in the calendar, the two syncs pick
      different ones for that day;
    - a start date that does not parse makes sync throw, and so does a start
      time that does not validate. *)
Lemma C1_duplicate_counterexample :
  team_calendar (calendarIds example_host) (repairTeam (example_job !! "team"))
  = Some "queue-a@group.calendar" /\
  Js.truthy (example_job !! "date") = true /\
  ~ sync_twice_same_event example_host example_job search_fails_world /\
  ~ sync_twice_same_event example_host example_job two_events_world /\
  (syncJobToCalendar example_host example_job no_calendar_world).1
  = Throw {| err_code := Some 404%Z; err_message := "Not Found" |} /\
  (syncJobToCalendar example_host (<["start_time" := "25:00"]> example_job)
     example_range_world).1
  = Throw (Error "Invalid date or time format provided") /\
  (at_most_one_event (Some "") (events_of "queue-a@group.calendar" ten_untitled_world) /\
   ~ sync_twice_same_event example_host (<["job_id" := ""]> example_job)
       ten_untitled_world) /\
  (at_most_one_event None (events_of "queue-a@group.calendar" ten_untitled_world) /\
   ~ sync_twice_same_event example_host (delete "job_id" example_job) ten_untitled_world) /\
  (is_range echo_range_job = true /\
   ~ sync_twice_same_events example_host echo_range_job example_range_world) /\
  ~ sync_twice_same_events example_host example_range_job two_day_events_world /\
  (syncJobToCalendar example_host (<["start_date" := "soon"]> example_range_job)
     example_range_world).1
  = Throw (Error "Invalid date format in start_date or end_date") /\
  (syncJobToCalendar example_host (<["start_time" := "25:00"]> example_range_job)
     example_range_world).1
  = Throw (Error "Invalid date or time format provided").
Proof.
  split; [reflexivity|]. split; [reflexivity|].
  split; [intros H; apply sync_twice_event_ids in H; vm_compute in H; discriminate H|].
  split; [intros H; apply sync_twice_event_ids in H; vm_compute in H; discriminate H|].
  split; [vm_compute; reflexivity|]. split; [vm_compute; reflexivity|].
  split; [split|].
  { intros k1 e1 k2 e2 H1 _ P1 _.
    rewrite (ten_untitled_no_title (Some "") k1 e1 H1) in P1. discriminate P1. }
  { intros H; apply sync_twice_event_ids in H; vm_compute in H; discriminate H. }
  split; [split|].
  { intros k1 e1 k2 e2 H1 _ P1 _.
    rewrite (ten_untitled_no_title None k1 e1 H1) in P1. discriminate P1. }
  { intros H; apply sync_twice_event_ids in H; vm_compute in H; discriminate H. }
  split; [split; [reflexivity|]|].
  { intros H; apply sync_twice_events_ids in H; vm_compute in H; discriminate H. }
  split; [intros H; apply sync_twice_events_ids in H; vm_compute in H; discriminate H|].
  split; vm_compute; reflexivity.
Qed.

(** C1 (amended). For a job whose team resolves to a calendar that the
    service holds, as long as the requests to the calendar service succeed:
    - a single-date job with a usable date, times that validate and a job id
      that is not empty, on a calendar that holds at most one event whose
      title contains the job id: sync updates that event in place or inserts
      one, so that syncing twice returns the same event id, the second sync
      leaves the calendars unchanged, and the calendar holds exactly one
      event whose title contains the job id;
    - a range job whose start and end date parse and whose times validate on
      every day, where the title of no day contains the derived id of another
      day, on a calendar that holds at most one event for the derived id of
      each day: sync upserts the event of each day under its derived id, so
      that syncing twice returns the same event ids, the second sync leaves
      the calendars unchanged, every returned event is in the calendar, and
      the event returned for a day is the only one whose title contains the
      derived id of the day. *)
Theorem C1_idempotent_upsert (host : Host) (job : Job) (cid : string) (w : World)
    (c : Calendar) :
  team_calendar (calendarIds host) (repairTeam (job !! "team")) = Some cid ->
  cid <> "" ->
  w_calendar_faults w = [] ->
  find_calendar cid (w_calendars w) = Some c ->
  (forall j,
     is_range job = false ->
     Js.truthy (job !! "date") = true ->
     job !! "job_id" = Some j -> j <> "" ->
     is_Some (Date_parse host (startDateTimeStr job)) ->
     is_Some (Date_parse host (endDateTimeStr job)) ->
     at_most_one_event (Some j) (cal_events c) ->
     exists ev w1 w2,
       syncJobToCalendar host job w = (Ok (SyncEvent ev), w1) /\
       syncJobToCalendar host job w1 = (Ok (SyncEvent ev), w2) /\
       w_calendars w2 = w_calendars w1 /\
       events_of cid w1 !! ev.1 = Some ev.2 /\
       has_job_id (Some j) ev = true /\
       (forall k e, events_of cid w1 !! k = Some e -> has_job_id (Some j) (k, e) = true ->
                    k = ev.1)) /\
  (forall sd ed,
     is_range job = true ->
     Date_parse host (default "" (job !! "start_date")) = Some sd ->
     Date_parse host (default "" (job !! "end_date")) = Some ed ->
     times_validate host job (range_days host sd ed) ->
     titles_apart job (range_days host sd ed) ->
     at_most_one_event_a_day job (range_days host sd ed) (cal_events c) ->
     exists evs w1 w2,
       syncJobToCalendar host job w = (Ok (SyncEvents evs), w1) /\
       syncJobToCalendar host job w1 = (Ok (SyncEvents evs), w2) /\
       w_calendars w2 = w_calendars w1 /\
       Forall (fun ev : CalEvent => events_of cid w1 !! ev.1 = Some ev.2) evs /\
       (forall t, t ∈ range_days host sd ed ->
          Js.truthy (day_job job t !! "date") = true ->
          exists ev, ev ∈ evs /\
                     has_job_id (day_job job t !! "job_id") ev = true /\
                     forall k e, events_of cid w1 !! k = Some e ->
                                 has_job_id (day_job job t !! "job_id") (k, e) = true ->
                                 k = ev.1)).
Proof.
  intros Hteam Hcid Hf Hc. split.
  - intros j Hrange Hdate Hj Hne [st Hst] [en Hen] Huniq.
    destruct (upsert_twice host job cid j w c st en Hdate Hj Hne Hst Hen Hf Hc Huniq)
      as (id & w1 & w2 & H1 & H2 & Hcal & Hev & Hone).
    exists (id, composeEvent job st en), w1, w2.
    rewrite !(syncJobToCalendar_single host job cid) by assumption.
    rewrite H1, H2. repeat split; try assumption.
    rewrite <- Hj. apply composeEvent_has_job_id.
  - intros sd ed Hrange Hsd Hed Hval Hapart Hone.
    destruct (range_upsert_twice host job cid (range_days host sd ed) w c
                Hf Hc Hval Hapart Hone) as (evs & w1 & w2 & H1 & H2 & Hcal & Hin & Honly).
    exists evs, w1, w2.
    rewrite !(syncJobToCalendar_range host job cid sd ed) by assumption.
    rewrite H1, H2. repeat split; assumption.
Qed.

Lemma example_range_days :
  range_days example_host 1754006400000 1754179200000
  = [1754006400000; 1754092800000; 1754179200000]%Z.
Proof. vm_compute. reflexivity. Defined.

Lemma C1_idempotent_upsert_witness :
  (exists ev w1 w2,
     syncJobToCalendar example_host example_job
       (example_world [example_job] [empty_calendar "queue-a@group.calendar" "Queue A"])
     = (Ok (SyncEvent ev), w1) /\
     syncJobToCalendar example_host example_job w1 = (Ok (SyncEvent ev), w2) /\
     w_calendars w2 = w_calendars w1 /\
     events_of "queue-a@group.calendar" w1 !! ev.1 = Some ev.2 /\
     has_job_id (Some "JOB-000001") ev = true /\
     (forall k e, events_of "queue-a@group.calendar" w1 !! k = Some e ->
                  has_job_id (Some "JOB-000001") (k, e) = true -> k = ev.1)) /\
  (exists evs w1 w2,
     syncJobToCalendar example_host example_range_job example_range_world
     = (Ok (SyncEvents evs), w1) /\
     syncJobToCalendar example_host example_range_job w1 = (Ok (SyncEvents evs), w2) /\
     w_calendars w2 = w_calendars w1 /\
     Forall (fun ev : CalEvent => events_of "queue-a@group.calendar" w1 !! ev.1 = Some ev.2)
       evs).
Proof.
  split.
  - apply (proj1 (C1_idempotent_upsert example_host example_job "queue-a@group.calendar"
                    (example_world [example_job]
                       [empty_calendar "queue-a@group.calendar" "Queue A"])
                    (empty_calendar "queue-a@group.calendar" "Queue A")
                    eq_refl ltac:(discriminate) eq_refl eq_refl) "JOB-000001").
    + reflexivity.
    + reflexivity.
    + reflexivity.
    + discriminate.
    + apply is_Some_by_eval. vm_compute. reflexivity.
    + apply is_Some_by_eval. vm_compute. reflexivity.
    + intros k1 e1 k2 e2 H1. cbn in H1. rewrite lookup_empty in H1. discriminate H1.
  - destruct (proj2 (C1_idempotent_upsert example_host example_range_job
                       "queue-a@group.calendar" example_range_world
                       (empty_calendar "queue-a@group.calendar" "Queue A")
                       eq_refl ltac:(discriminate) eq_refl eq_refl)
                1754006400000%Z 1754179200000%Z)
      as (evs & w1 & w2 & H1 & H2 & Hcal & Hin & _).
    + reflexivity.
    + vm_compute. reflexivity.
    + vm_compute. reflexivity.
    + unfold times_validate. rewrite example_range_days.
      repeat (apply Forall_cons_2; [split; apply is_Some_by_eval; vm_compute; reflexivity|]).
      apply Forall_nil_2.
    + intros t t'. rewrite example_range_days. intros Ht Ht' Hhas.
      repeat (apply elem_of_cons in Ht as [-> | Ht]);
        try (apply elem_of_nil in Ht; contradiction);
        repeat (apply elem_of_cons in Ht' as [-> | Ht']);
        try (apply elem_of_nil in Ht'; contradiction);
        try reflexivity; vm_compute in Hhas; discriminate Hhas.
    + intros t _ k1 e1 k2 e2 H1. cbn in H1. rewrite lookup_empty in H1. discriminate H1.
    + exists evs, w1, w2. repeat split; assumption.
Defined.

(** ** No-op and failure of sync *)

(** C7. A job whose (repaired) team has no calendar (its name is no key of
    the table and no member of [Object.prototype], or the entry is unset or
    empty) and a job with no usable schedule date make sync a no-op: it
    returns null, with a warning as the only trace and both services
    untouched. A team named like a member of [Object.prototype] makes sync
    throw a type error, with the report of the error as the only trace. A
    date-time that the host cannot parse makes sync throw 'Invalid date or
    time format provided', again with nothing but the trace changed; this is
    judged on the date-time built after normalisation, repair and the
    fallback of a time the normaliser rejects to 09:00 or 17:00, so that a job
    whose two times are rejected is given an event from 09:00 to 17:00. The
    null result and the throw are different outcomes for the caller. *)
Theorem C7_noop_versus_failure (host : Host) (job : Job) (w : World) :
  (no_calendar_configured host job ->
   syncJobToCalendar host job w
   = (Ok SyncNull,
      record (ConsoleWarn ("No calendar configured for team: "
                           +:+ Js.template (repairTeam (job !! "team")))) w)) /\
  (inherited_team host job ->
   syncJobToCalendar host job w
   = (Throw (Error "calendarId.substring is not a function"),
      record (ConsoleError
                "Error syncing to calendar: calendarId.substring is not a function") w)) /\
  (forall cid,
     team_calendar (calendarIds host) (repairTeam (job !! "team")) = Some cid ->
     cid <> "" ->
     (schedule_missing job ->
      syncJobToCalendar host job w
      = (Ok SyncNull, record (ConsoleWarn "No scheduled date provided for calendar sync") w)) /\
     (is_range job = false -> Js.truthy (job !! "date") = true -> times_invalid host job ->
      exists w',
        syncJobToCalendar host job w
        = (Throw (Error "Invalid date or time format provided"), w') /\
        only_trace w w') /\
     (forall c st en,
        is_range job = false -> Js.truthy (job !! "date") = true ->
        normalizeTime (Some (repairTimes job).1) = None ->
        normalizeTime (Some (repairTimes job).2) = None ->
        Date_parse host (default "" (job !! "date") +:+ "T09:00:00+07:00") = Some st ->
        Date_parse host (default "" (job !! "date") +:+ "T17:00:00+07:00") = Some en ->
        w_calendar_faults w = [] ->
        find_calendar cid (w_calendars w) = Some c ->
        exists id w',
          syncJobToCalendar host job w
          = (Ok (SyncEvent (id, composeEvent job st en)), w'))) /\
  (forall e : JsError, @Ok SyncResult SyncNull <> Throw e).
Proof.
  split; [|split; [|split]].
  - intros [Hnone | Hempty]; unfold syncJobToCalendar, try_catch.
    + rewrite Hnone. reflexivity.
    + rewrite Hempty. reflexivity.
  - intros Hproto. unfold inherited_team in Hproto.
    unfold syncJobToCalendar, try_catch. rewrite Hproto. reflexivity.
  - intros cid Hteam Hcid. split; [|split].
    + intros [Hrange Hdate].
      rewrite (syncJobToCalendar_single host job cid) by assumption.
      unfold createSingleDateEvent. rewrite Hdate. reflexivity.
    + intros Hrange Hdate Hinvalid.
      rewrite (syncJobToCalendar_single host job cid) by assumption.
      unfold createSingleDateEvent. rewrite Hdate. cbn [negb].
      match goal with
      | |- context [bind (warn_unparsed _) (fun _ => bind (warn_unparsed _) (fun _ => ?k))] =>
          destruct (warn_times_run job k w) as (w0 & -> & Hw0)
      end.
      eexists. split.
      * destruct Hinvalid as [H | H]; rewrite H;
          destruct (Date_parse host (startDateTimeStr job)); reflexivity.
      * destruct Hw0 as (?&?&?&?&?&?). repeat split; assumption.
    + intros c st en Hrange Hdate Hn1 Hn2 Hst Hen Hf Hc.
      rewrite (syncJobToCalendar_single host job cid) by assumption.
      assert (Hst' : Date_parse host (startDateTimeStr job) = Some st).
      { unfold startDateTimeStr. rewrite Hn1. exact Hst. }
      assert (Hen' : Date_parse host (endDateTimeStr job) = Some en).
      { unfold endDateTimeStr. rewrite Hn2. exact Hen. }
      destruct (createSingleDateEvent_ok host job cid w c st en Hdate Hst' Hen' Hf Hc)
        as (w' & Hrun & _).
      rewrite Hrun. eexists _, w'. reflexivity.
  - intros e. discriminate.
Qed.

Lemma C7_noop_versus_failure_witness :
  (syncJobToCalendar example_host (<["team" := "ทีม C"]> example_job) (example_world [] [])).1
  = Ok SyncNull /\
  (syncJobToCalendar example_host (<["team" := "constructor"]> example_job)
     (example_world [] [])).1
  = Throw (Error "calendarId.substring is not a function") /\
  (syncJobToCalendar example_host (delete "date" example_job) (example_world [] [])).1
  = Ok SyncNull /\
  (syncJobToCalendar example_host (<["start_time" := "25:00"]> example_job)
     (example_world [] [])).1
  = Throw (Error "Invalid date or time format provided") /\
  (exists id w',
     syncJobToCalendar example_host
       (<["start_time" := "9am"]> (<["end_time" := "5pm"]> example_job)) example_range_world
     = (Ok (SyncEvent
              (id, composeEvent (<["start_time" := "9am"]> (<["end_time" := "5pm"]> example_job))
                     1755309600000 1755338400000)), w')).
Proof.
  split; [|split; [|split; [|split]]].
  - rewrite (proj1 (C7_noop_versus_failure example_host (<["team" := "ทีม C"]> example_job)
                      (example_world [] []))); [reflexivity|].
    left. vm_compute. reflexivity.
  - rewrite (proj1 (proj2 (C7_noop_versus_failure example_host
                             (<["team" := "constructor"]> example_job)
                             (example_world [] [])))); [reflexivity|].
    vm_compute. reflexivity.
  - assert (Hteam : team_calendar (calendarIds example_host)
                      (repairTeam (delete "date" example_job !! "team"))
                    = Some "queue-a@group.calendar") by reflexivity.
    destruct (proj1 (proj2 (proj2 (C7_noop_versus_failure example_host
                                     (delete "date" example_job) (example_world [] []))))
                "queue-a@group.calendar" Hteam ltac:(discriminate)) as [Hnoop _].
    rewrite Hnoop; [reflexivity|]. split; reflexivity.
  - assert (Hteam : team_calendar (calendarIds example_host)
                      (repairTeam (<["start_time" := "25:00"]> example_job !! "team"))
                    = Some "queue-a@group.calendar") by reflexivity.
    destruct (proj1 (proj2 (proj2 (C7_noop_versus_failure example_host
                                     (<["start_time" := "25:00"]> example_job)
                                     (example_world [] []))))
                "queue-a@group.calendar" Hteam ltac:(discriminate)) as [_ [Hfail _]].
    destruct Hfail as (w' & Hfail & _); [reflexivity | reflexivity | left; reflexivity |].
    rewrite Hfail. reflexivity.
  - assert (Hteam : team_calendar (calendarIds example_host)
                      (repairTeam (<["start_time" := "9am"]> (<["end_time" := "5pm"]> example_job)
                                   !! "team"))
                    = Some "queue-a@group.calendar") by reflexivity.
    destruct (proj1 (proj2 (proj2 (C7_noop_versus_failure example_host
                                     (<["start_time" := "9am"]> (<["end_time" := "5pm"]> example_job))
                                     example_range_world)))
                "queue-a@group.calendar" Hteam ltac:(discriminate)) as [_ [_ Hdefault]].
    apply (Hdefault (empty_calendar "queue-a@group.calendar" "Queue A")).
    + reflexivity.
    + reflexivity.
    + vm_compute. reflexivity.
    + vm_compute. reflexivity.
    + vm_compute. reflexivity.
    + vm_compute. reflexivity.
    + reflexivity.
    + reflexivity.
Defined.

(** ** The next job id *)

Lemma digit_cases (c : ascii) :
  Js.is_digit c = true ->
  In c ["0"; "1"; "2"; "3"; "4"; "5"; "6"; "7"; "8"; "9"]%char.
Proof.
  intros H. destruct c as [[] [] [] [] [] [] [] []]; try discriminate H;
    cbn; repeat first [left; reflexivity | right].
Qed.

Ltac digit_split c H :=
  let Hin := fresh "Hin" in
  pose proof (digit_cases c H) as Hin; cbn [In] in Hin;
  repeat (destruct Hin as [<- | Hin]); [..|contradiction].

Lemma strip_any_digit (c : ascii) (s : list ascii) :
  Js.is_digit c = true ->
  Js.strip_any Js.white_space (c :: s) = None /\
  Js.strip_any (map (@rev ascii) Js.white_space) (c :: s) = None.
Proof.
  intros H. digit_split c H; split; reflexivity.
Qed.

Lemma digit_value_digit (c : ascii) :
  Js.is_digit c = true ->
  exists d, Js.digit_value c = Some d /\ JsDate.digit_val c = Some d /\ (0 <= d < 10)%Z.
Proof.
  intros H. digit_split c H; eexists; (split; [reflexivity|]); (split; [reflexivity|]);
    vm_compute; (split; [intros ?; discriminate | reflexivity]).
Qed.

Lemma read_digits_all (s : list ascii) (acc : Z) :
  all_digits s = true ->
  exists n, Js.read_digits 10 (Some acc) s = Some n /\ JsDate.number_of acc s = Some n.
Proof.
  revert acc. induction s as [|c s IH]; intros acc H; cbn in *.
  - exists acc. split; reflexivity.
  - apply andb_prop in H as [Hc Hs].
    destruct (digit_value_digit c Hc) as (d & -> & -> & Hd).
    assert ((d <? 10)%Z = true) as -> by lia.
    cbn [default from_option id]. apply IH. exact Hs.
Qed.

(** A non-empty run of decimal digits is read as the number it writes. *)
Lemma parseInt_digits (c : ascii) (s : list ascii) :
  all_digits (c :: s) = true ->
  Js.read_int (String.string_of_list_ascii (c :: s)) = JsDate.number_of 0 (c :: s)
  /\ is_Some (JsDate.number_of 0 (c :: s)).
Proof.
  intros H. pose proof H as Hall. cbn in H. apply andb_prop in H as [Hc Hs].
  unfold Js.read_int. rewrite String.list_ascii_of_string_of_list_ascii.
  unfold Js.trimStart_bytes. cbn [length Js.drop_leading].
  rewrite (proj1 (strip_any_digit c s Hc)).
  assert (Hsign : Ascii.eqb c "-" = false /\ Ascii.eqb c "+" = false).
  { digit_split c Hc; split; reflexivity. }
  destruct Hsign as [-> ->].
  assert (Hradix : (match c :: s with
                    | z :: x :: s' =>
                        if Ascii.eqb z "0" && (Ascii.eqb x "x" || Ascii.eqb x "X")
                        then (16%Z, s') else (10%Z, c :: s)
                    | _ => (10%Z, c :: s)
                    end) = (10%Z, c :: s)).
  { destruct s as [|x s']; [reflexivity|]. cbn in Hs. apply andb_prop in Hs as [Hx _].
    assert (Ascii.eqb x "x" = false /\ Ascii.eqb x "X" = false) as [-> ->].
    { digit_split x Hx; split; reflexivity. }
    rewrite andb_false_r. reflexivity. }
  rewrite Hradix.
  cbn [Js.read_digits].
  destruct (digit_value_digit c Hc) as (d & Hd1 & Hd2 & Hd).
  rewrite Hd1. assert ((d <? 10)%Z = true) as -> by lia.
  cbn [default from_option id JsDate.number_of]. rewrite Hd2.
  destruct (read_digits_all s (10 * 0 + d)%Z Hs) as (n & -> & ->).
  split; [reflexivity | eexists; reflexivity].
Qed.

Lemma number_of_nonneg (s : list ascii) (acc n : Z) :
  JsDate.number_of acc s = Some n -> (0 <= acc)%Z -> (0 <= n)%Z.
Proof.
  revert acc. induction s as [|c s IH]; intros acc H Hacc; cbn in H.
  - injection H as <-. exact Hacc.
  - unfold JsDate.digit_val in H. destruct (Js.is_digit c) eqn:Hc; [|discriminate H].
    destruct (digit_value_digit c Hc) as (d & _ & Hd & Hr).
    unfold JsDate.digit_val in Hd. rewrite Hc in Hd. injection Hd as Hd.
    rewrite Hd in H. eapply IH; [exact H | lia].
Qed.

Lemma numeric_suffix_nonneg (jid : string) : (0 <= numeric_suffix jid)%Z.
Proof.
  unfold numeric_suffix.
  destruct (JsDate.number_of 0 (String.list_ascii_of_string (Js.slice_from 4 jid))) eqn:E;
    cbn; [|lia].
  eapply number_of_nonneg; [exact E | lia].
Qed.

Lemma max_suffix_cons (job : Job) (jobs : list Job) :
  max_suffix (job :: jobs)
  = if well_formed_id (default "" (job !! "job_id"))
    then Z.max (numeric_suffix (default "" (job !! "job_id"))) (max_suffix jobs)
    else max_suffix jobs.
Proof. reflexivity. Qed.

Lemma max_suffix_nonneg (jobs : list Job) : (0 <= max_suffix jobs)%Z.
Proof.
  induction jobs as [|job jobs IH]; [cbn; lia|]. rewrite max_suffix_cons.
  destruct (well_formed_id (default "" (job !! "job_id"))); lia.
Qed.

Lemma number_of_bound (s : list ascii) (acc n : Z) :
  JsDate.number_of acc s = Some n -> (0 <= acc)%Z ->
  (n < (acc + 1) * 10 ^ Z.of_nat (length s))%Z.
Proof.
  revert acc. induction s as [|c s IH]; intros acc H Hacc; cbn [JsDate.number_of] in H.
  - injection H as <-. cbn. lia.
  - unfold JsDate.digit_val in H. destruct (Js.is_digit c) eqn:Hc; [|discriminate H].
    destruct (digit_value_digit c Hc) as (d & _ & Hd & Hr).
    unfold JsDate.digit_val in Hd. rewrite Hc in Hd. injection Hd as Hd.
    rewrite Hd in H. apply IH in H; [|lia].
    cbn [length]. rewrite Nat2Z.inj_succ, Z.pow_succ_r by lia.
    assert (0 < 10 ^ Z.of_nat (length s))%Z by (apply Z.pow_pos_nonneg; lia).
    nia.
Qed.

(** A well-formed id passes the guard and is read as its numeric suffix,
    which is below a million. *)
Lemma id_number_well_formed (job : Job) (jid : string) :
  job !! "job_id" = Some jid ->
  well_formed_id jid = true ->
  id_number job = Some (numeric_suffix jid) /\ (numeric_suffix jid < 1000000)%Z.
Proof.
  intros Hid Hwf. unfold id_number, numeric_suffix. rewrite Hid. cbn [default from_option id].
  unfold well_formed_id in Hwf.
  apply andb_prop in Hwf as [Hwf Hdigits]. apply andb_prop in Hwf as [Hprefix Hlen].
  destruct jid as [|c1 [|c2 [|c3 [|c4 [|d1 [|d2 [|d3 [|d4 [|d5 [|d6 [|]]]]]]]]]]];
    cbn in Hlen; try discriminate Hlen.
  apply String.prefix_correct in Hprefix. cbn in Hprefix.
  injection Hprefix as -> -> -> ->.
  cbn [Js.slice_from String.list_ascii_of_string] in *.
  assert (Hd6 : Js.is_digit d6 = true).
  { cbn in Hdigits. repeat (apply andb_prop in Hdigits as [? Hdigits]). assumption. }
  assert (Hguard : Js.truthy (Some (String "J" (String "O" (String "B" (String "-"
                      (String d1 (String d2 (String d3 (String d4 (String d5
                         (String d6 "")))))))))))
                   && negb (String.eqb (Js.trim (String "J" (String "O" (String "B" (String "-"
                      (String d1 (String d2 (String d3 (String d4 (String d5
                         (String d6 ""))))))))))) "")
                   && negb (String.eqb (String "J" (String "O" (String "B" (String "-"
                      (String d1 (String d2 (String d3 (String d4 (String d5
                         (String d6 "")))))))))) "/")
                   && Js.startsWith (String "J" (String "O" (String "B" (String "-"
                      (String d1 (String d2 (String d3 (String d4 (String d5
                         (String d6 "")))))))))) "JOB-" = true).
  { digit_split d6 Hd6; reflexivity. }
  rewrite Hguard.
  change (Js.replace_first "JOB-" ""
            (String "J" (String "O" (String "B" (String "-"
               (String d1 (String d2 (String d3 (String d4 (String d5 (String d6 "")))))))))))
    with (String.string_of_list_ascii [d1; d2; d3; d4; d5; d6]).
  destruct (parseInt_digits d1 [d2; d3; d4; d5; d6] Hdigits) as [-> [n Hn]].
  rewrite Hn. cbn [default from_option id]. split; [reflexivity|].
  apply number_of_bound in Hn; [|lia]. cbn in Hn. lia.
Qed.

Lemma id_number_skipped (job : Job) :
  skipped_id (job !! "job_id") = true -> id_number job = None.
Proof.
  unfold skipped_id, id_number. intros H.
  destruct (Js.truthy (job !! "job_id")); [|reflexivity].
  destruct (String.eqb (Js.trim (default "" (job !! "job_id"))) ""); [reflexivity|].
  destruct (String.eqb (default "" (job !! "job_id")) "/"); [reflexivity|].
  destruct (Js.startsWith (default "" (job !! "job_id")) "JOB-"); [discriminate H|reflexivity].
Qed.

Lemma well_formed_present (job : Job) :
  well_formed_id (default "" (job !! "job_id")) = true ->
  job !! "job_id" = Some (default "" (job !! "job_id")).
Proof. destruct (job !! "job_id"); [reflexivity | discriminate]. Qed.

Lemma foldl_next_max (jobs : list Job) (maxId : Z) :
  ids_well_formed_or_skipped jobs = true ->
  (0 <= maxId)%Z ->
  foldl next_max_exact maxId jobs = Z.max maxId (max_suffix jobs).
Proof.
  revert maxId. induction jobs as [|job jobs IH]; intros maxId Hall Hm.
  - cbn. lia.
  - cbn in Hall. apply andb_prop in Hall as [Hjob Hall]. cbn [foldl].
    rewrite max_suffix_cons. pose proof (max_suffix_nonneg jobs) as Hnn.
    unfold next_max_exact at 2.
    destruct (well_formed_id (default "" (job !! "job_id"))) eqn:Hwf.
    + rewrite (proj1 (id_number_well_formed job _ (well_formed_present job Hwf) Hwf)).
      pose proof (numeric_suffix_nonneg (default "" (job !! "job_id"))).
      rewrite IH by (assumption || lia). lia.
    + cbn in Hjob. rewrite (id_number_skipped job Hjob). apply IH; assumption.
Qed.

(** *** Numbers below 2^53 *)

Lemma pow_2_53 : (2 ^ 53 = 9007199254740992)%Z.
Proof. reflexivity. Qed.

Lemma Number_of_Z_safe (n : Z) : (0 <= n <= 2 ^ 53)%Z -> Js.Number_of_Z n = Js.Int n.
Proof.
  rewrite pow_2_53. intros Hn. unfold Js.Number_of_Z.
  destruct (Z.leb_spec 0 n) as [_|]; [|lia].
  destruct (Z.eq_dec n 9007199254740992) as [->|Hne]; [vm_compute; reflexivity|].
  unfold Js.round_double. rewrite pow_2_53.
  destruct (Z.ltb_spec n 9007199254740992); [reflexivity | lia].
Qed.

Lemma round_double_nonneg (z v : Z) : (0 <= z)%Z -> Js.round_double z = Some v -> (0 <= v)%Z.
Proof.
  intros Hz. unfold Js.round_double.
  destruct (z <? 2 ^ 53)%Z; [intros [= <-]; exact Hz|].
  set (e := (Z.log2 z - 52)%Z).
  assert (Hq : (0 <= z / 2 ^ e)%Z).
  { destruct (Z_lt_dec e 0) as [Hneg|Hpos].
    - rewrite (Z.pow_neg_r 2 e Hneg). rewrite Z.div_0_r. lia.
    - apply Z.div_pos; [exact Hz | apply Z.pow_pos_nonneg; lia]. }
  assert (Hp : (0 <= 2 ^ e)%Z) by (apply Z.pow_nonneg; lia).
  match goal with
  | |- context [if ?c then Some ?x else None] =>
      destruct c; [intros [= <-] | discriminate]
  end.
  repeat match goal with |- context [if ?c then _ else _] => destruct c end; nia.
Qed.

(** Below 2^53 the maximum is the exact one. *)
Lemma next_max_safe (m : Z) (job : Job) :
  (0 <= m < 2 ^ 53)%Z ->
  (forall n, id_number job = Some n -> (n < 2 ^ 53)%Z) ->
  next_max (Js.Int m) job = Js.Int (next_max_exact m job) /\
  (0 <= next_max_exact m job < 2 ^ 53)%Z.
Proof.
  intros Hm Hsafe.
  assert (Hrun : next_max (Js.Int m) job
                 = match id_number job with
                   | Some n => if Js.gt (Js.Number_of_Z n) (Js.Int m)
                               then Js.Number_of_Z n else Js.Int m
                   | None => Js.Int m
                   end).
  { unfold next_max, id_number, Js.parseInt.
    destruct (Js.truthy (job !! "job_id")
              && negb (String.eqb (Js.trim (default "" (job !! "job_id"))) "")
              && negb (String.eqb (default "" (job !! "job_id")) "/")
              && Js.startsWith (default "" (job !! "job_id")) "JOB-"); [|reflexivity].
    destruct (Js.read_int (Js.replace_first "JOB-" "" (default "" (job !! "job_id"))));
      reflexivity. }
  rewrite Hrun. unfold next_max_exact.
  destruct (id_number job) as [n|]; [|split; [reflexivity | exact Hm]].
  specialize (Hsafe n eq_refl).
  destruct (Z_le_dec 0 n) as [Hpos|Hneg].
  - rewrite Number_of_Z_safe by lia. cbn [Js.gt].
    destruct (Z.ltb_spec m n); split; try lia; f_equal; lia.
  - assert (Hgt : Js.gt (Js.Number_of_Z n) (Js.Int m) = false).
    { unfold Js.Number_of_Z. destruct (Z.leb_spec 0 n) as [|_]; [lia|].
      destruct (Js.round_double (- n)) as [v|] eqn:Ev; [|reflexivity].
      apply round_double_nonneg in Ev; [|lia]. cbn [Js.gt]. apply Z.ltb_ge. lia. }
    rewrite Hgt. split; [f_equal; lia | lia].
Qed.

Lemma foldl_next_max_safe (jobs : list Job) (m : Z) :
  safe_ids jobs ->
  (0 <= m < 2 ^ 53)%Z ->
  foldl next_max (Js.Int m) jobs = Js.Int (foldl next_max_exact m jobs) /\
  (0 <= foldl next_max_exact m jobs < 2 ^ 53)%Z.
Proof.
  revert m. induction jobs as [|job jobs IH]; intros m Hsafe Hm.
  - split; [reflexivity | exact Hm].
  - apply Forall_cons in Hsafe as [Hjob Hsafe]. cbn [foldl].
    destruct (next_max_safe m job Hm Hjob) as [-> Hm']. apply IH; assumption.
Qed.

(** One more than a number below 2^53 is written with all its digits. *)
Lemma Number_toString_add1_safe (m : Z) :
  (0 <= m < 2 ^ 53)%Z -> Js.Number_toString (Js.add1 (Js.Int m)) = pretty (m + 1)%Z.
Proof.
  intros Hm. cbn [Js.add1]. rewrite Number_of_Z_safe by lia.
  rewrite pow_2_53 in Hm. unfold Js.Number_toString, Js.render. rewrite pow_2_53.
  destruct (Z.ltb_spec (m + 1) 0); [lia|].
  destruct (Z.leb_spec (m + 1) 9007199254740992); [|lia].
  destruct (Z.ltb_spec (m + 1) (10 ^ 21)) as [|Hbig]; [reflexivity|].
  change (10 ^ 21)%Z with 1000000000000000000000%Z in Hbig. lia.
Qed.

Lemma safe_ids_perm (l l' : list Job) : l ≡ₚ l' -> safe_ids l -> safe_ids l'.
Proof. unfold safe_ids. intros Hp H. rewrite <- Hp. exact H. Qed.

Lemma well_formed_ids_safe (jobs : list Job) :
  ids_well_formed_or_skipped jobs = true -> safe_ids jobs.
Proof.
  unfold ids_well_formed_or_skipped, safe_ids. intros H. apply Forall_forall. intros row Hrow n Hn.
  rewrite forallb_forall in H. specialize (H row).
  rewrite <- list_elem_of_In in H. specialize (H Hrow).
  apply orb_prop in H as [Hwf | Hskip].
  - destruct (id_number_well_formed row _ (well_formed_present row Hwf) Hwf) as [E Hb].
    rewrite E in Hn. injection Hn as <-. rewrite pow_2_53. lia.
  - rewrite (id_number_skipped row Hskip) in Hn. discriminate Hn.
Qed.

(** The sort of [getAllJobs] reorders the rows and drops none. *)
Lemma listing_perm (host : Host) (rows : list Job) : listing host rows ≡ₚ rows.
Proof. apply Array_sort_permutes. Qed.

Lemma max_suffix_perm (l l' : list Job) : l ≡ₚ l' -> max_suffix l = max_suffix l'.
Proof.
  induction 1 as [|x l l' _ IH|x y l|l l' l'' _ IH1 _ IH2].
  - reflexivity.
  - rewrite !max_suffix_cons, IH. reflexivity.
  - rewrite !max_suffix_cons.
    destruct (well_formed_id (default "" (x !! "job_id"))),
             (well_formed_id (default "" (y !! "job_id"))); lia.
  - congruence.
Qed.

Lemma ids_well_formed_or_skipped_perm (l l' : list Job) :
  l ≡ₚ l' -> ids_well_formed_or_skipped l = true -> ids_well_formed_or_skipped l' = true.
Proof.
  unfold ids_well_formed_or_skipped. intros Hp H.
  apply forallb_forall. intros x Hx. rewrite forallb_forall in H. apply H.
  apply list_elem_of_In. rewrite Hp. apply list_elem_of_In. exact Hx.
Qed.

Lemma getAllJobs_ok (host : Host) (w : World) :
  w_sheets_faults w = [] ->
  getAllJobs host w
  = (Ok (listing host (w_sheet w)), record (Call "sheets.values.get") w).
Proof.
  intros Hf. unfold getAllJobs, values_get_jobs.
  erewrite try_catch_Ok; [reflexivity|].
  erewrite bind_Ok; [reflexivity|].
  erewrite bind_Ok by (apply request_sheets_ok; exact Hf). reflexivity.
Qed.

(** With an id that starts with [JOB-] but is not well formed, [parseInt]
    still reads its leading digits. *)
Lemma C8_malformed_id_counterexample :
  ~ (forall w : World,
       w_sheets_faults w = [] ->
       (getNextJobId example_host w).1 = Ok (claimed_next_id (w_sheet w))).
Proof.
  intros H.
  specialize (H (example_world [ job_of [("job_id", "JOB-000001")];
                                 job_of [("job_id", "JOB-000005x")] ] []) eq_refl).
  vm_compute in H. discriminate H.
Qed.

(** C8 (amended). When every id of the store is a well-formed JOB-###### id
    or one the guard skips (absent or empty, blank, "/", or without the JOB-
    prefix), getNextJobId returns JOB-N with 6-digit zero padding, N being one
    plus the maximum numeric suffix among the well-formed ids; given
    {JOB-000001, JOB-000002, "/", ""} it returns JOB-000003. *)
Theorem C8_next_job_id (host : Host) (w : World) :
  w_sheets_faults w = [] ->
  ids_well_formed_or_skipped (w_sheet w) = true ->
  (getNextJobId host w).1 = Ok (claimed_next_id (w_sheet w)) /\
  (getNextJobId host w).2 = record (Call "sheets.values.get") w /\
  claimed_next_id [ job_of [("job_id", "JOB-000001")]; job_of [("job_id", "JOB-000002")];
                    job_of [("job_id", "/")]; job_of [("job_id", "")] ] = "JOB-000003".
Proof.
  intros Hf Hids. unfold getNextJobId.
  erewrite try_catch_Ok.
  2:{ erewrite bind_Ok by (apply getAllJobs_ok; exact Hf). reflexivity. }
  cbn [fst snd]. split; [|split; reflexivity].
  pose proof (listing_perm host (w_sheet w)) as Hp.
  assert (Hids' : ids_well_formed_or_skipped (listing host (w_sheet w)) = true).
  { eapply ids_well_formed_or_skipped_perm; [symmetry; exact Hp | exact Hids]. }
  destruct (foldl_next_max_safe (listing host (w_sheet w)) 0 (well_formed_ids_safe _ Hids')
              ltac:(rewrite pow_2_53; lia)) as [-> Hb].
  rewrite Number_toString_add1_safe by exact Hb.
  rewrite foldl_next_max by (exact Hids' || lia).
  rewrite (max_suffix_perm _ _ Hp). pose proof (max_suffix_nonneg (w_sheet w)).
  unfold claimed_next_id, format_job_id. rewrite Z.max_r by lia. reflexivity.
Qed.

Lemma C8_next_job_id_witness :
  (getNextJobId example_host
     (example_world [ job_of [("job_id", "JOB-000001")]; job_of [("job_id", "JOB-000002")];
                      job_of [("job_id", "/")]; job_of [("job_id", "")] ] [])).1
  = Ok "JOB-000003".
Proof.
  apply (C8_next_job_id example_host
           (example_world [ job_of [("job_id", "JOB-000001")]; job_of [("job_id", "JOB-000002")];
                            job_of [("job_id", "/")]; job_of [("job_id", "")] ] [])).
  - reflexivity.
  - reflexivity.
Defined.

(** ** The write-back of a range job *)

Lemma getAllJobs_result (host : Host) (w w1 : World) (jobs : list Job) :
  getAllJobs host w = (Ok jobs, w1) -> jobs = listing host (w_sheet w).
Proof.
  unfold getAllJobs, try_catch, values_get_jobs, bind, request_sheets, bind, emit, next_fault,
    get_world, ret, throw. cbn.
  destruct (w_sheets_faults w) as [|[e|] fs]; cbn; intros H; inversion H; reflexivity.
Qed.

Lemma findIndex_absent (jobId : option string) (rows sorted : list Job) :
  id_absent jobId rows -> sorted ≡ₚ rows -> findIndex_job_id jobId sorted = None.
Proof.
  intros Habs Hp. unfold findIndex_job_id. apply list_find_None.
  unfold id_absent in Habs. rewrite <- Hp in Habs. exact Habs.
Qed.

(** With no row of that id, [updateJobEventId] throws and writes nothing. *)
Lemma updateJobEventId_absent (host : Host) (jobId : option string) (eventId : string)
    (w : World) :
  id_absent jobId (w_sheet w) ->
  exists e w',
    updateJobEventId host jobId eventId w = (Throw e, w') /\ w_sheet w' = w_sheet w.
Proof.
  intros Habs. unfold updateJobEventId, try_catch.
  pose proof (preserves_getAllJobs host sheet_kept w) as Hkept.
  unfold bind at 1. destruct (getAllJobs host w) as [[jobs | e] w1] eqn:E; cbn in Hkept.
  - apply getAllJobs_result in E. subst jobs.
    rewrite (findIndex_absent jobId (w_sheet w)) by (exact Habs || apply listing_perm).
    eexists _, _. split; [reflexivity|]. exact Hkept.
  - eexists _, _. split; [reflexivity|]. exact Hkept.
Qed.

(** In a store that can be read the error is 'not found'. *)
Lemma updateJobEventId_not_found (host : Host) (jobId : option string) (eventId : string)
    (w : World) :
  id_absent jobId (w_sheet w) ->
  w_sheets_faults w = [] ->
  updateJobEventId host jobId eventId w
  = (Throw (Error ("Job " +:+ Js.template jobId +:+ " not found")),
     record (ConsoleError ("Error updating job eventId: Job " +:+ Js.template jobId
                           +:+ " not found"))
       (record (Call "sheets.values.get") w)).
Proof.
  intros Habs Hf. unfold updateJobEventId.
  erewrite try_catch_Throw.
  2:{ erewrite bind_Ok by (apply getAllJobs_ok; exact Hf).
      rewrite (findIndex_absent jobId (w_sheet w)) by (exact Habs || apply listing_perm).
      reflexivity. }
  reflexivity.
Qed.

Lemma write_back_keeps_sheet (host : Host) (jobId : option string) (r : CalEvent) (w : World) :
  id_absent jobId (w_sheet w) ->
  w_sheet (write_back host jobId r w).2 = w_sheet w.
Proof.
  intros Habs. unfold write_back. destruct (negb (String.eqb r.1 "")); [|reflexivity].
  destruct (updateJobEventId_absent host jobId r.1 w Habs) as (e & w' & Hrun & Hsheet).
  erewrite try_catch_Throw by (erewrite bind_Throw by exact Hrun; reflexivity).
  exact Hsheet.
Qed.

(** The failed write-back is caught: it leaves two lines in the log and
    nothing else. *)
Lemma write_back_not_found (host : Host) (jobId : option string) (r : CalEvent) (w : World) :
  id_absent jobId (w_sheet w) ->
  w_sheets_faults w = [] ->
  r.1 <> "" ->
  write_back host jobId r w
  = (Ok tt,
     record (ConsoleError ("Failed to update eventId for job " +:+ Js.template jobId
                           +:+ ": Job " +:+ Js.template jobId +:+ " not found"))
       (record (ConsoleError ("Error updating job eventId: Job " +:+ Js.template jobId
                              +:+ " not found"))
          (record (Call "sheets.values.get") w))).
Proof.
  intros Habs Hf Hid. unfold write_back.
  destruct (String.eqb_spec r.1 "") as [E | _]; [contradiction|]. cbn [negb].
  erewrite try_catch_Throw.
  2:{ erewrite bind_Throw by (apply updateJobEventId_not_found; assumption). reflexivity. }
  reflexivity.
Qed.

Lemma preserves_warn_unparsed (R : relation World) `{!PreOrder R} `{!TraceFrame R}
    (time : string) :
  preserves R (warn_unparsed time).
Proof. unfold warn_unparsed. frame. Qed.

Lemma createSingleDateEvent_keeps_sheet (host : Host) (job : Job) (cid : string) (w : World) :
  id_absent (job !! "job_id") (w_sheet w) ->
  w_sheet (createSingleDateEvent host job cid w).2 = w_sheet w.
Proof.
  intros Habs. unfold createSingleDateEvent.
  destruct (negb (Js.truthy (job !! "date"))); [reflexivity|].
  match goal with
  | |- context [bind (warn_unparsed _) (fun _ => bind (warn_unparsed _) (fun _ => ?k))] =>
      destruct (warn_times_run job k w) as (w0 & -> & (Hs0 & _))
  end.
  rewrite <- Hs0. rewrite <- Hs0 in Habs. clear Hs0.
  destruct (Date_parse host (startDateTimeStr job)) as [st|];
    [destruct (Date_parse host (endDateTimeStr job)) as [en|]|]; try reflexivity.
  pose proof (preserves_upsert sheet_kept cid (job !! "job_id") (composeEvent job st en) w0)
    as Hup.
  unfold bind at 1.
  destruct (upsert cid (job !! "job_id") (composeEvent job st en) w0) as [[r | e] w1];
    cbn in Hup; [|exact Hup].
  unfold sheet_kept in Hup. rewrite <- Hup in Habs.
  pose proof (write_back_keeps_sheet host (job !! "job_id") r w1 Habs) as Hwb.
  pose proof (write_back_returns host (job !! "job_id") r w1) as Hret.
  unfold bind. destruct (write_back host (job !! "job_id") r w1) as [[[]|e] w2];
    cbn in *; congruence.
Qed.

Lemma derived_id_absent (job : Job) (dateStr : string) (rows : list Job) :
  no_derived_ids job rows = true ->
  id_absent (dailyJob job dateStr !! "job_id") rows.
Proof.
  unfold no_derived_ids, id_absent, dailyJob. intros H. rewrite lookup_insert_eq.
  apply Forall_forall. intros row Hrow Heq.
  rewrite forallb_forall in H. specialize (H row).
  rewrite <- list_elem_of_In in H. specialize (H Hrow).
  rewrite Heq in H. cbn [default from_option id] in H.
  unfold Js.startsWith, derived_id in H. rewrite <- string_app_assoc, prefix_app in H.
  discriminate H.
Qed.

Lemma range_loop_keeps_sheet (host : Host) (job : Job) (cid : string) (days : list Z)
    (events : list CalEvent) (w : World) :
  no_derived_ids job (w_sheet w) = true ->
  w_sheet (range_loop host job cid days events w).2 = w_sheet w.
Proof.
  revert events w. induction days as [|t days IH]; intros events w Hno; [reflexivity|].
  cbn [range_loop].
  pose proof (createSingleDateEvent_keeps_sheet host (dailyJob job (dateStr_of t)) cid w
                (derived_id_absent job (dateStr_of t) (w_sheet w) Hno)) as Hstep.
  unfold bind.
  destruct (createSingleDateEvent host (dailyJob job (dateStr_of t)) cid w) as [[ev | e] w1];
    cbn in Hstep; [|exact Hstep].
  rewrite <- Hstep. apply IH. rewrite Hstep. exact Hno.
Qed.

Lemma createDateRangeEvents_keeps_sheet (host : Host) (job : Job) (cid : string) (w : World) :
  no_derived_ids job (w_sheet w) = true ->
  w_sheet (createDateRangeEvents host job cid w).2 = w_sheet w.
Proof.
  intros Hno. unfold createDateRangeEvents.
  destruct (negb (Js.truthy (job !! "start_date")) || negb (Js.truthy (job !! "end_date")));
    [reflexivity|].
  destruct (Date_parse host (default "" (job !! "start_date"))) as [st|];
    [destruct (Date_parse host (default "" (job !! "end_date"))) as [en|]|]; try reflexivity.
  apply range_loop_keeps_sheet. exact Hno.
Qed.

(** C10. For a date-range job every per-day event is created under the derived
    identifier "{job_id}-{date}" and the write-back passes that identifier to
    updateJobEventId. When no record of the store carries such an identifier
    (as in a store of JOB-###### ids), updateJobEventId throws 'Job ... not
    found', the write-back catches the error and only logs it, and the range
    sync as a whole leaves every row of the store, the eventId field included,
    unchanged. *)
Theorem C10_range_write_back_never_lands (host : Host) (job : Job) (w : World) :
  is_range job = true ->
  no_derived_ids job (w_sheet w) = true ->
  w_sheet (syncJobToCalendar host job w).2 = w_sheet w /\
  (forall dateStr : string,
     dailyJob job dateStr !! "job_id" = Some (derived_id job dateStr) /\
     forall (r : CalEvent) (w1 : World),
       w_sheet w1 = w_sheet w -> w_sheets_faults w1 = [] -> r.1 <> "" ->
       updateJobEventId host (Some (derived_id job dateStr)) r.1 w1
       = (Throw (Error ("Job " +:+ derived_id job dateStr +:+ " not found")),
          record (ConsoleError ("Error updating job eventId: Job "
                                +:+ derived_id job dateStr +:+ " not found"))
            (record (Call "sheets.values.get") w1)) /\
       write_back host (Some (derived_id job dateStr)) r w1
       = (Ok tt,
          record (ConsoleError ("Failed to update eventId for job "
                                +:+ derived_id job dateStr +:+ ": Job "
                                +:+ derived_id job dateStr +:+ " not found"))
            (record (ConsoleError ("Error updating job eventId: Job "
                                   +:+ derived_id job dateStr +:+ " not found"))
               (record (Call "sheets.values.get") w1)))).
Proof.
  intros Hrange Hno. split.
  - unfold syncJobToCalendar, try_catch.
    destruct (table_get (calendarIds host) (repairTeam (job !! "team"))) as [[cid|]|];
      [|reflexivity|reflexivity].
    destruct (String.eqb cid ""); [reflexivity|].
    unfold is_range in Hrange. rewrite Hrange.
    pose proof (createDateRangeEvents_keeps_sheet host job cid w Hno) as Hkeep.
    unfold bind. destruct (createDateRangeEvents host job cid w) as [[evs | e] w1];
      exact Hkeep.
  - intros dateStr. split; [apply lookup_insert_eq|].
    intros r w1 Hsheet Hf Hid.
    assert (Habs : id_absent (Some (derived_id job dateStr)) (w_sheet w1)).
    { rewrite Hsheet. pose proof (derived_id_absent job dateStr (w_sheet w) Hno) as Habs.
      unfold dailyJob in Habs. rewrite lookup_insert_eq in Habs. exact Habs. }
    split.
    + apply (updateJobEventId_not_found host (Some (derived_id job dateStr))); assumption.
    + apply (write_back_not_found host (Some (derived_id job dateStr))); assumption.
Qed.

Lemma C10_range_write_back_never_lands_witness :
  w_sheet (syncJobToCalendar example_host example_range_job example_range_world).2
  = w_sheet example_range_world.
Proof.
  apply (proj1 (C10_range_write_back_never_lands example_host example_range_job
                  example_range_world eq_refl eq_refl)).
Defined.

(** The three days of the example: every write-back fails and is logged, no
    write reaches the sheet. *)
Example range_sync_trace :
  w_trace (syncJobToCalendar example_host example_range_job example_range_world).2
  = [ Call "calendar.events.list"; Call "calendar.events.insert"; Call "sheets.values.get";
      ConsoleError "Error updating job eventId: Job JOB-000001-2025-08-01 not found";
      ConsoleError
        "Failed to update eventId for job JOB-000001-2025-08-01: Job JOB-000001-2025-08-01 not found";
      Call "calendar.events.list"; Call "calendar.events.insert"; Call "sheets.values.get";
      ConsoleError "Error updating job eventId: Job JOB-000001-2025-08-02 not found";
      ConsoleError
        "Failed to update eventId for job JOB-000001-2025-08-02: Job JOB-000001-2025-08-02 not found";
      Call "calendar.events.list"; Call "calendar.events.insert"; Call "sheets.values.get";
      ConsoleError "Error updating job eventId: Job JOB-000001-2025-08-03 not found";
      ConsoleError
        "Failed to update eventId for job JOB-000001-2025-08-03: Job JOB-000001-2025-08-03 not found" ].
Proof. vm_compute. reflexivity. Qed.

(** ** Range expansion *)

Lemma range_days_step (host : Host) (currentDate endDate : Z) :
  range_days host currentDate endDate
  = if Z_le_dec currentDate endDate
    then currentDate :: range_days host (Date_next_day host currentDate) endDate
    else [].
Proof.
  rewrite range_days_equation_1. destruct (Z_le_dec currentDate endDate); reflexivity.
Qed.

(** Between two midnights, in a zone whose clocks do not change in between,
    the loop visits the midnight of every day. *)
Lemma range_days_midnights (host : Host) (d0 d1 : Z) :
  steady_days host d0 d1 ->
  range_days host (midnight d0) (midnight d1) = map midnight (days_from_to d0 d1).
Proof.
  unfold days_from_to.
  remember (Z.to_nat (d1 - d0 + 1)) as n eqn:Hn. revert d0 Hn.
  induction n as [|n IH]; intros d0 Hn Hsteady; rewrite range_days_step.
  - destruct (Z_le_dec (midnight d0) (midnight d1)) as [Hle|]; [|reflexivity].
    unfold midnight, JsDate.msPerDay in Hle. lia.
  - destruct (Z_le_dec (midnight d0) (midnight d1)) as [|Hgt].
    2:{ unfold midnight, JsDate.msPerDay in Hgt. lia. }
    cbn [seq map]. rewrite Z.add_0_r. f_equal.
    destruct n as [|n'].
    + cbn [seq map]. rewrite range_days_step.
      pose proof (Date_next_day_later host (midnight d0)) as Hlater.
      assert (d0 = d1) as -> by lia.
      destruct (Z_le_dec (Date_next_day host (midnight d1)) (midnight d1)); [lia | reflexivity].
    + rewrite (Hsteady d0) by lia.
      rewrite IH by (lia || (intros day Hday; apply Hsteady; lia)).
      f_equal. rewrite <- seq_shift.
      rewrite (map_map S). apply map_ext. intros k. lia.
Qed.

Lemma no_T_app (a b : string) : no_T (a +:+ b) = no_T a && no_T b.
Proof.
  induction a as [|c a IH]; [reflexivity|].
  change (String c a +:+ b) with (String c (a +:+ b)). unfold no_T in *. cbn.
  rewrite IH, andb_assoc. reflexivity.
Qed.

Lemma split_head (a b : string) :
  no_T a = true -> head (Js.split "T" (a +:+ String "T" b)) = Some a.
Proof.
  induction a as [|c a IH]; intros H.
  - reflexivity.
  - change (String c a +:+ String "T" b) with (String c (a +:+ String "T" b)).
    unfold no_T in H. cbn in H. apply andb_prop in H as [Hc Ha].
    cbn [Js.split]. apply negb_true_iff in Hc. rewrite Hc.
    specialize (IH Ha). destruct (Js.split "T" (a +:+ String "T" b)); [discriminate IH|].
    cbn in *. injection IH as ->. reflexivity.
Qed.

Lemma digit_char_not_T (n : Z) : Ascii.eqb (JsDate.digit_char n) "T" = false.
Proof.
  unfold JsDate.digit_char.
  assert (H : (Z.to_nat (n mod 10) < 10)%nat) by (pose proof (Z.mod_pos_bound n 10); lia).
  revert H. generalize (Z.to_nat (n mod 10)). intros k H.
  do 10 (destruct k as [|k]; [reflexivity|]). lia.
Qed.

Lemma fixed_no_T (w : nat) (n : Z) : no_T (JsDate.fixed w n) = true.
Proof.
  revert n. induction w as [|w IH]; intros n; [reflexivity|].
  cbn [JsDate.fixed]. rewrite no_T_app, IH. unfold no_T. cbn.
  rewrite digit_char_not_T. reflexivity.
Qed.

Lemma date_string_no_T (day : Z) : no_T (JsDate.date_string day) = true.
Proof.
  unfold JsDate.date_string. destruct (JsDate.civil_from_days day) as [[y m] d].
  rewrite !no_T_app, !fixed_no_T. unfold JsDate.year_string.
  destruct ((0 <=? y)%Z && (y <=? 9999)%Z); [rewrite fixed_no_T; reflexivity|].
  rewrite no_T_app, fixed_no_T. destruct (y <? 0)%Z; reflexivity.
Qed.

(** The date the loop derives from the midnight of a day is the date of the
    day. *)
Lemma dateStr_of_midnight (day : Z) : dateStr_of (midnight day) = JsDate.date_string day.
Proof.
  unfold dateStr_of, JsDate.toISOString, midnight.
  rewrite Z_div_mult by (unfold JsDate.msPerDay; lia).
  change ("T" +:+ JsDate.time_string (day * JsDate.msPerDay mod JsDate.msPerDay))
    with (String "T" (JsDate.time_string (day * JsDate.msPerDay mod JsDate.msPerDay))).
  rewrite split_head by apply date_string_no_T. reflexivity.
Qed.

Lemma date_string_nonempty (day : Z) : JsDate.date_string day <> "".
Proof.
  unfold JsDate.date_string. destruct (JsDate.civil_from_days day) as [[y m] d].
  apply app_nonempty. discriminate.
Qed.

Lemma dailyJob_date_truthy (job : Job) (day : Z) :
  Js.truthy (dailyJob job (JsDate.date_string day) !! "date") = true.
Proof.
  unfold dailyJob. rewrite lookup_insert_ne by discriminate. rewrite lookup_insert_eq.
  unfold Js.truthy.
  destruct (String.eqb_spec (JsDate.date_string day) "") as [E|]; [|reflexivity].
  exfalso. exact (date_string_nonempty day E).
Qed.

(** On a calendar service that answers, the loop returns one event per day
    visited, each composed from the per-day view of the job. *)
Lemma range_loop_ok (host : Host) (job : Job) (cid : string) (days : list Z) :
  forall (events : list CalEvent) (w : World) (c : Calendar),
    w_calendar_faults w = [] ->
    find_calendar cid (w_calendars w) = Some c ->
    Forall (day_validates host job) days ->
    exists evs w',
      range_loop host job cid (map midnight days) events w = (Ok (events ++ evs), w') /\
      Forall2 (event_of_day host job) days evs.
Proof.
  induction days as [|day days IH]; intros events w c Hf Hc Hval.
  - exists [], w. rewrite app_nil_r. split; [reflexivity | constructor].
  - apply Forall_cons in Hval as [[[st Hst] [en Hen]] Hval].
    cbn [map range_loop]. rewrite dateStr_of_midnight.
    destruct (createSingleDateEvent_ok host (dailyJob job (JsDate.date_string day)) cid w c
                st en (dailyJob_date_truthy job day) Hst Hen Hf Hc)
      as (w1 & Hrun & Hcal & Hf1).
    erewrite bind_Ok by exact Hrun.
    assert (Hc1 : exists c1, find_calendar cid (w_calendars w1) = Some c1).
    { rewrite Hcal. eexists. apply find_calendar_alter. exact Hc. }
    destruct Hc1 as [c1 Hc1].
    destruct (IH (events ++ [(upsert_id (dailyJob job (JsDate.date_string day) !! "job_id")
                                (cal_events c),
                              composeEvent (dailyJob job (JsDate.date_string day)) st en)])
                 w1 c1 Hf1 Hc1 Hval) as (evs & w' & Hloop & Hevs).
    eexists (_ :: evs), w'. split.
    + rewrite Hloop, <- app_assoc. reflexivity.
    + constructor; [|exact Hevs]. exists st, en. repeat split; assumption.
Qed.

Lemma event_of_day_title (host : Host) (job : Job) (day : Z) (e : CalEvent) :
  event_of_day host job day e -> summary e.2 = day_title job day.
Proof.
  intros (st & en & _ & _ & ->). unfold composeEvent, day_title, derived_id, dailyJob.
  cbn [summary]. rewrite lookup_insert_eq.
  rewrite !(lookup_insert_ne _ "job_id") by discriminate.
  rewrite !(lookup_insert_ne _ "date") by discriminate.
  cbn [Js.template default from_option id]. rewrite string_app_assoc. reflexivity.
Qed.

Lemma length_days_from_to (d0 d1 : Z) : length (days_from_to d0 d1) = Z.to_nat (d1 - d0 + 1).
Proof. unfold days_from_to. rewrite length_map, length_seq. reflexivity. Qed.

(** *** Dates of distinct days are distinct *)

Lemma era_days_checked :
  all_from 383 0%Z
    (fun row => all_from 383 (row * 383)%Z
                  (fun doe => (146097 <=? doe)%Z || era_day_ok doe)) = true.
Proof. vm_compute. reflexivity. Qed.

Lemma all_from_spec (n : nat) (z : Z) (f : Z -> bool) :
  all_from n z f = true -> forall k, (z <= k < z + Z.of_nat n)%Z -> f k = true.
Proof.
  revert z. induction n as [|n IH]; intros z H k Hk; [lia|].
  cbn [all_from] in H. apply andb_prop in H as [Hz Hrest].
  destruct (Z.eq_dec k z) as [->|Hne]; [exact Hz|].
  apply (IH (z + 1)%Z Hrest). lia.
Qed.

Lemma all_rows_spec (n c : nat) (m z : Z) (f : Z -> bool) :
  Z.of_nat c = m ->
  all_from n z (fun row => all_from c (row * m) f) = true ->
  forall k, (z * m <= k < (z + Z.of_nat n) * m)%Z -> f k = true.
Proof.
  intros Hm. revert z. induction n as [|n IH]; intros z H k Hk; [lia|].
  cbn [all_from] in H. apply andb_prop in H as [Hz Hrest].
  destruct (Z_lt_dec k ((z + 1) * m)) as [Hlt|Hge].
  - apply (all_from_spec c _ f Hz). lia.
  - apply (IH (z + 1)%Z Hrest). lia.
Qed.

Lemma era_day_checked (doe : Z) : (0 <= doe < 146097)%Z -> era_day_ok doe = true.
Proof.
  intros Hdoe.
  assert (H : ((146097 <=? doe) || era_day_ok doe = true)%Z).
  { apply (all_rows_spec 383 383 383 0 (fun doe => (146097 <=? doe)%Z || era_day_ok doe)
             eq_refl era_days_checked).
    lia. }
  apply orb_prop in H as [Hbig | Hok]; [lia | exact Hok].
Qed.

(** The date of a day leads back to the day; its month and day of the month
    are in range. *)
Lemma civil_roundtrip (z : Z) :
  let '(y, m, d) := JsDate.civil_from_days z in
  JsDate.days_from_civil y m d = z /\ (1 <= m <= 12)%Z /\ (1 <= d <= 31)%Z /\
  (four_digit_year z -> 0 <= y <= 9999)%Z.
Proof.
  unfold JsDate.civil_from_days.
  set (era := ((z + 719468) / 146097)%Z).
  set (doe := (z + 719468 - era * 146097)%Z).
  assert (Hdoe : (0 <= doe < 146097)%Z).
  { subst doe era. pose proof (Z.div_mod (z + 719468) 146097 ltac:(lia)).
    pose proof (Z.mod_pos_bound (z + 719468) 146097 ltac:(lia)). lia. }
  pose proof (era_day_checked doe Hdoe) as Hok. unfold era_day_ok in Hok.
  destruct (JsDate.civil_of_doe doe) as [[yoe m] d].
  repeat (apply andb_prop in Hok as [Hok ?]).
  assert (Hera : ((yoe + era * 400) / 400 = era)%Z).
  { rewrite Z.div_add by lia. rewrite Z.div_small by lia. lia. }
  split; [|split; [lia|split; [lia|]]].
  - unfold JsDate.days_from_civil.
    destruct (m <=? 2)%Z eqn:Hm.
    + replace (yoe + era * 400 + 1 - 1)%Z with (yoe + era * 400)%Z by lia.
      rewrite Hera. replace (yoe + era * 400 - era * 400)%Z with yoe by lia. lia.
    + rewrite Hera. replace (yoe + era * 400 - era * 400)%Z with yoe by lia. lia.
  - unfold four_digit_year. intros Hz.
    assert (Hrange : (-1 <= era <= 24)%Z).
    { subst era. split.
      - apply Z.div_le_lower_bound; lia.
      - assert ((z + 719468) / 146097 < 25)%Z by (apply Z.div_lt_upper_bound; lia). lia. }
    destruct (doe <=? 146036)%Z eqn:Hlast; destruct (m <=? 2)%Z; subst doe; lia.
Qed.

Lemma civil_from_days_inj (a b : Z) :
  JsDate.civil_from_days a = JsDate.civil_from_days b -> a = b.
Proof.
  intros H. pose proof (civil_roundtrip a) as Ha. pose proof (civil_roundtrip b) as Hb.
  rewrite H in Ha. destruct (JsDate.civil_from_days b) as [[y m] d].
  destruct Ha as [Ha _], Hb as [Hb _]. congruence.
Qed.

Lemma string_length_app (a b : string) :
  String.length (a +:+ b) = String.length a + String.length b.
Proof.
  induction a as [|c a IH]; [reflexivity|].
  change (String c a +:+ b) with (String c (a +:+ b)). cbn. rewrite IH. reflexivity.
Qed.

Lemma string_app_inj_len (a1 a2 b1 b2 : string) :
  String.length a1 = String.length a2 ->
  a1 +:+ b1 = a2 +:+ b2 -> a1 = a2 /\ b1 = b2.
Proof.
  revert a2. induction a1 as [|c a1 IH]; intros [|c2 a2] Hlen H; try discriminate Hlen.
  - split; [reflexivity | exact H].
  - change (String c (a1 +:+ b1) = String c2 (a2 +:+ b2)) in H.
    injection H as -> H. cbn in Hlen. injection Hlen as Hlen.
    destruct (IH a2 Hlen H) as [-> ->]. split; reflexivity.
Qed.

Lemma string_tail_inj (c c' : ascii) (a b : string) : String c a = String c' b -> a = b.
Proof. intros H. injection H as _ H. exact H. Qed.

Lemma length_fixed (w : nat) (n : Z) : String.length (JsDate.fixed w n) = w.
Proof.
  revert n. induction w as [|w IH]; intros n; [reflexivity|].
  cbn [JsDate.fixed]. rewrite string_length_app, IH. cbn. lia.
Qed.

Lemma digit_char_inj (a b : Z) :
  JsDate.digit_char a = JsDate.digit_char b -> (a mod 10 = b mod 10)%Z.
Proof.
  unfold JsDate.digit_char. intros H. apply (f_equal nat_of_ascii) in H.
  pose proof (Z.mod_pos_bound a 10 ltac:(lia)). pose proof (Z.mod_pos_bound b 10 ltac:(lia)).
  rewrite !nat_ascii_embedding in H by lia. lia.
Qed.

Lemma fixed_inj (w : nat) (a b : Z) :
  JsDate.fixed w a = JsDate.fixed w b -> (a mod 10 ^ Z.of_nat w = b mod 10 ^ Z.of_nat w)%Z.
Proof.
  revert a b. induction w as [|w IH]; intros a b H.
  - cbn. rewrite !Z.mod_1_r. reflexivity.
  - cbn [JsDate.fixed] in H.
    apply string_app_inj_len in H as [Hhigh Hlow]; [|rewrite !length_fixed; reflexivity].
    assert (Hc : JsDate.digit_char a = JsDate.digit_char b) by (injection Hlow; auto).
    apply digit_char_inj in Hc. apply IH in Hhigh.
    rewrite Nat2Z.inj_succ, Z.pow_succ_r by lia.
    rewrite !(Z.rem_mul_r _ 10 (10 ^ Z.of_nat w)) by lia. lia.
Qed.

Lemma fixed_inj_bounded (w : nat) (a b : Z) :
  (0 <= a < 10 ^ Z.of_nat w)%Z -> (0 <= b < 10 ^ Z.of_nat w)%Z ->
  JsDate.fixed w a = JsDate.fixed w b -> a = b.
Proof.
  intros Ha Hb H. apply fixed_inj in H. rewrite !Z.mod_small in H by assumption. exact H.
Qed.

(** Within the years 0000 to 9999, distinct days have distinct dates. *)
Lemma date_string_inj (a b : Z) :
  four_digit_year a -> four_digit_year b ->
  JsDate.date_string a = JsDate.date_string b -> a = b.
Proof.
  intros Ha Hb H. apply civil_from_days_inj.
  pose proof (civil_roundtrip a) as Ra. pose proof (civil_roundtrip b) as Rb.
  unfold JsDate.date_string in H.
  destruct (JsDate.civil_from_days a) as [[y m] d].
  destruct (JsDate.civil_from_days b) as [[y' m'] d'].
  destruct Ra as (_ & Hm & Hd & Hy), Rb as (_ & Hm' & Hd' & Hy').
  specialize (Hy Ha). specialize (Hy' Hb).
  unfold JsDate.year_string in H.
  assert ((0 <=? y)%Z && (y <=? 9999)%Z = true) as Ey by lia.
  assert ((0 <=? y')%Z && (y' <=? 9999)%Z = true) as Ey' by lia.
  rewrite Ey, Ey' in H.
  apply string_app_inj_len in H as [Hyy H]; [|rewrite !length_fixed; reflexivity].
  change ("-" +:+ JsDate.fixed 2 m +:+ "-" +:+ JsDate.fixed 2 d)
    with (String "-" (JsDate.fixed 2 m +:+ "-" +:+ JsDate.fixed 2 d)) in H.
  change ("-" +:+ JsDate.fixed 2 m' +:+ "-" +:+ JsDate.fixed 2 d')
    with (String "-" (JsDate.fixed 2 m' +:+ "-" +:+ JsDate.fixed 2 d')) in H.
  apply string_tail_inj in H.
  apply string_app_inj_len in H as [Hmm H]; [|rewrite !length_fixed; reflexivity].
  change ("-" +:+ JsDate.fixed 2 d) with (String "-" (JsDate.fixed 2 d)) in H.
  change ("-" +:+ JsDate.fixed 2 d') with (String "-" (JsDate.fixed 2 d')) in H.
  apply string_tail_inj in H. rename H into Hdd.
  apply fixed_inj_bounded in Hyy; [|cbn; lia|cbn; lia].
  apply fixed_inj_bounded in Hmm; [|cbn; lia|cbn; lia].
  apply fixed_inj_bounded in Hdd; [|cbn; lia|cbn; lia].
  congruence.
Qed.

Lemma derived_id_inj (job : Job) (a b : string) :
  derived_id job a = derived_id job b -> a = b.
Proof.
  unfold derived_id. intros H.
  apply string_app_inj_len in H as [_ H]; [|reflexivity].
  change (String "-" a = String "-" b) in H. injection H as H. exact H.
Qed.

Lemma days_from_to_bounds (d0 d1 day : Z) :
  day ∈ days_from_to d0 d1 -> (d0 <= day <= d1)%Z.
Proof.
  unfold days_from_to. intros H. apply list_elem_of_fmap in H as (k & -> & Hk).
  apply elem_of_seq in Hk. lia.
Qed.

Lemma days_from_to_NoDup (d0 d1 : Z) : NoDup (days_from_to d0 d1).
Proof.
  unfold days_from_to. apply NoDup_fmap_2; [|apply NoDup_seq].
  intros a b H. lia.
Qed.

(** The derived identifiers of the days of a range are pairwise distinct. *)
Lemma derived_ids_NoDup (job : Job) (d0 d1 : Z) :
  four_digit_year d0 -> four_digit_year d1 ->
  NoDup (map (fun day => derived_id job (JsDate.date_string day)) (days_from_to d0 d1)).
Proof.
  intros H0 H1. apply NoDup_fmap_2_strong; [|apply days_from_to_NoDup].
  intros a b Ha Hb H. apply derived_id_inj in H.
  apply days_from_to_bounds in Ha, Hb. unfold four_digit_year in *.
  apply date_string_inj; unfold four_digit_year; [lia | lia | exact H].
Qed.

(** Where the clocks change inside the range the days are not the calendar
    days: in the zone of New York the local day after 2025-03-09 00:00 UTC is
    23 hours later, which is still the 9th in UTC, and the range from
    2025-03-08 to 2025-03-10 visits the 9th twice and the 10th never. *)
Example range_days_over_clock_change :
  map dateStr_of (range_days new_york_host 1741392000000 1741564800000)
  = ["2025-03-08"; "2025-03-09"; "2025-03-09"].
Proof. vm_compute. reflexivity. Qed.

(** C6. For a job with date_type "range" whose start_date and end_date are
    the ISO dates of the days d0 and d1 (which the host reads as UTC
    midnights), in a zone whose clocks do not change over the range (the
    step to the next local day takes the UTC midnight of each day before d1
    to the next UTC midnight), whose team resolves to a calendar the service
    holds, on a calendar service that answers and with times that validate on
    every day: sync returns one event for every calendar day from start_date to end_date
    inclusive, in order, each composed from the per-day view of the job (its
    date the day, its title starting with the derived identifier
    "{job_id}-{date}"), and the derived identifiers are pairwise distinct. *)
Theorem C6_range_expansion (host : Host) (job : Job) (cid : string) (w : World)
    (c : Calendar) (d0 d1 : Z) :
  job !! "date_type" = Some "range" ->
  job !! "start_date" = Some (JsDate.date_string d0) ->
  job !! "end_date" = Some (JsDate.date_string d1) ->
  Date_parse host (JsDate.date_string d0) = Some (midnight d0) ->
  Date_parse host (JsDate.date_string d1) = Some (midnight d1) ->
  four_digit_year d0 -> four_digit_year d1 ->
  steady_days host d0 d1 ->
  team_calendar (calendarIds host) (repairTeam (job !! "team")) = Some cid ->
  cid <> "" ->
  w_calendar_faults w = [] ->
  find_calendar cid (w_calendars w) = Some c ->
  Forall (day_validates host job) (days_from_to d0 d1) ->
  exists evs w',
    syncJobToCalendar host job w = (Ok (SyncEvents evs), w') /\
    Forall2 (event_of_day host job) (days_from_to d0 d1) evs /\
    length evs = Z.to_nat (d1 - d0 + 1) /\
    map (fun e : CalEvent => summary e.2) evs = map (day_title job) (days_from_to d0 d1) /\
    NoDup (map (fun day => derived_id job (JsDate.date_string day)) (days_from_to d0 d1)).
Proof.
  intros Htype Hsd Hed Hps Hpe Hy0 Hy1 Hsteady Hteam Hcid Hf Hc Hval.
  destruct (range_loop_ok host job cid (days_from_to d0 d1) [] w c Hf Hc Hval)
    as (evs & w' & Hloop & Hevs).
  exists evs, w'. split; [|split; [exact Hevs|split; [|split]]].
  - unfold syncJobToCalendar. erewrite try_catch_Ok; [reflexivity|].
    unfold table_get. rewrite Hteam.
    destruct (String.eqb_spec cid "") as [E|_]; [contradiction|].
    assert (Htruthy : forall day, Js.truthy (Some (JsDate.date_string day)) = true).
    { intros day. unfold Js.truthy.
      destruct (String.eqb_spec (JsDate.date_string day) "") as [E|]; [|reflexivity].
      exfalso. exact (date_string_nonempty day E). }
    rewrite Htype, Hsd, Hed, !Htruthy, prop_is_true by reflexivity. cbn [andb].
    erewrite bind_Ok; [reflexivity|].
    unfold createDateRangeEvents. rewrite Hsd, Hed, !Htruthy. cbn [negb orb].
    cbn [default from_option id]. rewrite Hps, Hpe, range_days_midnights by exact Hsteady.
    exact Hloop.
  - rewrite <- (Forall2_length _ _ _ Hevs). apply length_days_from_to.
  - clear Hloop Hval. induction Hevs as [|day e days evs Hday _ IH]; [reflexivity|].
    cbn [map]. rewrite (event_of_day_title host job day e Hday), IH. reflexivity.
  - apply derived_ids_NoDup; assumption.
Qed.

Lemma C6_range_expansion_witness :
  exists evs w',
    syncJobToCalendar example_host example_range_job example_range_world
    = (Ok (SyncEvents evs), w') /\
    length evs = 3 /\
    map (fun e : CalEvent => summary e.2) evs
    = [ "JOB-000001-2025-08-01: ABC"; "JOB-000001-2025-08-02: ABC";
        "JOB-000001-2025-08-03: ABC" ].
Proof.
  assert (H : exists evs w',
             syncJobToCalendar example_host example_range_job example_range_world
             = (Ok (SyncEvents evs), w') /\
             Forall2 (event_of_day example_host example_range_job)
               (days_from_to (JsDate.days_from_civil 2025 8 1) (JsDate.days_from_civil 2025 8 3))
               evs /\
             length evs
             = Z.to_nat (JsDate.days_from_civil 2025 8 3 - JsDate.days_from_civil 2025 8 1 + 1) /\
             map (fun e : CalEvent => summary e.2) evs
             = map (day_title example_range_job)
                 (days_from_to (JsDate.days_from_civil 2025 8 1)
                    (JsDate.days_from_civil 2025 8 3)) /\
             NoDup (map (fun day => derived_id example_range_job (JsDate.date_string day))
                      (days_from_to (JsDate.days_from_civil 2025 8 1)
                         (JsDate.days_from_civil 2025 8 3)))).
  { apply (C6_range_expansion example_host example_range_job "queue-a@group.calendar"
             example_range_world (empty_calendar "queue-a@group.calendar" "Queue A")).
    - reflexivity.
    - reflexivity.
    - reflexivity.
    - reflexivity.
    - reflexivity.
    - unfold four_digit_year. vm_compute. split; intros H; discriminate H.
    - unfold four_digit_year. vm_compute. split; intros H; discriminate H.
    - intros day _. unfold midnight, example_host, JsDate.msPerDay. cbn [Date_next_day]. lia.
    - reflexivity.
    - discriminate.
    - reflexivity.
    - reflexivity.
    - repeat constructor; apply is_Some_by_eval; vm_compute; reflexivity. }
  destruct H as (evs & w' & Hrun & _ & Hlen & Htitles & _).
  exists evs, w'. split; [exact Hrun|]. split; [exact Hlen|]. exact Htitles.
Defined.

(** The three days of the example, as the calendar receives them. *)
Example range_sync_events :
  match (syncJobToCalendar example_host example_range_job example_range_world).1 with
  | Ok (SyncEvents evs) => map (fun e : CalEvent => (summary e.2, ev_start e.2)) evs
  | _ => []
  end
  = [ ("JOB-000001-2025-08-01: ABC", DateTime "2025-08-01T02:00:00.000Z");
      ("JOB-000001-2025-08-02: ABC", DateTime "2025-08-02T02:00:00.000Z");
      ("JOB-000001-2025-08-03: ABC", DateTime "2025-08-03T02:00:00.000Z") ].
Proof. vm_compute. reflexivity. Qed.

(** * Further properties of the services *)

#[export] Hint Resolve preserves_events_list preserves_events_get preserves_events_insert
  preserves_events_update preserves_calendarList_list preserves_findExistingEvent
  preserves_upsert preserves_getUserCalendars preserves_search_loop
  preserves_searchEventInPersonalCalendars preserves_checkEventMoved
  preserves_values_get_jobs preserves_getAllJobs preserves_values_write
  preserves_updateJobEventId preserves_write_back preserves_updateJobStatus
  preserves_detector_updateJobStatus : frame.

(** ** Computations that never throw *)

Lemma never_throws_ret {A} (a : A) : never_throws (ret a).
Proof. intros w. exists a, w. reflexivity. Qed.

Lemma never_throws_bind {A B} (m : M A) (k : A -> M B) :
  never_throws m -> (forall a, never_throws (k a)) -> never_throws (bind m k).
Proof.
  intros Hm Hk w. destruct (Hm w) as (a & w1 & E). unfold bind. rewrite E. apply Hk.
Qed.

Lemma never_throws_catch {A} (m : M A) (h : JsError -> M A) :
  (forall e, never_throws (h e)) -> never_throws (try_catch m h).
Proof.
  intros Hh w. unfold try_catch.
  destruct (m w) as [[a|e] w1]; [exists a, w1; reflexivity | apply Hh].
Qed.

Lemma never_throws_emit (e : Effect) : never_throws (emit e).
Proof. intros w. exists tt, (record e w). reflexivity. Qed.

Lemma never_throws_log {A} (e : Effect) (a : A) : never_throws (emit e ;; ret a).
Proof.
  apply never_throws_bind; [apply never_throws_emit | intros _; apply never_throws_ret].
Qed.

Lemma never_throws_search_loop (host : Host) (eid : string) (cals : list (string * string)) :
  never_throws (search_loop host eid cals).
Proof.
  induction cals as [|[id name] cals IH]; cbn [search_loop]; [apply never_throws_ret|].
  destruct (is_queue_calendar host id); [exact IH|].
  apply never_throws_bind.
  - apply never_throws_catch. intros _. apply never_throws_ret.
  - intros [r|]; [apply never_throws_ret | exact IH].
Qed.

Lemma never_throws_searchEventInPersonalCalendars (host : Host) (eid : string)
    (jid : option string) :
  never_throws (searchEventInPersonalCalendars host eid jid).
Proof. apply never_throws_catch. intros e. apply never_throws_log. Qed.

Lemma never_throws_checkEventMoved (host : Host) (jid : option string) (eid : string)
    (cid : CalendarRef) :
  never_throws (checkEventMoved host jid eid cid).
Proof. apply never_throws_catch. intros e. apply never_throws_log. Qed.

Lemma never_throws_processJobAutoDetection (host : Host) (job : Job) :
  never_throws (processJobAutoDetection host job).
Proof. apply never_throws_catch. intros e. apply never_throws_log. Qed.

(** X1. No exception escapes the per-job check of the drift detector, nor
    the steps it is made of: whatever the calendar service and the sheet
    answer, [processJobAutoDetection], [checkEventMoved],
    [searchEventInPersonalCalendars], [getUserCalendars] and [initializeAuth]
    return a value. *)
Theorem detection_never_throws (host : Host) :
  (forall job, never_throws (processJobAutoDetection host job)) /\
  (forall jobId originalEventId queueCalendarId,
     never_throws (checkEventMoved host jobId originalEventId queueCalendarId)) /\
  (forall eventId jobId, never_throws (searchEventInPersonalCalendars host eventId jobId)) /\
  never_throws getUserCalendars /\
  never_throws initializeAuth.
Proof.
  split; [exact (never_throws_processJobAutoDetection host)|].
  split; [exact (never_throws_checkEventMoved host)|].
  split; [exact (never_throws_searchEventInPersonalCalendars host)|].
  split; apply never_throws_catch; intros e; apply never_throws_log.
Qed.

(** ** What a failed status update leaves behind *)

Lemma throw_keeps_of_preserves {A} (m : M A) :
  preserves sheet_kept m -> throw_keeps_sheet m.
Proof. intros H w e w' E. specialize (H w). rewrite E in H. exact H. Qed.

Lemma throw_keeps_bind_kept {A B} (m : M A) (k : A -> M B) :
  preserves sheet_kept m -> (forall a, throw_keeps_sheet (k a)) ->
  throw_keeps_sheet (bind m k).
Proof.
  intros Hm Hk w e w' E. unfold bind in E. specialize (Hm w).
  destruct (m w) as [[a|e0] w1]; cbn in Hm.
  - rewrite (Hk a w1 e w' E). exact Hm.
  - injection E as <- <-. exact Hm.
Qed.

Lemma throw_keeps_bind_total {A B} (m : M A) (k : A -> M B) :
  throw_keeps_sheet m -> (forall a, never_throws (k a)) -> throw_keeps_sheet (bind m k).
Proof.
  intros Hm Hk w e w' E. unfold bind in E.
  destruct (m w) as [[a|e0] w1] eqn:Em.
  - destruct (Hk a w1) as (b & w2 & E2). rewrite E2 in E. discriminate E.
  - injection E as <- <-. exact (Hm w e0 w1 Em).
Qed.

Lemma throw_keeps_catch {A} (m : M A) (h : JsError -> M A) :
  throw_keeps_sheet m -> (forall e, preserves sheet_kept (h e)) ->
  throw_keeps_sheet (try_catch m h).
Proof.
  intros Hm Hh w e w' E. unfold try_catch in E.
  destruct (m w) as [[a|e0] w1] eqn:Em; [discriminate E|].
  specialize (Hh e0 w1). rewrite E in Hh. cbn in Hh. unfold sheet_kept in Hh.
  rewrite Hh. exact (Hm w e0 w1 Em).
Qed.

Lemma throw_keeps_values_write (api : string) (cells : list (string * nat * string)) :
  throw_keeps_sheet (values_write api cells).
Proof.
  intros w e w' E. unfold values_write, bind in E.
  pose proof (preserves_request_sheets sheet_kept api w) as H.
  destruct (request_sheets api w) as [[[]|e0] w1]; cbn in H.
  - discriminate E.
  - injection E as <- <-. exact H.
Qed.

Lemma throw_keeps_updateJobStatus (host : Host) (jid : option string) (st notes : string) :
  throw_keeps_sheet (updateJobStatus host jid st notes).
Proof.
  unfold updateJobStatus. apply throw_keeps_catch; [|intros e; frame].
  apply throw_keeps_bind_kept; [frame|]. intros jobs.
  destruct (findIndex_job_id jid jobs) as [[jobIndex job]|];
    [|apply throw_keeps_of_preserves; frame].
  apply throw_keeps_bind_kept; [frame|]. intros w0.
  apply throw_keeps_bind_total; [apply throw_keeps_values_write|].
  intros _. apply never_throws_ret.
Qed.

Lemma throw_keeps_detector_updateJobStatus (host : Host) (jid : option string) (st : string)
    (meta : Metadata) :
  throw_keeps_sheet (detector_updateJobStatus host jid st meta).
Proof.
  unfold detector_updateJobStatus. apply throw_keeps_catch; [|intros e; frame].
  apply throw_keeps_bind_kept; [frame|]. intros jobs.
  destruct (findIndex_job_id jid jobs) as [[jobIndex job]|];
    [|apply throw_keeps_of_preserves; frame].
  apply throw_keeps_bind_total; [apply throw_keeps_updateJobStatus|].
  intros _. apply never_throws_log.
Qed.

(** ** The drift detector only reads the calendars *)

#[local] Instance calendar_frame_read (R : relation World) `{!CalendarFrame R} :
  CalendarReadFrame R.
Proof. intros f w. apply calendar_faults_frame. Qed.

Section DetectorFrames.

Context (host : Host) (R : relation World) `{!PreOrder R} `{!TraceFrame R}
  `{!CalendarReadFrame R}.

Lemma reads_request_calendar (api : string) : preserves R (request_calendar api).
Proof.
  apply preserves_bind; [exact _ | apply preserves_emit; [exact _ | reflexivity] |].
  intros _ w. unfold next_fault.
  destruct (w_calendar_faults w) as [|[e|] fs]; cbn;
    first [reflexivity | apply calendar_read_frame].
Qed.

Hint Resolve reads_request_calendar : frame.

Lemma reads_events_get (cid : CalendarRef) (eid : string) : preserves R (events_get cid eid).
Proof. unfold events_get. frame. Qed.

Lemma reads_events_list (cid : CalendarRef) (q : option string) (n : nat) :
  preserves R (events_list cid q n).
Proof. unfold events_list. frame. Qed.

Lemma reads_calendarList_list : preserves R calendarList_list.
Proof. unfold calendarList_list. frame. Qed.

Hint Resolve reads_events_get reads_events_list reads_calendarList_list : frame.

Lemma reads_findExistingEvent (cid : CalendarRef) (jid : option string) :
  preserves R (findExistingEvent cid jid).
Proof. unfold findExistingEvent. frame. Qed.

Lemma reads_getUserCalendars : preserves R getUserCalendars.
Proof. unfold getUserCalendars. frame. Qed.

Hint Resolve reads_getUserCalendars : frame.

Lemma reads_search_loop (eid : string) (cals : list (string * string)) :
  preserves R (search_loop host eid cals).
Proof. induction cals as [|[id name] cals IH]; cbn [search_loop]; frame. Qed.

Hint Resolve reads_search_loop : frame.

Lemma reads_searchEventInPersonalCalendars (eid : string) (jid : option string) :
  preserves R (searchEventInPersonalCalendars host eid jid).
Proof. unfold searchEventInPersonalCalendars. frame. Qed.

Hint Resolve reads_searchEventInPersonalCalendars : frame.

Lemma reads_checkEventMoved (jid : option string) (eid : string) (cid : CalendarRef) :
  preserves R (checkEventMoved host jid eid cid).
Proof. unfold checkEventMoved. frame. Qed.

Hint Resolve reads_checkEventMoved : frame.

Context `{!SheetFrame R} `{!SheetWriteFrame R}.

Lemma reads_processJobAutoDetection (job : Job) :
  preserves R (processJobAutoDetection host job).
Proof. unfold processJobAutoDetection, now_iso. frame. Qed.

End DetectorFrames.

#[local] Instance calendars_kept_preorder : PreOrder calendars_kept.
Proof.
  split.
  - intros w. reflexivity.
  - intros w1 w2 w3 H1 H2. unfold calendars_kept in *. congruence.
Qed.

#[local] Instance calendars_kept_trace : TraceFrame calendars_kept.
Proof. intros e w _. reflexivity. Qed.

#[local] Instance calendars_kept_read : CalendarReadFrame calendars_kept.
Proof. intros f w. reflexivity. Qed.

#[local] Instance calendars_kept_sheet : SheetFrame calendars_kept.
Proof. intros f w. reflexivity. Qed.

#[local] Instance calendars_kept_write : SheetWriteFrame calendars_kept.
Proof. intros f w. reflexivity. Qed.

#[local] Instance calendars_kept_auth : AuthFrame calendars_kept.
Proof. intros f w. reflexivity. Qed.

(** ** What the result of a check says about the store *)

(** A branch that returns at once: the world is as it was. *)
Ltac unchanged :=
  split;
  [ let E := fresh in
    intros ? ? E; cbv [ret] in E; injection E as <- <-;
    split; [reflexivity | let Hp := fresh in intros Hp; discriminate Hp]
  | let E := fresh in intros ? ? E; discriminate E ].

(* What a per-job check returns and what it leaves as it was. *)
Lemma processJobAutoDetection_outcome (host : Host) (job : Job) (w : World) :
  exists r w',
    processJobAutoDetection host job w = (Ok r, w') /\
    w_calendars w' = w_calendars w /\
    (processed r = false -> w_sheet w' = w_sheet w) /\
    (processed r = true ->
     action r = Some "status_updated" /\ newStatus r = Some completion_sentinel).
Proof.
  destruct (never_throws_processJobAutoDetection host job w) as (r & w' & E).
  exists r, w'. split; [exact E|]. split.
  { pose proof (reads_processJobAutoDetection host calendars_kept job w) as H.
    rewrite E in H. exact H. }
  revert E. unfold processJobAutoDetection, try_catch.
  match goal with
  | |- context [match ?m w with _ => _ end] => set (body := m)
  end.
  assert (Hbody :
    (forall r0 w1, body w = (Ok r0, w1) ->
       (processed r0 = false -> w_sheet w1 = w_sheet w) /\
       (processed r0 = true ->
        action r0 = Some "status_updated" /\ newStatus r0 = Some completion_sentinel)) /\
    (forall e w1, body w = (Throw e, w1) -> w_sheet w1 = w_sheet w)).
  { subst body. cbv zeta.
    destruct (negb (Js.truthy (Js.or_prop (job !! "eventId") (job !! "calendar_event_id")))
              || negb (Js.truthy (job !! "team"))); [unchanged|].
    destruct (table_get (queueCalendars host) (job !! "team")) as [cid|]; [|unchanged].
    destruct (negb (ref_truthy cid)); [unchanged|].
    pose proof (reads_checkEventMoved host sheet_kept (job !! "job_id")
                  (default "" (Js.or_prop (job !! "eventId") (job !! "calendar_event_id")))
                  cid w) as Hmoved.
    destruct (checkEventMoved host (job !! "job_id") _ cid w) as [[mr|e0] w2] eqn:Ec;
      cbn in Hmoved.
    2: { split; intros ? ? E; rewrite (bind_Throw _ _ _ _ _ Ec) in E;
           [discriminate E | injection E as <- <-; exact Hmoved]. }
    rewrite (bind_Ok _ _ _ _ _ Ec).
    assert (Hupdate : forall (meta : string -> Metadata) (why : string),
      (forall r0 w1,
         (let* detection_time := now_iso in
          detector_updateJobStatus host (job !! "job_id") completion_sentinel
            (meta detection_time) ;;
          ret (status_updated why)) w2 = (Ok r0, w1) ->
         (processed r0 = false -> w_sheet w1 = w_sheet w) /\
         (processed r0 = true ->
          action r0 = Some "status_updated" /\ newStatus r0 = Some completion_sentinel)) /\
      (forall e w1,
         (let* detection_time := now_iso in
          detector_updateJobStatus host (job !! "job_id") completion_sentinel
            (meta detection_time) ;;
          ret (status_updated why)) w2 = (Throw e, w1) ->
         w_sheet w1 = w_sheet w)).
    { intros meta why. unfold now_iso, bind, get_world, ret.
      destruct (detector_updateJobStatus host (job !! "job_id") completion_sentinel
                  (meta (JsDate.toISOString (w_clock w2))) w2) as [[b|e1] w3] eqn:Eu.
      - split; [|intros e w1 E; discriminate E].
        intros r0 w1 [= <- <-]. split; [intros Hp; discriminate Hp|].
        intros _. split; reflexivity.
      - split; [intros r0 w1 E; discriminate E|].
        intros e w1 [= <- <-].
        rewrite (throw_keeps_detector_updateJobStatus host _ _ _ w2 e1 w3 Eu). exact Hmoved. }
    destruct (moved mr && Js.truthy (newCalendarId mr)).
    { apply (Hupdate (fun detection_time =>
               {| auto_detection := true; moved_from_queue := true;
                  disappeared_from_queue := false;
                  moved_to_calendar := newCalendarName mr;
                  detection_time := detection_time |})). }
    destruct (deletedFromQueue mr && negb (moved mr)).
    { apply (Hupdate (fun detection_time =>
               {| auto_detection := true; moved_from_queue := false;
                  disappeared_from_queue := true;
                  moved_to_calendar := None;
                  detection_time := detection_time |})). }
    split; [|intros e w1 E; discriminate E].
    intros r0 w1 E. cbv [ret] in E. injection E as <- <-.
    split; [intros _; exact Hmoved | intros Hp; discriminate Hp]. }
  destruct Hbody as [Hok Hthrow].
  destruct (body w) as [[r0|e] w1] eqn:Eb.
  - intros [= <- <-]. exact (Hok r0 w1 eq_refl).
  - unfold bind, emit, ret. intros [= <- <-].
    split; [intros _; cbn; exact (Hthrow e w1 eq_refl) | intros Hp; discriminate Hp].
Qed.

(** X2. Whatever the services answer, the per-job check returns a result,
    leaves every calendar as it was, and its result tells what happened to
    the store: with [processed: false] no row of the sheet has changed, and
    [processed: true] always comes with the action 'status_updated' and the
    completion sentinel as the new status. *)
Theorem detection_outcome (host : Host) (job : Job) (w : World) :
  exists r w',
    processJobAutoDetection host job w = (Ok r, w') /\
    w_calendars w' = w_calendars w /\
    (processed r = false -> w_sheet w' = w_sheet w) /\
    (processed r = true ->
     action r = Some "status_updated" /\ newStatus r = Some completion_sentinel).
Proof. exact (processJobAutoDetection_outcome host job w). Qed.

(** ** The per-job check, case by case *)

Lemma events_get_found (cid eid : string) (w : World) (c : Calendar) (ev : Event) :
  w_calendar_faults w = [] ->
  find_calendar cid (w_calendars w) = Some c ->
  cal_events c !! eid = Some ev ->
  events_get cid eid w = (Ok (eid, ev), record (Call "calendar.events.get") w).
Proof.
  intros Hf Hc He. unfold events_get.
  erewrite bind_Ok by (apply request_calendar_ok; exact Hf).
  unfold bind, get_world. cbn. rewrite Hc, He. reflexivity.
Qed.

Lemma events_get_missing (cid eid : string) (w : World) :
  w_calendar_faults w = [] ->
  events_of cid w !! eid = None ->
  events_get cid eid w = (Throw NotFound, record (Call "calendar.events.get") w).
Proof.
  intros Hf He. unfold events_get.
  erewrite bind_Ok by (apply request_calendar_ok; exact Hf).
  unfold bind, get_world. cbn. unfold events_of in He.
  destruct (find_calendar cid (w_calendars w)) as [c|]; [|reflexivity].
  rewrite He. reflexivity.
Qed.

Lemma request_calendar_fault (api : string) (w : World) (e : JsError)
    (fs : list (option JsError)) :
  w_calendar_faults w = Some e :: fs ->
  request_calendar api w
  = (Throw e, set_calendar_faults (fun _ => fs) (record (Call api) w)).
Proof.
  intros H. unfold request_calendar, bind, emit, next_fault. cbn. rewrite H. reflexivity.
Qed.

Lemma monitored_not_skipped (host : Host) (job : Job) (cid eid : string) :
  monitored host job cid eid ->
  negb (Js.truthy (Js.or_prop (job !! "eventId") (job !! "calendar_event_id")))
  || negb (Js.truthy (job !! "team")) = false /\
  String.eqb cid "" = false.
Proof.
  intros (Heid & Hne & Hteam & _ & Hcid). rewrite Heid, Hteam. cbn.
  split.
  - destruct (String.eqb_spec eid ""); [contradiction | reflexivity].
  - destruct (String.eqb_spec cid ""); [contradiction | reflexivity].
Qed.

(** The check of a monitored job, once [checkEventMoved] has reported
    neither a move nor a deletion. *)
Lemma detection_no_change (host : Host) (job : Job) (cid eid : string) (w w1 : World)
    (mr : MoveResult) :
  monitored host job cid eid ->
  checkEventMoved host (job !! "job_id") eid cid w = (Ok mr, w1) ->
  moved mr = false -> deletedFromQueue mr = false ->
  processJobAutoDetection host job w = (Ok (not_processed "No changes detected"), w1).
Proof.
  intros Hmon Hc Hm Hd. destruct (monitored_not_skipped host job cid eid Hmon) as [Hs Hcid].
  destruct Hmon as (Heid & _ & _ & Hq & _).
  unfold processJobAutoDetection. erewrite try_catch_Ok; [reflexivity|].
  cbv zeta. unfold table_get. rewrite Hs, Hq. cbn [ref_truthy]. rewrite Hcid, Heid.
  cbn [negb default from_option id].
  rewrite (bind_Ok _ _ _ _ _ Hc), Hm, Hd. reflexivity.
Qed.

(* The check of a job whose event is where the job says. *)
Lemma processJobAutoDetection_linked (host : Host) (job : Job) (cid eid : string) (w : World)
    (c : Calendar) (ev : Event) :
  monitored host job cid eid ->
  w_calendar_faults w = [] ->
  find_calendar cid (w_calendars w) = Some c ->
  cal_events c !! eid = Some ev ->
  processJobAutoDetection host job w
  = (Ok (not_processed "No changes detected"), record (Call "calendar.events.get") w).
Proof.
  intros Hmon Hf Hc He.
  apply (detection_no_change host job cid eid w _
           {| moved := false; deletedFromQueue := false; newCalendarId := None;
              newCalendarName := None; move_error := None |} Hmon); [|reflexivity..].
  unfold checkEventMoved. erewrite try_catch_Ok; [reflexivity|].
  erewrite try_catch_Ok; [reflexivity|].
  erewrite bind_Ok by (apply (events_get_found cid eid w c ev); assumption).
  reflexivity.
Qed.

(** X3. Linked: when the queue calendar of a monitored job still holds the
    event the job names, the check returns 'No changes detected' after one
    lookup; nothing is written and the sheet is not even read. *)
Theorem detection_linked (host : Host) (job : Job) (cid eid : string) (w : World)
    (c : Calendar) (ev : Event) :
  monitored host job cid eid ->
  w_calendar_faults w = [] ->
  find_calendar cid (w_calendars w) = Some c ->
  cal_events c !! eid = Some ev ->
  processJobAutoDetection host job w
  = (Ok (not_processed "No changes detected"), record (Call "calendar.events.get") w).
Proof. exact (processJobAutoDetection_linked host job cid eid w c ev). Qed.

(** A job of team A linked to the event "ev1", and worlds around it. *)
Lemma detection_linked_witness :
  processJobAutoDetection example_host linked_job linked_world
  = (Ok (not_processed "No changes detected"),
     record (Call "calendar.events.get") linked_world).
Proof.
  apply (detection_linked example_host linked_job "queue-a@group.calendar" "ev1" linked_world
           (queue_with_event "ev1") (titled "JOB-000001: ABC" "2025-08-16T02:00:00.000Z")).
  - repeat split; try reflexivity; discriminate.
  - reflexivity.
  - reflexivity.
  - reflexivity.
Defined.

(** X4. A lookup that fails for another reason than 'not found' (a rate
    limit, an expired credential) is logged and then forgotten: the check
    returns 'No changes detected', the same result as for a linked event,
    with no error in it and nothing written. *)
Theorem detection_lookup_error_is_no_change (host : Host) (job : Job) (cid eid : string)
    (w : World) (e : JsError) (fs : list (option JsError)) :
  monitored host job cid eid ->
  w_calendar_faults w = Some e :: fs ->
  err_code e <> Some 404%Z ->
  processJobAutoDetection host job w
  = (Ok (not_processed "No changes detected"),
     record (ConsoleError ("Error checking event movement for job "
                           +:+ Js.template (job !! "job_id") +:+ ": " +:+ err_message e))
       (set_calendar_faults (fun _ => fs) (record (Call "calendar.events.get") w))).
Proof.
  intros Hmon Hf Hcode.
  apply (detection_no_change host job cid eid w _
           {| moved := false; deletedFromQueue := false; newCalendarId := None;
              newCalendarName := None; move_error := Some (err_message e) |} Hmon);
    [|reflexivity..].
  unfold checkEventMoved.
  erewrite try_catch_Throw.
  - reflexivity.
  - erewrite try_catch_Throw.
    + rewrite bool_decide_eq_false_2 by exact Hcode. reflexivity.
    + erewrite bind_Throw; [reflexivity|].
      unfold events_get. erewrite bind_Throw; [reflexivity|].
      apply request_calendar_fault. exact Hf.
Qed.

Lemma detection_lookup_error_is_no_change_witness :
  processJobAutoDetection example_host linked_job
    (set_calendar_faults (fun _ => [Some rate_limit]) linked_world)
  = (Ok (not_processed "No changes detected"),
     record (ConsoleError
               "Error checking event movement for job JOB-000001: Rate Limit Exceeded")
       (set_calendar_faults (fun _ => [])
          (record (Call "calendar.events.get")
             (set_calendar_faults (fun _ => [Some rate_limit]) linked_world)))).
Proof.
  apply (detection_lookup_error_is_no_change example_host linked_job "queue-a@group.calendar"
           "ev1" (set_calendar_faults (fun _ => [Some rate_limit]) linked_world)
           rate_limit []).
  - repeat split; try reflexivity; discriminate.
  - reflexivity.
  - discriminate.
Defined.

(** ** Drift: the event is gone from the queue calendar *)

Lemma only_trace_refl (w : World) : only_trace w w.
Proof. repeat split. Qed.

Lemma only_trace_trans (w1 w2 w3 : World) :
  only_trace w1 w2 -> only_trace w2 w3 -> only_trace w1 w3.
Proof.
  intros (H1 & H2 & H3 & H4 & H5 & H6) (G1 & G2 & G3 & G4 & G5 & G6).
  repeat split; congruence.
Qed.

Lemma only_trace_record (e : Effect) (w : World) : only_trace w (record e w).
Proof. repeat split. Qed.

Lemma events_of_only_trace (cid : string) (w w' : World) :
  only_trace w w' -> events_of cid w' = events_of cid w.
Proof. intros (_ & H & _). unfold events_of. rewrite H. reflexivity. Qed.

Lemma search_loop_ok (host : Host) (eid : string) (w0 : World) (cs : list Calendar) :
  forall w,
    w_calendar_faults w = [] -> only_trace w0 w ->
    exists w',
      search_loop host eid (map (fun c => (cal_id c, cal_summary c)) cs) w
      = (Ok (search_outcome host eid w0 (find (holds host eid w0) cs)), w') /\
      only_trace w0 w'.
Proof.
  induction cs as [|c cs IH]; intros w Hf Hw; cbn [map search_loop find].
  { exists w. split; [reflexivity | exact Hw]. }
  unfold holds at 1.
  destruct (is_queue_calendar host (cal_id c)) eqn:Eq; cbn [negb andb].
  { apply IH; assumption. }
  destruct (events_of (cal_id c) w0 !! eid) as [ev|] eqn:Eev.
  - rewrite bool_decide_eq_true_2 by (exists ev; reflexivity).
    assert (Hget : events_get (cal_id c) eid w
                   = (Ok (eid, ev), record (Call "calendar.events.get") w)).
    { pose proof Eev as Eev'. rewrite <- (events_of_only_trace _ _ _ Hw) in Eev'.
      unfold events_of in Eev'.
      destruct (find_calendar (cal_id c) (w_calendars w)) as [c'|] eqn:Ec;
        [|rewrite lookup_empty in Eev'; discriminate Eev'].
      apply (events_get_found _ _ _ c' ev); assumption. }
    erewrite bind_Ok.
    2: { erewrite try_catch_Ok; [reflexivity|]. erewrite bind_Ok by exact Hget. reflexivity. }
    eexists. split.
    + unfold search_outcome. rewrite Eev. reflexivity.
    + apply (only_trace_trans _ w); [exact Hw | apply only_trace_record].
  - rewrite bool_decide_eq_false_2 by (intros [ev Hev]; discriminate Hev).
    assert (Hget : events_get (cal_id c) eid w
                   = (Throw NotFound, record (Call "calendar.events.get") w)).
    { apply events_get_missing; [exact Hf|].
      rewrite (events_of_only_trace _ _ _ Hw). exact Eev. }
    erewrite bind_Ok.
    2: { erewrite try_catch_Throw; [reflexivity|]. erewrite bind_Throw by exact Hget.
         reflexivity. }
    apply IH; [exact Hf|].
    apply (only_trace_trans _ w); [exact Hw | apply only_trace_record].
Qed.

Lemma searchEventInPersonalCalendars_ok (host : Host) (eid : string) (jid : option string)
    (w : World) :
  w_calendar_faults w = [] ->
  exists w',
    searchEventInPersonalCalendars host eid jid w
    = (Ok (search_outcome host eid w (first_holder host eid w)), w') /\
    only_trace w w'.
Proof.
  intros Hf.
  destruct (search_loop_ok host eid w (w_calendars w)
              (record (Call "calendar.calendarList.list") w) Hf (only_trace_record _ w))
    as (w' & Hloop & Hw').
  exists w'. split; [|exact Hw'].
  unfold searchEventInPersonalCalendars. erewrite try_catch_Ok; [reflexivity|].
  erewrite bind_Ok; [exact Hloop|].
  unfold getUserCalendars, calendarList_list. erewrite try_catch_Ok; [reflexivity|].
  erewrite bind_Ok by (apply request_calendar_ok; exact Hf). reflexivity.
Qed.

Lemma checkEventMoved_missing (host : Host) (jid : option string) (eid cid : string)
    (w : World) :
  w_calendar_faults w = [] ->
  events_of cid w !! eid = None ->
  exists w',
    checkEventMoved host jid eid cid w
    = (Ok {| moved := bool_decide (is_Some (first_holder host eid w));
             deletedFromQueue := true;
             newCalendarId := cal_id <$> first_holder host eid w;
             newCalendarName := cal_summary <$> first_holder host eid w;
             move_error := None |}, w') /\
    only_trace w w'.
Proof.
  intros Hf He.
  destruct (searchEventInPersonalCalendars_ok host eid jid
              (record (Call "calendar.events.get") w) Hf) as (w' & Hs & Hw').
  exists w'. split.
  - unfold checkEventMoved. erewrite try_catch_Ok; [reflexivity|].
    erewrite try_catch_Throw.
    2: { erewrite bind_Throw; [reflexivity|]. apply events_get_missing; assumption. }
    cbn [err_code NotFound]. rewrite bool_decide_eq_true_2 by reflexivity.
    erewrite bind_Ok by exact Hs.
    assert (Hh : first_holder host eid (record (Call "calendar.events.get") w)
                 = first_holder host eid w) by reflexivity.
    rewrite Hh. destruct (first_holder host eid w) as [c|]; reflexivity.
  - apply (only_trace_trans _ (record (Call "calendar.events.get") w));
      [apply only_trace_record | exact Hw'].
Qed.

(** ** The sheet without faults *)

Lemma sort_insert_last (host : Host) (x : Job) (sorted : list Job) :
  x !! "created_date" = None ->
  sort_insert (newest_first host) x sorted = sorted ++ [x].
Proof.
  intros Hx. induction sorted as [|y ys IH]; cbn [sort_insert app]; [reflexivity|].
  unfold newest_first at 1, created at 1. rewrite Hx. cbn. rewrite IH. reflexivity.
Qed.

Lemma js_sort_no_created_date (host : Host) (rows : list Job) :
  no_created_date rows -> js_sort (newest_first host) rows = rows.
Proof.
  intros H. unfold js_sort.
  enough (G : forall acc, foldl (fun sorted x => sort_insert (newest_first host) x sorted)
                            acc rows = acc ++ rows) by apply (G []).
  induction H as [|x rows Hx _ IH]; intros acc; cbn [foldl].
  - rewrite app_nil_r. reflexivity.
  - rewrite sort_insert_last by exact Hx. rewrite IH, <- app_assoc. reflexivity.
Qed.

(** Without a [created_date] every comparison gives zero: the comparator is
    consistent and the listing is in sheet order, whatever the engine. *)
Lemma no_created_date_consistent (host : Host) (rows : list Job) :
  no_created_date rows -> consistent (newest_first host) rows.
Proof.
  intros H.
  assert (Hzero : forall a b, a ∈ rows -> newest_first host a b = 0%Z
                                          /\ newest_first host b a = 0%Z).
  { intros a b Ha. unfold no_created_date in H. rewrite Forall_forall in H.
    unfold newest_first, created. rewrite (H a Ha).
    split; [destruct (b !! "created_date") as [s|]; [destruct (Date_parse host s)|]|];
      reflexivity. }
  split.
  - intros a b Ha _. destruct (Hzero a b Ha) as [-> ->]. reflexivity.
  - intros a b c Ha _ _ _ _. destruct (Hzero a c Ha) as [-> _]. lia.
Qed.

Lemma listing_no_created_date (host : Host) (rows : list Job) :
  no_created_date rows -> listing host rows = rows.
Proof.
  intros H. unfold listing.
  rewrite Array_sort_stable by (apply no_created_date_consistent; exact H).
  apply js_sort_no_created_date. exact H.
Qed.

Lemma write_cell_at (col field v : string) (i : nat) (rows : list Job) :
  field_of_column col = Some field ->
  write_cell (col, (i + 2)%nat, v) rows = alter (<[field := v]>) i rows.
Proof.
  intros Hc. unfold write_cell. rewrite Hc.
  replace (i + 2)%nat with (S (S i)) by lia. cbn. rewrite Nat.sub_0_r. reflexivity.
Qed.

Lemma updateJobStatus_ok (host : Host) (jid : option string) (st notes : string) (w : World)
    (i : nat) (row : Job) :
  w_sheets_faults w = [] ->
  no_created_date (w_sheet w) ->
  list_find (fun r : Job => r !! "job_id" = jid) (w_sheet w) = Some (i, row) ->
  exists w',
    updateJobStatus host jid st notes w
    = (Ok (let updatedJob :=
             <["updated_date" := Intl_bangkok host (w_clock w)]> (<["status" := st]> row) in
           if String.eqb notes "" then updatedJob else <["notes" := notes]> updatedJob),
       w') /\
    w_sheet w'
    = alter (fun r => let r' := with_status host st (w_clock w) r in
                      if String.eqb notes "" then r' else <["notes" := notes]> r')
        i (w_sheet w) /\
    w_trace w' = w_trace w ++ [Call "sheets.values.get"; Call "sheets.values.batchUpdate"] /\
    w_calendars w' = w_calendars w /\ w_sheets_faults w' = [] /\
    w_calendar_faults w' = w_calendar_faults w /\ w_clock w' = w_clock w.
Proof.
  intros Hf Hrows Hfind. unfold updateJobStatus.
  eexists. split.
  - erewrite try_catch_Ok; [reflexivity|].
    erewrite bind_Ok by (apply getAllJobs_ok; exact Hf).
    rewrite listing_no_created_date by exact Hrows.
    unfold findIndex_job_id. rewrite Hfind.
    unfold bind at 1, get_world.
    erewrite bind_Ok.
    2: { unfold values_write. erewrite bind_Ok by (apply request_sheets_ok; exact Hf).
         reflexivity. }
    reflexivity.
  - cbn -[write_cell String.eqb]. split; [|split; [|repeat split; exact Hf]].
    + destruct (String.eqb notes ""); cbn [app foldl].
      * rewrite (write_cell_at "F" "status"), (write_cell_at "S" "updated_at") by reflexivity.
        rewrite list_alter_alter_eq. reflexivity.
      * rewrite (write_cell_at "F" "status"), (write_cell_at "S" "updated_at"),
          (write_cell_at "J" "notes") by reflexivity.
        rewrite !list_alter_alter_eq. reflexivity.
    + rewrite <- app_assoc. reflexivity.
Qed.

Lemma detector_updateJobStatus_ok (host : Host) (jid : option string) (st : string)
    (meta : Metadata) (w : World) (i : nat) (row : Job) :
  w_sheets_faults w = [] ->
  no_created_date (w_sheet w) ->
  list_find (fun r : Job => r !! "job_id" = jid) (w_sheet w) = Some (i, row) ->
  exists w',
    detector_updateJobStatus host jid st meta w = (Ok true, w') /\
    w_sheet w' = alter (with_status host st (w_clock w)) i (w_sheet w) /\
    w_trace w'
    = w_trace w ++ [ Call "sheets.values.get"; Call "sheets.values.get";
                     Call "sheets.values.batchUpdate"; ConsoleLogDetection jid st meta ] /\
    w_calendars w' = w_calendars w.
Proof.
  intros Hf Hrows Hfind.
  destruct (updateJobStatus_ok host jid st "" (record (Call "sheets.values.get") w) i row
              Hf Hrows Hfind) as (w1 & Hu & Hsheet & Htrace & Hcal & _).
  eexists. split.
  - unfold detector_updateJobStatus. erewrite try_catch_Ok; [reflexivity|].
    erewrite bind_Ok by (apply getAllJobs_ok; exact Hf).
    rewrite listing_no_created_date by exact Hrows.
    unfold findIndex_job_id. rewrite Hfind.
    erewrite bind_Ok by exact Hu. reflexivity.
  - cbn. split; [exact Hsheet|]. split; [|exact Hcal].
    rewrite Htrace. cbn. rewrite <- !app_assoc. reflexivity.
Qed.

(** X5. Drift: when the queue calendar of a monitored job no longer holds
    the event (and both services answer), the status of the job's row becomes
    the completion sentinel, whether the event is found in another calendar
    (moved) or in none (disappeared). The row written is the first one with
    the job's id; the calendars are left as they are; the metadata logged
    with the update names the calendar the event was found in, or marks it
    as disappeared, and carries the time of the detection. *)
Theorem detection_drift_rewrites_status (host : Host) (job : Job) (cid eid : string)
    (w : World) (i : nat) (row : Job) :
  monitored host job cid eid ->
  w_calendar_faults w = [] ->
  w_sheets_faults w = [] ->
  events_of cid w !! eid = None ->
  Forall (fun c => cal_id c <> "") (w_calendars w) ->
  no_created_date (w_sheet w) ->
  list_find (fun r : Job => r !! "job_id" = job !! "job_id") (w_sheet w) = Some (i, row) ->
  exists w',
    processJobAutoDetection host job w
    = (Ok (status_updated (drift_reason (first_holder host eid w))), w') /\
    w_sheet w' = alter (with_status host completion_sentinel (w_clock w)) i (w_sheet w) /\
    w_calendars w' = w_calendars w /\
    last (w_trace w')
    = Some (ConsoleLogDetection (job !! "job_id") completion_sentinel
              (drift_metadata (first_holder host eid w) (JsDate.toISOString (w_clock w)))).
Proof.
  intros Hmon Hcf Hsf Hgone Hids Hrows Hfind.
  destruct (monitored_not_skipped host job cid eid Hmon) as [Hs Hcid].
  destruct Hmon as (Heid & _ & _ & Hq & _).
  destruct (checkEventMoved_missing host (job !! "job_id") eid cid w Hcf Hgone)
    as (w1 & Hmoved & Hw1).
  destruct Hw1 as (Hsheet1 & Hcal1 & Hsf1 & _ & _ & Hclock1).
  assert (Hholder : forall c, first_holder host eid w = Some c ->
                              Js.truthy (Some (cal_id c)) = true).
  { intros c Hc. apply find_some in Hc as [Hin _].
    rewrite Forall_forall in Hids. apply list_elem_of_In in Hin.
    specialize (Hids c Hin). cbn.
    destruct (String.eqb_spec (cal_id c) ""); [contradiction | reflexivity]. }
  assert (Hupdate : forall meta,
    exists w',
      detector_updateJobStatus host (job !! "job_id") completion_sentinel meta w1
      = (Ok true, w') /\
      w_sheet w' = alter (with_status host completion_sentinel (w_clock w)) i (w_sheet w) /\
      w_calendars w' = w_calendars w /\
      last (w_trace w') = Some (ConsoleLogDetection (job !! "job_id") completion_sentinel meta)).
  { intros meta.
    destruct (detector_updateJobStatus_ok host (job !! "job_id") completion_sentinel meta w1
                i row) as (w' & Hu & Hsh & Htr & Hcal).
    - rewrite Hsf1. exact Hsf.
    - rewrite Hsheet1. exact Hrows.
    - rewrite Hsheet1. exact Hfind.
    - exists w'. split; [exact Hu|]. rewrite Hsh, Hcal, Hsheet1, Hcal1, Hclock1, Htr.
      split; [reflexivity|]. split; [reflexivity|].
      change [Call "sheets.values.get"; Call "sheets.values.get";
              Call "sheets.values.batchUpdate";
              ConsoleLogDetection (job !! "job_id") completion_sentinel meta]
        with ([Call "sheets.values.get"; Call "sheets.values.get";
               Call "sheets.values.batchUpdate"]
              ++ [ConsoleLogDetection (job !! "job_id") completion_sentinel meta]).
      rewrite app_assoc. apply last_snoc. }
  unfold processJobAutoDetection.
  destruct (first_holder host eid w) as [c|] eqn:Eh.
  - destruct (Hupdate (drift_metadata (Some c) (JsDate.toISOString (w_clock w))))
      as (w' & Hu & Hfacts).
    exists w'. split; [|exact Hfacts].
    erewrite try_catch_Ok; [reflexivity|].
    cbv zeta. unfold table_get. rewrite Hs, Hq. cbn [ref_truthy]. rewrite Hcid, Heid.
    cbn [negb default from_option id].
    rewrite (bind_Ok _ _ _ _ _ Hmoved).
    cbn [moved newCalendarId newCalendarName fmap option_fmap option_map].
    rewrite bool_decide_eq_true_2 by (exists c; reflexivity).
    rewrite (Hholder c eq_refl). cbn [andb].
    unfold now_iso. unfold bind at 1 2, get_world, ret at 1. rewrite Hclock1.
    change (drift_metadata (Some c) (JsDate.toISOString (w_clock w)))
      with {| auto_detection := true; moved_from_queue := true;
              disappeared_from_queue := false; moved_to_calendar := Some (cal_summary c);
              detection_time := JsDate.toISOString (w_clock w) |} in Hu.
    rewrite (bind_Ok _ _ _ _ _ Hu). reflexivity.
  - destruct (Hupdate (drift_metadata None (JsDate.toISOString (w_clock w))))
      as (w' & Hu & Hfacts).
    exists w'. split; [|exact Hfacts].
    erewrite try_catch_Ok; [reflexivity|].
    cbv zeta. unfold table_get. rewrite Hs, Hq. cbn [ref_truthy]. rewrite Hcid, Heid.
    cbn [negb default from_option id].
    rewrite (bind_Ok _ _ _ _ _ Hmoved).
    cbn [moved newCalendarId newCalendarName deletedFromQueue fmap option_fmap option_map].
    rewrite bool_decide_eq_false_2 by (intros [c Hc]; discriminate Hc).
    cbn [andb negb].
    unfold now_iso. unfold bind at 1 2, get_world, ret at 1. rewrite Hclock1.
    change (drift_metadata None (JsDate.toISOString (w_clock w)))
      with {| auto_detection := true; moved_from_queue := false;
              disappeared_from_queue := true; moved_to_calendar := None;
              detection_time := JsDate.toISOString (w_clock w) |} in Hu.
    rewrite (bind_Ok _ _ _ _ _ Hu). reflexivity.
Qed.

Lemma detection_drift_rewrites_status_witness :
  exists w',
    processJobAutoDetection example_host linked_job moved_world
    = (Ok (status_updated "Event moved to calendar: Somchai (personal)"), w') /\
    (w_sheet w' !! 0%nat) ≫= (fun row : Job => row !! "status") = Some completion_sentinel /\
    w_calendars w' = w_calendars moved_world.
Proof.
  destruct (detection_drift_rewrites_status example_host linked_job "queue-a@group.calendar"
              "ev1" moved_world 0 linked_job) as (w' & Hrun & Hsheet & Hcal & _).
  - repeat split; try reflexivity; discriminate.
  - reflexivity.
  - reflexivity.
  - reflexivity.
  - repeat constructor; discriminate.
  - repeat constructor.
  - vm_compute. reflexivity.
  - exists w'. split; [exact Hrun|]. split; [|exact Hcal].
    rewrite Hsheet. vm_compute. reflexivity.
Defined.

(** The same job when the event is in no calendar at all. *)
Example detection_disappeared :
  (processJobAutoDetection example_host linked_job
     (example_world [linked_job] [empty_calendar "queue-a@group.calendar" "Queue A"])).1
  = Ok (status_updated
          "Event disappeared from queue calendar - assumed completed by technician").
Proof. vm_compute. reflexivity. Qed.

(** ** What the search reports *)

Lemma events_get_Ok (cid eid : string) (w w1 : World) (x : CalEvent) :
  events_get cid eid w = (Ok x, w1) ->
  exists ev, x = (eid, ev) /\ events_of cid w !! eid = Some ev.
Proof.
  unfold events_get, bind.
  pose proof (reads_request_calendar calendars_kept "calendar.events.get" w) as Hk.
  destruct (request_calendar "calendar.events.get" w) as [[[]|e] w0]; cbn in Hk;
    [|discriminate].
  unfold get_world, events_of. rewrite <- Hk.
  destruct (find_calendar cid (w_calendars w0)) as [c|]; [|discriminate].
  destruct (cal_events c !! eid) as [ev|] eqn:E; [|discriminate].
  intros [= <- <-]. exists ev. split; reflexivity.
Qed.

Lemma search_loop_sound (host : Host) (eid : string) (w0 : World)
    (cals : list (string * string)) :
  forall w r w',
    w_calendars w = w_calendars w0 ->
    search_loop host eid cals w = (Ok r, w') ->
    r = not_found_result None \/
    exists id name ev,
      In (id, name) cals /\ is_queue_calendar host id = false /\
      events_of id w0 !! eid = Some ev /\
      r = {| found := true; calendarId := Some id; calendarName := Some name;
             isPersonal := Some (isPersonalCalendar host id name);
             event := Some (eid, ev); search_error := None |}.
Proof.
  induction cals as [|[id name] cals IH]; intros w r w' Hw; cbn [search_loop].
  { intros [= <- <-]. left. reflexivity. }
  assert (Hrest : forall w1, w_calendars w1 = w_calendars w0 ->
            search_loop host eid cals w1 = (Ok r, w') ->
            r = not_found_result None \/
            exists id' name' ev,
              In (id', name') ((id, name) :: cals) /\ is_queue_calendar host id' = false /\
              events_of id' w0 !! eid = Some ev /\
              r = {| found := true; calendarId := Some id'; calendarName := Some name';
                     isPersonal := Some (isPersonalCalendar host id' name');
                     event := Some (eid, ev); search_error := None |}).
  { intros w1 Hw1 E. destruct (IH w1 r w' Hw1 E) as [Hn | (id' & name' & ev & Hin & Hrest)];
      [left; exact Hn|].
    right. exists id', name', ev. split; [right; exact Hin | exact Hrest]. }
  destruct (is_queue_calendar host id) eqn:Eq; [apply Hrest; exact Hw|].
  unfold bind at 1, try_catch.
  pose proof (reads_events_get calendars_kept id eid w) as Hk.
  unfold bind at 1.
  destruct (events_get id eid w) as [[x|e] w1] eqn:Eg; cbn in Hk; cbv beta iota.
  - unfold ret at 1 2. intros [= <- <-].
    destruct (events_get_Ok _ _ _ _ _ Eg) as (ev & -> & Hev).
    right. exists id, name, ev. split; [left; reflexivity|]. split; [exact Eq|].
    split; [|reflexivity]. unfold events_of in *. rewrite <- Hw. exact Hev.
  - unfold ret at 1. apply Hrest. unfold calendars_kept in Hk. congruence.
Qed.

(** X6. Whatever the calendar service answers, the search for a moved event
    returns, changes no calendar, and reports a hit only for a calendar the
    service holds that is no queue calendar and in which the event is found
    under its id; otherwise it reports [found: false] with no calendar. *)
Theorem search_reports_real_moves (host : Host) (eid : string) (jid : option string)
    (w : World) :
  exists r w',
    searchEventInPersonalCalendars host eid jid w = (Ok r, w') /\
    w_calendars w' = w_calendars w /\
    ((found r = false /\ calendarId r = None /\ calendarName r = None) \/
     exists (c : Calendar) (ev : Event),
       c ∈ w_calendars w /\ is_queue_calendar host (cal_id c) = false /\
       events_of (cal_id c) w !! eid = Some ev /\
       r = {| found := true; calendarId := Some (cal_id c);
              calendarName := Some (cal_summary c);
              isPersonal := Some (isPersonalCalendar host (cal_id c) (cal_summary c));
              event := Some (eid, ev); search_error := None |}).
Proof.
  destruct (never_throws_searchEventInPersonalCalendars host eid jid w) as (r & w' & E).
  exists r, w'. split; [exact E|]. split.
  { pose proof (reads_searchEventInPersonalCalendars host calendars_kept eid jid w) as H.
    rewrite E in H. exact H. }
  revert E. unfold searchEventInPersonalCalendars, try_catch, bind.
  pose proof (reads_getUserCalendars calendars_kept w) as Hk.
  assert (Hlist : forall l w1, getUserCalendars w = (Ok l, w1) ->
            forall id name, In (id, name) l ->
              exists c, c ∈ w_calendars w /\ cal_id c = id /\ cal_summary c = name).
  { unfold getUserCalendars, try_catch, calendarList_list, bind.
    pose proof (reads_request_calendar calendars_kept "calendar.calendarList.list" w) as Hr.
    destruct (request_calendar "calendar.calendarList.list" w) as [[[]|e] w0]; cbn in Hr.
    - unfold get_world, ret. intros l w1 [= <- <-] id name Hin.
      apply in_map_iff in Hin as (c & [= <- <-] & Hc).
      exists c. unfold calendars_kept in Hr. rewrite <- Hr.
      split; [apply list_elem_of_In; exact Hc | split; reflexivity].
    - unfold emit, ret. intros l w1 [= <- <-] id name []. }
  destruct (getUserCalendars w) as [[l|e] w1] eqn:Eg; cbn in Hk.
  - destruct (search_loop host eid l w1) as [[r0|e] w2] eqn:Es.
    + intros [= <- <-].
      destruct (search_loop_sound host eid w l w1 r0 w2 Hk Es)
        as [-> | (id & name & ev & Hin & Hq & Hev & ->)]; [left; repeat split|].
      destruct (Hlist l w1 eq_refl id name Hin) as (c & Hc & <- & <-).
      right. exists c, ev. repeat split; assumption.
    + unfold emit, ret. intros [= <- <-]. left. repeat split.
  - unfold emit, ret. intros [= <- <-]. left. repeat split.
Qed.

(** ** The daily scan *)

Lemma sleeps_app (t1 t2 : list Effect) : sleeps (t1 ++ t2) = sleeps t1 ++ sleeps t2.
Proof. unfold sleeps. apply omap_app. Qed.

Lemma sleeps_no_sleep (t : list Effect) :
  forallb (fun e => negb (is_sleep e)) t = true -> sleeps t = [].
Proof.
  induction t as [|e t IH]; [reflexivity|]. cbn [forallb]. intros H.
  apply andb_prop in H as [He Ht]. unfold sleeps in *. cbn [omap list_omap].
  destruct e; try discriminate He; cbn; exact (IH Ht).
Qed.

Lemma count_result_facts (job : Job) (r : DetectionResult) (results : RunSummary) :
  (processed r = true ->
   action r = Some "status_updated" /\ newStatus r = Some completion_sentinel) ->
  count_result job r results
  = {| totalChecked := totalChecked results;
       statusUpdated := statusUpdated results + (if processed r then 1 else 0);
       moved_count := moved_count results + (if processed r then 1 else 0);
       deleted := deleted results + 0;
       errors := errors results;
       details := details results ++ [DetailResult (job !! "job_id") r] |}.
Proof.
  intros H. unfold count_result. destruct (processed r).
  - destruct (H eq_refl) as [-> ->]. reflexivity.
  - reflexivity.
Qed.

Lemma scan_loop_spec (host : Host) (jobs : list Job) :
  forall (results : RunSummary) (w : World),
  exists s w' t ds,
    scan_loop host jobs results w = (Ok s, w') /\
    checked_in_turn host jobs w ds w' /\
    totalChecked s = totalChecked results /\
    errors s = errors results /\ deleted s = deleted results /\
    statusUpdated s
    = statusUpdated results + length (filter (fun d => is_update d = true) ds) /\
    moved_count s
    = moved_count results + length (filter (fun d => is_update d = true) ds) /\
    details s = details results ++ ds /\
    length ds = length jobs /\
    w_calendars w' = w_calendars w /\
    w_trace w' = w_trace w ++ t /\
    sleeps t = replicate (length jobs) 100%Z.
Proof.
  induction jobs as [|job jobs IH]; intros results w; cbn [scan_loop].
  { exists results, w, [], []. rewrite !app_nil_r. cbn. rewrite !Nat.add_0_r.
    repeat split. constructor. }
  destruct (processJobAutoDetection_outcome host job w) as (r & w1 & Er & Hcal1 & _ & Hproc).
  pose proof (reads_processJobAutoDetection host no_wait job w) as Hnw.
  rewrite Er in Hnw. destruct Hnw as (_ & t1 & Ht1 & Hns). cbn in Ht1.
  erewrite bind_Ok.
  2: { erewrite try_catch_Ok; [reflexivity|]. erewrite bind_Ok by exact Er. reflexivity. }
  rewrite (count_result_facts job r results Hproc).
  unfold bind at 1, sleep.
  match goal with
  | |- context [scan_loop host jobs ?rs ?w2] =>
      destruct (IH rs w2) as (s & w' & t & ds & Hrun & Hchk & Htot & Herr & Hdel & Hupd
                              & Hmov & Hdet & Hlen & Hcal & Htr & Hsl)
  end.
  cbn in Htot, Herr, Hdel, Hupd, Hmov, Hdet, Hcal, Htr.
  exists s, w', (t1 ++ [Sleep 100] ++ t), (DetailResult (job !! "job_id") r :: ds).
  assert (Hcount : length (filter (fun d => is_update d = true)
                             (DetailResult (job !! "job_id") r :: ds))
                   = (if processed r then 1 else 0)
                     + length (filter (fun d => is_update d = true) ds)).
  { destruct (processed r) eqn:Ep.
    - rewrite filter_cons_True by exact Ep. reflexivity.
    - rewrite filter_cons_False by (cbn; rewrite Ep; discriminate). reflexivity. }
  split; [exact Hrun|]. split; [exact (checked_next host job jobs w w1 w' r ds Er Hchk)|].
  repeat split.
  - exact Htot.
  - exact Herr.
  - rewrite Hdel. lia.
  - rewrite Hupd, Hcount. lia.
  - rewrite Hmov, Hcount. lia.
  - rewrite Hdet, <- app_assoc. reflexivity.
  - cbn [length]. rewrite Hlen. reflexivity.
  - rewrite Hcal. exact Hcal1.
  - rewrite Htr, Ht1, <- !app_assoc. reflexivity.
  - rewrite !sleeps_app, (sleeps_no_sleep t1 Hns), Hsl. reflexivity.
Qed.

Lemma request_auth_answered (api : string) (w : World) :
  answered (w_auth_faults w) = true ->
  exists w',
    request_auth api w = (Ok tt, w') /\
    w_sheet w' = w_sheet w /\ w_calendars w' = w_calendars w /\
    w_sheets_faults w' = w_sheets_faults w /\ w_trace w' = w_trace w ++ [Call api].
Proof.
  intros H. unfold request_auth, bind, emit, next_fault. cbn.
  destruct (w_auth_faults w) as [|[e|] fs]; [|discriminate H|]; eexists;
    (split; [reflexivity | repeat split]).
Qed.

Lemma getAllJobs_answered (host : Host) (w : World) :
  answered (w_sheets_faults w) = true ->
  exists w',
    getAllJobs host w = (Ok (listing host (w_sheet w)), w') /\
    w_sheet w' = w_sheet w /\ w_calendars w' = w_calendars w /\
    w_trace w' = w_trace w ++ [Call "sheets.values.get"].
Proof.
  intros H. unfold getAllJobs, try_catch, values_get_jobs, request_sheets, bind, emit,
    next_fault, get_world, ret. cbn.
  destruct (w_sheets_faults w) as [|[e|] fs]; [|discriminate H|]; eexists;
    (split; [reflexivity | repeat split]).
Qed.

(** X7. Once the sign-in and the first read of the sheet are answered, the
    daily scan always completes, whatever fails afterwards. It takes the rows
    of the listing that have an event id, a team and a status that is not
    final, in the order of the listing, and checks them one after the other,
    each by [processJobAutoDetection] in the world its predecessor left, with
    a wait of 100 ms after each; the details it returns are the results of
    these checks. It counts the results that report a status update, counts
    each of them as a move, counts no error and no deletion, and leaves the
    calendars as they are. *)
Theorem daily_scan_summary (host : Host) (w : World) :
  answered (w_auth_faults w) = true ->
  answered (w_sheets_faults w) = true ->
  exists s w0 w' t,
    runDailyAutoDetection host w = (Ok s, w') /\
    w_sheet w0 = w_sheet w /\ w_calendars w0 = w_calendars w /\
    checked_in_turn host
      (filter (fun job => has_calendar_event job = true) (listing host (w_sheet w)))
      w0 (details s) w' /\
    totalChecked s = length (filter (fun job => has_calendar_event job = true) (w_sheet w)) /\
    length (details s) = totalChecked s /\
    statusUpdated s = length (filter (fun d => is_update d = true) (details s)) /\
    moved_count s = statusUpdated s /\
    errors s = 0 /\ deleted s = 0 /\
    w_calendars w' = w_calendars w /\
    w_trace w' = w_trace w ++ t /\
    sleeps t = replicate (totalChecked s) 100%Z.
Proof.
  intros Hauth Hsheets.
  destruct (request_auth_answered "auth.getClient" w Hauth)
    as (w1 & Hr1 & Hsh1 & Hcal1 & Hsf1 & Htr1).
  rewrite <- Hsf1 in Hsheets.
  destruct (getAllJobs_answered host w1 Hsheets) as (w2 & Hr2 & Hsh2 & Hcal2 & Htr2).
  set (jobs := filter (fun job => has_calendar_event job = true) (listing host (w_sheet w))).
  destruct (scan_loop_spec host jobs
              {| totalChecked := length jobs; statusUpdated := 0; moved_count := 0;
                 deleted := 0; errors := 0; details := [] |} w2)
    as (s & w' & t & ds & Hrun & Hchk & Htot & Herr & Hdel & Hupd & Hmov & Hdet & Hlends
        & Hcal & Htr & Hsl).
  cbn in Htot, Herr, Hdel, Hupd, Hmov, Hdet.
  assert (Hlen : length jobs
                 = length (filter (fun job => has_calendar_event job = true) (w_sheet w))).
  { subst jobs. apply Permutation_length. rewrite listing_perm. reflexivity. }
  exists s, w2, w', ([Call "auth.getClient"; Call "sheets.values.get"] ++ t).
  split.
  { unfold runDailyAutoDetection. erewrite try_catch_Ok; [reflexivity|].
    erewrite bind_Ok.
    2: { unfold initializeAuth. erewrite try_catch_Ok; [reflexivity|].
         erewrite bind_Ok by exact Hr1. reflexivity. }
    cbn [negb]. erewrite bind_Ok by exact Hr2. rewrite Hsh1. exact Hrun. }
  rewrite Htot, <- Hlen, Hdet. repeat split.
  - rewrite Hsh2. exact Hsh1.
  - rewrite Hcal2. exact Hcal1.
  - exact Hchk.
  - exact Hlends.
  - exact Hupd.
  - rewrite Hupd, Hmov. reflexivity.
  - exact Herr.
  - exact Hdel.
  - rewrite Hcal, Hcal2, Hcal1. reflexivity.
  - rewrite Htr, Htr2, Htr1, <- !app_assoc. reflexivity.
  - rewrite sleeps_app. exact Hsl.
Qed.

Lemma daily_scan_summary_witness :
  exists s w',
    runDailyAutoDetection example_host moved_world = (Ok s, w') /\
    totalChecked s = 1 /\ errors s = 0 /\ moved_count s = statusUpdated s.
Proof.
  destruct (daily_scan_summary example_host moved_world eq_refl eq_refl)
    as (s & w0 & w' & t & Hrun & _ & _ & _ & Htot & _ & _ & Hmov & Herr & _).
  exists s, w'. split; [exact Hrun|]. split; [rewrite Htot; reflexivity|].
  split; assumption.
Defined.

Lemma request_auth_fault (api : string) (w : World) (e : JsError)
    (fs : list (option JsError)) :
  w_auth_faults w = Some e :: fs ->
  request_auth api w = (Throw e, set_auth_faults (fun _ => fs) (record (Call api) w)).
Proof.
  intros H. unfold request_auth, bind, emit, next_fault. cbn. rewrite H. reflexivity.
Qed.

Lemma initializeAuth_fault (w : World) (e : JsError) (fs : list (option JsError)) :
  w_auth_faults w = Some e :: fs ->
  initializeAuth w
  = (Ok false,
     record (ConsoleError ("Auto-Detection Auth Error: " +:+ err_message e))
       (set_auth_faults (fun _ => fs) (record (Call "auth.getClient") w))).
Proof.
  intros H. unfold initializeAuth. erewrite try_catch_Throw; [reflexivity|].
  erewrite bind_Throw; [reflexivity|]. apply request_auth_fault. exact H.
Qed.

(** X8. The scan and the check of one job give up before touching anything
    when the sign-in fails: both throw 'Failed to initialize authentication'
    after logging the cause, with no request sent to the sheet or to the
    calendars. The scan also gives up when its first read of the sheet
    fails: it rethrows that error, the sheet and the calendars are as they
    were and no calendar request has been sent. *)
Theorem daily_scan_aborts_early (host : Host) (w : World) (e : JsError)
    (fs : list (option JsError)) :
  (w_auth_faults w = Some e :: fs ->
   let w1 := record (ConsoleError ("Auto-Detection Auth Error: " +:+ err_message e))
               (set_auth_faults (fun _ => fs) (record (Call "auth.getClient") w)) in
   runDailyAutoDetection host w
   = (Throw (Error "Failed to initialize authentication"),
      record (ConsoleError
                "Error running daily auto-detection: Failed to initialize authentication")
        w1) /\
   forall jobId,
     checkSpecificJob host jobId w
     = (Throw (Error "Failed to initialize authentication"),
        record (ConsoleError ("Error checking specific job " +:+ Js.template jobId
                              +:+ ": Failed to initialize authentication")) w1)) /\
  (answered (w_auth_faults w) = true ->
   w_sheets_faults w = Some e :: fs ->
   exists w',
     runDailyAutoDetection host w = (Throw e, w') /\
     w_sheet w' = w_sheet w /\ w_calendars w' = w_calendars w /\
     w_calendar_faults w' = w_calendar_faults w /\
     w_trace w'
     = w_trace w ++ [ Call "auth.getClient"; Call "sheets.values.get";
                      ConsoleError ("Error getting jobs: " +:+ err_message e);
                      ConsoleError ("Error running daily auto-detection: "
                                    +:+ err_message e) ]).
Proof.
  split.
  - intros Hauth w1. split; [|intros jobId].
    + unfold runDailyAutoDetection. erewrite try_catch_Throw.
      2: { erewrite bind_Ok by (apply initializeAuth_fault; exact Hauth). reflexivity. }
      reflexivity.
    + unfold checkSpecificJob. erewrite try_catch_Throw.
      2: { erewrite bind_Ok by (apply initializeAuth_fault; exact Hauth). reflexivity. }
      reflexivity.
  - intros Hauth Hsheets. unfold runDailyAutoDetection, initializeAuth, getAllJobs,
      values_get_jobs, request_auth, request_sheets, try_catch, bind, emit, next_fault,
      get_world, ret, throw. cbn.
    destruct (w_auth_faults w) as [|[e0|] fs0]; [|discriminate Hauth|]; cbn;
      rewrite Hsheets; cbn; eexists; (split; [reflexivity|]); cbn;
      rewrite <- !app_assoc; repeat split.
Qed.

Lemma daily_scan_aborts_early_witness :
  (runDailyAutoDetection example_host
     (set_auth_faults (fun _ => [Some rate_limit]) moved_world)).1
  = Throw (Error "Failed to initialize authentication") /\
  (runDailyAutoDetection example_host
     (set_sheets_faults (fun _ => [Some rate_limit]) moved_world)).1
  = Throw rate_limit.
Proof.
  split.
  - rewrite (proj1 (proj1 (daily_scan_aborts_early example_host
                      (set_auth_faults (fun _ => [Some rate_limit]) moved_world)
                      rate_limit []) eq_refl)).
    reflexivity.
  - destruct (proj2 (daily_scan_aborts_early example_host
                       (set_sheets_faults (fun _ => [Some rate_limit]) moved_world)
                       rate_limit []) eq_refl eq_refl) as (w' & Hrun & _).
    rewrite Hrun. reflexivity.
Defined.

(** ** The runs the scheduler starts *)

Section ScanFrames.

Context (host : Host) (R : relation World) `{!PreOrder R} `{!TraceFrame R}
  `{!CalendarReadFrame R} `{!SheetFrame R} `{!SheetWriteFrame R} `{!AuthFrame R}.

Hypothesis sleep_frame : forall ms, preserves R (sleep ms).

Lemma reads_scan_loop (jobs : list Job) (results : RunSummary) :
  preserves R (scan_loop host jobs results).
Proof.
  revert results. induction jobs as [|job jobs IH]; intros results; cbn [scan_loop].
  - apply preserves_ret; exact _.
  - apply preserves_bind; [exact _| |].
    + apply preserves_try_catch; [exact _| |intros e; apply preserves_ret; exact _].
      apply preserves_bind; [exact _ | apply reads_processJobAutoDetection; exact _ |].
      intros r. apply preserves_ret; exact _.
    + intros results'. apply preserves_bind; [exact _ | apply sleep_frame |].
      intros _. apply IH.
Qed.

Lemma reads_runDailyAutoDetection : preserves R (runDailyAutoDetection host).
Proof.
  unfold runDailyAutoDetection, initializeAuth.
  pose proof reads_scan_loop. frame.
Qed.

End ScanFrames.

(** X9. A scheduled tick never throws: when the scan aborts, the callback
    logs the failure and returns. Neither the tick nor the on-demand run ever
    changes a calendar, and the on-demand run returns or rethrows exactly
    what the scan does. *)
Theorem scheduled_runs (host : Host) (w : World) :
  (exists w', daily_callback host w = (Ok tt, w') /\ w_calendars w' = w_calendars w) /\
  (runImmediateCheck host w).1 = (runDailyAutoDetection host w).1 /\
  w_calendars (runImmediateCheck host w).2 = w_calendars w.
Proof.
  assert (Hsleep : forall ms, preserves calendars_kept (sleep ms))
    by (intros ms w0; reflexivity).
  pose proof (reads_runDailyAutoDetection host calendars_kept Hsleep w) as Hk.
  unfold daily_callback, runImmediateCheck, try_catch, bind, emit, ret, throw.
  destruct (runDailyAutoDetection host w) as [[s|e] w1]; cbn in *.
  - split; [exists w1; split; [reflexivity | exact Hk]|]. split; [reflexivity | exact Hk].
  - split; [eexists; split; [reflexivity | exact Hk]|]. split; [reflexivity | exact Hk].
Qed.

(** X10. The check of one job signs in, reads the sheet once and then runs
    the same per-job check the scan runs, on the first job that has the id in
    the listing [getAllJobs] returns (the rows as the engine's sort orders
    them); an id no job has makes it throw 'Job <id> not found' without a
    request to the calendars. *)
Theorem check_specific_job (host : Host) (jobId : option string) (w : World) :
  w_auth_faults w = [] ->
  w_sheets_faults w = [] ->
  checkSpecificJob host jobId w
  = let w2 := record (Call "sheets.values.get") (record (Call "auth.getClient") w) in
    match find (fun j : Job => bool_decide (j !! "job_id" = jobId))
            (listing host (w_sheet w)) with
    | Some job => processJobAutoDetection host job w2
    | None =>
        (Throw (Error ("Job " +:+ Js.template jobId +:+ " not found")),
         record (ConsoleError ("Error checking specific job " +:+ Js.template jobId
                               +:+ ": Job " +:+ Js.template jobId +:+ " not found")) w2)
    end.
Proof.
  intros Hauth Hsheets. cbv zeta.
  assert (Hinit : initializeAuth w = (Ok true, record (Call "auth.getClient") w)).
  { unfold initializeAuth, request_auth, try_catch, bind, emit, next_fault, ret. cbn.
    rewrite Hauth. reflexivity. }
  unfold checkSpecificJob.
  destruct (find (fun j : Job => bool_decide (j !! "job_id" = jobId))
              (listing host (w_sheet w))) as [job|] eqn:Efind.
  - destruct (never_throws_processJobAutoDetection host job
                (record (Call "sheets.values.get") (record (Call "auth.getClient") w)))
      as (r & w' & Er).
    rewrite Er. erewrite try_catch_Ok; [reflexivity|].
    erewrite bind_Ok by exact Hinit. cbn [negb].
    erewrite bind_Ok by (apply getAllJobs_ok; exact Hsheets).
    cbn [w_sheet record set_trace]. rewrite Efind. exact Er.
  - erewrite try_catch_Throw.
    2: { erewrite bind_Ok by exact Hinit. cbn [negb].
         erewrite bind_Ok by (apply getAllJobs_ok; exact Hsheets).
         cbn [w_sheet record set_trace]. rewrite Efind. reflexivity. }
    reflexivity.
Qed.

Lemma check_specific_job_witness :
  (checkSpecificJob example_host (Some "JOB-000001") moved_world).1
  = Ok (status_updated "Event moved to calendar: Somchai (personal)") /\
  (checkSpecificJob example_host (Some "JOB-000009") moved_world).1
  = Throw (Error "Job JOB-000009 not found").
Proof.
  split.
  - rewrite (check_specific_job example_host (Some "JOB-000001") moved_world eq_refl eq_refl).
    vm_compute. reflexivity.
  - rewrite (check_specific_job example_host (Some "JOB-000009") moved_world eq_refl eq_refl).
    vm_compute. reflexivity.
Defined.

(** ** Reading and writing the sheet *)

Lemma no_created_date_alter (f : Job -> Job) (i : nat) (rows : list Job) :
  (forall r : Job, f r !! "created_date" = r !! "created_date") ->
  no_created_date rows -> no_created_date (alter f i rows).
Proof.
  intros Hf H. unfold no_created_date in *. rewrite Forall_forall in *.
  intros r Hr. apply list_elem_of_lookup in Hr as [j Hj].
  destruct (decide (i = j)) as [->|Hne].
  - rewrite list_lookup_alter_eq in Hj.
    destruct (rows !! j) as [r0|] eqn:E; [|discriminate Hj]. cbn in Hj.
    injection Hj as <-. rewrite Hf. apply H. apply list_elem_of_lookup. exists j. exact E.
  - rewrite list_lookup_alter_ne in Hj by exact Hne.
    apply H. apply list_elem_of_lookup. exists j. exact Hj.
Qed.

(** Looking a field up in a row that has just been written. *)
Ltac lookup_field :=
  repeat first [ rewrite lookup_insert_eq | rewrite lookup_insert_ne by discriminate ].

(** X11. Status update, read back: when the sheet answers and its header is
    the documented one (no [created_date] column), [updateJobStatus] writes
    the status and the time of the update (and the notes, when given) into
    the first row that has the job id and into no other cell, so that the
    next listing shows the job with the new status. The job it returns
    carries the new status too, but its time stamp is under [updated_date]
    while its [updated_at] is the one read before the update. *)
Theorem status_update_round_trip (host : Host) (jid : option string) (st notes : string)
    (w : World) (i : nat) (row : Job) :
  w_sheets_faults w = [] ->
  no_created_date (w_sheet w) ->
  list_find (fun r : Job => r !! "job_id" = jid) (w_sheet w) = Some (i, row) ->
  exists job' w',
    updateJobStatus host jid st notes w = (Ok job', w') /\
    job' !! "status" = Some st /\
    job' !! "updated_date" = Some (Intl_bangkok host (w_clock w)) /\
    job' !! "updated_at" = row !! "updated_at" /\
    w_sheet w'
    = alter (fun r => let r' := with_status host st (w_clock w) r in
                      if String.eqb notes "" then r' else <["notes" := notes]> r')
        i (w_sheet w) /\
    (getAllJobs host w').1 = Ok (w_sheet w') /\
    (exists row', w_sheet w' !! i = Some row' /\ row' !! "job_id" = jid /\
                  row' !! "status" = Some st /\
                  row' !! "updated_at" = Some (Intl_bangkok host (w_clock w))) /\
    (forall j, j <> i -> w_sheet w' !! j = w_sheet w !! j).
Proof.
  intros Hf Hrows Hfind.
  destruct (updateJobStatus_ok host jid st notes w i row Hf Hrows Hfind)
    as (w' & Hrun & Hsheet & _ & _ & Hf' & _).
  apply list_find_Some in Hfind as (Hi & Hjid & _).
  eexists _, w'. split; [exact Hrun|]. cbv zeta.
  split; [destruct (String.eqb notes ""); lookup_field; reflexivity|].
  split; [destruct (String.eqb notes ""); lookup_field; reflexivity|].
  split; [destruct (String.eqb notes ""); lookup_field; reflexivity|].
  split; [exact Hsheet|]. split; [|split].
  - rewrite (getAllJobs_ok host w' Hf'). cbn. f_equal. apply listing_no_created_date.
    rewrite Hsheet. apply no_created_date_alter; [|exact Hrows].
    intros r. unfold with_status. destruct (String.eqb notes ""); lookup_field; reflexivity.
  - rewrite Hsheet, list_lookup_alter_eq, Hi. cbn. eexists. split; [reflexivity|].
    unfold with_status.
    destruct (String.eqb notes ""); lookup_field; repeat split; exact Hjid.
  - intros j Hne. rewrite Hsheet. apply list_lookup_alter_ne. congruence.
Qed.

Lemma status_update_round_trip_witness :
  exists job' w',
    updateJobStatus example_host (Some "JOB-000001") "Done" "" linked_world = (Ok job', w') /\
    job' !! "status" = Some "Done" /\
    (getAllJobs example_host w').1 = Ok [with_status example_host "Done" 1754000000000 linked_job].
Proof.
  destruct (status_update_round_trip example_host (Some "JOB-000001") "Done" "" linked_world
              0 linked_job) as (job' & w' & Hrun & Hst & _ & _ & Hsheet & Hget & _).
  - reflexivity.
  - repeat constructor.
  - vm_compute. reflexivity.
  - exists job', w'. split; [exact Hrun|]. split; [exact Hst|].
    rewrite Hget, Hsheet. reflexivity.
Defined.

(** X12. The row a status update writes is found by position in the
    listing, not in the sheet: with the job at index [i] of what [getAllJobs]
    returns (the rows as the engine's sort orders them), the cells written
    are those of sheet row [i + 2]. Under a header
    with a [created_date] column the two orders differ, and the update of
    one job lands in the row of another: with JOB-000001 above the newer
    JOB-000002 in the sheet, setting JOB-000001 to Done changes the row of
    JOB-000002. *)
Theorem status_update_targets_listing_position (host : Host) (jid : option string)
    (st : string) (w : World) (i : nat) (job : Job) :
  (w_sheets_faults w = [] ->
   findIndex_job_id jid (listing host (w_sheet w)) = Some (i, job) ->
   exists w',
     updateJobStatus host jid st "" w
     = (Ok (<["updated_date" := Intl_bangkok host (w_clock w)]> (<["status" := st]> job)), w')
     /\ w_sheet w' = alter (with_status host st (w_clock w)) i (w_sheet w)) /\
  map (fun r : Job => (r !! "job_id", r !! "status"))
    (w_sheet (updateJobStatus example_host (Some "JOB-000001") "Done" ""
                (example_world dated_rows [])).2)
  = [ (Some "JOB-000001", Some "New"); (Some "JOB-000002", Some "Done") ].
Proof.
  split; [|vm_compute; reflexivity].
  intros Hf Hfind. unfold updateJobStatus. eexists. split.
  - erewrite try_catch_Ok; [reflexivity|].
    erewrite bind_Ok by (apply getAllJobs_ok; exact Hf).
    rewrite Hfind. unfold bind at 1, get_world.
    erewrite bind_Ok.
    2: { unfold values_write. erewrite bind_Ok by (apply request_sheets_ok; exact Hf).
         reflexivity. }
    reflexivity.
  - cbn -[write_cell].
    rewrite (write_cell_at "F" "status"), (write_cell_at "S" "updated_at") by reflexivity.
    rewrite list_alter_alter_eq. reflexivity.
Qed.

Lemma status_update_targets_listing_position_witness :
  exists w',
    updateJobStatus example_host (Some "JOB-000001") "Done" "" (example_world dated_rows [])
    = (Ok (<["updated_date" := "2025-08-01T05:13:20.000Z"]>
             (<["status" := "Done"]>
                (job_of [("job_id", "JOB-000001"); ("status", "New");
                         ("created_date", "2025-01-01")]))), w') /\
    w_sheet w' = alter (with_status example_host "Done" 1754000000000) 1 dated_rows.
Proof.
  apply (proj1 (status_update_targets_listing_position example_host (Some "JOB-000001")
                  "Done" (example_world dated_rows []) 1
                  (job_of [("job_id", "JOB-000001"); ("status", "New");
                           ("created_date", "2025-01-01")]))).
  - reflexivity.
  - vm_compute. reflexivity.
Defined.

(* A successful write of an event id. *)
Lemma updateJobEventId_ok (host : Host) (jid : option string) (eventId : string)
    (w : World) (i : nat) (row : Job) :
  w_sheets_faults w = [] ->
  no_created_date (w_sheet w) ->
  list_find (fun r : Job => r !! "job_id" = jid) (w_sheet w) = Some (i, row) ->
  exists w',
    updateJobEventId host jid eventId w = (Ok true, w') /\
    w_sheet w' = alter (<["eventId" := eventId]>) i (w_sheet w) /\
    (getAllJobs host w').1 = Ok (w_sheet w') /\
    w_sheet w' !! i = Some (<["eventId" := eventId]> row) /\
    w_calendars w' = w_calendars w.
Proof.
  intros Hf Hrows Hfind. unfold updateJobEventId.
  eexists. split.
  - erewrite try_catch_Ok; [reflexivity|].
    erewrite bind_Ok by (apply getAllJobs_ok; exact Hf).
    rewrite listing_no_created_date by exact Hrows.
    unfold findIndex_job_id. rewrite Hfind.
    erewrite bind_Ok.
    2: { unfold values_write. erewrite bind_Ok by (apply request_sheets_ok; exact Hf).
         reflexivity. }
    reflexivity.
  - apply list_find_Some in Hfind as (Hi & _).
    cbn -[write_cell]. rewrite (write_cell_at "K" "eventId") by reflexivity.
    split; [reflexivity|]. split; [|split; [|reflexivity]].
    + erewrite getAllJobs_ok by exact Hf. cbn -[write_cell].
      rewrite (write_cell_at "K" "eventId") by reflexivity.
      f_equal. apply listing_no_created_date.
      apply no_created_date_alter; [|exact Hrows]. intros r. lookup_field. reflexivity.
    + rewrite list_lookup_alter_eq, Hi. reflexivity.
Qed.

(** X13. Event id, written and read back: when the sheet answers and has the
    documented header, [updateJobEventId] sets the [eventId] cell of the
    first row with the job id and nothing else, so that the next listing
    shows the job with that event id; writing the empty string clears it. *)
Theorem event_id_round_trip (host : Host) (jid : option string) (eventId : string)
    (w : World) (i : nat) (row : Job) :
  w_sheets_faults w = [] ->
  no_created_date (w_sheet w) ->
  list_find (fun r : Job => r !! "job_id" = jid) (w_sheet w) = Some (i, row) ->
  exists w',
    updateJobEventId host jid eventId w = (Ok true, w') /\
    w_sheet w' = alter (<["eventId" := eventId]>) i (w_sheet w) /\
    (getAllJobs host w').1 = Ok (w_sheet w') /\
    w_sheet w' !! i = Some (<["eventId" := eventId]> row) /\
    w_calendars w' = w_calendars w.
Proof. exact (updateJobEventId_ok host jid eventId w i row). Qed.

Lemma event_id_round_trip_witness :
  exists w',
    updateJobEventId example_host (Some "JOB-000001") "" linked_world = (Ok true, w') /\
    w_sheet w' = [<["eventId" := ""]> linked_job].
Proof.
  destruct (event_id_round_trip example_host (Some "JOB-000001") "" linked_world 0 linked_job)
    as (w' & Hrun & Hsheet & _).
  - reflexivity.
  - repeat constructor.
  - vm_compute. reflexivity.
  - exists w'. split; [exact Hrun | exact Hsheet].
Defined.

Lemma sort_insert_sorted (host : Host) (x : Job) (sorted : list Job) :
  is_Some (created host x) ->
  all_dated host sorted ->
  StronglySorted (not_older host) sorted ->
  StronglySorted (not_older host) (sort_insert (newest_first host) x sorted).
Proof.
  intros [tx Hx] Hdated Hsorted.
  induction Hsorted as [|y ys Hys IH Hy]; cbn [sort_insert].
  { repeat constructor. }
  apply Forall_cons in Hdated as [[ty Hty] Hdated].
  unfold newest_first at 1. rewrite Hx, Hty.
  destruct (Z.ltb_spec 0 (tx - ty)) as [Hlt|Hge].
  - constructor; [constructor; assumption|].
    constructor.
    + unfold not_older. rewrite Hx, Hty. cbn. lia.
    + rewrite Forall_forall in *. intros z Hz. specialize (Hy z Hz).
      unfold not_older in *. rewrite Hx. rewrite Hty in Hy. cbn in *. lia.
  - constructor; [apply IH; exact Hdated|].
    rewrite sort_insert_perm. constructor; [|exact Hy].
    unfold not_older. rewrite Hx, Hty. cbn. lia.
Qed.

Lemma js_sort_sorted (host : Host) (rows : list Job) :
  all_dated host rows -> StronglySorted (not_older host) (js_sort (newest_first host) rows).
Proof.
  intros H. unfold js_sort.
  enough (G : forall acc, all_dated host acc -> StronglySorted (not_older host) acc ->
            StronglySorted (not_older host)
              (foldl (fun sorted x => sort_insert (newest_first host) x sorted) acc rows))
    by (apply G; constructor).
  induction H as [|x rows Hx _ IH]; intros acc Hacc Hsorted; cbn [foldl]; [exact Hsorted|].
  apply IH.
  - unfold all_dated. rewrite sort_insert_perm. constructor; assumption.
  - apply sort_insert_sorted; assumption.
Qed.

(** When every row is dated the comparator is the difference of two time
    values: it is consistent, and the listing is the one of the stable sort. *)
Lemma all_dated_consistent (host : Host) (rows : list Job) :
  all_dated host rows -> consistent (newest_first host) rows.
Proof.
  intros H. unfold all_dated in H. rewrite Forall_forall in H.
  assert (Hcmp : forall a b, a ∈ rows -> b ∈ rows ->
            exists ta tb, created host a = Some ta /\ created host b = Some tb /\
                          newest_first host a b = (tb - ta)%Z).
  { intros a b Ha Hb. destruct (H a Ha) as [ta Eta], (H b Hb) as [tb Etb].
    exists ta, tb. unfold newest_first. rewrite Eta, Etb. repeat split. }
  split.
  - intros a b Ha Hb.
    destruct (Hcmp a b Ha Hb) as (ta & tb & Ea & Eb & ->).
    destruct (Hcmp b a Hb Ha) as (tb' & ta' & Eb' & Ea' & ->).
    rewrite Ea in Ea'. rewrite Eb in Eb'. injection Ea' as <-. injection Eb' as <-.
    rewrite <- Z.sgn_opp. f_equal. lia.
  - intros a b c Ha Hb Hc.
    destruct (Hcmp a b Ha Hb) as (ta & tb & Ea & Eb & ->).
    destruct (Hcmp b c Hb Hc) as (tb' & tc & Eb' & Ec & ->).
    destruct (Hcmp a c Ha Hc) as (ta' & tc' & Ea' & Ec' & ->).
    rewrite Ea in Ea'. rewrite Eb in Eb'. rewrite Ec in Ec'.
    injection Ea' as <-. injection Eb' as <-. injection Ec' as <-. lia.
Qed.

Lemma listing_sorted (host : Host) (rows : list Job) :
  all_dated host rows -> StronglySorted (not_older host) (listing host rows).
Proof.
  intros H. unfold listing.
  rewrite Array_sort_stable by (apply all_dated_consistent; exact H).
  apply js_sort_sorted. exact H.
Qed.

(** X14. What a listing is: when the sheet answers, [getAllJobs] returns
    every row exactly once. Under the documented header, which has no
    [created_date] column, the rows come in sheet order, not newest first;
    when every row has a [created_date] the host can read, they come newest
    first. *)
Theorem listing_order (host : Host) (w : World) :
  w_sheets_faults w = [] ->
  exists l,
    getAllJobs host w = (Ok l, record (Call "sheets.values.get") w) /\
    l ≡ₚ w_sheet w /\
    (no_created_date (w_sheet w) -> l = w_sheet w) /\
    (all_dated host (w_sheet w) -> StronglySorted (not_older host) l).
Proof.
  intros Hf. exists (listing host (w_sheet w)).
  split; [apply getAllJobs_ok; exact Hf|]. split; [apply listing_perm|].
  split; [apply listing_no_created_date | apply listing_sorted].
Qed.

Lemma listing_order_witness :
  (getAllJobs example_host linked_world).1 = Ok [linked_job].
Proof.
  destruct (listing_order example_host linked_world eq_refl) as (l & Hrun & _ & Hsame & _).
  rewrite Hrun. cbn [fst]. f_equal. apply Hsame. repeat constructor.
Defined.

(** The two dated rows are listed with the newer one first. *)
Example listing_newest_first :
  (getAllJobs example_host (example_world dated_rows [])).1 = Ok (reverse dated_rows).
Proof. vm_compute. reflexivity. Qed.

(** ** Patching a row *)

Lemma fieldColumnMap_round_trip (field : string) :
  field ∈ fieldColumnMap.*1 ->
  exists col, fieldColumnMap_get field = Some (Column col) /\
              field_of_column col = Some field.
Proof.
  intros Hin. cbn in Hin.
  repeat (apply elem_of_cons in Hin as [-> | Hin];
          [eexists; split; reflexivity|]).
  apply elem_of_nil in Hin as [].
Qed.

Lemma fieldColumnMap_get_other (field : string) :
  field ∉ fieldColumnMap.*1 ->
  fieldColumnMap_get field = None \/ fieldColumnMap_get field = Some Inherited.
Proof.
  intros Hnot. unfold fieldColumnMap_get.
  destruct (find (fun fc : string * string => String.eqb fc.1 field) fieldColumnMap)
    as [[f col]|] eqn:E.
  - apply find_some in E as [Hin Heq]. apply String.eqb_eq in Heq. cbn in Heq. subst f.
    exfalso. apply Hnot. apply list_elem_of_fmap. exists (field, col).
    split; [reflexivity | apply list_elem_of_In; exact Hin].
  - destruct (bool_decide (field ∈ Object_prototype_keys)); [right | left]; reflexivity.
Qed.

Lemma set_field_cell (col field : string) (v : option string) (i : nat) (rows : list Job) :
  field_of_column col = Some field ->
  write_entry rows (Column col, (i + 2)%nat, v) = alter (set_field field v) i rows.
Proof.
  intros Hc. destruct v as [s|]; cbn [write_entry set_field].
  - apply write_cell_at. exact Hc.
  - symmetry. apply list_alter_id. reflexivity.
Qed.

Lemma batch_of_updateData (updateData : list (string * option string)) (i : nat) :
  Forall (fun fv : string * option string => fv.1 ∉ Object_prototype_keys) updateData ->
  let updates :=
    omap (fun fv : string * option string =>
            (fun entry => (entry, (i + 2)%nat, fv.2)) <$> fieldColumnMap_get fv.1)
         updateData in
  forallb (fun d : MapEntry * nat * option string => is_column d.1.1) updates = true /\
  (updates = [] <->
   existsb (fun fv : string * option string => bool_decide (fv.1 ∈ fieldColumnMap.*1))
     updateData = false) /\
  forall rows, foldl write_entry rows updates = alter (patch updateData) i rows.
Proof.
  intros Hown. cbv zeta. induction Hown as [|[f v] l Hf _ IH].
  { split; [reflexivity|]. split; [split; reflexivity|].
    intros rows. symmetry. apply list_alter_id. reflexivity. }
  destruct IH as (IH1 & IH2 & IH3). cbn [omap list_omap existsb fst snd].
  destruct (decide (f ∈ fieldColumnMap.*1)) as [Hin|Hnot].
  - destruct (fieldColumnMap_round_trip f Hin) as (col & Hget & Hcol).
    rewrite Hget. cbn [fmap option_fmap option_map forallb is_column fst snd andb].
    rewrite (bool_decide_eq_true_2 _ Hin). cbn [orb].
    split; [exact IH1|]. split; [split; discriminate|].
    intros rows. cbn [foldl]. rewrite (set_field_cell col f v i rows Hcol), IH3.
    rewrite list_alter_alter_eq. apply list_alter_ext; [|reflexivity].
    intros r _. unfold patch. cbn [foldl fst snd compose].
    rewrite (bool_decide_eq_true_2 _ Hin). reflexivity.
  - assert (Hget : fieldColumnMap_get f = None).
    { destruct (fieldColumnMap_get_other f Hnot) as [H|H]; [exact H|].
      unfold fieldColumnMap_get in H.
      destruct (find (fun fc : string * string => String.eqb fc.1 f) fieldColumnMap)
        as [[? ?]|]; [discriminate H|].
      rewrite bool_decide_eq_false_2 in H by exact Hf. discriminate H. }
    rewrite Hget. cbn [fmap option_fmap option_map].
    rewrite (bool_decide_eq_false_2 _ Hnot). cbn [orb].
    split; [exact IH1|]. split; [exact IH2|].
    intros rows. rewrite IH3. apply list_alter_ext; [|reflexivity].
    intros r _. unfold patch. cbn [foldl fst snd].
    rewrite (bool_decide_eq_false_2 _ Hnot). reflexivity.
Qed.

(* A patch of the row of a job. *)
Lemma updateJobData_ok (host : Host) (jid : option string)
    (updateData : list (string * option string)) (w : World) (i : nat) (row : Job) :
  w_sheets_faults w = [] ->
  no_created_date (w_sheet w) ->
  list_find (fun r : Job => r !! "job_id" = jid) (w_sheet w) = Some (i, row) ->
  Forall (fun fv : string * option string => fv.1 ∉ Object_prototype_keys) updateData ->
  if existsb (fun fv : string * option string => bool_decide (fv.1 ∈ fieldColumnMap.*1))
       updateData
  then
    exists w',
      updateJobData host jid updateData w = (Ok true, w') /\
      w_sheet w' = alter (patch updateData) i (w_sheet w) /\
      w_calendars w' = w_calendars w /\ w_sheets_faults w' = [] /\
      w_trace w' = w_trace w ++ [Call "sheets.values.get"; Call "sheets.values.batchUpdate"]
  else
    updateJobData host jid updateData w
    = (Throw (Error "No valid fields to update"),
       record (ConsoleError "Error updating job data: No valid fields to update")
         (record (Call "sheets.values.get") w)).
Proof.
  intros Hf Hrows Hfind Hown.
  destruct (batch_of_updateData updateData i Hown) as (Hcols & Hnone & Hwrite).
  unfold updateJobData.
  destruct (existsb _ updateData) eqn:Ex.
  - eexists. split.
    + erewrite try_catch_Ok; [reflexivity|].
      erewrite bind_Ok by (apply getAllJobs_ok; exact Hf).
      rewrite listing_no_created_date by exact Hrows.
      unfold findIndex_job_id. rewrite Hfind. cbv zeta.
      rewrite bool_decide_eq_false_2.
      2: { intros Hempty. apply Hnone in Hempty. discriminate Hempty. }
      erewrite bind_Ok.
      2: { unfold values_batchUpdate.
           erewrite bind_Ok by (apply request_sheets_ok; exact Hf).
           rewrite Hcols. reflexivity. }
      reflexivity.
    + cbn -[write_entry omap]. rewrite Hwrite, <- app_assoc. repeat split. exact Hf.
  - erewrite try_catch_Throw.
    2: { erewrite bind_Ok by (apply getAllJobs_ok; exact Hf).
         rewrite listing_no_created_date by exact Hrows.
         unfold findIndex_job_id. rewrite Hfind. cbv zeta.
         rewrite bool_decide_eq_true_2 by (apply Hnone; reflexivity). reflexivity. }
    reflexivity.
Qed.

(** X15. A field patch: when the sheet answers, has the documented header
    and holds the job, [updateJobData] writes the entries whose field is a
    column into the first row with the job id, in the order given, ignores
    the other entries and skips the values that are undefined; when no entry
    names a column it throws 'No valid fields to update' after reading the
    sheet, without a write request. (Entries named like a property every
    object inherits are set aside.) *)
Theorem field_patch (host : Host) (jid : option string)
    (updateData : list (string * option string)) (w : World) (i : nat) (row : Job) :
  w_sheets_faults w = [] ->
  no_created_date (w_sheet w) ->
  list_find (fun r : Job => r !! "job_id" = jid) (w_sheet w) = Some (i, row) ->
  Forall (fun fv : string * option string => fv.1 ∉ Object_prototype_keys) updateData ->
  if existsb (fun fv : string * option string => bool_decide (fv.1 ∈ fieldColumnMap.*1))
       updateData
  then
    exists w',
      updateJobData host jid updateData w = (Ok true, w') /\
      w_sheet w' = alter (patch updateData) i (w_sheet w) /\
      w_calendars w' = w_calendars w /\ w_sheets_faults w' = [] /\
      w_trace w' = w_trace w ++ [Call "sheets.values.get"; Call "sheets.values.batchUpdate"]
  else
    updateJobData host jid updateData w
    = (Throw (Error "No valid fields to update"),
       record (ConsoleError "Error updating job data: No valid fields to update")
         (record (Call "sheets.values.get") w)).
Proof. exact (updateJobData_ok host jid updateData w i row). Qed.

Lemma field_patch_witness :
  (exists w',
     updateJobData example_host (Some "JOB-000001")
       [("zone", Some "บางนา"); ("colour", Some "red"); ("notes", None)] linked_world
     = (Ok true, w') /\
     w_sheet w' = [<["zone" := "บางนา"]> linked_job]) /\
  (updateJobData example_host (Some "JOB-000001") [("colour", Some "red")] linked_world).1
  = Throw (Error "No valid fields to update").
Proof.
  split.
  - destruct (field_patch example_host (Some "JOB-000001")
                [("zone", Some "บางนา"); ("colour", Some "red"); ("notes", None)]
                linked_world 0 linked_job) as (w' & Hrun & Hsheet & _).
    + reflexivity.
    + repeat constructor.
    + vm_compute. reflexivity.
    + apply (bool_decide_unpack _). vm_compute. reflexivity.
    + exists w'. split; [exact Hrun|]. rewrite Hsheet. reflexivity.
  - pose proof (field_patch example_host (Some "JOB-000001") [("colour", Some "red")]
                  linked_world 0 linked_job) as H.
    cbn [existsb] in H. rewrite bool_decide_eq_false_2 in H.
    2: { apply (bool_decide_unpack _). vm_compute. reflexivity. }
    cbn [orb] in H. rewrite H.
    + reflexivity.
    + reflexivity.
    + repeat constructor.
    + vm_compute. reflexivity.
    + apply (bool_decide_unpack _). vm_compute. reflexivity.
Defined.

(** ** The column repair *)

Lemma patch_zone_status (a b : option string) (r : Job) :
  patch [("zone", a); ("status", b)] r = set_field "status" b (set_field "zone" a r).
Proof.
  unfold patch. cbn [foldl fst snd].
  rewrite !bool_decide_eq_true_2 by (apply (bool_decide_unpack _); vm_compute; reflexivity).
  reflexivity.
Qed.

Lemma swap_zone_status_other (r : Job) (k : string) :
  k <> "zone" -> k <> "status" -> swap_zone_status r !! k = r !! k.
Proof.
  intros Hz Hs. unfold swap_zone_status. rewrite patch_zone_status.
  destruct (r !! "zone"), (r !! "status"); cbn [set_field];
    rewrite ?lookup_insert_ne by congruence; reflexivity.
Qed.

Lemma fix_row_other (r : Job) (k : string) :
  k <> "zone" -> k <> "status" -> fix_row r !! k = r !! k.
Proof.
  intros Hz Hs. unfold fix_row. destruct (needsFix r); [|reflexivity].
  apply swap_zone_status_other; assumption.
Qed.

Lemma list_find_distinct (pre pre' post : list Job) (job : Job) :
  distinct_ids (pre ++ job :: post) ->
  map (fun r : Job => r !! "job_id") pre' = map (fun r : Job => r !! "job_id") pre ->
  list_find (fun r : Job => r !! "job_id" = job !! "job_id") (pre' ++ job :: post)
  = Some (length pre', job).
Proof.
  intros Hdistinct Hids. apply list_find_Some. split; [|split; [reflexivity|]].
  - rewrite lookup_app_r by lia. rewrite Nat.sub_diag. reflexivity.
  - intros j y Hj Hlt Hy. rewrite lookup_app_l in Hj by exact Hlt.
    unfold distinct_ids in Hdistinct. rewrite map_app in Hdistinct. cbn [map] in Hdistinct.
    apply NoDup_app in Hdistinct as (_ & Hdisjoint & _).
    apply (Hdisjoint (job !! "job_id")).
    + rewrite <- Hids, <- Hy. apply list_elem_of_fmap. exists y.
      split; [reflexivity|]. apply list_elem_of_lookup. exists j. exact Hj.
    + left.
Qed.

Lemma fix_loop_ok (host : Host) (rows0 : list Job) :
  no_created_date rows0 ->
  distinct_ids rows0 ->
  forall (todo done : list Job) (n : nat) (w : World),
    rows0 = done ++ todo ->
    w_sheets_faults w = [] ->
    w_sheet w = map fix_row done ++ todo ->
    exists w',
      fix_loop host todo n w
      = (Ok (n + length (filter (fun r => needsFix r = true) todo)), w') /\
      w_sheet w' = map fix_row rows0 /\
      w_calendars w' = w_calendars w /\ w_sheets_faults w' = [].
Proof.
  intros Hrows Hdistinct todo.
  induction todo as [|job todo IH]; intros done n w Hsplit Hf Hsheet; cbn [fix_loop].
  { exists w. rewrite app_nil_r in Hsplit, Hsheet. subst rows0.
    rewrite Nat.add_0_r. repeat split; assumption. }
  assert (Hsplit' : rows0 = (done ++ [job]) ++ todo) by (rewrite <- app_assoc; exact Hsplit).
  destruct (needsFix job) eqn:Hneeds.
  - assert (Hfind : list_find (fun r : Job => r !! "job_id" = job !! "job_id") (w_sheet w)
                    = Some (length (map fix_row done), job)).
    { rewrite Hsheet. apply (list_find_distinct done); [rewrite <- Hsplit; exact Hdistinct|].
      rewrite map_map. apply map_ext. intros r. apply fix_row_other; discriminate. }
    assert (Hnc : no_created_date (w_sheet w)).
    { rewrite Hsheet. subst rows0. unfold no_created_date in *.
      apply Forall_app in Hrows as [Hdone Htodo]. apply Forall_app. split; [|exact Htodo].
      apply Forall_map. eapply Forall_impl; [exact Hdone|].
      intros r Hr. cbn. rewrite fix_row_other by discriminate. exact Hr. }
    pose proof (updateJobData_ok host (job !! "job_id")
                  [("zone", job !! "status"); ("status", job !! "zone")] w
                  (length (map fix_row done)) job Hf Hnc Hfind) as Hpatch.
    cbn [existsb fst] in Hpatch.
    rewrite bool_decide_eq_true_2 in Hpatch
      by (apply (bool_decide_unpack _); vm_compute; reflexivity).
    cbn [orb] in Hpatch.
    destruct Hpatch as (w1 & Hrun & Hsheet1 & Hcal1 & Hf1 & _).
    { apply (bool_decide_unpack _). vm_compute. reflexivity. }
    destruct (IH (done ++ [job]) (S n) w1 Hsplit' Hf1) as (w' & Hloop & Hsh & Hcal & Hf').
    { rewrite Hsheet1, Hsheet.
      replace (length (map fix_row done)) with (length (map fix_row done) + 0)%nat by lia.
      rewrite alter_app_r. cbn [alter list_alter].
      rewrite map_app, <- app_assoc. cbn [map app]. unfold fix_row at 3.
      rewrite Hneeds. reflexivity. }
    exists w'. split.
    + erewrite bind_Ok by exact Hrun. rewrite Hloop. rewrite filter_cons_True by exact Hneeds.
      cbn [length]. do 2 f_equal. lia.
    + split; [exact Hsh|]. split; [congruence | exact Hf'].
  - destruct (IH (done ++ [job]) n w Hsplit' Hf) as (w' & Hloop & Hfacts).
    { rewrite Hsheet, map_app, <- app_assoc. cbn [map app]. unfold fix_row at 3.
      rewrite Hneeds. reflexivity. }
    exists w'. split; [|exact Hfacts].
    rewrite Hloop. rewrite filter_cons_False by (rewrite Hneeds; discriminate). reflexivity.
Qed.

(** X16. The column repair: when the sheet answers, has the documented
    header and its rows have pairwise different job ids, [fixColumnMismapping]
    exchanges the zone and the status of every row that has a status value in
    its zone field or a zone value in its status field, leaves every other
    row and every other field as they are, and returns the number of rows it
    exchanged. A record with zone "Scheduled" and status "กรุงเทพ" comes out
    with zone "กรุงเทพ" and status "Scheduled". *)
Theorem column_repair (host : Host) (w : World) :
  (w_sheets_faults w = [] ->
   no_created_date (w_sheet w) ->
   distinct_ids (w_sheet w) ->
   exists w',
     fixColumnMismapping host w
     = (Ok (length (filter (fun r => needsFix r = true) (w_sheet w))), w') /\
     w_sheet w' = map fix_row (w_sheet w) /\
     w_calendars w' = w_calendars w) /\
  (forall (r : Job) (k : string), k <> "zone" -> k <> "status" -> fix_row r !! k = r !! k) /\
  fix_row crossed_row
  = job_of [("job_id", "JOB-000007"); ("zone", "กรุงเทพ"); ("status", "Scheduled")].
Proof.
  split; [|split; [exact fix_row_other | vm_compute; reflexivity]].
  intros Hf Hrows Hdistinct.
  destruct (fix_loop_ok host (w_sheet w) Hrows Hdistinct (w_sheet w) [] 0
              (record (Call "sheets.values.get") w) eq_refl Hf eq_refl)
    as (w' & Hloop & Hsheet & Hcal & _).
  exists w'. split; [|split; [exact Hsheet | exact Hcal]].
  unfold fixColumnMismapping. erewrite try_catch_Ok; [reflexivity|].
  erewrite bind_Ok by (apply getAllJobs_ok; exact Hf).
  rewrite listing_no_created_date by exact Hrows. exact Hloop.
Qed.

Lemma column_repair_witness :
  exists w',
    fixColumnMismapping example_host (example_world [linked_job; crossed_row] [])
    = (Ok 1, w') /\
    w_sheet w'
    = [ linked_job;
        job_of [("job_id", "JOB-000007"); ("zone", "กรุงเทพ"); ("status", "Scheduled")] ].
Proof.
  destruct (proj1 (column_repair example_host (example_world [linked_job; crossed_row] [])))
    as (w' & Hrun & Hsheet & _).
  - reflexivity.
  - repeat constructor.
  - apply (bool_decide_unpack _). vm_compute. reflexivity.
  - exists w'. split; [exact Hrun|]. rewrite Hsheet. vm_compute. reflexivity.
Defined.

Lemma swap_zone_status_fields (r : Job) (a b : string) :
  r !! "zone" = Some a -> r !! "status" = Some b ->
  swap_zone_status r = <["status" := a]> (<["zone" := b]> r).
Proof.
  intros Hz Hs. unfold swap_zone_status. rewrite patch_zone_status, Hz, Hs. reflexivity.
Qed.

Lemma needsFix_fields (r : Job) (a b : string) :
  r !! "zone" = Some a -> r !! "status" = Some b ->
  needsFix r = existsb (prop_is (Some a)) status_literals
               || existsb (prop_is (Some b)) zone_literals.
Proof. intros Hz Hs. unfold needsFix. rewrite Hz, Hs. reflexivity. Qed.

(** X17. Running the repair again: a row whose zone and status had changed
    places (a status value in the zone field, a zone value in the status
    field) is repaired once and then left alone. A row with status values in
    both fields is exchanged by every run, so that two runs bring it back to
    where it was. *)
Theorem column_repair_second_pass (row : Job) :
  (crossed row ->
   needsFix row = true /\ needsFix (fix_row row) = false /\
   fix_row (fix_row row) = fix_row row) /\
  (forall s1 s2,
     row !! "zone" = Some s1 -> s1 ∈ status_literals ->
     row !! "status" = Some s2 -> s2 ∈ status_literals ->
     needsFix row = true /\ needsFix (fix_row row) = true /\
     fix_row (fix_row row) = row).
Proof.
  split.
  - intros [(s & Hz & Hs) (z & Hst & Hzl)].
    assert (Hneeds : needsFix row = true).
    { rewrite (needsFix_fields row s z Hz Hst).
      unfold status_literals in Hs.
      repeat (apply elem_of_cons in Hs as [-> | Hs]; [reflexivity|]).
      apply elem_of_nil in Hs as []. }
    assert (Hfixed : needsFix (fix_row row) = false).
    { unfold fix_row. rewrite Hneeds, (swap_zone_status_fields row s z Hz Hst).
      rewrite (needsFix_fields _ z s) by (lookup_field; reflexivity).
      unfold status_literals in Hs. unfold zone_literals in Hzl.
      repeat (apply elem_of_cons in Hs as [-> | Hs];
              [repeat (apply elem_of_cons in Hzl as [-> | Hzl]; [reflexivity|]);
               apply elem_of_nil in Hzl as []|]).
      apply elem_of_nil in Hs as []. }
    split; [exact Hneeds|]. split; [exact Hfixed|].
    unfold fix_row at 1. rewrite Hfixed. reflexivity.
  - intros s1 s2 Hz Hs1 Hst Hs2.
    assert (Hneeds : needsFix row = true).
    { rewrite (needsFix_fields row s1 s2 Hz Hst).
      unfold status_literals in Hs1.
      repeat (apply elem_of_cons in Hs1 as [-> | Hs1]; [reflexivity|]).
      apply elem_of_nil in Hs1 as []. }
    assert (Hagain : needsFix (fix_row row) = true).
    { unfold fix_row. rewrite Hneeds, (swap_zone_status_fields row s1 s2 Hz Hst).
      rewrite (needsFix_fields _ s2 s1) by (lookup_field; reflexivity).
      unfold status_literals in Hs2.
      repeat (apply elem_of_cons in Hs2 as [-> | Hs2]; [reflexivity|]).
      apply elem_of_nil in Hs2 as []. }
    split; [exact Hneeds|]. split; [exact Hagain|].
    unfold fix_row at 1. rewrite Hagain. unfold fix_row. rewrite Hneeds.
    rewrite (swap_zone_status_fields row s1 s2 Hz Hst).
    rewrite (swap_zone_status_fields _ s2 s1) by (lookup_field; reflexivity).
    apply map_eq. intros k.
    destruct (decide (k = "status")) as [->|Hk1]; [lookup_field; symmetry; exact Hst|].
    destruct (decide (k = "zone")) as [->|Hk2]; [lookup_field; symmetry; exact Hz|].
    rewrite !lookup_insert_ne by congruence. reflexivity.
Qed.

Lemma column_repair_second_pass_witness :
  (needsFix crossed_row = true /\ needsFix (fix_row crossed_row) = false /\
   fix_row (fix_row crossed_row) = fix_row crossed_row) /\
  (let row := job_of [("job_id", "JOB-000008"); ("zone", "New"); ("status", "Scheduled")] in
   needsFix row = true /\ needsFix (fix_row row) = true /\ fix_row (fix_row row) = row).
Proof.
  split.
  - apply (proj1 (column_repair_second_pass crossed_row)). split.
    + exists "Scheduled". split; [reflexivity|].
      apply (bool_decide_unpack _). vm_compute. reflexivity.
    + exists "กรุงเทพ". split; [reflexivity|].
      apply (bool_decide_unpack _). vm_compute. reflexivity.
  - apply (proj2 (column_repair_second_pass
                    (job_of [("job_id", "JOB-000008"); ("zone", "New");
                             ("status", "Scheduled")])) "New" "Scheduled").
    + reflexivity.
    + apply (bool_decide_unpack _). vm_compute. reflexivity.
    + reflexivity.
    + apply (bool_decide_unpack _). vm_compute. reflexivity.
Defined.

(** ** Deleting the event of a job *)

Lemma events_delete_ok (cid eid : string) (w : World) (c : Calendar) (ev : Event) :
  w_calendar_faults w = [] ->
  find_calendar cid (w_calendars w) = Some c ->
  cal_events c !! eid = Some ev ->
  events_delete cid eid w
  = (Ok tt, set_calendars (alter_calendar cid (delete eid))
              (record (Call "calendar.events.delete") w)).
Proof.
  intros Hf Hc He. unfold events_delete.
  erewrite bind_Ok by (apply request_calendar_ok; exact Hf).
  unfold bind, get_world. cbn. rewrite Hc, He. reflexivity.
Qed.

Lemma deleteJobFromCalendar_ok (host : Host) (job : Job) (cid : string) (w : World)
    (c : Calendar) :
  team_calendar (calendarIds host) (job !! "team") = Some cid ->
  cid <> "" ->
  w_calendar_faults w = [] ->
  find_calendar cid (w_calendars w) = Some c ->
  deleteJobFromCalendar host job w
  = match existing_event (job !! "job_id") (cal_events c) with
    | Some (k, _) =>
        (Ok (Some true),
         set_calendars (alter_calendar cid (delete k))
           (record (Call "calendar.events.delete") (record (Call "calendar.events.list") w)))
    | None => (Ok (Some false), record (Call "calendar.events.list") w)
    end.
Proof.
  intros Hteam Hcid Hf Hc. unfold deleteJobFromCalendar, table_get. rewrite Hteam.
  cbn [ref_truthy].
  destruct (String.eqb_spec cid "") as [E|_]; [contradiction|]. cbn [negb].
  destruct (existing_event (job !! "job_id") (cal_events c)) as [[k e]|] eqn:Ex.
  - erewrite try_catch_Ok; [reflexivity|].
    erewrite bind_Ok by (apply (findExistingEvent_ok cid _ w c); assumption).
    rewrite Ex. destruct (existing_event_Some _ _ _ _ Ex) as [Hk _].
    erewrite bind_Ok by (apply (events_delete_ok cid k _ c e); assumption).
    reflexivity.
  - erewrite try_catch_Ok; [reflexivity|].
    erewrite bind_Ok by (apply (findExistingEvent_ok cid _ w c); assumption).
    rewrite Ex. reflexivity.
Qed.

Lemma team_key_not_repaired (host : Host) (t cid : string) :
  team_calendar (calendarIds host) (Some t) = Some cid -> repairTeam (Some t) = Some t.
Proof.
  unfold team_calendar, calendarIds. cbn [find fst Js.template default from_option id].
  destruct (String.eqb_spec "ทีม A" t) as [<-|_]; [reflexivity|].
  destruct (String.eqb_spec "ทีม B" t) as [<-|_]; [reflexivity|].
  destruct (String.eqb_spec "นัดคิวใหม่" t) as [<-|_]; [reflexivity|].
  destruct (String.eqb_spec "เสนอราคา" t) as [<-|_]; [reflexivity|].
  discriminate.
Qed.

(** X18. Sync, then delete: for a job with a single date whose team is a key
    of the calendar table, when the calendar service answers and the queue
    calendar held at most one event titled with the job id, deleting after a
    sync removes the event the sync returned and nothing else: the queue
    calendar is left with the events it had before, less the job's, none of
    which carries the job id, and the sheet is not touched by the deletion. *)
Theorem sync_then_delete (host : Host) (job : Job) (cid j : string) (w : World)
    (c : Calendar) :
  team_calendar (calendarIds host) (job !! "team") = Some cid ->
  cid <> "" ->
  is_range job = false ->
  Js.truthy (job !! "date") = true ->
  job !! "job_id" = Some j -> j <> "" ->
  is_Some (Date_parse host (startDateTimeStr job)) ->
  is_Some (Date_parse host (endDateTimeStr job)) ->
  w_calendar_faults w = [] ->
  find_calendar cid (w_calendars w) = Some c ->
  at_most_one_event (Some j) (cal_events c) ->
  exists ev w1 w2,
    syncJobToCalendar host job w = (Ok (SyncEvent ev), w1) /\
    deleteJobFromCalendar host job w1 = (Ok (Some true), w2) /\
    events_of cid w2 = delete ev.1 (cal_events c) /\
    (forall k e, events_of cid w2 !! k = Some e -> has_job_id (Some j) (k, e) = false) /\
    w_sheet w2 = w_sheet w1.
Proof.
  intros Hteam Hcid Hrange Hdate Hj Hne [st Hst] [en Hen] Hf Hc Huniq.
  assert (Hteam' : team_calendar (calendarIds host) (repairTeam (job !! "team")) = Some cid).
  { destruct (job !! "team") as [t|] eqn:Et; [|exact Hteam].
    rewrite (team_key_not_repaired host t cid Hteam). exact Hteam. }
  destruct (createSingleDateEvent_ok host job cid w c st en Hdate Hst Hen Hf Hc)
    as (w1 & Hrun1 & Hcal1 & Hf1).
  rewrite Hj in Hrun1, Hcal1.
  set (id := upsert_id (Some j) (cal_events c)) in *.
  set (ev := composeEvent job st en) in *.
  assert (Hhas : has_job_id (Some j) (id, ev) = true).
  { subst ev. rewrite <- Hj. apply composeEvent_has_job_id. }
  assert (Hc1 : find_calendar cid (w_calendars w1)
                = Some {| cal_id := cal_id c; cal_summary := cal_summary c;
                          cal_events := <[id := ev]> (cal_events c) |}).
  { rewrite Hcal1. apply find_calendar_alter. exact Hc. }
  assert (Huniq1 : forall k e, <[id := ev]> (cal_events c) !! k = Some e ->
                               has_job_id (Some j) (k, e) = true -> k = id).
  { apply upsert_id_unique; assumption. }
  assert (Hex : existing_event (Some j) (<[id := ev]> (cal_events c)) = Some (id, ev)).
  { apply existing_event_unique; [exact Hne| |apply lookup_insert_eq|exact Hhas].
    intros k1 e1 k2 e2 H1 H2 P1 P2.
    rewrite (Huniq1 k1 e1 H1 P1), (Huniq1 k2 e2 H2 P2). reflexivity. }
  exists (id, ev). eexists w1, _. split; [|split].
  - rewrite (syncJobToCalendar_single host job cid) by assumption. rewrite Hrun1. reflexivity.
  - rewrite (deleteJobFromCalendar_ok host job cid w1 _ Hteam Hcid Hf1 Hc1).
    rewrite Hj. cbn [cal_events]. rewrite Hex. reflexivity.
  - cbn [fst]. unfold events_of at 1 2. cbn [w_calendars set_calendars record set_trace].
    rewrite (find_calendar_alter _ _ _ _ Hc1). cbn [cal_events].
    rewrite delete_insert_eq.
    split; [reflexivity|]. split; [|reflexivity].
    intros k e Hk. destruct (has_job_id (Some j) (k, e)) eqn:Hhk; [|reflexivity].
    exfalso. apply lookup_delete_Some in Hk as [Hne' Hk].
    apply Hne'. symmetry. apply (Huniq1 k e); [|exact Hhk].
    rewrite lookup_insert_ne by exact Hne'. exact Hk.
Qed.

Lemma sync_then_delete_witness :
  exists ev w1 w2,
    syncJobToCalendar example_host example_job
      (example_world [example_job] [empty_calendar "queue-a@group.calendar" "Queue A"])
    = (Ok (SyncEvent ev), w1) /\
    deleteJobFromCalendar example_host example_job w1 = (Ok (Some true), w2) /\
    events_of "queue-a@group.calendar" w2 = ∅.
Proof.
  destruct (sync_then_delete example_host example_job "queue-a@group.calendar" "JOB-000001"
              (example_world [example_job] [empty_calendar "queue-a@group.calendar" "Queue A"])
              (empty_calendar "queue-a@group.calendar" "Queue A"))
    as (ev & w1 & w2 & Hsync & Hdel & Hev & _).
  - reflexivity.
  - discriminate.
  - reflexivity.
  - reflexivity.
  - reflexivity.
  - discriminate.
  - apply is_Some_by_eval. vm_compute. reflexivity.
  - apply is_Some_by_eval. vm_compute. reflexivity.
  - reflexivity.
  - reflexivity.
  - intros k1 e1 k2 e2 H1. cbn in H1. rewrite lookup_empty in H1. discriminate H1.
  - exists ev, w1, w2. split; [exact Hsync|]. split; [exact Hdel|].
    rewrite Hev. apply delete_empty.
Defined.

Lemma corrupted_team_is_no_key (host : Host) (t : string) :
  Js.includes "???" t = true -> team_calendar (calendarIds host) (Some t) = None.
Proof.
  intros Hq. unfold team_calendar, calendarIds.
  cbn [find fst Js.template default from_option id].
  destruct (String.eqb_spec "ทีม A" t) as [<-|_]; [discriminate Hq|].
  destruct (String.eqb_spec "ทีม B" t) as [<-|_]; [discriminate Hq|].
  destruct (String.eqb_spec "นัดคิวใหม่" t) as [<-|_]; [discriminate Hq|].
  destruct (String.eqb_spec "เสนอราคา" t) as [<-|_]; [discriminate Hq|].
  reflexivity.
Qed.

Lemma corrupted_team_not_inherited (t : string) :
  Js.includes "???" t = true -> t ∉ Object_prototype_keys.
Proof.
  intros Hq Hin. unfold Object_prototype_keys in Hin.
  repeat (apply elem_of_cons in Hin as [-> | Hin]; [vm_compute in Hq; discriminate Hq|]).
  apply elem_of_nil in Hin. exact Hin.
Qed.

(** X19. Deletion does not repair team names: for a job whose team name is
    corrupted (it contains "???"), [deleteJobFromCalendar] returns null
    without sending a request, whatever the calendars hold, while
    [syncJobToCalendar] reads the same name as team A (when it contains "A")
    or team B (when it contains "B" and no "A") and works on that calendar.
    An event synced under a corrupted name is thus never deleted. *)
Theorem delete_does_not_repair_team (host : Host) (job : Job) (t : string) (w : World) :
  job !! "team" = Some t ->
  Js.includes "???" t = true ->
  deleteJobFromCalendar host job w = (Ok None, w) /\
  (Js.includes "A" t = true ->
   team_calendar (calendarIds host) (repairTeam (job !! "team")) = CALENDAR_ID_TEAM_A host) /\
  (Js.includes "A" t = false -> Js.includes "B" t = true ->
   team_calendar (calendarIds host) (repairTeam (job !! "team")) = CALENDAR_ID_TEAM_B host).
Proof.
  intros Ht Hq. rewrite Ht. split; [|split].
  - unfold deleteJobFromCalendar, table_get.
    rewrite Ht, (corrupted_team_is_no_key host t Hq).
    rewrite bool_decide_eq_false_2 by (apply corrupted_team_not_inherited; exact Hq).
    reflexivity.
  - intros HA. unfold repairTeam. rewrite Hq, HA.
    destruct (String.eqb_spec t "") as [->|_]; [discriminate Hq | reflexivity].
  - intros HA HB. unfold repairTeam. rewrite Hq, HA, HB.
    destruct (String.eqb_spec t "") as [->|_]; [discriminate Hq | reflexivity].
Qed.

Lemma delete_does_not_repair_team_witness :
  let job := <["team" := "??? A"]> example_job in
  exists ev w1,
    syncJobToCalendar example_host job
      (example_world [job] [empty_calendar "queue-a@group.calendar" "Queue A"])
    = (Ok (SyncEvent ev), w1) /\
    events_of "queue-a@group.calendar" w1 !! ev.1 = Some ev.2 /\
    deleteJobFromCalendar example_host job w1 = (Ok None, w1).
Proof.
  intros job.
  destruct (syncJobToCalendar example_host job
              (example_world [job] [empty_calendar "queue-a@group.calendar" "Queue A"]))
    as [[[|ev|evs]|e] w1] eqn:Esync; try (vm_compute in Esync; discriminate Esync).
  exists ev, w1. split; [reflexivity|]. split.
  - vm_compute in Esync. injection Esync as <- <-. vm_compute. reflexivity.
  - apply (delete_does_not_repair_team example_host job "??? A" w1); reflexivity.
Defined.

(** X20. The events of the days of a range job carry the id of the job
    itself at the head of their titles, so the search by job id takes any of
    them for the event of the job. Deleting the job's event then removes one
    event, the first the search returns, and leaves the others: when the
    calendar service answers and the queue calendar holds two events titled
    with the job id, one of them is still there after
    [deleteJobFromCalendar] has returned true. *)
Theorem delete_removes_one_event (host : Host) (job : Job) (cid j : string) (w : World)
    (c : Calendar) :
  (forall (dateStr k : string) (st en : Z),
     has_job_id (job !! "job_id") (k, composeEvent (dailyJob job dateStr) st en) = true) /\
  (team_calendar (calendarIds host) (job !! "team") = Some cid ->
   cid <> "" ->
   job !! "job_id" = Some j -> j <> "" ->
   w_calendar_faults w = [] ->
   find_calendar cid (w_calendars w) = Some c ->
   forall k1 e1 k2 e2,
     k1 <> k2 ->
     cal_events c !! k1 = Some e1 -> has_job_id (Some j) (k1, e1) = true ->
     cal_events c !! k2 = Some e2 -> has_job_id (Some j) (k2, e2) = true ->
     exists k w',
       deleteJobFromCalendar host job w = (Ok (Some true), w') /\
       events_of cid w' = delete k (cal_events c) /\
       exists k' e', events_of cid w' !! k' = Some e' /\ has_job_id (Some j) (k', e') = true).
Proof.
  split.
  - intros dateStr k st en. unfold has_job_id, composeEvent, dailyJob.
    cbn [summary snd]. rewrite lookup_insert_eq. cbn [Js.template default from_option id].
    rewrite !string_app_assoc.
    rewrite includes_prefix, andb_true_r.
    destruct (job !! "job_id") as [jid|]; cbn [Js.template default from_option id].
    + destruct jid; reflexivity.
    + reflexivity.
  - intros Hteam Hcid Hj Hne Hf Hc k1 e1 k2 e2 Hk12 H1 P1 H2 P2.
    rewrite (deleteJobFromCalendar_ok host job cid w c Hteam Hcid Hf Hc), Hj.
    destruct (existing_event (Some j) (cal_events c)) as [[k e]|] eqn:Ex.
    + exists k. eexists. split; [reflexivity|].
      unfold events_of. cbn [w_calendars set_calendars record set_trace].
      rewrite (find_calendar_alter _ _ _ _ Hc). cbn [cal_events].
      split; [reflexivity|].
      destruct (decide (k = k1)) as [->|Hne1].
      * exists k2, e2. rewrite lookup_delete_ne by exact Hk12. split; assumption.
      * exists k1, e1. rewrite lookup_delete_ne by exact Hne1. split; assumption.
    + rewrite (existing_event_None j _ k1 e1 Hne Ex H1) in P1. discriminate P1.
Qed.

Lemma delete_removes_one_event_witness :
  exists k w',
    deleteJobFromCalendar example_host example_job two_events_world = (Ok (Some true), w') /\
    events_of "queue-a@group.calendar" w'
    = delete k (events_of "queue-a@group.calendar" two_events_world) /\
    exists k' e', events_of "queue-a@group.calendar" w' !! k' = Some e' /\
                  has_job_id (Some "JOB-000001") (k', e') = true.
Proof.
  apply (proj2 (delete_removes_one_event example_host example_job "queue-a@group.calendar"
                  "JOB-000001" two_events_world
                  {| cal_id := "queue-a@group.calendar"; cal_summary := "Queue A";
                     cal_events :=
                       <["first" := titled "JOB-000001: ABC" "2025-08-10T02:00:00.000Z"]>
                         (<["second" := titled "JOB-000001: ABC" "2025-08-12T02:00:00.000Z"]>
                            ∅) |})
           eq_refl ltac:(discriminate) eq_refl ltac:(discriminate) eq_refl eq_refl
           "first" (titled "JOB-000001: ABC" "2025-08-10T02:00:00.000Z")
           "second" (titled "JOB-000001: ABC" "2025-08-12T02:00:00.000Z")).
  - discriminate.
  - reflexivity.
  - reflexivity.
  - reflexivity.
  - reflexivity.
Defined.

(** ** The scheduler's registry and the tasks that fire *)

Lemma task_running_stop_other (h k : nat) (st : Scheduler.State) :
  h <> k ->
  Scheduler.task_running h (Scheduler.task_stop k st) = Scheduler.task_running h st.
Proof.
  intros Hne. unfold Scheduler.task_running, Scheduler.task_stop. cbn [Scheduler.tasks].
  rewrite list_lookup_alter_ne by congruence. reflexivity.
Qed.

Lemma task_running_stop_all (h : nat) (l : list (string * nat)) :
  forall st,
    Forall (fun nt : string * nat => nt.2 <> h) l ->
    Scheduler.task_running h (foldl (fun acc nt => Scheduler.task_stop nt.2 acc) st l)
    = Scheduler.task_running h st.
Proof.
  induction l as [|nt l IH]; intros st Hl; cbn [foldl]; [reflexivity|].
  apply Forall_cons in Hl as [Hnt Hl].
  rewrite (IH _ Hl). apply task_running_stop_other. congruence.
Qed.

Lemma serve_keeps_leak (st : Scheduler.State) (h : nat) (r : Scheduler.Request) :
  Scheduler.task_running h st = true ->
  (forall name, Scheduler.jobs st !! name <> Some h) ->
  Scheduler.task_running h (Scheduler.serve st r) = true /\
  (forall name, Scheduler.jobs (Scheduler.serve st r) !! name <> Some h).
Proof.
  intros Hrun Hleak.
  assert (Hlt : h < length (Scheduler.tasks st)).
  { unfold Scheduler.task_running in Hrun.
    destruct (Scheduler.tasks st !! h) as [t|] eqn:E; [|discriminate Hrun].
    apply lookup_lt_Some in E. exact E. }
  assert (Hstart :
    Scheduler.task_running h (Scheduler.startDailyAutoDetection st).2 = true /\
    (forall name, Scheduler.jobs (Scheduler.startDailyAutoDetection st).2 !! name <> Some h)).
  { unfold Scheduler.startDailyAutoDetection, Scheduler.cron_schedule, Scheduler.task_start,
      Scheduler.task_running in *. cbn [snd Scheduler.tasks Scheduler.jobs]. split.
    - rewrite list_lookup_alter_ne by lia. rewrite lookup_app_l by exact Hlt. exact Hrun.
    - intros name. destruct (decide (name = "dailyAutoDetection")) as [->|Hn].
      + rewrite lookup_insert_eq. intros [= E]. lia.
      + rewrite lookup_insert_ne by congruence. apply Hleak. }
  destruct r; cbn [Scheduler.serve]; [exact Hstart | | exact Hstart |].
  - unfold Scheduler.stopDailyAutoDetection.
    destruct (Scheduler.jobs st !! "dailyAutoDetection") as [task|] eqn:E;
      cbn [snd]; [|split; assumption].
    split.
    + unfold Scheduler.task_running. cbn [Scheduler.tasks Scheduler.task_stop].
      rewrite list_lookup_alter_ne; [exact Hrun|].
      intros ->. apply (Hleak "dailyAutoDetection"). exact E.
    + intros name. cbn [Scheduler.jobs Scheduler.task_stop].
      destruct (decide (name = "dailyAutoDetection")) as [->|Hn].
      * rewrite lookup_delete_eq. discriminate.
      * rewrite lookup_delete_ne by congruence. apply Hleak.
  - unfold Scheduler.stopAllSchedulers. split.
    + unfold Scheduler.task_running. cbn [Scheduler.tasks].
      fold (Scheduler.task_running h
              (foldl (fun acc nt => Scheduler.task_stop nt.2 acc) st
                 (map_to_list (Scheduler.jobs st)))).
      rewrite task_running_stop_all; [exact Hrun|].
      apply Forall_forall. intros [name k] Hin. cbn.
      apply elem_of_map_to_list in Hin. intros ->. exact (Hleak name Hin).
    + intros name. cbn [Scheduler.jobs]. rewrite lookup_empty. discriminate.
Qed.

(** X21. A task the registry has lost keeps firing: once a task is running
    and no name of the scheduler's map refers to it, no sequence of calls
    (start, stop, start all, stop all) ever stops it or brings it back into
    the map. After two starts in a row the first task is in that position. *)
Theorem leaked_task_runs_forever (st : Scheduler.State) (h : nat)
    (rs : list Scheduler.Request) :
  Scheduler.task_running h st = true ->
  (forall name, Scheduler.jobs st !! name <> Some h) ->
  Scheduler.task_running h (Scheduler.serve_all rs st) = true /\
  (forall name, Scheduler.jobs (Scheduler.serve_all rs st) !! name <> Some h).
Proof.
  revert st. induction rs as [|r rs IH]; intros st Hrun Hleak; [split; assumption|].
  unfold Scheduler.serve_all. cbn [foldl].
  destruct (serve_keeps_leak st h r Hrun Hleak) as [Hrun' Hleak'].
  exact (IH _ Hrun' Hleak').
Qed.

Lemma leaked_task_runs_forever_witness :
  Scheduler.task_running 0
    (Scheduler.serve_all
       [Scheduler.StopDaily; Scheduler.StopAll; Scheduler.StartAll; Scheduler.StopAll]
       (Scheduler.serve_all [Scheduler.StartDaily; Scheduler.StartDaily]
          (Scheduler.init None)))
  = true.
Proof.
  apply (leaked_task_runs_forever
           (Scheduler.serve_all [Scheduler.StartDaily; Scheduler.StartDaily]
              (Scheduler.init None))
           0 [Scheduler.StopDaily; Scheduler.StopAll; Scheduler.StartAll; Scheduler.StopAll]).
  - reflexivity.
  - intros name. cbn.
    destruct (decide (name = "dailyAutoDetection")) as [->|Hn].
    + rewrite lookup_insert_eq. discriminate.
    + rewrite !lookup_insert_ne by congruence. rewrite lookup_empty. discriminate.
Defined.

Lemma serve_all_app (rs1 rs2 : list Scheduler.Request) (st : Scheduler.State) :
  Scheduler.serve_all (rs1 ++ rs2) st
  = Scheduler.serve_all rs2 (Scheduler.serve_all rs1 st).
Proof. unfold Scheduler.serve_all. apply foldl_app. Qed.

Lemma starts_from_init (TIMEZONE : option string) (n : nat) :
  Scheduler.jobs (Scheduler.serve_all (replicate (S n) Scheduler.StartDaily)
                    (Scheduler.init TIMEZONE))
  = {[ "dailyAutoDetection" := n ]} /\
  length (Scheduler.tasks (Scheduler.serve_all (replicate (S n) Scheduler.StartDaily)
                             (Scheduler.init TIMEZONE))) = S n /\
  Scheduler.active_registrations
    (Scheduler.serve_all (replicate (S n) Scheduler.StartDaily) (Scheduler.init TIMEZONE))
  = S n.
Proof.
  induction n as [|n (IHj & IHl & IHa)].
  { repeat split. }
  rewrite replicate_S_end, serve_all_app.
  set (st := Scheduler.serve_all (replicate (S n) Scheduler.StartDaily)
               (Scheduler.init TIMEZONE)) in *.
  unfold Scheduler.serve_all. cbn [foldl Scheduler.serve]. split; [|split].
  - unfold Scheduler.startDailyAutoDetection, Scheduler.cron_schedule, Scheduler.task_start.
    cbn [snd Scheduler.jobs]. rewrite IHj, IHl. apply insert_singleton_eq.
  - unfold Scheduler.startDailyAutoDetection, Scheduler.cron_schedule, Scheduler.task_start.
    cbn [snd Scheduler.tasks]. rewrite length_alter, length_app, IHl. cbn. lia.
  - pose proof (start_adds_registration st) as H. cbn [Scheduler.step] in H.
    rewrite H, IHa. reflexivity.
Qed.

(** X22. The status reports the registry, not the tasks: after any calls,
    [dailyAutoDetectionActive] and [nextRun] only tell whether the last call
    was a start or a stop. After n + 1 starts in a row on a fresh scheduler
    the status lists the single job 'dailyAutoDetection' while n + 1 tasks
    are running. *)
Theorem status_reports_last_call (st : Scheduler.State) (rs : list Scheduler.Request)
    (r : Scheduler.Request) (TIMEZONE : option string) (n : nat) :
  let started := match r with
                 | Scheduler.StartDaily | Scheduler.StartAll => true
                 | Scheduler.StopDaily | Scheduler.StopAll => false
                 end in
  let status := Scheduler.getSchedulerStatus (Scheduler.serve_all (rs ++ [r]) st) in
  Scheduler.status_dailyAutoDetectionActive status = started /\
  Scheduler.nextRun status
  = (if started then "Daily at 10:00 AM Bangkok time" else "Not scheduled") /\
  let st' := Scheduler.serve_all (replicate (S n) Scheduler.StartDaily)
               (Scheduler.init TIMEZONE) in
  Scheduler.activeJobs (Scheduler.getSchedulerStatus st') = ["dailyAutoDetection"] /\
  Scheduler.active_registrations st' = S n.
Proof.
  cbv zeta.
  assert (Hactive :
    Scheduler.dailyAutoDetectionActive (Scheduler.serve_all (rs ++ [r]) st)
    = match r with
      | Scheduler.StartDaily | Scheduler.StartAll => true
      | Scheduler.StopDaily | Scheduler.StopAll => false
      end).
  { rewrite serve_all_app. set (st0 := Scheduler.serve_all rs st).
    unfold Scheduler.serve_all. cbn [foldl]. unfold Scheduler.dailyAutoDetectionActive.
    destruct r; cbn [Scheduler.serve].
    - apply bool_decide_eq_true. cbn. rewrite lookup_insert_eq. eexists. reflexivity.
    - apply (stop_clears_registry st0).
    - apply bool_decide_eq_true. cbn. rewrite lookup_insert_eq. eexists. reflexivity.
    - apply bool_decide_eq_false. cbn. rewrite lookup_empty. intros [? ?]. discriminate. }
  unfold Scheduler.getSchedulerStatus.
  cbn [Scheduler.status_dailyAutoDetectionActive Scheduler.nextRun Scheduler.activeJobs].
  rewrite Hactive. split; [reflexivity|]. split; [reflexivity|].
  destruct (starts_from_init TIMEZONE n) as (Hj & _ & Ha).
  rewrite Hj, Ha. split; [|reflexivity].
  rewrite map_to_list_singleton. reflexivity.
Qed.

(** ** From the sync to the detector *)

Lemma upsert_id_not_empty (jid : option string) (events : gmap string Event) :
  events !! "" = None -> upsert_id jid events <> "".
Proof.
  intros Hnone. unfold upsert_id.
  destruct (existing_event jid events) as [[k e]|] eqn:Ex.
  - destruct (existing_event_Some _ _ _ _ Ex) as [Hk _]. intros ->. congruence.
  - intros Hfresh.
    pose proof (is_fresh (dom events ∪ {[""]})) as Hnot.
    apply Hnot. rewrite Hfresh. apply elem_of_union_r, elem_of_singleton. reflexivity.
Qed.

Lemma team_key_truthy (host : Host) (t : option string) (cid : string) :
  team_calendar (calendarIds host) t = Some cid -> Js.truthy t = true.
Proof.
  destruct t as [t|]; [|discriminate].
  unfold team_calendar, calendarIds. cbn [find fst Js.template default from_option id].
  destruct (String.eqb_spec "ทีม A" t) as [<-|_]; [reflexivity|].
  destruct (String.eqb_spec "ทีม B" t) as [<-|_]; [reflexivity|].
  destruct (String.eqb_spec "นัดคิวใหม่" t) as [<-|_]; [reflexivity|].
  destruct (String.eqb_spec "เสนอราคา" t) as [<-|_]; [reflexivity|].
  discriminate.
Qed.

(** X23. From the sync to the detector: for a job with a single date and
    times that validate, whose team is a key of the calendar table and that
    is the first row with its id in a sheet without a [created_date] column
    (the documented header), when both services answer and the queue calendar
    holds no event under the empty id, a sync stores the event in the queue
    calendar and writes its id into the [eventId] cell of the job's row, the
    event's title carries the job id, and a check of the row right after
    finds the job linked: 'No changes detected' after one lookup. *)
Theorem sync_then_detect_linked (host : Host) (job : Job) (cid j : string) (w : World)
    (c : Calendar) (i : nat) :
  team_calendar (calendarIds host) (job !! "team") = Some cid ->
  cid <> "" ->
  is_range job = false ->
  Js.truthy (job !! "date") = true ->
  job !! "job_id" = Some j ->
  is_Some (Date_parse host (startDateTimeStr job)) ->
  is_Some (Date_parse host (endDateTimeStr job)) ->
  w_calendar_faults w = [] ->
  w_sheets_faults w = [] ->
  find_calendar cid (w_calendars w) = Some c ->
  cal_events c !! "" = None ->
  no_created_date (w_sheet w) ->
  list_find (fun r : Job => r !! "job_id" = Some j) (w_sheet w) = Some (i, job) ->
  exists ev w1,
    syncJobToCalendar host job w = (Ok (SyncEvent ev), w1) /\
    w_sheet w1 = alter (<["eventId" := ev.1]>) i (w_sheet w) /\
    events_of cid w1 !! ev.1 = Some ev.2 /\
    has_job_id (Some j) ev = true /\
    processJobAutoDetection host (<["eventId" := ev.1]> job) w1
    = (Ok (not_processed "No changes detected"), record (Call "calendar.events.get") w1).
Proof.
  intros Hteam Hcid Hrange Hdate Hj [st Hst] [en Hen] Hcf Hsf Hc Hnone Hrows Hfind.
  assert (Hteam' : team_calendar (calendarIds host) (repairTeam (job !! "team")) = Some cid).
  { destruct (job !! "team") as [t|] eqn:Et; [|exact Hteam].
    rewrite (team_key_not_repaired host t cid Hteam). exact Hteam. }
  set (id := upsert_id (Some j) (cal_events c)).
  set (ev := composeEvent job st en).
  assert (Hid : id <> "") by (apply upsert_id_not_empty; exact Hnone).
  (* the run of createSingleDateEvent, step by step *)
  assert (Hrun : exists w1,
    createSingleDateEvent host job cid w = (Ok (Some (id, ev)), w1) /\
    w_sheet w1 = alter (<["eventId" := id]>) i (w_sheet w) /\
    w_calendars w1 = alter_calendar cid (<[id := ev]>) (w_calendars w) /\
    w_calendar_faults w1 = []).
  { unfold createSingleDateEvent. rewrite Hdate, Hst, Hen. cbn [negb]. rewrite Hj.
    fold ev.
    match goal with
    | |- context [bind (warn_unparsed _) (fun _ => bind (warn_unparsed _) (fun _ => ?k))] =>
        destruct (warn_times_run job k w)
          as (w0 & -> & (Hsh0 & Hc0 & Hsf0 & Hcf0 & _ & _))
    end.
    rewrite <- Hc0 in Hc. rewrite <- Hcf0 in Hcf.
    destruct (upsert_ok cid (job !! "job_id") ev w0 c Hcf Hc)
      as (w1 & Hup & Hcal1 & Hcf1 & (Hsh1 & Hsf1 & _)).
    rewrite Hj in Hup, Hcal1. fold id in Hup, Hcal1.
    erewrite bind_Ok by exact Hup.
    destruct (updateJobEventId_ok host (Some j) id w1 i job)
      as (w2 & Hwb & Hsh2 & _ & _ & Hcal2).
    { rewrite Hsf1, Hsf0. exact Hsf. }
    { rewrite Hsh1, Hsh0. exact Hrows. }
    { rewrite Hsh1, Hsh0. exact Hfind. }
    exists w2. split.
    - erewrite bind_Ok; [reflexivity|].
      unfold write_back. cbn [fst].
      destruct (String.eqb_spec id "") as [E|_]; [contradiction|]. cbn [negb].
      erewrite try_catch_Ok; [reflexivity|].
      erewrite bind_Ok by exact Hwb. reflexivity.
    - split; [rewrite Hsh2, Hsh1, Hsh0; reflexivity|].
      split; [rewrite Hcal2, Hcal1, Hc0; reflexivity|].
      pose proof (preserves_updateJobEventId host calendar_side_kept (Some j) id w1) as Hk.
      rewrite Hwb in Hk. destruct Hk as [_ Hk]. cbn in Hk. rewrite Hk. exact Hcf1. }
  destruct Hrun as (w1 & Hsync & Hsheet1 & Hcal1 & Hcf1).
  assert (Hc1 : find_calendar cid (w_calendars w1)
                = Some {| cal_id := cal_id c; cal_summary := cal_summary c;
                          cal_events := <[id := ev]> (cal_events c) |}).
  { rewrite Hcal1. apply find_calendar_alter. exact Hc. }
  exists (id, ev), w1. split; [|split; [exact Hsheet1|split; [|split]]].
  - rewrite (syncJobToCalendar_single host job cid) by assumption. rewrite Hsync. reflexivity.
  - unfold events_of. rewrite Hc1. apply lookup_insert_eq.
  - subst ev. rewrite <- Hj. apply composeEvent_has_job_id.
  - cbn [fst].
    eapply (processJobAutoDetection_linked host _ cid id w1);
      [|exact Hcf1|exact Hc1|apply lookup_insert_eq].
    unfold monitored. lookup_field.
    split; [|split; [exact Hid|split; [|split; [exact Hteam | exact Hcid]]]].
    + unfold Js.or_prop, Js.truthy.
      destruct (String.eqb_spec id "") as [E|_]; [contradiction | reflexivity].
    + apply (team_key_truthy host _ cid Hteam).
Qed.

Lemma sync_then_detect_linked_witness :
  exists ev w1,
    syncJobToCalendar example_host example_job
      (example_world [example_job] [empty_calendar "queue-a@group.calendar" "Queue A"])
    = (Ok (SyncEvent ev), w1) /\
    w_sheet w1 = [<["eventId" := ev.1]> example_job] /\
    (processJobAutoDetection example_host (<["eventId" := ev.1]> example_job) w1).1
    = Ok (not_processed "No changes detected").
Proof.
  destruct (sync_then_detect_linked example_host example_job "queue-a@group.calendar"
              "JOB-000001"
              (example_world [example_job] [empty_calendar "queue-a@group.calendar" "Queue A"])
              (empty_calendar "queue-a@group.calendar" "Queue A") 0)
    as (ev & w1 & Hsync & Hsheet & _ & _ & Hcheck).
  - reflexivity.
  - discriminate.
  - reflexivity.
  - reflexivity.
  - reflexivity.
  - apply is_Some_by_eval. vm_compute. reflexivity.
  - apply is_Some_by_eval. vm_compute. reflexivity.
  - reflexivity.
  - reflexivity.
  - reflexivity.
  - reflexivity.
  - repeat constructor.
  - vm_compute. reflexivity.
  - exists ev, w1. split; [exact Hsync|]. split; [exact Hsheet|]. rewrite Hcheck. reflexivity.
Defined.

(** ** The next job id is a new one *)

Lemma list_of_string_app (a b : string) :
  String.list_ascii_of_string (a +:+ b)
  = String.list_ascii_of_string a ++ String.list_ascii_of_string b.
Proof.
  induction a as [|c a IH]; [reflexivity|].
  change (String c a +:+ b) with (String c (a +:+ b)). cbn. rewrite IH. reflexivity.
Qed.

Lemma pretty_N_char_digit (d : N) :
  (d < 10)%N ->
  JsDate.digit_val (pretty_N_char d) = Some (Z.of_N d) /\ Js.is_digit (pretty_N_char d) = true.
Proof.
  intros Hd.
  assert (H : (d = 0 \/ d = 1 \/ d = 2 \/ d = 3 \/ d = 4 \/ d = 5 \/ d = 6 \/ d = 7 \/ d = 8
               \/ d = 9)%N) by lia.
  repeat (destruct H as [-> | H]; [split; reflexivity|]). subst d. split; reflexivity.
Qed.

Lemma pretty_N_go_value (x : N) :
  forall (s : string) (acc : Z),
  exists k : Z,
    (0 <= k)%Z /\
    JsDate.number_of acc (String.list_ascii_of_string (pretty_N_go x s))
    = JsDate.number_of (acc * 10 ^ k + Z.of_N x) (String.list_ascii_of_string s) /\
    (all_digits (String.list_ascii_of_string s) = true ->
     all_digits (String.list_ascii_of_string (pretty_N_go x s)) = true).
Proof.
  induction (N.lt_wf_0 x) as [x _ IH]. intros s acc.
  destruct (N.eq_dec x 0) as [->|Hx].
  { exists 0%Z. rewrite pretty_N_go_0. split; [lia|]. split; [|auto].
    f_equal. lia. }
  assert (Hpos : (0 < x)%N) by lia.
  rewrite (pretty_N_go_step x s Hpos).
  destruct (IH (x `div` 10)%N (N.div_lt x 10 Hpos eq_refl)
              (String (pretty_N_char (x `mod` 10)) s) acc) as (k & Hk & Hval & Hdig).
  destruct (pretty_N_char_digit (x `mod` 10)%N) as [Hd1 Hd2]; [apply N.mod_lt; lia|].
  exists (k + 1)%Z. split; [lia|]. split.
  - rewrite Hval. cbn [String.list_ascii_of_string JsDate.number_of]. rewrite Hd1.
    f_equal. rewrite Z.pow_add_r by lia.
    rewrite N2Z.inj_div, N2Z.inj_mod. change (Z.of_N 10) with 10%Z.
    pose proof (Z.div_mod (Z.of_N x) 10 ltac:(lia)). lia.
  - intros Hs. apply Hdig. cbn [String.list_ascii_of_string all_digits].
    rewrite Hd2, Hs. reflexivity.
Qed.

Lemma zeros_value (n : nat) (l : list ascii) :
  JsDate.number_of 0 (String.list_ascii_of_string (Js.repeat_char "0" n) ++ l)
  = JsDate.number_of 0 l /\
  (all_digits l = true ->
   all_digits (String.list_ascii_of_string (Js.repeat_char "0" n) ++ l) = true).
Proof.
  induction n as [|n [IH1 IH2]]; [split; auto|].
  cbn [Js.repeat_char String.list_ascii_of_string app JsDate.number_of all_digits].
  split; [exact IH1|]. intros H. rewrite (IH2 H). reflexivity.
Qed.

Lemma formatted_digits (n : Z) :
  (1 <= n)%Z ->
  exists c s,
    String.list_ascii_of_string (Js.padStart 6 "0" (pretty n)) = c :: s /\
    all_digits (c :: s) = true /\ JsDate.number_of 0 (c :: s) = Some n.
Proof.
  intros Hn. destruct n as [|p|p]; try lia.
  assert (Hpretty : pretty (Zpos p) = pretty_N_go (N.pos p) "") by reflexivity.
  destruct (pretty_N_go_value (N.pos p) "" 0) as (k & _ & Hval & Hdig).
  cbn [String.list_ascii_of_string JsDate.number_of all_digits] in Hval, Hdig.
  unfold Js.padStart. rewrite Hpretty, list_of_string_app.
  destruct (zeros_value (6 - String.length (pretty_N_go (N.pos p) ""))
              (String.list_ascii_of_string (pretty_N_go (N.pos p) ""))) as [Hz1 Hz2].
  rewrite Hval in Hz1. specialize (Hz2 (Hdig eq_refl)).
  change (0 * 10 ^ k + Z.of_N (N.pos p))%Z with (Z.pos p) in Hz1.
  destruct (String.list_ascii_of_string
              (Js.repeat_char "0" (6 - String.length (pretty_N_go (N.pos p) "")))
            ++ String.list_ascii_of_string (pretty_N_go (N.pos p) "")) as [|c s].
  - cbn in Hz1. discriminate Hz1.
  - exists c, s. repeat split; assumption.
Qed.

Lemma all_digits_app (l1 l2 : list ascii) :
  all_digits (l1 ++ l2) = all_digits l1 && all_digits l2.
Proof.
  induction l1 as [|c l1 IH]; [reflexivity|]. cbn. rewrite IH, andb_assoc. reflexivity.
Qed.

Lemma all_digits_rev (l : list ascii) : all_digits (rev l) = all_digits l.
Proof.
  induction l as [|c l IH]; [reflexivity|].
  cbn [rev all_digits]. rewrite all_digits_app, IH. cbn. rewrite andb_true_r, andb_comm.
  reflexivity.
Qed.

Lemma trim_job_id (c : ascii) (s : list ascii) :
  all_digits (c :: s) = true ->
  Js.trim (String "J" (String "O" (String "B" (String "-"
             (String.string_of_list_ascii (c :: s))))))
  = String "J" (String "O" (String "B" (String "-" (String.string_of_list_ascii (c :: s))))).
Proof.
  intros Hd. unfold Js.trim.
  set (l := "J"%char :: "O"%char :: "B"%char :: "-"%char :: c :: s).
  assert (Hl : String.list_ascii_of_string
                 (String "J" (String "O" (String "B" (String "-"
                    (String.string_of_list_ascii (c :: s)))))) = l).
  { cbn [String.list_ascii_of_string]. rewrite String.list_ascii_of_string_of_list_ascii.
    reflexivity. }
  rewrite Hl.
  assert (Hstart : Js.trimStart_bytes l = l) by reflexivity.
  rewrite Hstart.
  assert (Hend : Js.trimEnd_bytes l = l).
  { unfold Js.trimEnd_bytes.
    assert (Hrev : exists d t, rev l = d :: t /\ Js.is_digit d = true).
    { subst l. change ("J"%char :: "O"%char :: "B"%char :: "-"%char :: c :: s)
        with (["J"%char; "O"%char; "B"%char; "-"%char] ++ (c :: s)).
      rewrite rev_app_distr.
      pose proof (all_digits_rev (c :: s)) as Hr. rewrite Hd in Hr.
      destruct (rev (c :: s)) as [|d t] eqn:E.
      - apply (f_equal (@length ascii)) in E. rewrite length_rev in E. discriminate E.
      - exists d. eexists. split; [reflexivity|].
        cbn in Hr. apply andb_prop in Hr as [Hr _]. exact Hr. }
    destruct Hrev as (d & t & Hrev & Hdig). rewrite Hrev.
    assert (Hlen : length l = S (length t)).
    { apply (f_equal (@length ascii)) in Hrev. rewrite length_rev in Hrev. exact Hrev. }
    rewrite Hlen. cbn [Js.drop_leading]. rewrite (proj2 (strip_any_digit d t Hdig)).
    rewrite <- Hrev. apply rev_involutive. }
  rewrite Hend. subst l. cbn [String.string_of_list_ascii]. reflexivity.
Qed.

Lemma id_number_formatted (n : Z) (job : Job) :
  (1 <= n)%Z ->
  job !! "job_id" = Some (format_job_id n) ->
  id_number job = Some n.
Proof.
  intros Hn Hid. destruct (formatted_digits n Hn) as (c & s & Hlist & Hdig & Hval).
  assert (Hfmt : format_job_id n
                 = String "J" (String "O" (String "B" (String "-"
                     (String.string_of_list_ascii (c :: s)))))).
  { unfold format_job_id. rewrite <- Hlist, String.string_of_list_ascii_of_string.
    reflexivity. }
  rewrite Hfmt in Hid. unfold id_number. rewrite Hid. cbn [default from_option id].
  rewrite (trim_job_id c s Hdig).
  assert (Hguard :
    Js.truthy (Some (String "J" (String "O" (String "B" (String "-"
                 (String.string_of_list_ascii (c :: s)))))))
    && negb (String.eqb (String "J" (String "O" (String "B" (String "-"
                           (String.string_of_list_ascii (c :: s)))))) "")
    && negb (String.eqb (String "J" (String "O" (String "B" (String "-"
                           (String.string_of_list_ascii (c :: s)))))) "/")
    && Js.startsWith (String "J" (String "O" (String "B" (String "-"
                        (String.string_of_list_ascii (c :: s)))))) "JOB-" = true).
  { cbn [String.string_of_list_ascii]. reflexivity. }
  rewrite Hguard.
  change (Js.replace_first "JOB-" ""
            (String "J" (String "O" (String "B" (String "-"
               (String.string_of_list_ascii (c :: s)))))))
    with (String.string_of_list_ascii (c :: s)).
  destruct (parseInt_digits c s Hdig) as [-> _]. rewrite Hval. reflexivity.
Qed.

Lemma next_max_exact_ge (maxId : Z) (job : Job) : (maxId <= next_max_exact maxId job)%Z.
Proof. unfold next_max_exact. destruct (id_number job); lia. Qed.

Lemma foldl_next_max_exact_ge (jobs : list Job) (maxId : Z) :
  (maxId <= foldl next_max_exact maxId jobs)%Z.
Proof.
  revert maxId. induction jobs as [|job jobs IH]; intros maxId; cbn [foldl]; [lia|].
  pose proof (next_max_exact_ge maxId job). pose proof (IH (next_max_exact maxId job)). lia.
Qed.

Lemma foldl_next_max_exact_bounds (jobs : list Job) (maxId n : Z) (job : Job) :
  (1 <= n)%Z -> job ∈ jobs -> job !! "job_id" = Some (format_job_id n) ->
  (n <= foldl next_max_exact maxId jobs)%Z.
Proof.
  intros Hn Hin Hid. revert maxId.
  induction jobs as [|x jobs IH]; intros maxId; [apply elem_of_nil in Hin as []|].
  cbn [foldl]. apply elem_of_cons in Hin as [<- | Hin].
  - unfold next_max_exact at 2. rewrite (id_number_formatted n job Hn Hid).
    pose proof (foldl_next_max_exact_ge jobs (Z.max maxId n)). lia.
  - apply IH. exact Hin.
Qed.

(** The number after 2^53 is no double: [maxId + 1] rounds back to 2^53, and
    the id of the row that holds it is returned again. *)
Example next_job_id_beyond_safe_integers :
  (getNextJobId example_host
     (example_world [ job_of [("job_id", "JOB-9007199254740992")] ] [])).1
  = Ok "JOB-9007199254740992".
Proof. vm_compute. reflexivity. Qed.

(** X24. The id [getNextJobId] returns is new while the numbers of the ids
    stay below 2^53 (the integers a JavaScript number holds exactly): when
    the sheet answers, no row of the sheet has the returned id as its job
    id, whether the ids of the rows are well formed, malformed, empty or
    missing. *)
Theorem next_job_id_is_new (host : Host) (w : World) :
  w_sheets_faults w = [] ->
  safe_ids (w_sheet w) ->
  exists jid,
    getNextJobId host w = (Ok jid, record (Call "sheets.values.get") w) /\
    forall row : Job, row ∈ w_sheet w -> row !! "job_id" <> Some jid.
Proof.
  intros Hf Hsafe.
  set (jobs := listing host (w_sheet w)).
  assert (Hsafe' : safe_ids jobs).
  { apply (safe_ids_perm (w_sheet w)); [|exact Hsafe].
    subst jobs. symmetry. apply listing_perm. }
  destruct (foldl_next_max_safe jobs 0 Hsafe' ltac:(rewrite pow_2_53; lia)) as [Hfold Hb].
  exists (format_job_id (foldl next_max_exact 0%Z jobs + 1)). split.
  - unfold getNextJobId. erewrite try_catch_Ok; [reflexivity|].
    erewrite bind_Ok by (apply getAllJobs_ok; exact Hf).
    fold jobs. cbv zeta. rewrite Hfold, (Number_toString_add1_safe _ Hb). reflexivity.
  - intros row Hin Hid.
    assert (Hin' : row ∈ jobs) by (subst jobs; rewrite listing_perm; exact Hin).
    pose proof (foldl_next_max_exact_bounds jobs 0 (foldl next_max_exact 0%Z jobs + 1) row
                  ltac:(lia) Hin' Hid).
    lia.
Qed.

Lemma example_ids_safe :
  safe_ids [ job_of [("job_id", "JOB-000005x")]; job_of [("job_id", "JOB-7")];
             job_of [("job_id", "/")]; job_of [("team", "A")] ].
Proof.
  unfold safe_ids. repeat apply Forall_cons_2; [..|apply Forall_nil_2];
    intros n Hn; vm_compute in Hn; try discriminate Hn; injection Hn as <-; reflexivity.
Defined.

Lemma next_job_id_is_new_witness :
  exists jid,
    (getNextJobId example_host
       (example_world [ job_of [("job_id", "JOB-000005x")]; job_of [("job_id", "JOB-7")];
                        job_of [("job_id", "/")]; job_of [("team", "A")] ] [])).1
    = Ok jid /\
    jid <> "JOB-000005x" /\ jid <> "JOB-7" /\ jid <> "/".
Proof.
  destruct (next_job_id_is_new example_host
              (example_world [ job_of [("job_id", "JOB-000005x")]; job_of [("job_id", "JOB-7")];
                               job_of [("job_id", "/")]; job_of [("team", "A")] ] [])
              eq_refl example_ids_safe) as (jid & Hrun & Hnew).
  exists jid. split; [rewrite Hrun; reflexivity|].
  repeat split; intros ->.
  - apply (Hnew (job_of [("job_id", "JOB-000005x")])); [|reflexivity].
    cbn. apply elem_of_cons. left. reflexivity.
  - apply (Hnew (job_of [("job_id", "JOB-7")])); [|reflexivity].
    cbn. apply elem_of_cons. right. apply elem_of_cons. left. reflexivity.
  - apply (Hnew (job_of [("job_id", "/")])); [|reflexivity].
    cbn. do 2 (apply elem_of_cons; right). apply elem_of_cons. left. reflexivity.
Defined.

(** ** The canonical form of a time *)

Lemma digit_not_colon (c : ascii) :
  Js.is_digit c = true -> Ascii.eqb c ":" = false /\ Ascii.eqb ":" c = false.
Proof. intros H. digit_split c H; split; reflexivity. Qed.

Lemma colon_not_digit : Js.is_digit ":" = false.
Proof. reflexivity. Qed.

Ltac use_digits H :=
  repeat match goal with
         | Hd : Js.is_digit ?x = true |- _ =>
             first [ rewrite Hd in H
                   | rewrite (proj1 (digit_not_colon x Hd)) in H
                   | rewrite (proj2 (digit_not_colon x Hd)) in H ]
         end.

Ltac settle H :=
  repeat (progress (cbv -[Js.is_digit Ascii.eqb] in H;
                    rewrite ?Ascii.eqb_refl, ?colon_not_digit in H;
                    use_digits H)).

Lemma normalizeTime_canonical_form (a b c d : ascii) :
  Js.is_digit a = true -> Js.is_digit b = true ->
  Js.is_digit c = true -> Js.is_digit d = true ->
  normalizeTime (Some (String a (String b (String ":" (String c (String d ""))))))
  = Some (String a (String b (String ":" (String c (String d ""))))).
Proof.
  intros Ha Hb Hc Hd. unfold normalizeTime.
  assert (Htrim : Js.trim (String a (String b (String ":" (String c (String d "")))))
                  = String a (String b (String ":" (String c (String d ""))))).
  { unfold Js.trim, Js.trimStart_bytes, Js.trimEnd_bytes.
    cbn [String.list_ascii_of_string length Js.drop_leading].
    rewrite (proj1 (strip_any_digit a _ Ha)).
    cbn [rev app length Js.drop_leading].
    rewrite (proj2 (strip_any_digit d _ Hd)). reflexivity. }
  cbn [Js.truthy negb default from_option id String.eqb]. rewrite Htrim.
  match goal with |- ?lhs = _ => remember lhs as o eqn:Ho end.
  settle Ho. subst o. reflexivity.
Qed.

Ltac shape_facts :=
  repeat match goal with
         | H : false = true |- _ => discriminate H
         | H : _ || _ = true |- _ => apply orb_prop in H as [H|H]
         | H : _ && _ = true |- _ => apply andb_prop in H as [? H]
         | H : Ascii.eqb ":" ?x = true |- _ => apply Ascii.eqb_eq in H; subst x
         end.

(** X25. What the normaliser returns is canonical: whenever [normalizeTime]
    returns a time, the time is two digits, a colon and two digits, and
    normalising it again gives it back unchanged. (The digits are not checked
    against the clock: "25:00" is returned as it is.) *)
Theorem normalizeTime_canonical (t r : string) :
  normalizeTime (Some t) = Some r ->
  canonical_time r = true /\ normalizeTime (Some r) = Some r.
Proof.
  intros H.
  assert (Hshape : accepted_shape (Js.trim t) = true).
  { destruct (accepted_shape (Js.trim t)) eqn:E; [reflexivity|].
    rewrite (normalizeTime_rejects t E) in H. discriminate H. }
  unfold normalizeTime in H. destruct (negb (Js.truthy (Some t))); [discriminate H|].
  change (default "" (Some t)) with t in H.
  set (s := Js.trim t) in *. clearbody s. clear t.
  assert (Hzero : Js.is_digit "0" = true) by reflexivity.
  unfold accepted_shape, accepted_shapes in Hshape.
  destruct s as [|a [|b [|c [|d [|e [|f s]]]]]];
    cbn -[Js.is_digit Ascii.eqb] in Hshape; shape_facts;
    settle H; injection H as <-;
    (split;
     [ unfold canonical_time; cbn -[Js.is_digit Ascii.eqb];
       repeat match goal with
              | Hd : Js.is_digit ?x = true |- _ => rewrite Hd; clear Hd
              end;
       rewrite ?Ascii.eqb_refl; reflexivity
     | apply normalizeTime_canonical_form; first [assumption | reflexivity] ]).
Qed.

Lemma normalizeTime_canonical_witness :
  canonical_time "09:05" = true /\ normalizeTime (Some "09:05") = Some "09:05".
Proof. apply (normalizeTime_canonical " 905 " "09:05"). reflexivity. Defined.

(** The digits are kept as they are, whatever hour they write. *)
Example normalizeTime_keeps_any_digits :
  normalizeTime (Some "2500") = Some "25:00" /\ normalizeTime (Some "99:99") = Some "99:99".
Proof. split; reflexivity. Qed.
